(* ===== verification/_CoqProject ===== *)
-Q . S2P
Prelude.v
PyRuntime.v
Sha256.v
Merkle.v
MerkleTree.v
MerkleInclusion.v
MerkleConsistency.v
MerkleConsistencyProof.v
Utf8.v
EncodingRule.v
EncodingRuleProof.v
Cbor.v
Json.v
PyJson.v
JsonLoads.v
Base64.v
PyText.v
PyIo.v
Regex.v
Release.v
LintTree.v
Url.v
LeakLint.v
HostnameLint.v
LintProof.v
LintWitness.v
NeutralityScan.v
NeutralityProof.v
NeutralityWitness.v
Mmr.v
MmrShape.v
MmrTree.v
MmrInclusion.v
MmrConsistency.v
MmrRange.v
MmrWire.v
Crypto.v
CoseSign1.v
CoseSign1Proof.v
CoseRoundTrip.v
CborInstance.v
JsonProof.v
JsonLoadsProof.v
ReleaseProof.v
ReleaseWitness.v
MachineMandate.v
MandateProof.v
Aac.v
AacProof.v
Profiles.v
Statement.v
StatementProof.v
Ritual.v
RitualProof.v
Receipt.v
ReceiptProof.v
ReceiptCcf.v
ReceiptRoundTrip.v
Cli.v
CliProof.v
Hosted.v
Vectors.v
VectorsProof.v
VectorGen.v
VectorGenDisk.v
VectorGenProof.v
VectorGenWitness.v
HostedProof.v
HostedRoutes.v
HostedRoutesProof.v
Checkpoint.v
CheckpointProof.v
CheckpointHistory.v
CoseWitness.v
CliWitness.v
ReceiptWitness.v
CheckpointWitness.v
HostedWitness.v
