(* ===== verification/Prelude.v ===== *)
(** * Verification of scitt-cose

    scitt-cose verifies SCITT Signed Statements (COSE_Sign1, RFC 9052) and
    COSE Receipts (RFC 9942) over RFC 9162 Merkle trees, keeps a checkpointed
    local log over a Merkle mountain range, and serves a hosted verifier that
    lays the capsules and payloads of several profiles out for a reader.  This
    library models the Python of [src/scitt_cose/] and [src/hosted_profiles/],
    of the gates of [src/.github/] that guard what is published, and of the
    generator of the published test vectors, function by function, and proves
    what they promise.

    ** How the program fits together

    - [scitt_cose/merkle.py] is the tree: roots, inclusion and consistency.
    - [_encoding_rule.py] is a walk over raw octets that admits one CBOR
      encoding per item; [cose_sign1.py] signs and verifies messages and
      [statement.py] builds and parses the statements inside them.
    - [receipt.py] mints and verifies receipts: it applies the encoding rule,
      folds the inclusion proof with [merkle.py] (or the CCF walk), and hands
      the root to [verify_sign1] of [cose_sign1.py].
    - [cll.py] is the mountain range with its three proofs and the checkpoints
      that bind them, anchored by a receipt of [receipt.py].
    - [cli.py] and [vectors.py] are the command line over the two verifiers.
    - [hosted_profiles/machine_mandate.py] and [aac.py] parse payloads into a
      digest graph and run the ritual over a bundle of capsules;
      [hosted.py] verifies requests, proxies an anchor, counts visits behind a
      rate gate, and routes two HTTP front ends to all of it.
    - [.github/neutrality_scan.py] keeps a secret list of terms out of the
      repository, on strangers' pull requests too, and [.github/release.py]
      raises versions and decides which tags may be published;
      [.github/leak_lint.py] and [.github/hostname_lint.py] look for internal
      text and retired hosts line by line in the committed tree.
    - [scripts/generate_test_vectors.py] mints the conformance vectors: it
      drives [statement.py] and [receipt.py], writes what they build with its
      expected verdicts, extends the manifest and the digest list, and lets
      the check of [vectors.py] judge the result.

    ** Files

    - this file, [PyRuntime], [Utf8], [Json], [JsonProof], [PyJson],
      [JsonLoads], [JsonLoadsProof], [Base64]: outcomes of fallible code (a
      value or an exception), octets, hexadecimal text, integers, the
      exceptions the sources raise, dynamically typed values, UTF-8,
      [json.dumps] and [json.loads], and base64.
    - [Sha256], [Cbor], [Crypto]: the interfaces to [hashlib], [cbor2] and
      [cryptography] as type classes, with the laws the sources rely on;
      [Sha256] ends with the function of FIPS 180-4, [CborInstance] holds a
      codec for the items of the encoding rule and a toy signature scheme that
      satisfy the laws, so that no theorem rests on an empty hypothesis.
    - [Merkle] (operations of [merkle.py]), [MerkleTree], [MerkleInclusion],
      [MerkleConsistency], [MerkleConsistencyProof].
    - [EncodingRule], [EncodingRuleProof] ([_encoding_rule.py]).
    - [CoseSign1], [CoseSign1Proof], [CoseRoundTrip] ([cose_sign1.py]);
      [Statement], [StatementProof] ([statement.py]); [CoseWitness].
    - [Receipt], [ReceiptProof], [ReceiptCcf], [ReceiptRoundTrip]
      ([receipt.py]); [ReceiptWitness].
    - [Mmr], [MmrShape], [MmrTree], [MmrInclusion], [MmrConsistency],
      [MmrRange], [MmrWire], [Checkpoint], [CheckpointProof],
      [CheckpointHistory] ([cll.py]); [CheckpointWitness].
    - [Cli], [CliProof] ([cli.py]) and [Vectors], [VectorsProof]
      ([vectors.py]); [CliWitness].
    - [MachineMandate], [MandateProof] ([machine_mandate.py]); [Aac],
      [AacProof], [Ritual], [RitualProof] ([aac.py]); [Profiles] (the payload
      detection both take part in).
    - [Hosted], [HostedProof], [HostedRoutes], [HostedRoutesProof]
      ([hosted.py]); [HostedWitness].
    - [PyText] (text as code points, paths, decoding with an error handler),
      [Regex] (regular expressions: a matcher that tries what the [re] module
      tries in its order, the language it decides, [finditer] and [sub]);
      [NeutralityScan], [NeutralityProof] ([neutrality_scan.py]);
      [NeutralityWitness].
    - [LintTree] (the tree both lints read), [Url] ([urlsplit]), [LeakLint]
      ([leak_lint.py]), [HostnameLint] ([hostname_lint.py]), [LintProof];
      [LintWitness].
    - [PyIo] (programs that change a state and may
      raise), [Release], [ReleaseProof] ([release.py]); [ReleaseWitness].
    - [VectorGen] ([generate_test_vectors.py]), [VectorGenDisk] (what it does
      to the disk), [VectorGenProof] (what the runner says of what it minted);
      [VectorGenWitness].

    The first file named for a source holds its definitions, one per function
    under the function's name, a loop beside it; the files after it hold the
    theorems.  The [Witness] files apply them to concrete messages, logs and
    requests.

    ** What the theorems show

    - Trees: [merkle_root] is the Merkle tree hash of RFC 6962; honest
      inclusion and consistency proofs verify, and accepted ones open the
      claimed entry or make the old tree a prefix, up to a collision exhibited
      among the inputs hashed.  Soundness of consistency needs proof
      nodes of 32 octets, which the code does not check: a forged proof is
      exhibited.  From size 0 the code accepts the empty proof between any
      two roots, and the theorem says so.
    - Encoding: [check] accepts exactly the encodings of a grammar, one per
      item.
    - Messages: acceptance implies a strictly decoded message whose signature
      verifies over the [Sig_structure], which fixes its parts; critical
      headers are checked exactly; only [CoseError] escapes, but for the
      [ValueError] of a refusal that would name a header integer of more than
      4300 digits; identity fields of a statement are surfaced only after
      verification; signing, building and attaching read back, the extra
      claims of a statement replacing its issuer and subject when they carry
      their labels.
    - Receipts: the verifier is total and its result has one of the documented
      shapes; an accepted receipt is signed and opens an entry of the log whose
      root it carries, in both proof formats, up to a collision among inputs
      computed from the receipt and the log; minted receipts verify.
    - Mountain range and checkpoints: position arithmetic, soundness and
      completeness of the three proofs, what a checkpoint digest binds, and
      what an accepted leaf, chain or range says of the log.  A client that
      only moves by accepted chain steps is never shown two histories.  The
      range verifier does not compare sizes: the consequence is exhibited.
    - Profiles: views are well formed, disclosures bind payloads, gaps and
      stages are exact, flags follow citations, and the walk along them, watched
      for more turns than there are records, has always ended.
    - Command line and conformance runner: exit status 0 means that what was
      asked was verified, and that every vector, invalid ones included, got
      the expected verdict.  The command line ends with 0, 1 or 2 but for two
      exceptions, both about a statement that is not verified: the
      [ValueError] above, and a reported value that cannot be printed, such as
      a claim under a byte-string key with [--json] ([CliWitness]).
    - [json.loads] terminates, and reads back what [json.dumps] writes in any
      layout of white space.
    - Vector generator: with keys that load, the happy-path vectors and the one
      of the other data structure are written without an error and the runner,
      reading them back, agrees with every published verdict; whatever happens,
      published files stay as they are and the manifest and the digests only
      grow at the end.
    - Hosted verifier: verdicts fail closed, the rate gate bounds every minute
      and refuses only under load, the two front ends agree, and the anchor proxy's verdict is exactly that
      the receipt of the anchor's answer verifies, for the entry that answer
      names, under the key the anchor publishes; nothing ties it to the capsule.
    - Neutrality gate: a pass leaves no reserved term but under an allowed
      phrase, the output of an untrusted run is its verdict and nothing else,
      and only regular files inside the root are read.  Phrases are located in
      the lowered line, which may be longer: the consequence is exhibited.
    - Lints: status 0 exactly when no scanned line is bad, ids in brackets and
      terms included; what a lockfile's line is relieved of before the terms
      are looked for is a registry URL without user or port, its host in brackets
      or not, a hash, or a resolution, of which the text before its last [@]
      goes too, whatever it is.  Three ways past the leak lint are exhibited
      in [LintWitness].
    - Release helper: a bump raises the version in the first line of the
      first table that gives it and keeps the rest of the text, in which line
      ends are translated to LF; the packages reported as changed are exact, and a tag passes
      the check exactly when it names the manifest's version on the main branch.

    ** Fuel and bounds

    A loop that is not structural carries fuel computed from its arguments, and
    the proofs show it is never exhausted: [nbits] of the argument for loops
    that double or halve ([pow2_loop], [path_len_loop], [dec_fuel], the loops of
    [height_at] and [peaks]); [depth_fuel], the logarithm of the tree size, for
    the folds of audit paths, so at most 62 with [MAX_TREE_SIZE]; [mth_fuel],
    the number of entries, for the tree hash; one level per nesting allowed
    ([MAX_DEPTH]) in the encoding rule; and the walk [cites]
    of the ritual is watched for a number of turns that the caller chooses,
    an unfinished walk being a result of its own ([Ok None]); one turn more
    than there are records is enough, for each one adds a record.  Python
    integers are [Z]; the bounds the code checks (64-bit CBOR arguments,
    [MAX_TREE_SIZE], [MAX_MMR_SIZE]) are written out.  [finditer] has two turns
    per position and [phrase_spans] one, and both are shown to miss nothing; a
    repetition of [Regex] consumes text on every turn, and turns that would
    consume none add nothing to the language;
    [strip_from] and [subn_lock] consume text on every turn.  The loops of
    [json.loads] have the length of the text, and every turn consumes some of it; how deep
    it may nest is the interpreter's ([recursion_room]).

    ** Idealisations

    Text is its UTF-8 octets, a lone surrogate its three octets, which
    [str.encode] refuses, except for the gate and the lints, which compare positions and
    have text as code points; a float is the text JSON gives it; the clock of the
    rate gate counts nanoseconds as integers; an exception carries its class
    and message template, without the position a [JSONDecodeError] adds; a
    [logging] call has no effect.  Python's behaviour on floats, non-ASCII
    digits, [repr] and URL splitting is the class [PyObjects], the text of an
    object of another class in a report the class [PyText], letter case and
    word characters the class [Unicode], what [urlsplit] asks of a host in
    brackets or outside ASCII the class [NetlocChecks]; the answers of
    the network ([fetch]), the contents of files ([open_read], [read], the
    records [filesystem] of the gate and [tree] of the lints), git and the TOML reader are
    arguments.  [cbor2] decodes text as strict UTF-8 and encodes only text that
    has such octets.  The release helper's files are a map from paths to
    octets, read as strict UTF-8 with universal newlines, which [bump] changes
    step by step, also when it fails; a terminal takes any text; the vector generator's
    disk is a set of directories and a map of files under full names, and the
    keys it draws are an argument ([generate]).  What the generator prints is
    left out.

    ** Not modelled

    - [hosted.py]'s [render_*] functions, the record panel, and its HTML, CSS
      and JavaScript strings, and the JavaScript renderer of
      [machine_mandate.py]: text for a browser.  Sockets and header writing of
      the two servers.
    - [_status.py] and the two [__init__.py]: constants and re-exports.
    - The body of the neutrality gate's self-test: a test; [main] runs it when
      asked, and its outcome is an argument.  The interpreter's recursion limit
      when a report is printed.
    - The other scripts of [scripts/] (receipt-grade and mountain-range
      vectors, the fuzzer, the smoke test), [demo/] and [interop/]: they call
      the library on fixtures and print or write, no part of the verifiers.
      That the two tampered vectors are refused rests on the digest and the
      signature scheme; the runner's agreement on them is shown on a concrete
      run only.
    - [rust/], [scitt-cose-go-verify/] and [viewer/]: independent
      implementations in other languages. *)

From stdpp Require Export base list numbers strings pretty sets gmap.
From Stdlib Require Export ZArith Lia.
From Stdlib Require Export Strings.Byte.

#[global] Open Scope Z_scope.
#[export] Set Default Proof Using "Type".

(** ** Outcomes of fallible code *)

(** A computation that returns a value or raises an exception of type [E]. *)
Inductive outcome (E A : Type) : Type :=
| Ok (a : A)
| Raise (e : E).
Arguments Ok {E A} a.
Arguments Raise {E A} e.

Section outcome.
Context {E : Type}.

#[export] Instance outcome_ret : MRet (outcome E) := fun A a => Ok a.
#[export] Instance outcome_bind : MBind (outcome E) := fun A B f m =>
  match m with Ok a => f a | Raise e => Raise e end.
#[export] Instance outcome_fmap : FMap (outcome E) := fun A B f m =>
  match m with Ok a => Ok (f a) | Raise e => Raise e end.

(** [try: m except: h] for a handler that sees the exception. *)
Definition catch {A} (m : outcome E A) (h : E → outcome E A) : outcome E A :=
  match m with Ok a => Ok a | Raise e => h e end.

Definition is_ok {A} (m : outcome E A) : bool :=
  match m with Ok _ => true | Raise _ => false end.

Lemma bind_ok {A B} (m : outcome E A) (f : A → outcome E B) b :
  m ≫= f = Ok b ↔ ∃ a, m = Ok a ∧ f a = Ok b.
Proof. destruct m; cbn; split; [eauto|by intros (? & [= ->] & ?)|done|by intros (? & [=] & ?)]. Qed.

Lemma fmap_ok {A B} (m : outcome E A) (f : A → B) b :
  f <$> m = Ok b ↔ ∃ a, m = Ok a ∧ b = f a.
Proof.
  destruct m; cbn; split; [intros [= <-]; eauto|by intros (? & [= ->] & ->)|done|by intros (? & [=] & ?)].
Qed.

Lemma mapM_ok {A B} (f : A → outcome E B) l k :
  mapM f l = Ok k ↔ Forall2 (fun x y => f x = Ok y) l k.
Proof.
  revert k. induction l as [|x l IH]; intros k; cbn.
  - split; [intros [= <-]; constructor|intros H; by inversion H].
  - split.
    + intros (y & Hy & (l' & Hl & [= <-])%bind_ok)%bind_ok.
      constructor; [done|by apply IH].
    + intros H. inversion H as [|? y ? l' Hy Hl]; subst.
      rewrite Hy. cbn. apply IH in Hl. by rewrite Hl.
Qed.

Lemma mapM_ok_length {A B} (f : A → outcome E B) l k :
  mapM f l = Ok k → length k = length l.
Proof. intros H%mapM_ok. symmetry. by eapply Forall2_length. Qed.
End outcome.

(** Split every hypothesis [m ≫= f = Ok b] and [mapM]-free [Ok]-equation. *)
Ltac ok_inv :=
  repeat match goal with
  | H : (_ ≫= _) = Ok _ |- _ =>
      let a := fresh "a" in let Ha := fresh "Ha" in
      apply bind_ok in H as (a & Ha & H)
  | H : (_ <$> _) = Ok _ |- _ =>
      let a := fresh "a" in let Ha := fresh "Ha" in
      apply fmap_ok in H as (a & Ha & H)
  | H : Ok _ = Ok _ |- _ => injection H as H; try subst
  | H : mret _ = Ok _ |- _ => injection H as H; try subst
  | H : Raise _ = Ok _ |- _ => discriminate H
  | H : Ok _ = Raise _ |- _ => discriminate H
  end.

(** Case analysis on the conditionals of a hypothesis or of the goal. *)
Ltac case_if :=
  match goal with
  | |- context [if ?b then _ else _] => destruct b eqn:?
  end.
Ltac case_if_in H :=
  match type of H with
  | context [if ?b then _ else _] => destruct b eqn:?
  end.

(** ** Lists as Python lists *)

(** [l.pop()]: the last element and the list without it. *)
Definition py_pop {A} (l : list A) : option (list A * A) :=
  match reverse l with
  | [] => None
  | x :: r => Some (reverse r, x)
  end.

Lemma py_pop_snoc {A} (l : list A) x : py_pop (l ++ [x]) = Some (l, x).
Proof. unfold py_pop. by rewrite reverse_snoc, reverse_involutive. Qed.

Lemma py_pop_nil {A} : py_pop (@nil A) = None.
Proof. done. Qed.

Lemma py_pop_Some {A} (l l' : list A) x : py_pop l = Some (l', x) → l = l' ++ [x].
Proof.
  unfold py_pop. destruct (reverse l) as [|y r] eqn:E; [done|].
  intros [= <- <-]. rewrite <- (reverse_involutive l), E. by rewrite reverse_cons.
Qed.

Lemma py_pop_None {A} (l : list A) : py_pop l = None → l = [].
Proof.
  unfold py_pop. destruct (reverse l) eqn:E; [|done].
  intros _. rewrite <- (reverse_involutive l), E. done.
Qed.

(** The list from the first element that [f] refuses. *)
Fixpoint drop_while {A} (f : A → bool) (l : list A) : list A :=
  match l with x :: l' => if f x then drop_while f l' else l | [] => [] end.

(** Length of a list as a Python integer. *)
Definition zlen {A} (l : list A) : Z := Z.of_nat (length l).

Lemma zlen_nonneg {A} (l : list A) : 0 ≤ zlen l.
Proof. unfold zlen. lia. Qed.

Lemma zlen_nil {A} : zlen (@nil A) = 0.
Proof. done. Qed.

Lemma zlen_cons {A} (x : A) l : zlen (x :: l) = zlen l + 1.
Proof. unfold zlen. cbn [length]. lia. Qed.

Lemma zlen_one_elem {A} (x : A) : zlen [x] = 1.
Proof. done. Qed.

Lemma zlen_one {A} (l : list A) : zlen l = 1 → ∃ x, l = [x].
Proof. destruct l as [|x [|y l]]; rewrite ?zlen_nil, ?zlen_cons; [lia|eauto|]. pose proof (zlen_nonneg l). lia. Qed.

Lemma zlen_zero {A} (l : list A) : zlen l = 0 → l = [].
Proof. destruct l as [|x l]; [done|]. rewrite zlen_cons. pose proof (zlen_nonneg l). lia. Qed.

Lemma zlen_fmap {A B} (f : A → B) (l : list A) : zlen (f <$> l) = zlen l.
Proof. unfold zlen. by rewrite length_fmap. Qed.

Lemma zlen_app {A} (l k : list A) : zlen (l ++ k) = zlen l + zlen k.
Proof. unfold zlen. rewrite length_app. lia. Qed.

Lemma zlen_take {A} (l : list A) n : 0 ≤ n → zlen (take (Z.to_nat n) l) = Z.min n (zlen l).
Proof. unfold zlen. rewrite length_take. lia. Qed.

Lemma zlen_drop {A} (l : list A) n : 0 ≤ n ≤ zlen l → zlen (drop (Z.to_nat n) l) = zlen l - n.
Proof. unfold zlen. rewrite length_drop. lia. Qed.

(** Equal concatenations with halves of equal length are equal halfwise. *)
Lemma app_eq_r {A} (a b c d : list A) :
  a ++ b = c ++ d → length b = length d → a = c ∧ b = d.
Proof.
  intros E L. assert (length a = length c).
  { apply (f_equal length) in E. rewrite !length_app in E. lia. }
  by apply app_inj_1.
Qed.

Lemma app_eq_l {A} (a b c d : list A) :
  a ++ b = c ++ d → length a = length c → a = c ∧ b = d.
Proof. intros E L. by apply app_inj_1. Qed.

(** ** Powers of two *)

Lemma pow2_pos h : 0 ≤ h → 0 < 2 ^ h.
Proof. intros. by apply Z.pow_pos_nonneg. Qed.

Lemma pow2_S h : 0 ≤ h → 2 ^ (h + 1) = 2 * 2 ^ h.
Proof. intros. rewrite Z.pow_add_r by lia. lia. Qed.

Lemma pow2_mono a b : a ≤ b → 2 ^ a ≤ 2 ^ b.
Proof. intros. by apply Z.pow_le_mono_r. Qed.

Lemma pow2_lt_inv a b : 0 ≤ b → 2 ^ a < 2 ^ b → a < b.
Proof. intros. apply (Z.pow_lt_mono_r_iff 2); lia. Qed.

(** Bits of a non-negative integer, the fuel of the loops that shift or halve. *)
Definition nbits (n : Z) : nat := Z.to_nat (Z.log2 n + 1).

(** The automation database of the development. *)
Create HintDb scitt.
Create Rewrite HintDb scitt.
Create Rewrite HintDb zlen.
#[export] Hint Resolve zlen_nonneg pow2_pos pow2_mono : scitt.
#[export] Hint Rewrite @zlen_nil @zlen_cons @zlen_app @zlen_fmap : zlen.

(** Arithmetic over list lengths. *)
Ltac zlen := autorewrite with zlen in *; lia.
