(* ===== verification/PyRuntime.v ===== *)
(** * The parts of the Python runtime the sources use

    Byte strings, hexadecimal text, big-endian integers, exceptions and the
    dynamically typed values that CBOR decoding produces.  A Python [str] is
    represented by its UTF-8 octets in a Rocq [string]; a Python [bytes] is a
    list of octets. *)

From S2P Require Import Prelude.

(** ** Octets *)

Abbreviation byte := Byte.byte.
Abbreviation bytes := (list byte).

#[export] Instance byte_eq_dec : EqDecision byte := Byte.byte_eq_dec.

Definition byte_val (b : byte) : Z := Z.of_N (Byte.to_N b).
Definition byte_of (z : Z) : byte :=
  match Byte.of_N (Z.to_N (z mod 256)) with Some b => b | None => x00 end.

Lemma byte_val_range b : 0 ≤ byte_val b < 256.
Proof. unfold byte_val. pose proof (Byte.to_N_bounded b). lia. Qed.

Lemma byte_of_val b : byte_of (byte_val b) = b.
Proof.
  unfold byte_of. rewrite Z.mod_small by apply byte_val_range.
  unfold byte_val. by rewrite N2Z.id, Byte.of_to_N.
Qed.

Lemma byte_val_of z : byte_val (byte_of z) = z mod 256.
Proof.
  pose proof (Z.mod_pos_bound z 256 eq_refl) as Hm.
  unfold byte_of. destruct (Byte.of_N _) as [b|] eqn:E.
  - unfold byte_val. apply Byte.to_of_N in E. lia.
  - apply Byte.of_N_None_iff in E. lia.
Qed.

Lemma byte_val_of_small z : 0 ≤ z < 256 → byte_val (byte_of z) = z.
Proof. intros. rewrite byte_val_of. by apply Z.mod_small. Qed.

Lemma byte_val_inj a b : byte_val a = byte_val b → a = b.
Proof. intros H. rewrite <- (byte_of_val a), <- (byte_of_val b). by rewrite H. Qed.

#[export] Hint Resolve byte_val_range : scitt.
#[export] Hint Rewrite byte_of_val byte_val_of : scitt.

(** ** Big-endian integers *)

(** [int.from_bytes(b, "big")]. *)
Fixpoint from_bytes_acc (acc : Z) (b : bytes) : Z :=
  match b with [] => acc | x :: b' => from_bytes_acc (acc * 256 + byte_val x) b' end.
Definition from_bytes (b : bytes) : Z := from_bytes_acc 0 b.

(** The [w] low octets of [n], most significant first. *)
Fixpoint be_bytes (w : nat) (n : Z) : bytes :=
  match w with
  | O => []
  | S w' => be_bytes w' (n / 256) ++ [byte_of n]
  end.

Lemma length_be_bytes w n : length (be_bytes w n) = w.
Proof. revert n. induction w; intros n; cbn; [done|]. rewrite length_app, IHw. cbn. lia. Qed.

Lemma from_bytes_acc_app acc b c :
  from_bytes_acc acc (b ++ c) = from_bytes_acc (from_bytes_acc acc b) c.
Proof. revert acc. induction b; intros acc; cbn; auto. Qed.

Lemma from_bytes_snoc b x : from_bytes (b ++ [x]) = from_bytes b * 256 + byte_val x.
Proof. unfold from_bytes. by rewrite from_bytes_acc_app. Qed.

Lemma from_bytes_range b : 0 ≤ from_bytes b < 256 ^ zlen b.
Proof.
  induction b as [|x b IH] using rev_ind; [by vm_compute|].
  rewrite from_bytes_snoc, zlen_app. change (zlen [x]) with 1.
  rewrite Z.pow_add_r by (pose proof (zlen_nonneg b); lia).
  pose proof (byte_val_range x). change (256 ^ 1) with 256. lia.
Qed.

Lemma from_be_bytes w n : 0 ≤ n < 256 ^ Z.of_nat w → from_bytes (be_bytes w n) = n.
Proof.
  revert n. induction w as [|w IH]; intros n Hn; cbn [be_bytes].
  - cbn in *. lia.
  - rewrite from_bytes_snoc, byte_val_of, IH.
    + pose proof (Z.div_mod n 256). lia.
    + rewrite Nat2Z.inj_succ, Z.pow_succ_r in Hn by lia.
      split; [apply Z.div_pos; lia|apply Z.div_lt_upper_bound; lia].
Qed.

Lemma be_from_bytes b : be_bytes (length b) (from_bytes b) = b.
Proof.
  induction b as [|x b IH] using rev_ind; [done|].
  rewrite length_app, Nat.add_comm. cbn [length Nat.add be_bytes].
  rewrite from_bytes_snoc. pose proof (byte_val_range x).
  rewrite Z.div_add_l, (Z.div_small (byte_val x)), Z.add_0_r, IH by lia.
  f_equal. f_equal. apply byte_val_inj.
  rewrite byte_val_of, Z.add_comm, Z.mod_add by lia. by apply Z.mod_small.
Qed.

Lemma be_bytes_inj w a b :
  0 ≤ a < 256 ^ Z.of_nat w → 0 ≤ b < 256 ^ Z.of_nat w → be_bytes w a = be_bytes w b → a = b.
Proof. intros Ha Hb E. rewrite <- (from_be_bytes w a), <- (from_be_bytes w b) by done. by rewrite E. Qed.

(** ** Dynamically typed values

    What [cbor2] may hand back and what the sources test with [isinstance].
    [VDict frozen d] is a [dict], or with [frozen] the [frozendict] of newer
    [cbor2] releases, which is not a [dict]; [VList tuple l] is a [list] or a
    [tuple].  [VOther n id] is any other object (a float, a [Decimal], a date, a set,
    [undefined], a simple value): the sources only ask such an object whether
    it equals an integer label, which is what [n] records. *)
#[warnings="-register-all"]
Inductive pyval : Type :=
| VInt (z : Z)
| VBool (b : bool)
| VNone
| VBytes (b : bytes)
| VStr (s : string)
| VList (tuple : bool) (l : list pyval)
| VDict (frozen : bool) (d : list (pyval * pyval))
| VTag (tag : Z) (v : pyval)
| VOther (n : option Z) (id : N).

(** ** Exceptions

    A message is the source's format string with the interpolated values. *)
Inductive msg : Type := Msg (template : string) (args : list msg_arg)
with msg_arg : Type :=
| AInt (z : Z)
| AStr (s : string)
| AVal (v : pyval)
| AMsg (m : msg).

Inductive exn : Type :=
| ValueError (m : msg)
| IndexError (m : msg)
| OverflowError
| TypeError
| KeyError
| AttributeError
| UnicodeDecodeError
| UnicodeEncodeError
| InvalidArgumentError (m : msg)
| CoseError (m : msg)
| InvalidSignature
| ThirdParty (name : string) (m : msg)
| OSError (m : msg).

Abbreviation result := (outcome exn).

(** [type(exc).__name__] *)
Definition exn_name (e : exn) : string :=
  match e with
  | ValueError _ => "ValueError"
  | IndexError _ => "IndexError"
  | OverflowError => "OverflowError"
  | TypeError => "TypeError"
  | KeyError => "KeyError"
  | AttributeError => "AttributeError"
  | UnicodeDecodeError => "UnicodeDecodeError"
  | UnicodeEncodeError => "UnicodeEncodeError"
  | InvalidArgumentError _ => "InvalidArgumentError"
  | CoseError _ => "CoseError"
  | InvalidSignature => "InvalidSignature"
  | ThirdParty n _ => n
  | OSError _ => "OSError"
  end.

(** [str(exc)], where the sources interpolate it. *)
Definition exn_msg (e : exn) : msg :=
  match e with
  | ValueError m | IndexError m | InvalidArgumentError m | CoseError m | ThirdParty _ m | OSError m => m
  | _ => Msg "" []
  end.

(** [int.to_bytes(n, w, "big")] *)
Definition to_bytes (w : nat) (n : Z) : result bytes :=
  if (0 <=? n) && (n <? 256 ^ Z.of_nat w) then Ok (be_bytes w n) else Raise OverflowError.

(** ** Hexadecimal text *)

Definition hex_digit (z : Z) : Ascii.ascii :=
  Ascii.ascii_of_N (Z.to_N (if z <? 10 then 48 + z else 87 + z)).

Fixpoint hex (b : bytes) : string :=
  match b with
  | [] => EmptyString
  | x :: b' => String (hex_digit (byte_val x / 16)) (String (hex_digit (byte_val x mod 16)) (hex b'))
  end.

Definition hex_val (c : Ascii.ascii) : option Z :=
  let z := Z.of_N (Ascii.N_of_ascii c) in
  if (48 <=? z) && (z <=? 57) then Some (z - 48)
  else if (97 <=? z) && (z <=? 102) then Some (z - 87)
  else if (65 <=? z) && (z <=? 70) then Some (z - 55)
  else None.

(** The characters [bytes.fromhex] skips between octets. *)
Definition is_space (c : Ascii.ascii) : bool :=
  let z := Z.of_N (Ascii.N_of_ascii c) in (z =? 32) || ((9 <=? z) && (z <=? 13)).

Definition fromhex_error : exn :=
  ValueError (Msg "non-hexadecimal number found in fromhex() arg" []).

(** [bytes.fromhex] *)
Fixpoint fromhex (s : string) : result bytes :=
  match s with
  | EmptyString => Ok []
  | String c s' =>
      if is_space c then fromhex s' else
      match hex_val c, s' with
      | Some hi, String d s'' =>
          match hex_val d with
          | Some lo => b ← fromhex s''; Ok (byte_of (16 * hi + lo) :: b)
          | None => Raise fromhex_error
          end
      | _, _ => Raise fromhex_error
      end
  end.

Lemma hex_digit_val z : 0 ≤ z < 16 → hex_val (hex_digit z) = Some z.
Proof.
  intros Hz. assert (z ∈ seqZ 0 16) as H by (apply elem_of_seqZ; lia).
  revert H. vm_compute seqZ. rewrite !elem_of_cons.
  intros Hc. repeat destruct Hc as [->|Hc]; try reflexivity. by apply elem_of_nil in Hc.
Qed.

Lemma hex_digit_not_space z : 0 ≤ z < 16 → is_space (hex_digit z) = false.
Proof.
  intros Hz. assert (z ∈ seqZ 0 16) as H by (apply elem_of_seqZ; lia).
  revert H. vm_compute seqZ. rewrite !elem_of_cons.
  intros Hc. repeat destruct Hc as [->|Hc]; try reflexivity. by apply elem_of_nil in Hc.
Qed.

(** [bytes.fromhex(b.hex()) == b] *)
Lemma fromhex_hex b : fromhex (hex b) = Ok b.
Proof.
  induction b as [|x b IH]; [done|].
  pose proof (byte_val_range x) as Hx.
  assert (0 ≤ byte_val x / 16 < 16) as Hd.
  { split; [apply Z.div_pos; lia|apply Z.div_lt_upper_bound; lia]. }
  pose proof (Z.mod_pos_bound (byte_val x) 16 eq_refl) as Hm.
  cbn [hex fromhex]. rewrite hex_digit_not_space, !hex_digit_val, IH by done. cbn.
  rewrite <- Z.div_mod by lia. by rewrite byte_of_val.
Qed.

Lemma hex_inj a b : hex a = hex b → a = b.
Proof. intros H. apply (f_equal fromhex) in H. rewrite !fromhex_hex in H. by injection H. Qed.

Lemma mapM_fromhex_hex l : mapM fromhex (hex <$> l) = Ok l.
Proof. apply mapM_ok. induction l; cbn; constructor; auto using fromhex_hex. Qed.

#[export] Hint Rewrite fromhex_hex : scitt.
#[export] Hint Resolve fromhex_hex : scitt.

Lemma fromhex_small : is_ok (fromhex "0a F") = false ∧ fromhex "0a FF" = Ok [x0a; xff].
Proof. by vm_compute. Qed.


(** ** Loops *)

(** [for _ in range(n)] threading the state [s]: the body runs once per unit
    of the binary numeral and the first exception leaves the loop, so a huge
    [n] costs nothing beyond the iteration that raises. *)
Fixpoint for_pos {S} (p : positive) (body : S → result S) (s : S) : result S :=
  match p with
  | xH => body s
  | xO p => s ← for_pos p body s; for_pos p body s
  | xI p => s ← body s; s ← for_pos p body s; for_pos p body s
  end.
Definition for_range {S} (n : Z) (body : S → result S) (s : S) : result S :=
  match n with Zpos p => for_pos p body s | _ => Ok s end.

(** The same loop, one iteration at a time. *)
Fixpoint iterate {S} (n : nat) (body : S → result S) (s : S) : result S :=
  match n with O => Ok s | S n' => s ← body s; iterate n' body s end.

Lemma iterate_add {S} n m (body : S → result S) s :
  iterate (n + m) body s = iterate n body s ≫= iterate m body.
Proof. revert s. induction n as [|n IH]; intros s; cbn; [done|]. destruct (body s); cbn; [apply IH|done]. Qed.

Lemma for_range_iterate {S} n (body : S → result S) s :
  for_range n body s = iterate (Z.to_nat n) body s.
Proof.
  destruct n as [|p|p]; [done| |done]. unfold for_range. rewrite Z2Nat.inj_pos. revert s.
  induction p as [p IH|p IH|]; intros s; cbn [for_pos].
  - rewrite Pos2Nat.inj_xI. cbn [iterate]. destruct (body s); cbn; [|done].
    rewrite Nat.add_0_r, iterate_add, <- IH. destruct (for_pos p body _); cbn; [apply IH|done].
  - rewrite Pos2Nat.inj_xO. cbn.
    rewrite Nat.add_0_r, iterate_add, <- IH. destruct (for_pos p body _); cbn; [apply IH|done].
  - change (Pos.to_nat 1) with 1%nat. cbn. by destruct (body s).
Qed.

(** An exception the loop raises is one its body raises. *)
Lemma iterate_raise {S} n (body : S → result S) s e :
  iterate n body s = Raise e → ∃ s', body s' = Raise e.
Proof.
  revert s. induction n as [|n IH]; intros s; cbn; [done|].
  destruct (body s) eqn:E; cbn; [apply IH|]. intros [= <-]. eauto.
Qed.

(** [b[i:j]] for [0 <= i <= j]. *)
Definition py_slice {A} (b : list A) (i j : Z) : list A :=
  take (Z.to_nat (j - i)) (drop (Z.to_nat i) b).

Lemma py_slice_app {A} (p b s : list A) : py_slice (p ++ b ++ s) (zlen p) (zlen p + zlen b) = b.
Proof.
  unfold py_slice, zlen. rewrite Nat2Z.id, drop_app_length.
  replace (Z.to_nat _) with (length b) by lia. apply take_app_length.
Qed.
