(* ===== verification/Sha256.v ===== *)
(** * SHA-256

    [hashlib.sha256(x).digest()] enters the development as a class with the
    one fact the sources use of it, the 32-octet digest.  The instance at the
    end is the function of FIPS 180-4, on which concrete inputs evaluate. *)

From S2P Require Import Prelude PyRuntime.

Class Sha256 := {
  sha256 : bytes → bytes;
  sha256_length x : length (sha256 x) = 32%nat;
}.

(** Two of the listed inputs collide.  The theorems on hash structures are
    stated up to a collision among inputs they list, so they hold of SHA-256
    itself and not only of an injective stand-in. *)
Definition collision `{Sha256} (inputs : list bytes) : Prop :=
  ∃ x y, x ∈ inputs ∧ y ∈ inputs ∧ x ≠ y ∧ sha256 x = sha256 y.

Section collision.
Context `{Sha256}.

Lemma collision_mono xs ys : xs ⊆ ys → collision xs → collision ys.
Proof. intros Hs (x & y & ? & ? & ? & ?). exists x, y. set_solver. Qed.

(** Equal digests of listed inputs: the inputs are equal or collide. *)
Lemma sha256_eq xs x y :
  sha256 x = sha256 y → x ∈ xs → y ∈ xs → x = y ∨ collision xs.
Proof. intros E Hx Hy. destruct (decide (x = y)); [by left|right]. by exists x, y. Qed.
End collision.

(** ** FIPS 180-4 *)

Module Fips.
Definition w32 (n : N) : N := N.land n 0xFFFFFFFF.
Definition add32 (a b : N) : N := w32 (a + b).
Definition rotr (k : N) (x : N) : N := N.lor (N.shiftr x k) (w32 (N.shiftl x (32 - k))).
Definition not32 (x : N) : N := N.lxor x 0xFFFFFFFF.
Definition Ch x y z := N.lxor (N.land x y) (N.land (not32 x) z).
Definition Maj x y z := N.lxor (N.lxor (N.land x y) (N.land x z)) (N.land y z).
Definition S0 x := N.lxor (N.lxor (rotr 2 x) (rotr 13 x)) (rotr 22 x).
Definition S1 x := N.lxor (N.lxor (rotr 6 x) (rotr 11 x)) (rotr 25 x).
Definition s0 x := N.lxor (N.lxor (rotr 7 x) (rotr 18 x)) (N.shiftr x 3).
Definition s1 x := N.lxor (N.lxor (rotr 17 x) (rotr 19 x)) (N.shiftr x 10).

(** The largest [r < 2^bits] with [r ^ e <= n], bit by bit. *)
Fixpoint root_loop (bits : nat) (e n r : N) : N :=
  match bits with
  | O => r
  | S b =>
      let r' := N.setbit r (N.of_nat b) in
      root_loop b e n (if (r' ^ e <=? n)%N then r' else r)
  end.

(** The first 32 fractional bits of the [e]-th root of [p]. *)
Definition frac_root (e p : N) : N := w32 (root_loop 40 e (N.shiftl p (32 * e)) 0).

Definition primes : list N :=
  filter (fun n => forallb (fun d => negb (n mod N.of_nat d =? 0))%N (seq 2 (N.to_nat n - 2)))
    (N.of_nat <$> seq 2 310).

Definition K : list N := Eval vm_compute in frac_root 3 <$> primes.

Definition state : Type := N * N * N * N * N * N * N * N.
Definition init : state := Eval vm_compute in
  match frac_root 2 <$> take 8 primes with
  | [a; b; c; d; e; f; g; h] => (a, b, c, d, e, f, g, h)
  | _ => (0, 0, 0, 0, 0, 0, 0, 0)%N
  end.

(** One round; [w] holds the last sixteen schedule words, oldest first. *)
Definition round (st : state) (k w : N) : state :=
  let '(a, b, c, d, e, f, g, h) := st in
  let t1 := add32 (add32 (add32 h (S1 e)) (add32 (Ch e f g) k)) w in
  let t2 := add32 (S0 a) (Maj a b c) in
  (add32 t1 t2, a, b, c, add32 d t1, e, f, g).

Definition next_word (w : list N) : N :=
  match w with
  | w0 :: w1 :: _ :: _ :: _ :: _ :: _ :: _ :: _ :: w9 :: _ :: _ :: _ :: _ :: w14 :: _ :: [] =>
      add32 (add32 (s1 w14) w9) (add32 (s0 w1) w0)
  | _ => 0%N
  end.

Fixpoint rounds (ks w : list N) (st : state) : state :=
  match ks, w with
  | k :: ks', w0 :: w' => rounds ks' (w' ++ [next_word w]) (round st k w0)
  | _, _ => st
  end.

Definition compress (st : state) (block : list N) : state :=
  let '(a, b, c, d, e, f, g, h) := st in
  let '(a', b', c', d', e', f', g', h') := rounds K block st in
  (add32 a a', add32 b b', add32 c c', add32 d d',
   add32 e e', add32 f f', add32 g g', add32 h h').

Fixpoint words (b : bytes) : list N :=
  match b with
  | a :: b :: c :: d :: r => Z.to_N (from_bytes [a; b; c; d]) :: words r
  | _ => []
  end.

Definition pad (m : bytes) : bytes :=
  let n := zlen m in
  m ++ [x80] ++ replicate (Z.to_nat ((55 - n) mod 64)) x00 ++ be_bytes 8 (8 * n).

Fixpoint blocks (fuel : nat) (ws : list N) (st : state) : state :=
  match fuel, ws with
  | S fuel', _ :: _ => blocks fuel' (drop 16 ws) (compress st (take 16 ws))
  | _, _ => st
  end.

Definition digest (m : bytes) : bytes :=
  let ws := words (pad m) in
  let '(a, b, c, d, e, f, g, h) := blocks (length ws) ws init in
  let w (x : N) := be_bytes 4 (Z.of_N x) in
  w a ++ w b ++ w c ++ w d ++ w e ++ w f ++ w g ++ w h.

Lemma digest_length m : length (digest m) = 32%nat.
Proof.
  unfold digest. destruct (blocks _ _ _) as [[[[[[[a b] c] d] e] f] g] h].
  by rewrite !length_app, !length_be_bytes.
Qed.

(** The FIPS 180-4 vector for the empty message, the root of an empty tree. *)
Lemma digest_empty :
  hex (digest []) = "e3b0c44298fc1c149afbf4c8996fb92427ae41e4649b934ca495991b7852b855".
Proof. vm_compute. reflexivity. Qed.

Lemma digest_abc :
  hex (digest [x61; x62; x63]) = "ba7816bf8f01cfea414140de5dae2223b00361a396177a9cb410ff61f20015ad".
Proof. vm_compute. reflexivity. Qed.

Definition instance : Sha256 := {| sha256 := digest; sha256_length := digest_length |}.
End Fips.

(** A cheap polynomial digest, for concrete inputs of several blocks. *)
Module Toy.
Definition step (acc : Z) (b : byte) : Z := Z.land (acc * 33 + byte_val b + 1) 65535.
Definition digest (m : bytes) : bytes := be_bytes 2 (foldl step 7 m) ++ repeat x00 30.

Lemma toy_digest_length m : length (digest m) = 32%nat.
Proof. unfold digest. by rewrite length_app, length_be_bytes. Qed.

Definition instance : Sha256 := {| sha256 := digest; sha256_length := toy_digest_length |}.
End Toy.
