(* ===== verification/Merkle.v ===== *)
(** * The RFC 9162 Merkle tree: the operations of [scitt_cose/merkle.py]

    Definitions only; [MerkleTree] proves them total and correct for
    inclusion, [MerkleConsistency] for consistency.  Entries, roots and proof
    nodes are hexadecimal text as in the source; [bytes.fromhex] raises on
    malformed text and the exception propagates. *)

From S2P Require Import Prelude PyRuntime Sha256.

(** [1 << 62] *)
Definition MAX_TREE_SIZE : Z := Z.shiftl 1 62.

(** The [while k * 2 < n: k *= 2] loop of [_largest_pow2_below]. *)
Fixpoint pow2_loop (fuel : nat) (k n : Z) : Z :=
  match fuel with
  | O => k
  | S fuel' => if k * 2 <? n then pow2_loop fuel' (k * 2) n else k
  end.

(** [k] doubles at most [log2_up n] times before [k * 2 >= n]. *)
Definition _largest_pow2_below (n : Z) : Z := pow2_loop (Z.to_nat (Z.log2_up n)) 1 n.

(** Recursion depth that suffices for a tree of [n] leaves. *)
Definition depth_fuel (n : Z) : nat := Z.to_nat (Z.log2_up n).

Section Merkle.
Context `{Sha256}.

Definition _LEAF_PREFIX : bytes := [x00].
Definition _NODE_PREFIX : bytes := [x01].

Definition _leaf_hash_bytes (entry : bytes) : bytes := sha256 (_LEAF_PREFIX ++ entry).
Definition _node_hash (left right : bytes) : bytes := sha256 (_NODE_PREFIX ++ left ++ right).

(** The split of [leaves[:k]], [leaves[k:]] at the largest power of two
    below the length. *)
Definition split_at (leaves : list bytes) : nat := Z.to_nat (_largest_pow2_below (zlen leaves)).

Fixpoint mth_fuel (fuel : nat) (leaves : list bytes) : bytes :=
  match leaves with
  | [] => sha256 []
  | [leaf] => leaf
  | _ =>
      match fuel with
      | O => []
      | S fuel' =>
          let k := split_at leaves in
          _node_hash (mth_fuel fuel' (take k leaves)) (mth_fuel fuel' (drop k leaves))
      end
  end.
Definition _mth (leaves : list bytes) : bytes := mth_fuel (depth_fuel (zlen leaves)) leaves.

Definition leaf_hash (entry_hex : string) : result string :=
  entry ← fromhex entry_hex; Ok (hex (_leaf_hash_bytes entry)).

(** [[_leaf_hash_bytes(bytes.fromhex(e)) for e in entries_hex]] *)
Definition leaf_hashes (entries_hex : list string) : result (list bytes) :=
  mapM (fun e => entry ← fromhex e; Ok (_leaf_hash_bytes entry)) entries_hex.

Definition merkle_root (entries_hex : list string) : result string :=
  leaves ← leaf_hashes entries_hex; Ok (hex (_mth leaves)).

(** [path(sub, m)] of [inclusion_proof]. *)
Fixpoint inclusion_path (fuel : nat) (sub : list bytes) (m : Z) : list bytes :=
  match fuel with
  | O => []
  | S fuel' =>
      if zlen sub =? 1 then [] else
      let k := _largest_pow2_below (zlen sub) in
      if m <? k
      then inclusion_path fuel' (take (Z.to_nat k) sub) m ++ [_mth (drop (Z.to_nat k) sub)]
      else inclusion_path fuel' (drop (Z.to_nat k) sub) (m - k) ++ [_mth (take (Z.to_nat k) sub)]
  end.

Definition inclusion_proof (entries_hex : list string) (index : Z) : result (list string) :=
  let n := zlen entries_hex in
  if negb ((0 <=? index) && (index <? n))
  then Raise (IndexError (Msg "index {index} out of range for {n} entries" [AInt index; AInt n]))
  else
    leaves ← leaf_hashes entries_hex;
    Ok (hex <$> inclusion_path (depth_fuel n) leaves index).

(** The [while size > 1] loop of [_expected_inclusion_path_len]. *)
Fixpoint path_len_loop (fuel : nat) (size m n : Z) : Z :=
  match fuel with
  | O => n
  | S fuel' =>
      if size >? 1 then
        let k := _largest_pow2_below size in
        if m <? k then path_len_loop fuel' k m (n + 1)
        else path_len_loop fuel' (size - k) (m - k) (n + 1)
      else n
  end.
Definition _expected_inclusion_path_len (tree_size index : Z) : Z :=
  path_len_loop (depth_fuel tree_size) tree_size index 0.

(** [fold(size, m)] of [root_from_inclusion_proof]; the state is the shared
    list [siblings], consumed from its end. *)
Fixpoint inclusion_fold (fuel : nat) (target : bytes) (size m : Z) (siblings : list string) :
    result (option bytes * list string) :=
  if size =? 1 then Ok (Some target, siblings) else
  match fuel with
  | O => Ok (None, siblings)
  | S fuel' =>
      match py_pop siblings with
      | None => Ok (None, siblings)
      | Some (siblings, outermost) =>
          let k := _largest_pow2_below size in
          sibling ← fromhex outermost;
          if m <? k then
            '(child, siblings) ← inclusion_fold fuel' target k m siblings;
            Ok (option_map (fun child => _node_hash child sibling) child, siblings)
          else
            '(child, siblings) ← inclusion_fold fuel' target (size - k) (m - k) siblings;
            Ok (option_map (fun child => _node_hash sibling child) child, siblings)
      end
  end.

Definition root_from_inclusion_proof (leaf_entry_hex : string) (index tree_size : Z)
    (audit_path_hex : list string) : result (option string) :=
  if negb ((0 <=? index) && (index <? tree_size)) || (tree_size >? MAX_TREE_SIZE) then Ok None
  else if negb (zlen audit_path_hex =? _expected_inclusion_path_len tree_size index) then Ok None
  else
    entry ← fromhex leaf_entry_hex;
    let target := _leaf_hash_bytes entry in
    '(computed, siblings) ← inclusion_fold (depth_fuel tree_size) target tree_size index audit_path_hex;
    Ok (match computed, siblings with
        | Some root, [] => Some (hex root)
        | _, _ => None
        end).

Definition verify_inclusion (leaf_entry_hex : string) (index tree_size : Z)
    (audit_path_hex : list string) (root_hex : string) : result bool :=
  computed ← root_from_inclusion_proof leaf_entry_hex index tree_size audit_path_hex;
  Ok (match computed with Some c => bool_decide (c = root_hex) | None => false end).

(** [_subproof(m, leaves, b)] *)
Fixpoint subproof_fuel (fuel : nat) (m : Z) (leaves : list bytes) (b : bool) : list bytes :=
  let n := zlen leaves in
  if m =? n then (if b then [] else [_mth leaves]) else
  match fuel with
  | O => []
  | S fuel' =>
      let k := _largest_pow2_below n in
      if m <=? k
      then subproof_fuel fuel' m (take (Z.to_nat k) leaves) b ++ [_mth (drop (Z.to_nat k) leaves)]
      else subproof_fuel fuel' (m - k) (drop (Z.to_nat k) leaves) false ++ [_mth (take (Z.to_nat k) leaves)]
  end.
Definition _subproof (m : Z) (leaves : list bytes) (b : bool) : list bytes :=
  subproof_fuel (depth_fuel (zlen leaves)) m leaves b.

Definition consistency_proof (entries_hex : list string) (m n : Z) : result (list string) :=
  if negb ((0 <=? m) && (m <=? n))
  then Raise (ValueError (Msg "require 0 <= m <= n; got m={m}, n={n}" [AInt m; AInt n]))
  else if n >? zlen entries_hex
  then Raise (ValueError (Msg "need at least n={n} entries, have {}" [AInt n; AInt (zlen entries_hex)]))
  else if (m =? 0) || (m =? n) then Ok []
  else
    leaves ← leaf_hashes (take (Z.to_nat n) entries_hex);
    Ok (hex <$> _subproof m leaves true).

(** [fn & 1] as a condition. *)
Definition low_bit (fn : Z) : bool := negb (Z.land fn 1 =? 0).

(** [while fn & 1: fn >>= 1; sn >>= 1] *)
Fixpoint strip_ones (fuel : nat) (fn sn : Z) : Z * Z :=
  match fuel with
  | O => (fn, sn)
  | S fuel' =>
      if low_bit fn then strip_ones fuel' (Z.shiftr fn 1) (Z.shiftr sn 1) else (fn, sn)
  end.

(** [while not (fn & 1) and fn != 0: fn >>= 1; sn >>= 1] *)
Fixpoint strip_zeros (fuel : nat) (fn sn : Z) : Z * Z :=
  match fuel with
  | O => (fn, sn)
  | S fuel' =>
      if negb (low_bit fn) && negb (fn =? 0)
      then strip_zeros fuel' (Z.shiftr fn 1) (Z.shiftr sn 1) else (fn, sn)
  end.

(** The [for node in proof[1:]] loop; [None] is its [return False]. *)
Fixpoint consistency_loop (nodes : list bytes) (fn sn : Z) (fr sr : bytes) :
    option (Z * bytes * bytes) :=
  match nodes with
  | [] => Some (sn, fr, sr)
  | node :: nodes' =>
      if sn =? 0 then None
      else if low_bit fn || (fn =? sn) then
        let fr := _node_hash node fr in
        let sr := _node_hash node sr in
        let '(fn, sn) := strip_zeros (nbits fn) fn sn in
        consistency_loop nodes' (Z.shiftr fn 1) (Z.shiftr sn 1) fr sr
      else
        let sr := _node_hash sr node in
        consistency_loop nodes' (Z.shiftr fn 1) (Z.shiftr sn 1) fr sr
  end.

Definition verify_consistency (first_root_hex second_root_hex : string)
    (first_size second_size : Z) (proof_hex : list string) : result bool :=
  let m := first_size in
  let n := second_size in
  if (m <? 0) || (n <? 0) || (m >? n) then Ok false
  else if m =? 0 then Ok (bool_decide (proof_hex = []))
  else if m =? n then Ok (bool_decide (proof_hex = []) && bool_decide (first_root_hex = second_root_hex))
  else
    proof ← mapM fromhex proof_hex;
    proof ← (if Z.land m (m - 1) =? 0
             then first_root ← fromhex first_root_hex; Ok (first_root :: proof)
             else Ok proof);
    match proof with
    | [] => Ok false
    | seed :: nodes =>
        let '(fn, sn) := strip_ones (nbits (m - 1)) (m - 1) (n - 1) in
        Ok (match consistency_loop nodes fn sn seed seed with
            | None => false
            | Some (sn, fr, sr) =>
                (sn =? 0) && bool_decide (hex fr = first_root_hex) && bool_decide (hex sr = second_root_hex)
            end)
    end.
End Merkle.
