(* ===== verification/MerkleTree.v ===== *)
(** * Merkle tree hash, audit paths and inclusion

    Unfolding equations of the fuelled functions of [Merkle] (the fuel is
    enough on every input), then completeness and soundness of
    [verify_inclusion]. *)

From S2P Require Import Prelude PyRuntime Sha256 Merkle.

(** ** The split point *)

Lemma pow2_loop_spec fuel j n :
  0 ≤ j → 2 ^ j < n → n ≤ 2 ^ (j + Z.of_nat fuel) →
  ∃ i, 0 ≤ i ∧ pow2_loop fuel (2 ^ j) n = 2 ^ i ∧ 2 ^ i < n ≤ 2 ^ (i + 1).
Proof.
  revert j. induction fuel as [|f IH]; intros j Hj Hlt Hle.
  - exfalso. rewrite Z.add_0_r in Hle. lia.
  - cbn [pow2_loop]. replace (2 ^ j * 2) with (2 ^ (j + 1)) by (rewrite pow2_S; lia).
    destruct (Z.ltb_spec (2 ^ (j + 1)) n) as [Hlt'|Hge].
    + apply IH; [lia|done|]. replace (j + 1 + Z.of_nat f) with (j + Z.of_nat (S f)) by lia. done.
    + exists j. auto with lia.
Qed.

Lemma largest_pow2_spec n :
  1 < n → ∃ i, 0 ≤ i ∧ _largest_pow2_below n = 2 ^ i ∧ 2 ^ i < n ≤ 2 ^ (i + 1).
Proof.
  intros Hn. apply (pow2_loop_spec _ 0); [lia|done|].
  pose proof (Z.log2_up_spec n Hn). pose proof (Z.log2_up_nonneg n).
  rewrite Z.add_0_l, Z2Nat.id; lia.
Qed.

Lemma largest_pow2_unique n i :
  0 ≤ i → 2 ^ i < n ≤ 2 ^ (i + 1) → _largest_pow2_below n = 2 ^ i.
Proof.
  intros Hi Hn. pose proof (pow2_pos i Hi).
  destruct (largest_pow2_spec n) as (j & Hj & -> & Hn'); [lia|].
  enough (i = j) by congruence.
  assert (i < j + 1) by (apply pow2_lt_inv; lia).
  assert (j < i + 1) by (apply pow2_lt_inv; lia). lia.
Qed.

(** Both halves fit in one level less. *)
Lemma largest_pow2_halves n f :
  1 < n → n ≤ 2 ^ Z.of_nat (S f) →
  let k := _largest_pow2_below n in
  1 ≤ k < n ∧ n ≤ 2 * k ∧ k ≤ 2 ^ Z.of_nat f ∧ n - k ≤ 2 ^ Z.of_nat f.
Proof.
  intros Hn Hf k. destruct (largest_pow2_spec n Hn) as (i & Hi & Hk & Hlo & Hhi).
  fold k in Hk. rewrite Hk. rewrite pow2_S in Hhi by lia. pose proof (pow2_pos i Hi).
  assert (2 ^ i ≤ 2 ^ Z.of_nat f).
  { apply pow2_mono. enough (i < Z.of_nat (S f)) by lia. apply pow2_lt_inv; lia. }
  lia.
Qed.

Lemma depth_fuel_enough n : n ≤ 2 ^ Z.of_nat (depth_fuel n).
Proof.
  unfold depth_fuel. pose proof (Z.log2_up_nonneg n). rewrite Z2Nat.id by done.
  destruct (Z.le_gt_cases n 1) as [Hn|Hn].
  - pose proof (pow2_pos (Z.log2_up n)). lia.
  - pose proof (Z.log2_up_spec n). lia.
Qed.

Lemma depth_fuel_bound n f : n ≤ 2 ^ Z.of_nat f → (depth_fuel n ≤ f)%nat.
Proof.
  intros Hn. unfold depth_fuel. pose proof (Z.log2_up_nonneg n).
  destruct (Z.le_gt_cases n 1); [rewrite Z.log2_up_eqn0 by lia; lia|].
  assert (Z.log2_up n ≤ Z.of_nat f) by (apply Z.log2_up_le_pow2; lia). lia.
Qed.

#[export] Hint Resolve depth_fuel_enough : scitt.

(** Lists are built from leaves by splits at powers of two. *)
Lemma merkle_ind {A} (P : list A → Prop) :
  P [] → (∀ x, P [x]) →
  (∀ l i, 0 ≤ i → 2 ^ i < zlen l ≤ 2 ^ (i + 1) →
     P (take (Z.to_nat (2 ^ i)) l) → P (drop (Z.to_nat (2 ^ i)) l) → P l) →
  ∀ l, P l.
Proof.
  intros Hnil Hone Hsplit l. induction l as [l IH] using (induction_ltof1 _ length). unfold ltof in IH.
  destruct (Z.le_gt_cases (zlen l) 1) as [Hl|Hl].
  - destruct l as [|x [|y l]]; auto. unfold zlen in Hl. cbn in Hl. lia.
  - destruct (largest_pow2_spec (zlen l) Hl) as (i & Hi & _ & Hb).
    pose proof (pow2_pos i Hi). unfold zlen in *.
    apply (Hsplit l i); [done|unfold zlen; lia| |]; apply IH.
    + rewrite length_take. lia.
    + rewrite length_drop. lia.
Qed.

Section MerkleTree.
Context `{Sha256}.

(** ** The tree hash *)

Lemma mth_fuel_irrel l f g :
  zlen l ≤ 2 ^ Z.of_nat f → zlen l ≤ 2 ^ Z.of_nat g → mth_fuel f l = mth_fuel g l.
Proof.
  revert l g. induction f as [|f IH]; intros l g Hf Hg.
  - destruct l as [|x [|y l]]; [by destruct g..|]. unfold zlen in Hf. cbn in Hf. lia.
  - destruct (Z.le_gt_cases (zlen l) 1) as [Hl|Hl].
    { destruct l as [|x [|y l]]; [by destruct g..|]. unfold zlen in Hl. cbn in Hl. lia. }
    destruct g as [|g]; [cbn in Hg; lia|].
    destruct l as [|x [|y l]]; [by vm_compute in Hl..|].
    pose proof (largest_pow2_halves _ _ Hl Hf) as (? & ? & ? & ?).
    pose proof (largest_pow2_halves _ _ Hl Hg) as (? & ? & ? & ?).
    cbn [mth_fuel]. unfold split_at. f_equal; apply IH;
      rewrite ?zlen_take, ?zlen_drop by lia; lia.
Qed.

Lemma _mth_one x : _mth [x] = x.
Proof. unfold _mth. by destruct (depth_fuel _). Qed.

Lemma _mth_node l i :
  0 ≤ i → 2 ^ i < zlen l ≤ 2 ^ (i + 1) →
  _mth l = _node_hash (_mth (take (Z.to_nat (2 ^ i)) l)) (_mth (drop (Z.to_nat (2 ^ i)) l)).
Proof.
  intros Hi Hl. pose proof (pow2_pos i Hi).
  assert (split_at l = Z.to_nat (2 ^ i)) as Hs
    by (unfold split_at; by rewrite (largest_pow2_unique _ i)).
  rewrite pow2_S in Hl by lia.
  unfold _mth at 1. rewrite (mth_fuel_irrel l _ (S (depth_fuel (zlen l)))); auto with scitt.
  2: { pose proof (depth_fuel_enough (zlen l)). rewrite Nat2Z.inj_succ, <- Z.add_1_r, pow2_S; lia. }
  destruct l as [|x [|y l]]; [unfold zlen in Hl; cbn in Hl; lia..|].
  cbn [mth_fuel]. rewrite Hs.
  pose proof (depth_fuel_enough (zlen (x :: y :: l))).
  unfold _mth. f_equal; apply mth_fuel_irrel; auto with scitt;
    rewrite ?zlen_take, ?zlen_drop by lia; lia.
Qed.

Lemma _mth_two a b : _mth [a; b] = _node_hash a b.
Proof.
  rewrite (_mth_node [a; b] 0) by (change (zlen [a; b]) with 2; change (2 ^ (0 + 1)) with 2; lia).
  change (Z.to_nat (2 ^ 0)) with 1%nat. cbn [take drop]. by rewrite !_mth_one.
Qed.

Lemma node_hash_length a b : length (_node_hash a b) = 32%nat.
Proof. apply sha256_length. Qed.
Lemma leaf_hash_length e : length (_leaf_hash_bytes e) = 32%nat.
Proof. apply sha256_length. Qed.

Lemma _mth_length l : Forall (fun x => length x = 32%nat) l → length (_mth l) = 32%nat.
Proof.
  intros Hl. induction l as [|x|l i Hi Hb _ _] using merkle_ind.
  - apply sha256_length.
  - rewrite _mth_one. by inversion Hl.
  - rewrite (_mth_node l i) by done. apply node_hash_length.
Qed.

(** The preimages hashed to compute [_mth leaves]. *)
Fixpoint mth_inputs_fuel (fuel : nat) (leaves : list bytes) : list bytes :=
  match fuel, leaves with
  | S fuel', _ :: _ :: _ =>
      let k := split_at leaves in
      (_NODE_PREFIX ++ _mth (take k leaves) ++ _mth (drop k leaves))
        :: mth_inputs_fuel fuel' (take k leaves) ++ mth_inputs_fuel fuel' (drop k leaves)
  | _, _ => []
  end.
Definition mth_inputs (leaves : list bytes) : list bytes :=
  mth_inputs_fuel (depth_fuel (zlen leaves)) leaves.

Lemma mth_inputs_node f l i :
  0 ≤ i → 2 ^ i < zlen l ≤ 2 ^ (i + 1) →
  mth_inputs_fuel (S f) l =
    (_NODE_PREFIX ++ _mth (take (Z.to_nat (2 ^ i)) l) ++ _mth (drop (Z.to_nat (2 ^ i)) l))
      :: mth_inputs_fuel f (take (Z.to_nat (2 ^ i)) l) ++ mth_inputs_fuel f (drop (Z.to_nat (2 ^ i)) l).
Proof.
  intros Hi Hl. pose proof (pow2_pos i Hi).
  assert (split_at l = Z.to_nat (2 ^ i)) as Hs
    by (unfold split_at; by rewrite (largest_pow2_unique _ i)).
  destruct l as [|x [|y l]]; [unfold zlen in Hl; cbn in Hl; lia..|].
  cbn [mth_inputs_fuel]. by rewrite Hs.
Qed.

(** Cutting a concatenation of two digests at a known half. *)
Lemma node_preimage_l a b c d :
  _NODE_PREFIX ++ a ++ b = _NODE_PREFIX ++ c ++ d → length a = length c → a = c ∧ b = d.
Proof. intros E%app_inv_head. by apply app_eq_l. Qed.
Lemma node_preimage_r a b c d :
  _NODE_PREFIX ++ a ++ b = _NODE_PREFIX ++ c ++ d → length b = length d → a = c ∧ b = d.
Proof. intros E%app_inv_head. by apply app_eq_r. Qed.

(** ** Leaves *)

Lemma leaf_hashes_ok (es : list string) (leaves : list bytes) :
  leaf_hashes es = Ok leaves ↔ ∃ bs, mapM fromhex es = Ok bs ∧ leaves = _leaf_hash_bytes <$> bs.
Proof.
  unfold leaf_hashes. rewrite mapM_ok. split.
  - intros HF. induction HF as [|e x es xs He _ (bs & Hbs & ->)]; [by exists []|].
    ok_inv. exists (a :: bs). split; [|done]. cbn. rewrite Ha. cbn. by rewrite Hbs.
  - intros (bs & Hbs%mapM_ok & ->). induction Hbs as [|e b es bs He _ IH]; [constructor|].
    constructor; [by rewrite He|done].
Qed.

Lemma leaf_hashes_length (es : list string) (leaves : list bytes) : leaf_hashes es = Ok leaves → zlen leaves = zlen es.
Proof. intros Hl%mapM_ok_length. unfold zlen. lia. Qed.

(** The preimages hashed to compute the root over the entries [bs]. *)
Definition tree_inputs (bs : list bytes) : list bytes :=
  [] :: ((fun e => _LEAF_PREFIX ++ e) <$> bs) ++ mth_inputs (_leaf_hash_bytes <$> bs).

Lemma leaf_hashes_32 bs : Forall (fun x => length x = 32%nat) (_leaf_hash_bytes <$> bs).
Proof. apply Forall_fmap, Forall_true. intros. apply leaf_hash_length. Qed.

(** ** Audit paths *)

Lemma half_bounds (l : list bytes) f :
  1 < zlen l → zlen l ≤ 2 ^ Z.of_nat (S f) →
  let k := _largest_pow2_below (zlen l) in
  1 ≤ k < zlen l ∧ zlen (take (Z.to_nat k) l) = k ∧ zlen (drop (Z.to_nat k) l) = zlen l - k ∧
  k ≤ 2 ^ Z.of_nat f ∧ zlen l - k ≤ 2 ^ Z.of_nat f.
Proof.
  intros Hl Hf. destruct (largest_pow2_halves _ _ Hl Hf) as (? & ? & ? & ?).
  cbv zeta. rewrite zlen_take, zlen_drop by lia. lia.
Qed.

Lemma _mth_half l :
  1 < zlen l →
  let k := Z.to_nat (_largest_pow2_below (zlen l)) in
  _mth l = _node_hash (_mth (take k l)) (_mth (drop k l)).
Proof.
  intros Hl. destruct (largest_pow2_spec _ Hl) as (i & Hi & -> & Hb). by apply _mth_node.
Qed.

Lemma lookup_half {A} (l : list A) k m :
  0 ≤ k → 0 ≤ m →
  l !! Z.to_nat m =
    if m <? k then take (Z.to_nat k) l !! Z.to_nat m else drop (Z.to_nat k) l !! Z.to_nat (m - k).
Proof.
  intros Hk Hm. destruct (Z.ltb_spec m k).
  - rewrite lookup_take_lt by lia. done.
  - rewrite lookup_drop. f_equal. lia.
Qed.

Lemma path_len_acc f s m n : path_len_loop f s m n = n + path_len_loop f s m 0.
Proof.
  revert s m n. induction f as [|f IH]; intros s m n; cbn [path_len_loop]; [lia|].
  repeat case_if; rewrite ?(IH _ _ (n + 1)), ?(IH _ _ (0 + 1)); lia.
Qed.

Lemma path_len_range f s m : 0 ≤ path_len_loop f s m 0 ≤ Z.of_nat f.
Proof.
  revert s m. induction f as [|f IH]; intros s m; cbn [path_len_loop]; [lia|].
  repeat case_if; rewrite ?(path_len_acc _ _ _ (0 + 1)); try lia.
  - specialize (IH (_largest_pow2_below s) m). lia.
  - specialize (IH (s - _largest_pow2_below s) (m - _largest_pow2_below s)). lia.
Qed.

(** [inclusion_path] has the length the verifier expects. *)
Lemma inclusion_path_length f l m :
  0 ≤ m < zlen l → zlen l ≤ 2 ^ Z.of_nat f →
  zlen (inclusion_path f l m) = path_len_loop f (zlen l) m 0.
Proof.
  revert l m. induction f as [|f IH]; intros l m Hm Hf; [done|].
  cbn [inclusion_path path_len_loop].
  destruct (Z.eqb_spec (zlen l) 1) as [->|Hl]; [done|].
  replace (zlen l >? 1) with true by lia.
  destruct (half_bounds l f) as (? & Ht & Hd & ? & ?); [lia..|].
  rewrite !(path_len_acc _ _ _ (0 + 1)).
  destruct (Z.ltb_spec m (_largest_pow2_below (zlen l))); rewrite zlen_app, IH, ?Ht, ?Hd; zlen.
Qed.

(** The fold undoes the path, consuming it from the end of the siblings. *)
Lemma inclusion_fold_path f target l m rest :
  0 ≤ m < zlen l → zlen l ≤ 2 ^ Z.of_nat f → l !! Z.to_nat m = Some target →
  inclusion_fold f target (zlen l) m (rest ++ (hex <$> inclusion_path f l m)) = Ok (Some (_mth l), rest).
Proof.
  revert l m rest. induction f as [|f IH]; intros l m rest Hm Hf Ht.
  - assert (zlen l = 1) as [x ->]%zlen_one by (cbn in Hf; lia).
    cbn. replace (Z.to_nat m) with 0%nat in Ht by zlen.
    injection Ht as ->. by rewrite _mth_one, app_nil_r.
  - cbn [inclusion_fold inclusion_path].
    destruct (Z.eqb_spec (zlen l) 1) as [Hl|Hl].
    + apply zlen_one in Hl as [x ->]. replace (Z.to_nat m) with 0%nat in Ht by zlen.
      injection Ht as ->. by rewrite _mth_one, app_nil_r.
    + destruct (half_bounds l f) as (Hk & Htk & Hdk & ? & ?); [lia..|].
      rewrite (_mth_half l) by lia. rewrite (lookup_half _ (_largest_pow2_below (zlen l))) in Ht by lia.
      destruct (Z.ltb_spec m (_largest_pow2_below (zlen l))) as [Hmk|Hmk];
        rewrite fmap_app, fmap_cons, fmap_nil, app_assoc, py_pop_snoc, fromhex_hex; cbn [mbind outcome_bind].
      * pose proof (IH (take (Z.to_nat (_largest_pow2_below (zlen l))) l) m rest) as IH'.
        rewrite Htk in IH'. rewrite IH' by (done || lia). done.
      * pose proof (IH (drop (Z.to_nat (_largest_pow2_below (zlen l))) l) (m - _largest_pow2_below (zlen l)) rest) as IH'.
        rewrite Hdk in IH'. rewrite IH' by (done || lia). done.
Qed.
End MerkleTree.
