(* ===== verification/MerkleInclusion.v ===== *)
(** * Inclusion proofs: completeness, soundness and bounds *)

From S2P Require Import Prelude PyRuntime Sha256 Merkle MerkleTree.

Section Inclusion.
Context `{Sha256}.

(** ** The inputs the verifier hashes *)

Fixpoint fold_inputs (fuel : nat) (target : bytes) (size m : Z) (siblings : list string) : list bytes :=
  if size =? 1 then [] else
  match fuel, py_pop siblings with
  | S fuel', Some (siblings, outermost) =>
      let k := _largest_pow2_below size in
      match fromhex outermost with
      | Ok sibling =>
          if m <? k then
            match inclusion_fold fuel' target k m siblings with
            | Ok (Some child, _) => [_NODE_PREFIX ++ child ++ sibling]
            | _ => []
            end ++ fold_inputs fuel' target k m siblings
          else
            match inclusion_fold fuel' target (size - k) (m - k) siblings with
            | Ok (Some child, _) => [_NODE_PREFIX ++ sibling ++ child]
            | _ => []
            end ++ fold_inputs fuel' target (size - k) (m - k) siblings
      | Raise _ => []
      end
  | _, _ => []
  end.

Definition inclusion_inputs (leaf_entry_hex : string) (index tree_size : Z) (path : list string) : list bytes :=
  match fromhex leaf_entry_hex with
  | Ok e => (_LEAF_PREFIX ++ e) :: fold_inputs (depth_fuel tree_size) (_leaf_hash_bytes e) tree_size index path
  | Raise _ => []
  end.

(** One level of a successful fold. *)
Lemma inclusion_fold_step f target size m sibs r rest :
  size ≠ 1 → inclusion_fold (S f) target size m sibs = Ok (Some r, rest) →
  let k := _largest_pow2_below size in
  ∃ sibs' o sib child,
    sibs = sibs' ++ [o] ∧ fromhex o = Ok sib ∧
    if m <? k
    then inclusion_fold f target k m sibs' = Ok (Some child, rest) ∧ r = _node_hash child sib ∧
         fold_inputs (S f) target size m sibs = (_NODE_PREFIX ++ child ++ sib) :: fold_inputs f target k m sibs'
    else inclusion_fold f target (size - k) (m - k) sibs' = Ok (Some child, rest) ∧ r = _node_hash sib child ∧
         fold_inputs (S f) target size m sibs =
           (_NODE_PREFIX ++ sib ++ child) :: fold_inputs f target (size - k) (m - k) sibs'.
Proof.
  intros Hs Hf. cbn [inclusion_fold fold_inputs] in *.
  replace (size =? 1) with false in * by lia.
  destruct (py_pop sibs) as [[sibs' o]|] eqn:Hp; [|by injection Hf].
  apply py_pop_Some in Hp as ->. destruct (fromhex o) as [sib|e] eqn:Ho; [|discriminate Hf].
  cbn [mbind outcome_bind] in Hf.
  destruct (m <? _largest_pow2_below size) eqn:Hm.
  - destruct (inclusion_fold f target (_largest_pow2_below size) m sibs') as [[[c|] rest']|] eqn:E;
      cbn in Hf; try discriminate. injection Hf as <- <-.
    exists sibs', o, sib, c. eauto.
  - destruct (inclusion_fold f target (size - _largest_pow2_below size) (m - _largest_pow2_below size) sibs')
      as [[[c|] rest']|] eqn:E; cbn in Hf; try discriminate. injection Hf as <- <-.
    exists sibs', o, sib, c. eauto.
Qed.

Lemma inclusion_fold_one f target m sibs r rest :
  inclusion_fold f target 1 m sibs = Ok (Some r, rest) → r = target.
Proof. destruct f; cbn; congruence. Qed.

Lemma inclusion_fold_zero target size m sibs r rest :
  inclusion_fold 0 target size m sibs = Ok (Some r, rest) → size = 1.
Proof. cbn. destruct (Z.eqb_spec size 1); [done|discriminate]. Qed.

(** The digest a fold returns has 32 octets, whatever the siblings. *)
Lemma inclusion_fold_length f target size m sibs r rest :
  length target = 32%nat → inclusion_fold f target size m sibs = Ok (Some r, rest) → length r = 32%nat.
Proof.
  intros Ht Hf. destruct (Z.eq_dec size 1) as [->|Hs]; [by apply inclusion_fold_one in Hf as ->|].
  destruct f as [|f]; [by apply inclusion_fold_zero in Hf|].
  apply inclusion_fold_step in Hf as (? & ? & ? & ? & _ & _ & Hc); [|done].
  case_if_in Hc; destruct Hc as (_ & -> & _); apply node_hash_length.
Qed.

(** Leaf, node and empty-tree preimages are pairwise distinct. *)
Lemma leaf_node_disjoint e x : _LEAF_PREFIX ++ e ≠ _NODE_PREFIX ++ x.
Proof. discriminate. Qed.

(** The node preimage of a tree of at least two leaves, and its halves. *)
Lemma tree_split g (bs : list bytes) S :
  let l := _leaf_hash_bytes <$> bs in
  1 < zlen l → zlen l ≤ 2 ^ Z.of_nat (Datatypes.S g) → mth_inputs_fuel (Datatypes.S g) l ⊆ S →
  let k := _largest_pow2_below (zlen l) in
  let L := _leaf_hash_bytes <$> take (Z.to_nat k) bs in
  let R := _leaf_hash_bytes <$> drop (Z.to_nat k) bs in
  _mth l = _node_hash (_mth L) (_mth R) ∧ (_NODE_PREFIX ++ _mth L ++ _mth R) ∈ S ∧
  mth_inputs_fuel g L ⊆ S ∧ mth_inputs_fuel g R ⊆ S ∧
  1 ≤ k < zlen l ∧ zlen L = k ∧ zlen R = zlen l - k ∧
  zlen L ≤ 2 ^ Z.of_nat g ∧ zlen R ≤ 2 ^ Z.of_nat g.
Proof.
  cbv zeta. intros Hl Hg HS. rewrite fmap_take, fmap_drop.
  destruct (half_bounds _ _ Hl Hg) as (Hk & Ht & Hd & ? & ?).
  destruct (largest_pow2_spec _ Hl) as (i & Hi & Hki & Hb).
  rewrite (mth_inputs_node _ _ i), <- Hki in HS by done.
  rewrite Ht, Hd. split; [rewrite Hki; by apply _mth_node|]. set_solver.
Qed.

Lemma elem_of_take_drop {A} k (l : list A) x : x ∈ take k l ∨ x ∈ drop k l ↔ x ∈ l.
Proof. by rewrite <- elem_of_app, take_drop. Qed.

Section sound.
Context (S : list bytes) (e : bytes).
Context (Hempty : [] ∈ S) (Hleaf : (_LEAF_PREFIX ++ e) ∈ S).

(** A root accepted for the honest shape opens the leaf at its index. *)
Lemma fold_sound_at f bs m sibs rest :
  let l := _leaf_hash_bytes <$> bs in
  0 ≤ m < zlen l → zlen l ≤ 2 ^ Z.of_nat f →
  inclusion_fold f (_leaf_hash_bytes e) (zlen l) m sibs = Ok (Some (_mth l), rest) →
  fold_inputs f (_leaf_hash_bytes e) (zlen l) m sibs ⊆ S → mth_inputs_fuel f l ⊆ S →
  (∀ b, b ∈ bs → (_LEAF_PREFIX ++ b) ∈ S) →
  bs !! Z.to_nat m = Some e ∨ collision S.
Proof using Hempty Hleaf.
  cbv zeta. revert bs m sibs. induction f as [|f IH]; intros bs m sibs Hm Hf Hfold HV HT HB.
  all: destruct (Z.eq_dec (zlen (_leaf_hash_bytes <$> bs)) 1) as [Hl|Hl];
    [|try (cbn in Hf; lia)].
  1,2: rewrite Hl in Hfold; apply inclusion_fold_one in Hfold;
    rewrite zlen_fmap in Hl; apply zlen_one in Hl as [b ->]; cbn in Hfold, Hm;
    rewrite _mth_one in Hfold; replace (Z.to_nat m) with 0%nat by (change (zlen [_]) with 1 in Hm; lia);
    destruct (sha256_eq S _ _ Hfold) as [[= <-]|]; [apply HB; set_solver|done|by left|by right].
  assert (1 < zlen (_leaf_hash_bytes <$> bs)) as Hl1 by lia.
  destruct (tree_split f bs S Hl1 Hf HT) as (Hmth & Hin & HTL & HTR & Hk & HzL & HzR & ? & ?).
  rewrite Hmth in Hfold.
  apply inclusion_fold_step in Hfold as (sibs' & o & sib & c & -> & Ho & Hc); [|done].
  set (k := _largest_pow2_below (zlen (_leaf_hash_bytes <$> bs))) in *.
  rewrite (lookup_half _ k) by lia.
  assert (∀ b, b ∈ take (Z.to_nat k) bs ∨ b ∈ drop (Z.to_nat k) bs → (_LEAF_PREFIX ++ b) ∈ S) as HB'.
  { intros b Hb. by apply HB, (elem_of_take_drop (Z.to_nat k)). }
  destruct (Z.ltb_spec m k) as [Hmk|Hmk]; destruct Hc as (Hfold & Heq & Htr); rewrite Htr in HV.
  - destruct (sha256_eq S _ _ Heq) as [Hpre|]; [set_solver..| |by right].
    apply node_preimage_l in Hpre as [<- _];
      [|by rewrite _mth_length, (inclusion_fold_length _ _ _ _ _ _ _ (leaf_hash_length e) Hfold)
         by apply leaf_hashes_32].
    specialize (IH (take (Z.to_nat k) bs) m sibs'). rewrite HzL in IH. apply IH; auto; [lia..|set_solver].
  - destruct (sha256_eq S _ _ Heq) as [Hpre|]; [set_solver..| |by right].
    apply node_preimage_r in Hpre as [_ <-];
      [|by rewrite _mth_length, (inclusion_fold_length _ _ _ _ _ _ _ (leaf_hash_length e) Hfold)
         by apply leaf_hashes_32].
    specialize (IH (drop (Z.to_nat k) bs) (m - k) sibs'). rewrite HzR in IH. apply IH; auto; [lia..|set_solver].
Qed.

(** A tree of no entry has no preimage but the empty one. *)
Lemma empty_collides bs x :
  zlen bs = 0 → x ∈ S → x ≠ [] → _mth (_leaf_hash_bytes <$> bs) = sha256 x → collision S.
Proof using Hempty.
  intros Hl%zlen_zero Hx Hne Heq. rewrite Hl in Heq. destruct (sha256_eq S _ _ Heq) as [<-|]; done.
Qed.

(** A leaf is no node. *)
Lemma leaf_node_collides b x :
  (_LEAF_PREFIX ++ b) ∈ S → (_NODE_PREFIX ++ x) ∈ S → _leaf_hash_bytes b = sha256 (_NODE_PREFIX ++ x) → collision S.
Proof. intros Hb Hx Heq. destruct (sha256_eq S _ _ Heq) as [Hd|]; [done..| |done]. discriminate Hd. Qed.

(** A root that is the leaf hash itself. *)
Lemma root_is_leaf g bs :
  zlen (_leaf_hash_bytes <$> bs) ≤ 2 ^ Z.of_nat g → mth_inputs_fuel g (_leaf_hash_bytes <$> bs) ⊆ S →
  (∀ b, b ∈ bs → (_LEAF_PREFIX ++ b) ∈ S) → _mth (_leaf_hash_bytes <$> bs) = _leaf_hash_bytes e →
  e ∈ bs ∨ collision S.
Proof using Hempty Hleaf.
  intros Hg HT HB Heq. destruct (Z.lt_trichotomy (zlen bs) 1) as [Hl|[Hl|Hl]].
  - right. apply (empty_collides bs (_LEAF_PREFIX ++ e)); [pose proof (zlen_nonneg bs); lia|done|done|exact Heq].
  - apply zlen_one in Hl as [b ->]. cbn in Heq. rewrite _mth_one in Heq.
    destruct (sha256_eq S _ _ Heq) as [[= ->]|]; [apply HB; set_solver|done|left; set_solver|by right].
  - right. destruct g as [|g]; [rewrite zlen_fmap in Hg; cbn in Hg; lia|].
    destruct (tree_split g bs S) as (Hmth & Hin & _); [rewrite ?zlen_fmap in *; lia..|done|].
    rewrite Hmth in Heq. symmetry in Heq. exact (leaf_node_collides _ _ Hleaf Hin Heq).
Qed.

(** Whatever size and index the proof claims, an accepted leaf is one of
    the entries under the root. *)
Lemma fold_sound_member f g bs size m sibs rest :
  let l := _leaf_hash_bytes <$> bs in
  zlen l ≤ 2 ^ Z.of_nat g →
  inclusion_fold f (_leaf_hash_bytes e) size m sibs = Ok (Some (_mth l), rest) →
  fold_inputs f (_leaf_hash_bytes e) size m sibs ⊆ S → mth_inputs_fuel g l ⊆ S →
  (∀ b, b ∈ bs → (_LEAF_PREFIX ++ b) ∈ S) →
  e ∈ bs ∨ collision S.
Proof using Hempty Hleaf.
  cbv zeta. revert g bs size m sibs.
  induction f as [|f IH]; intros g bs size m sibs Hg Hfold HV HT HB.
  all: destruct (Z.eq_dec size 1) as [->|Hs];
    [|try by apply inclusion_fold_zero in Hfold].
  1,2: apply inclusion_fold_one in Hfold; by eapply root_is_leaf.
  apply inclusion_fold_step in Hfold as (sibs' & o & sib & c & -> & Ho & Hc); [|done].
  set (k := _largest_pow2_below size) in *.
  assert (∃ a b s' m', _mth (_leaf_hash_bytes <$> bs) = _node_hash a b ∧
            (_NODE_PREFIX ++ a ++ b) ∈ S ∧
            inclusion_fold f (_leaf_hash_bytes e) s' m' sibs' = Ok (Some c, rest) ∧
            fold_inputs f (_leaf_hash_bytes e) s' m' sibs' ⊆ S ∧
            (a = c ∨ b = c)) as (a & b & s' & m' & Heq & Hab & Hf' & HV' & Hc').
  { case_if_in Hc; destruct Hc as (Hf' & Heq & Htr); rewrite Htr in HV;
      [exists c, sib, k, m|exists sib, c, (size - k), (m - k)];
      (split_and!; [exact Heq|apply HV; left|exact Hf'|intros x Hx; apply HV; by right|auto]). }
  clear Hc HV. pose proof (inclusion_fold_length _ _ _ _ _ _ _ (leaf_hash_length e) Hf') as Hlc.
  destruct (Z.lt_trichotomy (zlen bs) 1) as [Hl|[Hl|Hl]].
  - right. apply (empty_collides bs (_NODE_PREFIX ++ a ++ b)); [pose proof (zlen_nonneg bs); lia|done|done|exact Heq].
  - apply zlen_one in Hl as [x ->]. right. cbn in Heq. rewrite _mth_one in Heq.
    refine (leaf_node_collides _ _ _ Hab Heq). apply HB; set_solver.
  - destruct g as [|g]; [rewrite zlen_fmap in Hg; cbn in Hg; lia|].
    destruct (tree_split g bs S) as (Hmth & Hin & HTL & HTR & _ & _ & _ & HgL & HgR);
      [rewrite ?zlen_fmap in *; lia..|done|].
    set (k' := _largest_pow2_below (zlen (_leaf_hash_bytes <$> bs))) in *.
    pose proof (_mth_length _ (leaf_hashes_32 (take (Z.to_nat k') bs))) as HlL.
    pose proof (_mth_length _ (leaf_hashes_32 (drop (Z.to_nat k') bs))) as HlR.
    assert (∀ x, x ∈ take (Z.to_nat k') bs ∨ x ∈ drop (Z.to_nat k') bs → (_LEAF_PREFIX ++ x) ∈ S) as HB'.
    { intros x Hx. by apply HB, (elem_of_take_drop (Z.to_nat k')). }
    rewrite Hmth in Heq. destruct (sha256_eq S _ _ Heq) as [Hpre|]; [done..| |by right].
    rewrite <- (elem_of_take_drop (Z.to_nat k')).
    destruct Hc' as [->| ->].
    + apply node_preimage_l in Hpre as [<- _]; [|congruence].
      destruct (IH g (take (Z.to_nat k') bs) s' m' sibs'); auto.
    + apply node_preimage_r in Hpre as [_ <-]; [|congruence].
      destruct (IH g (drop (Z.to_nat k') bs) s' m' sibs'); auto.
Qed.
End sound.

(** ** The tree hash of RFC 6962 *)

(** The recursive definition of RFC 6962 section 2.1 over the entries, as a
    relation: the hash of no entry, of one entry with its leaf octet, and of
    a split at a power of two with the node octet. *)
Inductive MTH : list bytes → bytes → Prop :=
| MTH_empty : MTH [] (sha256 [])
| MTH_leaf e : MTH [e] (sha256 (x00 :: e))
| MTH_node i l1 l2 d1 d2 :
    0 ≤ i → zlen l1 = 2 ^ i → 0 < zlen l2 ≤ 2 ^ i → MTH l1 d1 → MTH l2 d2 →
    MTH (l1 ++ l2) (sha256 (x01 :: d1 ++ d2)).

Lemma MTH_mth bs : MTH bs (_mth (_leaf_hash_bytes <$> bs)).
Proof.
  induction bs as [|x|l i Hi Hb IHl IHr] using merkle_ind; [constructor|cbn; rewrite _mth_one; constructor|].
  pose proof (pow2_pos i Hi). rewrite pow2_S in Hb by lia.
  rewrite (_mth_node _ i), <- fmap_take, <- fmap_drop by (rewrite ?zlen_fmap, ?(pow2_S i) by lia; lia).
  rewrite <- (take_drop (Z.to_nat (2 ^ i)) l) at 1.
  change (_node_hash ?d1 ?d2) with (sha256 (x01 :: d1 ++ d2)).
  eapply (MTH_node i _ _ _ _ Hi); [| |exact IHl|exact IHr]; rewrite ?zlen_take, ?zlen_drop by lia; lia.
Qed.

Lemma mth_MTH bs d : MTH bs d → _mth (_leaf_hash_bytes <$> bs) = d.
Proof.
  induction 1 as [| |i l1 l2 d1 d2 Hi H1 H2 _ <- _ <-]; [done|apply _mth_one|].
  pose proof (pow2_pos i Hi).
  rewrite (_mth_node _ i) by (rewrite ?zlen_fmap, ?zlen_app, ?pow2_S; lia).
  assert (Z.to_nat (2 ^ i) = length l1) as -> by (unfold zlen in H1; lia).
  by rewrite fmap_app, take_app_length', drop_app_length' by (symmetry; apply length_fmap).
Qed.

(** C1: [merkle_root] computes exactly the Merkle tree hash that RFC 6962
    defines, on every list of well-formed entries: it returns the digest
    that [MTH] relates to them and no other; on entries that are not all
    hexadecimal text it raises. *)
Theorem merkle_root_rfc6962 (entries : list string) (root : string) :
  merkle_root entries = Ok root ↔ ∃ bs d, mapM fromhex entries = Ok bs ∧ MTH bs d ∧ root = hex d.
Proof.
  unfold merkle_root. rewrite bind_ok. split.
  - intros (l & (bs & Hbs & ->)%leaf_hashes_ok & [= <-]). eauto using MTH_mth.
  - intros (bs & d & Hbs & <-%mth_MTH & ->). exists (_leaf_hash_bytes <$> bs).
    split; [|done]. apply leaf_hashes_ok. eauto.
Qed.

Lemma inclusion_path_32 f l m :
  Forall (fun x => length x = 32%nat) l → Forall (fun x => length x = 32%nat) (inclusion_path f l m).
Proof.
  revert l m. induction f as [|f IH]; intros l m Hl; cbn [inclusion_path]; [constructor|].
  repeat case_if; [constructor|..]; apply Forall_app_2;
    auto using Forall_take, Forall_drop; apply Forall_singleton, _mth_length; auto using Forall_take, Forall_drop.
Qed.

(** The proof [inclusion_proof] makes folds to the root. *)
Lemma inclusion_proof_root (entries : list string) (i : Z) (e root : string) :
  zlen entries ≤ MAX_TREE_SIZE → 0 ≤ i → entries !! Z.to_nat i = Some e →
  merkle_root entries = Ok root →
  ∃ nodes, inclusion_proof entries i = Ok (hex <$> nodes) ∧ Forall (fun x => length x = 32%nat) nodes ∧
    i < zlen entries ∧ zlen nodes = _expected_inclusion_path_len (zlen entries) i ∧
    root_from_inclusion_proof e i (zlen entries) (hex <$> nodes) = Ok (Some root).
Proof.
  intros Hmax Hi He Hroot. unfold merkle_root in Hroot. ok_inv. rename a into leaves.
  pose proof (leaf_hashes_length _ _ Ha) as Hlen.
  assert (i < zlen entries) as Hlt by (apply lookup_lt_Some in He; unfold zlen; lia).
  apply leaf_hashes_ok in Ha as Hbs. destruct Hbs as (bs & Hbs & ->). apply mapM_ok in Hbs.
  destruct (Forall2_lookup_l _ _ _ _ _ Hbs He) as (b & Hb & Hhex).
  exists (inclusion_path (depth_fuel (zlen entries)) (_leaf_hash_bytes <$> bs) i).
  assert (zlen (inclusion_path (depth_fuel (zlen entries)) (_leaf_hash_bytes <$> bs) i) =
    _expected_inclusion_path_len (zlen entries) i) as Hpath.
  { unfold _expected_inclusion_path_len. rewrite <- Hlen. apply inclusion_path_length; auto with scitt lia. }
  split_and!; [|apply inclusion_path_32, leaf_hashes_32|done|done|].
  - unfold inclusion_proof. replace ((0 <=? i) && (i <? zlen entries)) with true by lia.
    cbn [negb]. by rewrite Ha.
  - unfold root_from_inclusion_proof. rewrite zlen_fmap, Hpath, Z.eqb_refl.
    replace (zlen _ >? MAX_TREE_SIZE) with false by lia.
    replace ((0 <=? i) && (i <? _)) with true by lia. cbn [negb orb]. rewrite Hhex. cbn [mbind outcome_bind].
    rewrite <- Hlen, <- (app_nil_l (hex <$> _)), inclusion_fold_path; [done|lia|auto with scitt|by rewrite list_lookup_fmap, Hb].
Qed.

(** C24: [verify_inclusion] accepts the proof [inclusion_proof] makes, for
    every index of every tree of at most [MAX_TREE_SIZE] well-formed entries. *)
Theorem verify_inclusion_complete (entries : list string) (i : Z) (e root : string) :
  zlen entries ≤ MAX_TREE_SIZE → 0 ≤ i → entries !! Z.to_nat i = Some e →
  merkle_root entries = Ok root →
  ∃ path, inclusion_proof entries i = Ok path ∧ verify_inclusion e i (zlen entries) path root = Ok true.
Proof.
  intros Hmax Hi He Hroot. destruct (inclusion_proof_root _ _ _ _ Hmax Hi He Hroot) as (nodes & Hp & _ & _ & _ & Hr).
  eexists. split; [exact Hp|]. unfold verify_inclusion. rewrite Hr. cbn. by rewrite bool_decide_eq_true_2.
Qed.

(** A fold over a path of the expected length consumes the path. *)
Lemma inclusion_fold_total f target size m nodes rest :
  length target = 32%nat → 0 ≤ m < size → size ≤ 2 ^ Z.of_nat f → zlen nodes = path_len_loop f size m 0 →
  ∃ r, length r = 32%nat ∧ inclusion_fold f target size m (rest ++ (hex <$> nodes)) = Ok (Some r, rest).
Proof.
  intros Ht. revert size m nodes. induction f as [|f IH]; intros size m nodes Hm Hf Hn.
  { assert (size = 1) as -> by (cbn in Hf; lia). cbn in *. apply zlen_zero in Hn as ->.
    exists target. by rewrite app_nil_r. }
  cbn [inclusion_fold path_len_loop] in *. destruct (Z.eqb_spec size 1) as [->|Hs].
  { cbn in Hn. apply zlen_zero in Hn as ->. exists target. by rewrite app_nil_r. }
  replace (size >? 1) with true in Hn by lia. set (k := _largest_pow2_below size) in *.
  pose proof (largest_pow2_halves size f ltac:(lia) Hf) as Hk. cbv zeta in Hk. fold k in Hk.
  assert (∀ s m', zlen nodes = path_len_loop f s m' (0 + 1) →
    ∃ nodes' x, nodes = nodes' ++ [x] ∧ zlen nodes' = path_len_loop f s m' 0) as Hsplit.
  { intros s m' Hl. rewrite path_len_acc in Hl. pose proof (path_len_range f s m') as Hr.
    destruct nodes as [|x nodes' _] using rev_ind; [rewrite zlen_nil in Hl; lia|].
    exists nodes', x. split; [done|]. rewrite zlen_app, zlen_one_elem in Hl. lia. }
  case_if_in Hn; apply Hsplit in Hn as (nodes' & x & -> & Hn); rewrite fmap_app, app_assoc; cbn [fmap list_fmap];
    rewrite py_pop_snoc, fromhex_hex; cbn [mbind outcome_bind].
  - destruct (IH k m nodes' ltac:(lia) ltac:(lia) Hn) as (r & _ & ->). eexists. split; [|done]. apply node_hash_length.
  - destruct (IH (size - k) (m - k) nodes' ltac:(lia) ltac:(lia) Hn) as (r & _ & ->). eexists. split; [|done]. apply node_hash_length.
Qed.

Lemma verify_inclusion_true leaf i n path root :
  verify_inclusion leaf i n path root = Ok true →
  ∃ e r, fromhex leaf = Ok e ∧ root = hex r ∧ 0 ≤ i < n ∧ n ≤ MAX_TREE_SIZE ∧
    zlen path = _expected_inclusion_path_len n i ∧
    inclusion_fold (depth_fuel n) (_leaf_hash_bytes e) n i path = Ok (Some r, []) ∧
    inclusion_inputs leaf i n path =
      (_LEAF_PREFIX ++ e) :: fold_inputs (depth_fuel n) (_leaf_hash_bytes e) n i path.
Proof.
  unfold verify_inclusion, root_from_inclusion_proof, inclusion_inputs. intros Hv. ok_inv.
  destruct a as [c|]; [|discriminate Hv]. apply bool_decide_eq_true_1 in Hv as ->.
  destruct (negb _ || _) eqn:Hr in Ha; [discriminate Ha|].
  destruct (negb (zlen path =? _)) eqn:Hp in Ha; [discriminate Ha|].
  ok_inv. destruct a0 as [[r|] [|? ?]]; try discriminate Ha. injection Ha as <-.
  exists a, r. rewrite Ha0. repeat split; try done; lia.
Qed.

(** The inputs the soundness lemmas ask for are listed. *)
Lemma verdict_inputs_subset e bs V :
  let S := ((_LEAF_PREFIX ++ e) :: V) ++ tree_inputs bs in
  [] ∈ S ∧ (_LEAF_PREFIX ++ e) ∈ S ∧ V ⊆ S ∧
  mth_inputs_fuel (depth_fuel (zlen (_leaf_hash_bytes <$> bs))) (_leaf_hash_bytes <$> bs) ⊆ S ∧
  (∀ b, b ∈ bs → (_LEAF_PREFIX ++ b) ∈ S).
Proof. unfold tree_inputs, mth_inputs. set_solver. Qed.

(** What acceptance under the root of a log entails for the entry. *)
Lemma accepted_leaf (entries : list string) (bs : list bytes) leaf i n path root :
  mapM fromhex entries = Ok bs → merkle_root entries = Ok root →
  verify_inclusion leaf i n path root = Ok true →
  ∃ e, fromhex leaf = Ok e ∧
    ((e ∈ bs ∧ (n = zlen entries → bs !! Z.to_nat i = Some e)) ∨
     collision (inclusion_inputs leaf i n path ++ tree_inputs bs)).
Proof.
  intros Hbs Hroot (e & r & He & -> & Hi & _ & _ & Hfold & ->)%verify_inclusion_true.
  exists e. split; [done|]. unfold merkle_root in Hroot. ok_inv.
  apply leaf_hashes_ok in Ha as (bs' & Hbs' & ->). assert (bs' = bs) as -> by congruence.
  apply hex_inj in Hroot as <-.
  destruct (verdict_inputs_subset e bs (fold_inputs (depth_fuel n) (_leaf_hash_bytes e) n i path))
    as (He0 & He1 & HV & HT & HB).
  destruct (fold_sound_member _ e He0 He1 _ _ bs n i path [] (depth_fuel_enough _) Hfold HV HT HB); [|eauto].
  destruct (Z.eq_dec n (zlen entries)) as [->|]; [|by left].
  assert (zlen entries = zlen (_leaf_hash_bytes <$> bs)) as Hlen.
  { rewrite zlen_fmap. unfold zlen. by rewrite (mapM_ok_length _ _ _ Hbs). }
  rewrite Hlen in *.
  destruct (fold_sound_at _ e He0 He1 _ bs i path [] Hi (depth_fuel_enough _) Hfold HV HT HB); eauto.
Qed.

(** C2: an accepted proof with the tree's own size opens the entry at the
    claimed index, up to a SHA-256 collision among the inputs hashed by the
    verifier and by the tree. *)
Theorem verify_inclusion_sound (entries : list string) (bs : list bytes) leaf i path root :
  mapM fromhex entries = Ok bs → merkle_root entries = Ok root →
  verify_inclusion leaf i (zlen entries) path root = Ok true →
  (∃ e, fromhex leaf = Ok e ∧ bs !! Z.to_nat i = Some e) ∨
  collision (inclusion_inputs leaf i (zlen entries) path ++ tree_inputs bs).
Proof.
  intros Hbs Hroot Hv. destruct (accepted_leaf _ _ _ _ _ _ _ Hbs Hroot Hv) as (e & He & [[_ Hat]|]); [|by right].
  left. exists e. by auto.
Qed.

(** The size and index a proof claims need not be trusted for
    membership: an accepted leaf is one of the entries under the root
    whatever [tree_size] and [index] say, up to an explicit collision. *)
Theorem verify_inclusion_member (entries : list string) (bs : list bytes) leaf i n path root :
  mapM fromhex entries = Ok bs → merkle_root entries = Ok root →
  verify_inclusion leaf i n path root = Ok true →
  (∃ e, fromhex leaf = Ok e ∧ e ∈ bs) ∨
  collision (inclusion_inputs leaf i n path ++ tree_inputs bs).
Proof.
  intros Hbs Hroot Hv. destruct (accepted_leaf _ _ _ _ _ _ _ Hbs Hroot Hv) as (e & He & [[Hin _]|]); [|by right].
  left. by exists e.
Qed.

(** Resource bound: a proof is only folded when [0 <= index <
    tree_size <= 2^62] and the path has exactly the leaf's depth, which is
    at most 62; any other proof is refused before a hash is computed. *)
Theorem root_from_inclusion_proof_bounds leaf i n path root :
  root_from_inclusion_proof leaf i n path = Ok (Some root) →
  0 ≤ i < n ∧ n ≤ 2 ^ 62 ∧ zlen path = _expected_inclusion_path_len n i ∧ zlen path ≤ 62.
Proof.
  intros Hr. assert (verify_inclusion leaf i n path root = Ok true) as Hv.
  { unfold verify_inclusion. rewrite Hr. cbn. by rewrite bool_decide_eq_true_2. }
  apply verify_inclusion_true in Hv as (_ & _ & _ & _ & Hi & Hn & Hp & _).
  change MAX_TREE_SIZE with (2 ^ Z.of_nat 62) in Hn.
  pose proof (depth_fuel_bound n 62 Hn). unfold _expected_inclusion_path_len in *.
  pose proof (path_len_range (depth_fuel n) n i). split_and!; (done || lia).
Qed.
End Inclusion.

(** ** Witnesses *)

Module InclusionWitness.
#[local] Existing Instance Toy.instance.
Definition entries : list string := ["61"; "62"; "63"; "64"; "65"].
Definition bs : list bytes := [[x61]; [x62]; [x63]; [x64]; [x65]].
Definition root : string := match merkle_root entries with Ok r => r | Raise _ => "" end.
Definition path : list string := match inclusion_proof entries 2 with Ok p => p | Raise _ => [] end.
End InclusionWitness.

Lemma verify_inclusion_complete_witness :
  ∃ path, inclusion_proof (H := Toy.instance) InclusionWitness.entries 2 = Ok path ∧
    verify_inclusion (H := Toy.instance) "63" 2 5 path InclusionWitness.root = Ok true.
Proof.
  apply (verify_inclusion_complete (H := Toy.instance) InclusionWitness.entries 2 "63").
  - vm_compute. discriminate.
  - lia.
  - reflexivity.
  - vm_compute. reflexivity.
Defined.

Lemma verify_inclusion_sound_witness :
  (∃ e, fromhex "63" = Ok e ∧ InclusionWitness.bs !! Z.to_nat 2 = Some e) ∨
  collision (H := Toy.instance)
    (inclusion_inputs (H := Toy.instance) "63" 2 (zlen InclusionWitness.entries) InclusionWitness.path ++
     tree_inputs (H := Toy.instance) InclusionWitness.bs).
Proof.
  apply (verify_inclusion_sound (H := Toy.instance) _ _ _ _ _ InclusionWitness.root);
    vm_compute; reflexivity.
Defined.

Lemma verify_inclusion_member_witness :
  (∃ e, fromhex "63" = Ok e ∧ e ∈ InclusionWitness.bs) ∨
  collision (H := Toy.instance)
    (inclusion_inputs (H := Toy.instance) "63" 2 5 InclusionWitness.path ++
     tree_inputs (H := Toy.instance) InclusionWitness.bs).
Proof.
  apply (verify_inclusion_member (H := Toy.instance) InclusionWitness.entries _ _ _ _ _ InclusionWitness.root);
    vm_compute; reflexivity.
Defined.

Lemma root_from_inclusion_proof_bounds_witness :
  0 ≤ 2 < 5 ∧ 5 ≤ 2 ^ 62 ∧ zlen InclusionWitness.path = _expected_inclusion_path_len 5 2 ∧
  zlen InclusionWitness.path ≤ 62.
Proof.
  apply (root_from_inclusion_proof_bounds (H := Toy.instance) "63" 2 5 InclusionWitness.path InclusionWitness.root).
  vm_compute. reflexivity.
Defined.
