(* ===== verification/MerkleConsistency.v ===== *)
(** * Consistency proofs

    The verifier walks the two trees level by level: at level [j] it stands
    on the node of index [(m - 1) / 2^j] of both trees.  The proofs follow
    that walk; [emit] is the proof node the walk consumes at each level. *)

From S2P Require Import Prelude PyRuntime Sha256 Merkle MerkleTree.

(** ** The bit operations of the walk *)

Lemma low_bit_odd z : low_bit z = Z.odd z.
Proof.
  unfold low_bit. change 1 with (Z.ones 1). rewrite Z.land_ones, Zmod_odd by lia. by destruct (Z.odd z).
Qed.

Lemma shiftr_1 z : Z.shiftr z 1 = z / 2.
Proof. by rewrite Z.shiftr_div_pow2. Qed.

Lemma odd_parity z : z = 2 * (z / 2) + (if Z.odd z then 1 else 0).
Proof. rewrite <- Zmod_odd. apply Z.div_mod. lia. Qed.

Lemma nbits_enough z : 0 ≤ z → z < 2 ^ Z.of_nat (nbits z).
Proof.
  intros Hz. unfold nbits. pose proof (Z.log2_nonneg z). rewrite Z2Nat.id by lia.
  destruct (Z.eq_dec z 0) as [->|]; [done|]. pose proof (Z.log2_spec z). lia.
Qed.

Lemma nbits_half z : 1 < z → nbits z = S (nbits (z / 2)).
Proof.
  intros Hz. unfold nbits. rewrite <- shiftr_1, Z.log2_shiftr by lia.
  assert (1 ≤ Z.log2 z) by (apply (Z.log2_le_mono 2); lia). lia.
Qed.

(** [m & (m - 1)] recurses with the bits of [m - 1]. *)
Lemma land_pred_odd a : Z.land (2 * (a + 1)) (2 * a + 1) = 2 * Z.land (a + 1) a.
Proof.
  apply Z.bits_inj'. intros n Hn. rewrite Z.land_spec.
  destruct (Z.eq_dec n 0) as [->|]; [by rewrite !Z.testbit_even_0|].
  replace n with (Z.succ (n - 1)) by lia.
  by rewrite Z.testbit_odd_succ, !Z.testbit_even_succ, Z.land_spec by lia.
Qed.

Lemma land_pred_even a : Z.land (2 * a + 1) (2 * a) = 2 * a.
Proof.
  apply Z.bits_inj'. intros n Hn. rewrite Z.land_spec.
  destruct (Z.eq_dec n 0) as [->|]; [by rewrite Z.testbit_even_0, andb_false_r|].
  replace n with (Z.succ (n - 1)) by lia.
  by rewrite Z.testbit_odd_succ, Z.testbit_even_succ, andb_diag by lia.
Qed.

(** The trailing ones of [fn]: where the stripping loop stops, and what that
    says of [fn + 1]. *)
Lemma strip_ones_spec fuel fn sn :
  0 ≤ fn < 2 ^ Z.of_nat fuel →
  ∃ j, 0 ≤ j ∧ strip_ones fuel fn sn = (fn / 2 ^ j, sn / 2 ^ j) ∧
    Z.odd (fn / 2 ^ j) = false ∧ fn + 1 = (fn / 2 ^ j + 1) * 2 ^ j ∧
    (Z.land (fn + 1) fn = 0 ↔ fn / 2 ^ j = 0).
Proof.
  revert fn sn. induction fuel as [|f IH]; intros fn sn Hfn.
  - exists 0. cbn in Hfn. assert (fn = 0) as -> by lia. rewrite Z.pow_0_r, !Z.div_1_r. done.
  - cbn [strip_ones]. rewrite low_bit_odd, !shiftr_1. pose proof (odd_parity fn) as Hpar.
    destruct (Z.odd fn) eqn:Ho.
    + destruct (IH (fn / 2) (sn / 2)) as (j & Hj & -> & Hodd & Hsucc & Hland).
      { rewrite Nat2Z.inj_succ, <- Z.add_1_r, pow2_S in Hfn by lia. lia. }
      exists (j + 1). pose proof (pow2_pos j Hj). rewrite pow2_S by lia.
      rewrite <- !(Z.div_div _ 2) by lia. split_and!; [lia|done|done|lia|].
      rewrite <- Hland. rewrite Hpar at 1 2.
      replace (2 * (fn / 2) + 1 + 1) with (2 * (fn / 2 + 1)) by lia. rewrite land_pred_odd. lia.
    + exists 0. rewrite Z.pow_0_r, !Z.div_1_r. split_and!; try done; [lia|].
      rewrite Hpar at 1 2. rewrite Z.add_0_r, land_pred_even. lia.
Qed.

Lemma strip_zeros_odd fuel fn sn : Z.odd fn = true → strip_zeros fuel fn sn = (fn, sn).
Proof. destruct fuel; cbn [strip_zeros]; [done|]. by rewrite low_bit_odd; intros ->. Qed.

Lemma strip_zeros_even fn sn :
  Z.odd fn = false → 0 < fn →
  strip_zeros (nbits fn) fn sn = strip_zeros (nbits (fn / 2)) (fn / 2) (sn / 2).
Proof.
  intros Ho Hfn. pose proof (odd_parity fn) as Hpar. rewrite Ho in Hpar.
  rewrite nbits_half by lia. cbn [strip_zeros]. rewrite low_bit_odd, Ho, !shiftr_1.
  by replace (fn =? 0) with false by lia.
Qed.

Section Consistency.
Context `{Sha256}.

(** ** Nodes of a tree by level and index *)

Definition node (l : list bytes) (j i : Z) : bytes :=
  _mth (take (Z.to_nat (2 ^ j)) (drop (Z.to_nat (i * 2 ^ j)) l)).

Lemma node_root l j : 0 ≤ j → zlen l ≤ 2 ^ j → node l j 0 = _mth l.
Proof. intros Hj Hl. unfold node, zlen in *. rewrite Z.mul_0_l, drop_0, take_ge; [done|lia]. Qed.

Lemma take_drop_double {A} (l : list A) j i :
  0 ≤ j → 0 ≤ i →
  take (Z.to_nat (2 ^ j)) (take (Z.to_nat (2 ^ (j + 1))) (drop (Z.to_nat (i * 2 ^ (j + 1))) l)) =
    take (Z.to_nat (2 ^ j)) (drop (Z.to_nat (2 * i * 2 ^ j)) l) ∧
  drop (Z.to_nat (2 ^ j)) (take (Z.to_nat (2 ^ (j + 1))) (drop (Z.to_nat (i * 2 ^ (j + 1))) l)) =
    take (Z.to_nat (2 ^ j)) (drop (Z.to_nat ((2 * i + 1) * 2 ^ j)) l).
Proof.
  intros Hj Hi. pose proof (pow2_pos j Hj). rewrite pow2_S by lia. split.
  - rewrite take_take. f_equal; [lia|]. f_equal. lia.
  - rewrite skipn_firstn_comm, drop_drop. f_equal; [lia|]. f_equal. lia.
Qed.

(** A node is the hash of its children, or its only child. *)
Lemma node_up l j i :
  0 ≤ j → 0 ≤ i → (2 * i + 1) * 2 ^ j < zlen l →
  node l (j + 1) i = _node_hash (node l j (2 * i)) (node l j (2 * i + 1)).
Proof.
  intros Hj Hi Hl. pose proof (pow2_pos j Hj). destruct (take_drop_double l j i Hj Hi) as [E1 E2].
  unfold node at 1. rewrite (_mth_node _ j), E1, E2; [done|done|].
  rewrite zlen_take, zlen_drop, !pow2_S by (rewrite ?pow2_S; lia). lia.
Qed.

Lemma node_up_only l j i :
  0 ≤ j → 0 ≤ i → 2 * i * 2 ^ j < zlen l ≤ (2 * i + 1) * 2 ^ j →
  node l (j + 1) i = node l j (2 * i).
Proof.
  intros Hj Hi Hl. pose proof (pow2_pos j Hj). unfold node, zlen in *.
  rewrite pow2_S by lia. replace (i * (2 * 2 ^ j)) with (2 * i * 2 ^ j) by lia.
  rewrite !take_ge; [done|rewrite length_drop; lia..].
Qed.

(** Complete nodes of a prefix are nodes of the whole. *)
Lemma node_prefix l m j i :
  0 ≤ j → 0 ≤ i → (i + 1) * 2 ^ j ≤ m → m ≤ zlen l → node (take (Z.to_nat m) l) j i = node l j i.
Proof.
  intros Hj Hi Hm Hl. pose proof (pow2_pos j Hj). unfold node. f_equal.
  rewrite skipn_firstn_comm, take_take. f_equal. lia.
Qed.

Lemma node_length l j i :
  Forall (fun x => length x = 32%nat) l → length (node l j i) = 32%nat.
Proof. intros Hl. apply _mth_length, Forall_take, Forall_drop, Hl. Qed.

(** The preimages the loop hashes. *)
Fixpoint loop_inputs (nodes : list bytes) (fn sn : Z) (fr sr : bytes) : list bytes :=
  match nodes with
  | [] => []
  | node :: nodes' =>
      if sn =? 0 then []
      else if low_bit fn || (fn =? sn) then
        (_NODE_PREFIX ++ node ++ fr) :: (_NODE_PREFIX ++ node ++ sr) ::
        let '(fn, sn) := strip_zeros (nbits fn) fn sn in
        loop_inputs nodes' (Z.shiftr fn 1) (Z.shiftr sn 1) (_node_hash node fr) (_node_hash node sr)
      else
        (_NODE_PREFIX ++ sr ++ node) ::
        loop_inputs nodes' (Z.shiftr fn 1) (Z.shiftr sn 1) fr (_node_hash sr node)
  end.

(** Every node preimage of the level decomposition is one the tree hashes. *)
Lemma node_input l f j i :
  zlen l ≤ 2 ^ Z.of_nat f → 0 ≤ j → 0 ≤ i → (2 * i + 1) * 2 ^ j < zlen l →
  (_NODE_PREFIX ++ node l j (2 * i) ++ node l j (2 * i + 1)) ∈ mth_inputs_fuel f l.
Proof.
  intros Hf Hj. revert l i Hf. induction f as [|f IH]; intros l i Hf Hi Hl; pose proof (pow2_pos j Hj).
  { cbn in Hf. nia. }
  destruct (largest_pow2_spec (zlen l)) as (t & Ht & _ & Hb); [nia|].
  pose proof (pow2_pos t Ht). rewrite (mth_inputs_node _ _ t) by done.
  assert (2 ^ t ≤ 2 ^ Z.of_nat f) as Htf.
  { apply pow2_mono. enough (t < Z.of_nat (S f)) by lia. apply pow2_lt_inv; lia. }
  rewrite pow2_S in Hb by lia.
  assert (j < t + 1) as Hjt by (apply pow2_lt_inv; [lia|rewrite pow2_S by lia; nia]).
  destruct (Z.eq_dec j t) as [<-|Hne].
  - assert (i = 0) as -> by nia. change (2 * 0) with 0. change (0 + 1) with 1.
    assert (node l j 0 = _mth (take (Z.to_nat (2 ^ j)) l)) as -> by (unfold node; by rewrite Z.mul_0_l, drop_0).
    assert (node l j 1 = _mth (drop (Z.to_nat (2 ^ j)) l)) as ->.
    { unfold node, zlen in *. rewrite Z.mul_1_l, take_ge; [done|rewrite length_drop; lia]. }
    apply elem_of_cons. by left.
  - apply elem_of_cons. right. apply elem_of_app.
    assert (2 ^ t = 2 * 2 ^ (t - j - 1) * 2 ^ j) as Hq.
    { rewrite <- pow2_S, <- Z.pow_add_r by lia. f_equal. lia. }
    set (q := 2 ^ (t - j - 1)) in *. pose proof (pow2_pos (t - j - 1) ltac:(lia)).
    destruct (Z.lt_ge_cases i q) as [Hiq|Hiq]; [left|right].
    + rewrite <- !(node_prefix l (2 ^ t)) by nia.
      apply IH; rewrite ?zlen_take by lia; nia.
    + assert (∀ x, 0 ≤ x → node (drop (Z.to_nat (2 ^ t)) l) j x = node l j (x + 2 * q)) as Hshift.
      { intros x Hx. unfold node. rewrite drop_drop. do 3 f_equal. nia. }
      replace (2 * i) with (2 * (i - q) + 2 * q) by lia.
      replace (2 * (i - q) + 2 * q + 1) with (2 * (i - q) + 1 + 2 * q) by lia.
      rewrite <- !Hshift by lia.
      apply IH; rewrite ?zlen_drop by lia; nia.
Qed.

(** ** The walk from a level to the root *)

Section Walk.
Context (l : list bytes) (m : Z) (Hm : 0 < m) (Hmn : m < zlen l).

Definition fn (j : Z) : Z := (m - 1) / 2 ^ j.
Definition sn (j : Z) : Z := (zlen l - 1) / 2 ^ j.
Definition old : list bytes := take (Z.to_nat m) l.

Lemma old_length : zlen old = m.
Proof using Hm Hmn. unfold old. rewrite zlen_take; lia. Qed.

Lemma fn_up j : 0 ≤ j → fn (j + 1) = fn j / 2.
Proof. intros Hj. unfold fn. rewrite pow2_S, Z.mul_comm, Z.div_div by (auto with scitt lia). done. Qed.
Lemma sn_up j : 0 ≤ j → sn (j + 1) = sn j / 2.
Proof. intros Hj. unfold sn. rewrite pow2_S, Z.mul_comm, Z.div_div by (auto with scitt lia). done. Qed.

Lemma fn_bounds j : 0 ≤ j → 0 ≤ fn j ∧ fn j * 2 ^ j < m ≤ (fn j + 1) * 2 ^ j.
Proof using Hm.
  intros Hj. pose proof (pow2_pos j Hj). unfold fn.
  pose proof (Z.div_pos (m - 1) (2 ^ j)). pose proof (Z.div_mod (m - 1) (2 ^ j)).
  pose proof (Z.mod_pos_bound (m - 1) (2 ^ j)). lia.
Qed.

Lemma sn_bounds j : 0 ≤ j → 0 ≤ sn j ∧ sn j * 2 ^ j < zlen l ≤ (sn j + 1) * 2 ^ j.
Proof using Hm Hmn.
  intros Hj. pose proof (pow2_pos j Hj). unfold sn.
  pose proof (Z.div_pos (zlen l - 1) (2 ^ j)). pose proof (Z.div_mod (zlen l - 1) (2 ^ j)).
  pose proof (Z.mod_pos_bound (zlen l - 1) (2 ^ j)). lia.
Qed.

Lemma fn_le_sn j : 0 ≤ j → fn j ≤ sn j.
Proof using Hm Hmn. intros Hj. pose proof (pow2_pos j Hj). apply Z.div_le_mono; lia. Qed.

(** The proof node consumed at level [j]. *)
Definition emit (j : Z) : list bytes :=
  if Z.odd (fn j) then [node l j (fn j - 1)]
  else if fn j =? sn j then [] else [node l j (fn j + 1)].

Fixpoint walk (d : nat) (j : Z) : list bytes :=
  match d with O => [] | S d' => emit j ++ walk d' (j + 1) end.

Lemma walk_snoc d j : walk (S d) j = walk d j ++ emit (j + Z.of_nat d).
Proof.
  revert j. induction d as [|d IH]; intros j.
  - cbn. by rewrite Z.add_0_r, app_nil_r.
  - cbn [walk] in *. rewrite IH, app_assoc. do 2 f_equal. lia.
Qed.

(** What a level does to the node of either tree. *)
Lemma up_odd j :
  0 ≤ j → Z.odd (fn j) = true →
  node l (j + 1) (fn (j + 1)) = _node_hash (node l j (fn j - 1)) (node l j (fn j)) ∧
  node old (j + 1) (fn (j + 1)) = _node_hash (node l j (fn j - 1)) (node old j (fn j)).
Proof using Hm Hmn.
  intros Hj Ho. pose proof (pow2_pos j Hj). pose proof (fn_bounds j Hj) as [Hf Hb].
  pose proof (odd_parity (fn j)) as Hpar. rewrite Ho in Hpar. rewrite <- fn_up in Hpar by done.
  rewrite <- (node_prefix l m j (fn j - 1)) at 2 by lia. fold old.
  replace (fn j - 1) with (2 * fn (j + 1)) by lia. rewrite Hpar.
  split; apply node_up; rewrite ?old_length; lia.
Qed.

Lemma up_last j :
  0 ≤ j → Z.odd (fn j) = false → fn j = sn j →
  node l (j + 1) (fn (j + 1)) = node l j (fn j) ∧ node old (j + 1) (fn (j + 1)) = node old j (fn j).
Proof using Hm Hmn.
  intros Hj Ho He. pose proof (pow2_pos j Hj). pose proof (fn_bounds j Hj) as [Hf Hb].
  pose proof (sn_bounds j Hj) as [Hs Hsb].
  pose proof (odd_parity (fn j)) as Hpar. rewrite Ho, Z.add_0_r in Hpar. rewrite <- fn_up in Hpar by done.
  rewrite Hpar. split; apply node_up_only; rewrite ?old_length; lia.
Qed.

Lemma up_right j :
  0 ≤ j → Z.odd (fn j) = false → fn j ≠ sn j →
  node l (j + 1) (fn (j + 1)) = _node_hash (node l j (fn j)) (node l j (fn j + 1)) ∧
  node old (j + 1) (fn (j + 1)) = node old j (fn j).
Proof using Hm Hmn.
  intros Hj Ho He. pose proof (pow2_pos j Hj). pose proof (fn_bounds j Hj) as [Hf Hb].
  pose proof (sn_bounds j Hj) as [Hs Hsb]. pose proof (fn_le_sn j Hj).
  pose proof (odd_parity (fn j)) as Hpar. rewrite Ho, Z.add_0_r in Hpar. rewrite <- fn_up in Hpar by done.
  rewrite Hpar. split; [apply node_up|apply node_up_only]; rewrite ?old_length; nia.
Qed.

(** ** The verifier's loop follows the walk *)

Lemma loop_last c nodes fr sr j :
  0 ≤ j → Z.odd (fn j) = false → fn j = sn j → 0 < fn j →
  consistency_loop (c :: nodes) (fn j) (sn j) fr sr =
    consistency_loop (c :: nodes) (fn (j + 1)) (sn (j + 1)) fr sr.
Proof.
  intros Hj Ho He Hf. pose proof (odd_parity (fn j)) as Hpar. rewrite Ho in Hpar.
  rewrite fn_up, sn_up by done. cbn [consistency_loop]. rewrite <- He, !Z.eqb_refl, !orb_true_r.
  replace (fn j =? 0) with false by lia. replace (fn j / 2 =? 0) with false by lia.
  by rewrite strip_zeros_even by done.
Qed.

Lemma loop_odd c nodes fr sr j :
  0 ≤ j → Z.odd (fn j) = true → 0 < sn j →
  consistency_loop (c :: nodes) (fn j) (sn j) fr sr =
    consistency_loop nodes (fn (j + 1)) (sn (j + 1)) (_node_hash c fr) (_node_hash c sr).
Proof.
  intros Hj Ho Hs. rewrite fn_up, sn_up by done. cbn [consistency_loop].
  replace (sn j =? 0) with false by lia.
  by rewrite low_bit_odd, Ho, strip_zeros_odd, !shiftr_1.
Qed.

Lemma loop_right c nodes fr sr j :
  0 ≤ j → Z.odd (fn j) = false → fn j ≠ sn j → 0 < sn j →
  consistency_loop (c :: nodes) (fn j) (sn j) fr sr =
    consistency_loop nodes (fn (j + 1)) (sn (j + 1)) fr (_node_hash sr c).
Proof.
  intros Hj Ho He Hs. rewrite fn_up, sn_up by done. cbn [consistency_loop].
  replace (sn j =? 0) with false by lia. replace (fn j =? sn j) with false by lia.
  by rewrite low_bit_odd, Ho, !shiftr_1.
Qed.

Lemma sn_zero j : 0 ≤ j → sn j = 0 →
  fn j = 0 ∧ node l j (fn j) = _mth l ∧ node old j (fn j) = _mth old.
Proof using Hm Hmn.
  intros Hj Hs. pose proof (fn_le_sn j Hj). pose proof (fn_bounds j Hj) as [Hf Hb].
  pose proof (sn_bounds j Hj) as [_ Hsb]. rewrite Hs in *. assert (fn j = 0) as -> by lia.
  split_and!; [done|apply node_root..]; rewrite ?old_length; lia.
Qed.

Lemma walk_done d j : 0 ≤ j → sn j = 0 → walk d j = [].
Proof using Hm Hmn.
  revert j. induction d as [|d IH]; intros j Hj Hs; [done|]. cbn [walk].
  destruct (sn_zero j Hj Hs) as [Hf _]. unfold emit. rewrite Hf, Hs. cbn.
  apply IH; [lia|]. by rewrite sn_up, Hs.
Qed.

(** On the honest nodes the loop ends at the root of both trees. *)
Lemma loop_complete d j :
  0 ≤ j → sn (j + Z.of_nat d) = 0 →
  consistency_loop (walk d j) (fn j) (sn j) (node old j (fn j)) (node l j (fn j)) =
    Some (0, _mth old, _mth l).
Proof using Hm Hmn.
  revert j. induction d as [|d IH]; intros j Hj Hd.
  - rewrite Z.add_0_r in Hd. destruct (sn_zero j Hj Hd) as (_ & -> & ->). cbn. by rewrite Hd.
  - pose proof (sn_bounds j Hj) as [Hs _]. pose proof (fn_bounds j Hj) as [Hf _].
    destruct (Z.eq_dec (sn j) 0) as [Hs0|Hs0].
    { rewrite walk_done by done. destruct (sn_zero j Hj Hs0) as (_ & -> & ->). cbn. by rewrite Hs0. }
    replace (j + Z.of_nat (S d)) with (j + 1 + Z.of_nat d) in Hd by lia.
    specialize (IH (j + 1) ltac:(lia) Hd). cbn [walk]. unfold emit.
    destruct (Z.odd (fn j)) eqn:Ho; [|destruct (Z.eqb_spec (fn j) (sn j)) as [He|He]].
    + destruct (up_odd j Hj Ho) as [E1 E2]. rewrite E1, E2 in IH. cbn [app].
      by rewrite loop_odd by (done || lia).
    + destruct (up_last j Hj Ho He) as [E1 E2]. rewrite E1, E2 in IH. cbn [app].
      destruct (walk d (j + 1)) as [|c w].
      * cbn in IH. injection IH as IH _ _. rewrite sn_up in IH by done.
        pose proof (odd_parity (fn j)) as Hpar. rewrite Ho, He in Hpar. lia.
      * by rewrite loop_last by (done || lia).
    + destruct (up_right j Hj Ho He) as [E1 E2]. rewrite E1, E2 in IH. cbn [app].
      by rewrite loop_right by (done || lia).
Qed.

(** Two nodes hashed to the parent of two tree nodes are those nodes, when one
    of them has the length of a digest; or preimages collide. *)
Lemma children_sound S a b j i :
  Forall (fun x => length x = 32%nat) l → mth_inputs l ⊆ S → (_NODE_PREFIX ++ a ++ b) ∈ S →
  length a = 32%nat ∨ length b = 32%nat → 0 ≤ j → 0 ≤ i → (2 * i + 1) * 2 ^ j < zlen l →
  _node_hash a b = _node_hash (node l j (2 * i)) (node l j (2 * i + 1)) →
  collision S ∨ a = node l j (2 * i) ∧ b = node l j (2 * i + 1).
Proof using Hm Hmn.
  intros H32 HT HV Hab Hj Hi Hb E. destruct (sha256_eq S _ _ E) as [Hpre|]; [done| | |by left].
  { apply HT, node_input; auto with scitt. }
  right. destruct Hab.
  - apply node_preimage_l in Hpre; [done|]. by rewrite node_length.
  - apply node_preimage_r in Hpre; [done|]. by rewrite node_length.
Qed.

(** An accepting loop that ends at the root of the new tree went through
    its nodes, and carried the old node to the root of the old tree. *)
Lemma loop_sound S d j nodes fr sr fr' :
  Forall (fun x => length x = 32%nat) l → Forall (fun x => length x = 32%nat) nodes →
  0 ≤ j → sn (j + Z.of_nat d) = 0 →
  loop_inputs nodes (fn j) (sn j) fr sr ⊆ S → mth_inputs l ⊆ S →
  consistency_loop nodes (fn j) (sn j) fr sr = Some (0, fr', _mth l) →
  collision S ∨ (sr = node l j (fn j) ∧ (fr = node old j (fn j) → fr' = _mth old)).
Proof using Hm Hmn.
  intros H32 Hn32 Hj Hd HV HT. revert j nodes fr sr Hn32 Hj Hd HV.
  induction d as [|d IH]; intros j nodes fr sr Hn32 Hj Hd HV Hloop;
    pose proof (sn_bounds j Hj) as [Hs Hsb]; pose proof (fn_bounds j Hj) as [Hf Hfb].
  all: destruct (Z.eq_dec (sn j) 0) as [Hs0|Hs0]; [|try (by rewrite Z.add_0_r in Hd)].
  1,2: destruct (sn_zero j Hj Hs0) as (_ & -> & ->); rewrite Hs0 in Hloop;
    destruct nodes; cbn in Hloop; [injection Hloop as -> ->; auto|discriminate].
  replace (j + Z.of_nat (Datatypes.S d)) with (j + 1 + Z.of_nat d) in Hd by lia.
  destruct nodes as [|c nodes]; [cbn in Hloop; congruence|].
  apply Forall_cons in Hn32 as Hn. destruct Hn as [Hc Hn].
  destruct (Z.odd (fn j)) eqn:Ho; [|destruct (Z.eqb_spec (fn j) (sn j)) as [He|He]].
  - destruct (up_odd j Hj Ho) as [E1 E2]. rewrite loop_odd in Hloop by (done || lia).
    cbn [loop_inputs] in HV. replace (sn j =? 0) with false in HV by lia.
    rewrite low_bit_odd, Ho, strip_zeros_odd, !shiftr_1, <- fn_up, <- sn_up in HV by done.
    cbn [orb] in HV.
    destruct (IH (j + 1) nodes (_node_hash c fr) (_node_hash c sr)) as [|[Hsr Hfr]];
      [done|lia|done|intros x Hx; apply HV; do 2 right; done|done|by left|].
    pose proof (odd_parity (fn j)) as Hpar. rewrite Ho in Hpar.
    rewrite E1 in Hsr. replace (fn j - 1) with (2 * (fn j / 2)) in * by lia. rewrite Hpar in Hsr at 2.
    destruct (children_sound S c sr j (fn j / 2)) as [|[-> ->]]; try done; [apply HV; right; by left|by left|lia..|by left|].
    right. rewrite <- Hpar. split; [done|]. intros ->. apply Hfr. by rewrite E2.
  - destruct (up_last j Hj Ho He) as [E1 E2]. rewrite loop_last in Hloop by (done || lia).
    destruct (IH (j + 1) (c :: nodes) fr sr) as [|[Hsr Hfr]]; [done|lia|done| |done|by left|].
    { revert HV. cbn [loop_inputs]. rewrite fn_up, sn_up, <- He, !Z.eqb_refl, !orb_true_r by done.
      pose proof (odd_parity (fn j)) as Hpar. rewrite Ho in Hpar.
      replace (fn j =? 0) with false by lia. replace (fn j / 2 =? 0) with false by lia.
      by rewrite strip_zeros_even by (done || lia). }
    right. by rewrite <- E1, <- E2.
  - destruct (up_right j Hj Ho He) as [E1 E2]. rewrite loop_right in Hloop by (done || lia).
    cbn [loop_inputs] in HV. replace (sn j =? 0) with false in HV by lia.
    replace (fn j =? sn j) with false in HV by lia.
    rewrite low_bit_odd, Ho, !shiftr_1, <- fn_up, <- sn_up in HV by done. cbn [orb] in HV.
    destruct (IH (j + 1) nodes fr (_node_hash sr c)) as [|[Hsr Hfr]];
      [done|lia|done|intros x Hx; apply HV; right; done|done|by left|].
    pose proof (odd_parity (fn j)) as Hpar. rewrite Ho, Z.add_0_r in Hpar. pose proof (fn_le_sn j Hj).
    rewrite E1, Hpar in Hsr.
    destruct (children_sound S sr c j (fn j / 2)) as [|[-> ->]]; try done; [apply HV; by left|by right|lia|nia|by left|].
    right. rewrite <- Hpar. split; [done|]. by rewrite E2 in Hfr.
Qed.
End Walk.
End Consistency.
