(* ===== verification/MerkleConsistencyProof.v ===== *)
(** * Consistency proofs: completeness and soundness of [verify_consistency] *)

From S2P Require Import Prelude PyRuntime Sha256 Merkle MerkleTree MerkleConsistency.

Section SubProof.
#[local] Set Default Proof Using "All".
Context `{Sha256} (l : list bytes) (m : Z) (Hm : 0 < m) (Hmn : m < zlen l).
(** [j0] trailing ones of [m - 1]. *)
Context (j0 : Z) (Hj0 : 0 ≤ j0) (Hm0 : m = (fn m j0 + 1) * 2 ^ j0) (Ho0 : Z.odd (fn m j0) = false).

(** The subtree at level [J] on the old tree's right edge. *)
Definition edge (J : Z) : list bytes := take (Z.to_nat (2 ^ J)) (drop (Z.to_nat (fn m J * 2 ^ J)) l).

Lemma edge_length J : 0 ≤ J → zlen (edge J) = Z.min (2 ^ J) (zlen l - fn m J * 2 ^ J).
Proof.
  intros HJ. pose proof (fn_bounds m Hm J HJ). pose proof (pow2_pos J HJ).
  unfold edge. rewrite zlen_take, zlen_drop by nia. lia.
Qed.

Lemma subproof_base f b :
  subproof_fuel f (2 ^ j0) (edge j0) b = if b then [] else [node l j0 (fn m j0)].
Proof.
  assert (zlen (edge j0) = 2 ^ j0) as E by (rewrite edge_length by done; lia).
  destruct f; cbn [subproof_fuel]; rewrite E, Z.eqb_refl; done.
Qed.

(** [m] is no multiple of a higher power of two. *)
Lemma not_aligned J i : j0 < J → m ≠ i * 2 ^ J.
Proof.
  intros HJ Hc. pose proof (odd_parity (fn m j0)) as Hpar. rewrite Ho0 in Hpar.
  replace J with (j0 + ((J - j0 - 1) + 1)) in Hc by lia.
  rewrite Z.pow_add_r, pow2_S in Hc by lia. pose proof (pow2_pos j0 Hj0).
  assert (fn m j0 + 1 = 2 * (i * 2 ^ (J - j0 - 1))) by nia. lia.
Qed.

(** On the new tree's right edge the subtree does not grow. *)
Lemma edge_last J : 0 ≤ J → Z.odd (fn m J) = false → fn m J = sn l J → edge (J + 1) = edge J.
Proof.
  intros HJ0 Ho He. pose proof (odd_parity (fn m J)) as Hpar. rewrite <- fn_up, Ho in Hpar by done.
  pose proof (fn_bounds m Hm J HJ0) as [Hf0 _]. pose proof (sn_bounds l m Hm Hmn J HJ0) as [_ Hsb].
  pose proof (pow2_pos J HJ0). pose proof (edge_length J HJ0) as HlJ. pose proof (edge_length (J + 1) ltac:(lia)) as HlJ1.
  rewrite pow2_S in * by lia. unfold edge, zlen in *. rewrite (pow2_S J) by done.
  replace (fn m (J + 1) * (2 * 2 ^ J)) with (fn m J * 2 ^ J) by nia.
  assert (0 ≤ fn m J * 2 ^ J) by (apply Z.mul_nonneg_nonneg; lia).
  rewrite !take_ge; [done|rewrite length_drop, He in *; lia..].
Qed.

Lemma subproof_up f J b :
  j0 ≤ J → zlen (edge (J + 1)) ≤ 2 ^ Z.of_nat f →
  (∀ f b, zlen (edge J) ≤ 2 ^ Z.of_nat f →
     subproof_fuel f (m - fn m J * 2 ^ J) (edge J) b =
       (if b && (m - fn m J * 2 ^ J =? 2 ^ j0) then [] else [node l j0 (fn m j0)]) ++
       walk l m (Z.to_nat (J - j0)) j0) →
  subproof_fuel f (m - fn m (J + 1) * 2 ^ (J + 1)) (edge (J + 1)) b =
    (if b && (m - fn m (J + 1) * 2 ^ (J + 1) =? 2 ^ j0) then [] else [node l j0 (fn m j0)]) ++
    walk l m (Z.to_nat (J - j0)) j0 ++ emit l m J.
Proof.
  intros HJ Hf IH. assert (0 ≤ J) as HJ0 by lia. pose proof (pow2_pos J HJ0).
  pose proof (edge_length J HJ0) as HlJ. pose proof (edge_length (J + 1) ltac:(lia)) as HlJ1.
  pose proof (fn_bounds m Hm J HJ0) as [Hf0 Hfb]. pose proof (sn_bounds l m Hm Hmn J HJ0) as [Hs0 Hsb].
  pose proof (fn_bounds m Hm (J + 1) ltac:(lia)) as [Hf1 Hfb1].
  pose proof (fn_le_sn l m Hm Hmn J HJ0). pose proof (pow2_mono j0 J HJ).
  pose proof (odd_parity (fn m J)) as Hpar. rewrite <- fn_up in Hpar by done.
  destruct (take_drop_double l J (fn m (J + 1)) HJ0) as [Etake Edrop]; [lia|].
  assert (m - fn m (J + 1) * 2 ^ (J + 1) ≠ zlen (edge (J + 1))) as Hne.
  { intros Hc. destruct (Z.min_spec (2 ^ (J + 1)) (zlen l - fn m (J + 1) * 2 ^ (J + 1))) as [[_ E]|[_ E]].
    - apply (not_aligned (J + 1) (fn m (J + 1) + 1)); lia.
    - lia. }
  assert (2 ^ J < zlen (edge (J + 1)) → zlen (edge J) ≤ 2 ^ Z.of_nat (pred f)) as HfJ.
  { intros Hlt. destruct f as [|f]; [change (2 ^ Z.of_nat 0) with 1 in Hf; lia|].
    assert (2 ^ J ≤ 2 ^ Z.of_nat f); [|cbn [pred]; lia].
    apply pow2_mono. enough (J < Z.of_nat (S f)) by lia. apply pow2_lt_inv; lia. }
  rewrite pow2_S in * by lia. unfold emit.
  destruct (Z.odd (fn m J)) eqn:Ho; [|destruct (Z.eqb_spec (fn m J) (sn l J)) as [He|He]].
  - destruct f as [|f]; [change (2 ^ Z.of_nat 0) with 1 in Hf; nia|].
    cbn [subproof_fuel pred] in *. rewrite (proj2 (Z.eqb_neq _ _) Hne).
    rewrite (largest_pow2_unique _ J) by (rewrite ?pow2_S; lia).
    replace (_ <=? 2 ^ J) with false by nia.
    replace (b && _) with false by (rewrite andb_comm; replace (_ =? 2 ^ j0) with false by nia; done).
    unfold edge in Edrop, Etake |- *. rewrite (pow2_S J) in * by done. rewrite Etake, Edrop.
    replace (2 * fn m (J + 1) + 1) with (fn m J) by lia.
    replace (m - fn m (J + 1) * (2 * 2 ^ J) - 2 ^ J) with (m - fn m J * 2 ^ J) by nia.
    fold (edge J). rewrite IH by (apply HfJ; nia).
    cbn [andb]. rewrite <- app_assoc. do 2 f_equal.
    unfold node. replace (fn m J - 1) with (2 * fn m (J + 1)) by lia. done.
  - rewrite edge_last in * by done.
    replace (fn m (J + 1) * (2 * 2 ^ J)) with (fn m J * 2 ^ J) by nia.
    rewrite app_nil_r. apply IH. lia.
  - destruct f as [|f]; [change (2 ^ Z.of_nat 0) with 1 in Hf; nia|].
    cbn [subproof_fuel pred] in *. rewrite (proj2 (Z.eqb_neq _ _) Hne).
    rewrite (largest_pow2_unique _ J) by (rewrite ?pow2_S; nia).
    replace (_ <=? 2 ^ J) with true by nia.
    unfold edge in Edrop, Etake |- *. rewrite (pow2_S J) in * by done. rewrite Etake, Edrop.
    replace (2 * fn m (J + 1)) with (fn m J) by lia.
    replace (fn m (J + 1) * (2 * 2 ^ J)) with (fn m J * 2 ^ J) by nia.
    fold (edge J). rewrite IH by (apply HfJ; nia). by rewrite <- app_assoc.
Qed.

Lemma subproof_walk d f b :
  zlen (edge (j0 + Z.of_nat d)) ≤ 2 ^ Z.of_nat f →
  subproof_fuel f (m - fn m (j0 + Z.of_nat d) * 2 ^ (j0 + Z.of_nat d)) (edge (j0 + Z.of_nat d)) b =
    (if b && (m - fn m (j0 + Z.of_nat d) * 2 ^ (j0 + Z.of_nat d) =? 2 ^ j0) then [] else [node l j0 (fn m j0)]) ++
    walk l m d j0.
Proof.
  revert f b. induction d as [|d IH]; intros f b Hf.
  - rewrite Z.add_0_r in *. replace (m - fn m j0 * 2 ^ j0) with (2 ^ j0) by lia.
    rewrite subproof_base, Z.eqb_refl, andb_true_r, app_nil_r. done.
  - replace (j0 + Z.of_nat (S d)) with (j0 + Z.of_nat d + 1) in * by lia.
    rewrite (subproof_up f) by (lia || done || (replace (Z.to_nat _) with d by lia; done)).
    rewrite walk_snoc. by replace (Z.to_nat _) with d by lia.
Qed.

(** The whole proof: the seed, unless the old tree is a complete subtree,
    and the walk from the seed's level to the root. *)
Lemma subproof_honest d :
  sn l (j0 + Z.of_nat d) = 0 →
  _subproof m l true =
    (if Z.land m (m - 1) =? 0 then [] else [node l j0 (fn m j0)]) ++ walk l m d j0.
Proof.
  intros Hd. pose proof (sn_zero l m Hm Hmn (j0 + Z.of_nat d) ltac:(lia) Hd) as (Hf & _ & _).
  pose proof (sn_bounds l m Hm Hmn (j0 + Z.of_nat d) ltac:(lia)) as [_ Hb]. rewrite Hd in Hb.
  pose proof (subproof_walk d (depth_fuel (zlen l)) true) as Hw.
  assert (edge (j0 + Z.of_nat d) = l) as El.
  { unfold edge, zlen in *. rewrite Hf, Z.mul_0_l, drop_0. apply take_ge. lia. }
  rewrite Hf, El, Z.mul_0_l, Z.sub_0_r in Hw. unfold _subproof. rewrite Hw by auto with scitt.
  cbn [andb]. f_equal. pose proof (pow2_pos j0 Hj0). pose proof (fn_bounds m Hm j0 Hj0) as [Hf0 _].
  destruct (strip_ones_spec (nbits (m - 1)) (m - 1) 0) as (j & Hj & _ & Hoj & Hmj & Hland).
  { split; [lia|apply nbits_enough; lia]. }
  replace (m - 1 + 1) with m in * by lia. fold (fn m j) in *.
  assert (j = j0) as ->.
  { destruct (Z.lt_trichotomy j j0) as [Hlt|[->|Hlt]]; [|done|].
    - exfalso. pose proof (odd_parity (fn m j)) as Hpar. rewrite Hoj in Hpar.
      replace j0 with (j + ((j0 - j - 1) + 1)) in Hm0 by lia.
      rewrite Z.pow_add_r, pow2_S in Hm0 by lia. pose proof (pow2_pos j Hj).
      assert (fn m j + 1 = 2 * ((fn m (j + ((j0 - j - 1) + 1)) + 1) * 2 ^ (j0 - j - 1))) by nia. lia.
    - exfalso. by apply (not_aligned j (fn m j + 1)). }
  destruct (Z.eqb_spec m (2 ^ j0)) as [E|E], (Z.eqb_spec (Z.land m (m - 1)) 0) as [E'|E']; try done; exfalso.
  - apply E', Hland. nia.
  - apply E. apply Hland in E'. rewrite E' in Hm0. lia.
Qed.
End SubProof.

(** ** The public functions *)

Section Consistent.
Context `{Sha256}.

(** What [verify_consistency] hashes after its size checks. *)
Definition consistency_inputs (first_root_hex : string) (m n : Z) (proof_hex : list string) : list bytes :=
  match mapM fromhex proof_hex, fromhex first_root_hex with
  | Ok proof, Ok first_root =>
      match (if Z.land m (m - 1) =? 0 then first_root :: proof else proof) with
      | seed :: nodes =>
          let '(fn, sn) := strip_ones (nbits (m - 1)) (m - 1) (n - 1) in loop_inputs nodes fn sn seed seed
      | [] => []
      end
  | _, _ => []
  end.

(** The level at which the walk starts, and one above both roots. *)
Lemma walk_start m n :
  0 < m → m < n →
  ∃ j d, 0 ≤ j ∧ strip_ones (nbits (m - 1)) (m - 1) (n - 1) = ((m - 1) / 2 ^ j, (n - 1) / 2 ^ j) ∧
    Z.odd (fn m j) = false ∧ m = (fn m j + 1) * 2 ^ j ∧ (Z.land m (m - 1) = 0 ↔ fn m j = 0) ∧
    (n - 1) / 2 ^ (j + Z.of_nat d) = 0.
Proof.
  intros Hm Hn.
  destruct (strip_ones_spec (nbits (m - 1)) (m - 1) (n - 1)) as (j & Hj & Hs & Ho & Hm' & Hl).
  { split; [lia|apply nbits_enough; lia]. }
  replace (m - 1 + 1) with m in * by lia.
  exists j, (nbits (n - 1)). split_and!; try done.
  apply Z.div_small. split; [lia|]. pose proof (nbits_enough (n - 1) ltac:(lia)).
  assert (2 ^ Z.of_nat (nbits (n - 1)) ≤ 2 ^ (j + Z.of_nat (nbits (n - 1)))) by (apply pow2_mono; lia). lia.
Qed.

Lemma leaf_hashes_take k es leaves :
  leaf_hashes es = Ok leaves → leaf_hashes (take k es) = Ok (take k leaves).
Proof.
  unfold leaf_hashes. rewrite !mapM_ok. intros HF. by apply Forall2_take.
Qed.

(** The seed node stands for both trees. *)
Lemma seed_both l m j :
  0 < m → m < zlen l → 0 ≤ j → m = (fn m j + 1) * 2 ^ j → node (old l m) j (fn m j) = node l j (fn m j).
Proof. intros Hm Hl Hj E. pose proof (fn_bounds m Hm j Hj) as [? ?]. apply node_prefix; lia. Qed.

Lemma seed_pow2 l m j :
  0 < m → m < zlen l → 0 ≤ j → fn m j = 0 → m = (fn m j + 1) * 2 ^ j →
  node l j (fn m j) = _mth (old l m).
Proof.
  intros Hm Hl Hj E Em. rewrite <- seed_both, E by done. apply node_root; [done|].
  rewrite old_length by done. lia.
Qed.

(** C25: [verify_consistency] accepts the proof [consistency_proof] makes
    between any two prefixes of a well-formed list of entries. *)
Theorem verify_consistency_complete (entries : list string) (m n : Z) first second :
  0 ≤ m → m ≤ n → n ≤ zlen entries →
  merkle_root (take (Z.to_nat m) entries) = Ok first →
  merkle_root (take (Z.to_nat n) entries) = Ok second →
  ∃ proof, consistency_proof entries m n = Ok proof ∧ verify_consistency first second m n proof = Ok true.
Proof.
  intros Hm Hmn Hn Hfirst Hsecond. unfold consistency_proof, verify_consistency.
  replace ((0 <=? m) && (m <=? n)) with true by lia. replace (n >? zlen entries) with false by lia.
  replace ((m <? 0) || (n <? 0) || (m >? n)) with false by lia. cbn [negb].
  destruct (Z.eqb_spec m 0) as [->|Hm0]; [eauto|].
  destruct (Z.eqb_spec m n) as [->|Hmn'].
  { exists []. split; [done|]. rewrite Hsecond in Hfirst. injection Hfirst as ->.
    by rewrite !bool_decide_eq_true_2. }
  cbn [orb]. apply bind_ok in Hfirst as (lm & Hlm & [= <-]), Hsecond as (l & Hl0 & [= <-]).
  rewrite Hl0. cbn [mbind outcome_bind].
  pose proof (leaf_hashes_length _ _ Hl0) as Hl. rewrite zlen_take, Z.min_l in Hl by lia.
  assert (lm = old l m) as ->.
  { unfold old. apply (leaf_hashes_take (Z.to_nat m)) in Hl0. rewrite take_take, Nat.min_l in Hl0 by lia. congruence. }
  eexists. split; [done|]. rewrite mapM_fromhex_hex. cbn [mbind outcome_bind].
  destruct (walk_start m n) as (j & d & Hj & Hstrip & Ho & Hmj & Hland & Hd); [lia..|].
  rewrite Hstrip. rewrite <- Hl in Hd |- *. fold (fn m j). fold (sn l j). fold (sn l (j + Z.of_nat d)) in Hd.
  rewrite (subproof_honest l m ltac:(lia) ltac:(lia) j Hj Hmj Ho d Hd).
  destruct (Z.eqb_spec (Z.land m (m - 1)) 0) as [Hz|Hz].
  - rewrite fromhex_hex. cbn [mbind outcome_bind app].
    rewrite <- (seed_pow2 l m j) at 1 2 by (done || lia || by apply Hland).
    rewrite <- (seed_both l m j) at 1 by (done || lia).
    rewrite loop_complete by (done || lia). by rewrite !bool_decide_eq_true_2.
  - cbn [mbind outcome_bind app].
    rewrite <- (seed_both l m j) at 1 by (done || lia).
    rewrite loop_complete by (done || lia). by rewrite !bool_decide_eq_true_2.
Qed.

(** The accepting run of the loop behind a [True]. *)
Lemma verify_consistency_true first second m n proof nodes :
  0 < m → m < n → mapM fromhex proof = Ok nodes →
  verify_consistency first second m n proof = Ok true →
  ∃ j d seed rest fr sr, 0 ≤ j ∧ m = (fn m j + 1) * 2 ^ j ∧ (n - 1) / 2 ^ (j + Z.of_nat d) = 0 ∧
    consistency_loop rest ((m - 1) / 2 ^ j) ((n - 1) / 2 ^ j) seed seed = Some (0, fr, sr) ∧
    hex fr = first ∧ hex sr = second ∧ (∀ x, x ∈ rest → x ∈ nodes) ∧
    (∀ first_root, fromhex first = Ok first_root →
       consistency_inputs first m n proof = loop_inputs rest ((m - 1) / 2 ^ j) ((n - 1) / 2 ^ j) seed seed).
Proof.
  intros Hm Hn Hnodes. unfold verify_consistency, consistency_inputs.
  destruct (walk_start m n Hm Hn) as (j & d & Hj & Hstrip & _ & Hmj & _ & Hd).
  replace ((m <? 0) || (n <? 0) || (m >? n)) with false by lia.
  replace (m =? 0) with false by lia. replace (m =? n) with false by lia.
  rewrite Hnodes, Hstrip. cbn [mbind outcome_bind].
  destruct (Z.land m (m - 1) =? 0); intros Hv.
  - apply bind_ok in Hv as (p & (r & Hr & [= <-])%bind_ok & Hv).
    destruct (consistency_loop _ _ _ _ _) as [[[s fr] sr]|] eqn:Hloop; [|discriminate].
    injection Hv as [[->%Z.eqb_eq Hf%bool_decide_eq_true_1]%andb_prop Hs%bool_decide_eq_true_1]%andb_prop.
    exists j, d, r, nodes, fr, sr. split_and!; try done. intros r' Hr'. rewrite Hr. done.
  - cbn [mbind outcome_bind] in Hv. destruct nodes as [|seed rest]; [discriminate|].
    destruct (consistency_loop _ _ _ _ _) as [[[s fr] sr]|] eqn:Hloop; [|discriminate].
    injection Hv as [[->%Z.eqb_eq Hf%bool_decide_eq_true_1]%andb_prop Hs%bool_decide_eq_true_1]%andb_prop.
    exists j, d, seed, rest, fr, sr. split_and!; try done; [set_solver|]. intros r' Hr'. by rewrite Hr'.
Qed.

(** What an accepted proof says when the old tree is not empty. *)
Lemma verify_consistency_prefix (entries : list string) (bs : list bytes) (m : Z) first second proof nodes :
  mapM fromhex entries = Ok bs → merkle_root entries = Ok second → 0 < m →
  mapM fromhex proof = Ok nodes → Forall (fun x => length x = 32%nat) nodes →
  verify_consistency first second m (zlen entries) proof = Ok true →
  merkle_root (take (Z.to_nat m) entries) = Ok first ∨
  collision (consistency_inputs first m (zlen entries) proof ++ tree_inputs bs).
Proof.
  intros Hbs Hsecond Hm Hnodes H32 Hv.
  destruct (Z.lt_trichotomy m (zlen entries)) as [Hlt|[Heq|Hgt]].
  2: { left. revert Hv. unfold verify_consistency. rewrite <- Heq, Z.eqb_refl.
       replace ((m <? 0) || (m <? 0) || (m >? m)) with false by lia. replace (m =? 0) with false by lia.
       intros [= [_ ->%bool_decide_eq_true_1]%andb_prop]. rewrite take_ge; [done|unfold zlen in Heq; lia]. }
  2: { revert Hv. unfold verify_consistency. replace ((m <? 0) || _ || (m >? _)) with true by lia. done. }
  destruct (verify_consistency_true _ _ _ _ _ _ Hm Hlt Hnodes Hv)
    as (j & d & seed & rest & fr & sr & Hj & Hmj & Hd & Hloop & Hfr & Hsr & Hrest & Hin).
  apply bind_ok in Hsecond as (l & Hl & [= <-]). apply hex_inj in Hsr as ->.
  pose proof (leaf_hashes_length _ _ Hl) as Hlen. rewrite <- Hlen in *.
  rewrite (Hin fr) by (rewrite <- Hfr; apply fromhex_hex).
  pose proof Hl as (bs' & Hbs' & Elv)%leaf_hashes_ok. assert (bs' = bs) as -> by congruence.
  destruct (loop_sound l m Hm Hlt (loop_inputs rest ((m - 1) / 2 ^ j) ((zlen l - 1) / 2 ^ j) seed seed ++ tree_inputs bs)
              d j rest seed seed fr) as [Hc|[Hseed Hroot]]; [..|by right|].
  - rewrite Elv. apply leaf_hashes_32.
  - apply Forall_forall. intros x Hx. rewrite Forall_forall in H32. by apply H32, Hrest.
  - done.
  - done.
  - unfold fn, sn. set_solver.
  - unfold tree_inputs. rewrite <- Elv. set_solver.
  - done.
  - left. rewrite <- Hfr, Hroot by (by rewrite seed_both).
    unfold merkle_root. by rewrite (leaf_hashes_take _ _ _ Hl).
Qed.

(** An empty old tree: the verdict does not depend on the roots. *)
Lemma verify_consistency_zero first second n proof :
  0 ≤ n → verify_consistency first second 0 n proof = Ok (bool_decide (proof = [])).
Proof. intros Hn. unfold verify_consistency. by replace ((0 <? 0) || (n <? 0) || (0 >? n)) with false by lia. Qed.

Lemma verify_consistency_sizes first second m n proof :
  verify_consistency first second m n proof = Ok true → 0 ≤ m ≤ n.
Proof. unfold verify_consistency. destruct ((m <? 0) || (n <? 0) || (m >? n)) eqn:E; [done|lia]. Qed.

(** C3: when every proof node is a 32-octet digest, a proof accepted between
    size [m] and the size of [entries], to the root of [entries], shows that
    [m] is no larger than that size, and either [m] is positive and the old
    root is the root of the first [m] entries, up to a collision among the
    inputs both sides hash; or [m] is [0], the proof is empty, and nothing is
    shown: at size [0] the code accepts the empty proof between any two roots
    whatsoever, it never compares the old root with the root of the empty
    tree. *)
Theorem verify_consistency_sound (entries : list string) (bs : list bytes) (m : Z) first second proof nodes :
  mapM fromhex entries = Ok bs → merkle_root entries = Ok second →
  mapM fromhex proof = Ok nodes → Forall (fun x => length x = 32%nat) nodes →
  verify_consistency first second m (zlen entries) proof = Ok true →
  (0 < m ≤ zlen entries ∧
   (merkle_root (take (Z.to_nat m) entries) = Ok first ∨
    collision (consistency_inputs first m (zlen entries) proof ++ tree_inputs bs))) ∨
  (m = 0 ∧ proof = [] ∧
   ∀ any_first any_second n, 0 ≤ n → verify_consistency any_first any_second 0 n proof = Ok true).
Proof.
  intros Hbs Hsecond Hnodes H32 Hv. pose proof (verify_consistency_sizes _ _ _ _ _ Hv) as Hm.
  destruct (Z.eq_dec m 0) as [->|Hm0].
  - right. rewrite verify_consistency_zero in Hv by lia. injection Hv as ->%bool_decide_eq_true_1.
    split_and!; [done|done|]. intros x y n Hn. by rewrite verify_consistency_zero.
  - left. split; [lia|]. apply (verify_consistency_prefix entries bs m first second proof nodes); (done || lia).
Qed.

(** The forged proof for four entries: [k] octets of the fourth leaf hash are
    moved into the node before it. *)
Definition unaligned_seed (c d : bytes) (k : nat) : bytes := _leaf_hash_bytes c ++ take k (_leaf_hash_bytes d).
Definition unaligned_root (a b c d : bytes) (k : nat) : bytes :=
  _node_hash (_node_hash (_leaf_hash_bytes a) (_leaf_hash_bytes b)) (unaligned_seed c d k).
Definition unaligned_proof (a b c d : bytes) (k : nat) : list string :=
  hex <$> [unaligned_seed c d k; drop k (_leaf_hash_bytes d);
           _node_hash (_leaf_hash_bytes a) (_leaf_hash_bytes b)].

(** Without the length hypothesis of the soundness theorem the verdict is wrong: for any four
    entries and any cut [0 < k], [verify_consistency] accepts the forged
    proof between the true root of the four and an old root that is not the
    root of the first three, unless two given inputs collide; it never checks
    that proof nodes are digests. *)
Theorem verify_consistency_unaligned (a b c d : bytes) (k : nat) second :
  (0 < k ≤ 32)%nat → merkle_root (hex <$> [a; b; c; d]) = Ok second →
  verify_consistency (hex (unaligned_root a b c d k)) second 3 4 (unaligned_proof a b c d k) = Ok true ∧
  (merkle_root (hex <$> [a; b; c]) = Ok (hex (unaligned_root a b c d k)) →
   collision [_NODE_PREFIX ++ _node_hash (_leaf_hash_bytes a) (_leaf_hash_bytes b) ++ unaligned_seed c d k;
              _NODE_PREFIX ++ _node_hash (_leaf_hash_bytes a) (_leaf_hash_bytes b) ++ _leaf_hash_bytes c]).
Proof.
  intros Hk. unfold merkle_root, leaf_hashes, unaligned_root, unaligned_proof, unaligned_seed.
  cbn [fmap list_fmap mapM]. rewrite !fromhex_hex. cbn [mbind outcome_bind mret outcome_ret].
  rewrite (_mth_node _ 1) by (change (2 ^ 1) with 2; change (zlen _) with 4; change (2 ^ (1 + 1)) with 4; lia).
  change (Z.to_nat (2 ^ 1)) with 2%nat. cbn [take drop]. rewrite !_mth_two. intros [= <-]. split.
  - unfold verify_consistency. cbn [Z.ltb orb Z.gtb Z.eqb]. cbn [mapM]. rewrite !fromhex_hex.
    cbn [mbind outcome_bind mret outcome_ret]. change (Z.land 3 (3 - 1) =? 0) with false.
    change (strip_ones (nbits (3 - 1)) (3 - 1) (4 - 1)) with (2, 3). cbn [mbind outcome_bind mret outcome_ret].
    set (x := _leaf_hash_bytes c ++ take k (_leaf_hash_bytes d)).
    set (y := drop k (_leaf_hash_bytes d)). set (z := _node_hash _ _).
    assert (consistency_loop [y; z] 2 3 x x = Some (0, _node_hash z x, _node_hash z (_node_hash x y))) as -> by done.
    assert (_node_hash x y = _node_hash (_leaf_hash_bytes c) (_leaf_hash_bytes d)) as ->.
    { unfold _node_hash, x, y. by rewrite <- (app_assoc (_leaf_hash_bytes c)), take_drop. }
    set (fr := _node_hash z x). set (sr := _node_hash z _).
    change (Ok (bool_decide (hex fr = hex fr) && bool_decide (hex sr = hex sr)) = Ok (E := exn) true).
    by rewrite !bool_decide_eq_true_2.
  - rewrite (_mth_node _ 1) by (change (2 ^ 1) with 2; change (zlen _) with 3; change (2 ^ (1 + 1)) with 4; lia).
    change (Z.to_nat (2 ^ 1)) with 2%nat. cbn [take drop].
    rewrite _mth_two, _mth_one.
    intros [= Heq%hex_inj]. symmetry in Heq.
    eexists _, _. split_and!; [by left|right; by left| |exact Heq].
    intros E%app_inv_head%app_inv_head. apply (f_equal (length (A := byte))) in E.
    rewrite length_app, length_take, !leaf_hash_length in E. lia.
Qed.

(** The degenerate sizes: a shrinking or negative size is refused, an
    empty old tree is accepted with any two roots exactly when the proof is
    empty, and equal sizes demand equal roots and an empty proof; no hash
    is computed and no text is decoded. *)
Theorem verify_consistency_degenerate (first second : string) (m n : Z) (proof : list string) :
  m ≤ 0 ∨ n ≤ m →
  verify_consistency first second m n proof =
    if decide (m < 0 ∨ n < 0 ∨ n < m) then Ok false
    else if decide (m = 0) then Ok (bool_decide (proof = []))
    else Ok (bool_decide (proof = [] ∧ first = second)).
Proof.
  intros Hdeg. case_decide; [|case_decide]; unfold verify_consistency.
  - by replace ((m <? 0) || (n <? 0) || (m >? n)) with true by lia.
  - replace ((m <? 0) || (n <? 0) || (m >? n)) with false by lia. by replace (m =? 0) with true by lia.
  - replace ((m <? 0) || (n <? 0) || (m >? n)) with false by lia.
    replace (m =? 0) with false by lia. replace (m =? n) with true by lia.
    f_equal. apply eq_true_iff_eq. by rewrite andb_true_iff, !bool_decide_eq_true.
Qed.
End Consistent.

(** ** Witnesses *)

Module Witness.
#[local] Existing Instance Toy.instance.
Definition entries : list string := ["61"; "62"; "63"; "64"; "65"].
Definition bs : list bytes := [[x61]; [x62]; [x63]; [x64]; [x65]].
Definition root_of (k : nat) : string := match merkle_root (take k entries) with Ok r => r | Raise _ => "" end.
Definition proof_of (m n : Z) : list string :=
  match consistency_proof entries m n with Ok p => p | Raise _ => [] end.
Definition nodes_of (m n : Z) : list bytes :=
  match mapM fromhex (proof_of m n) with Ok p => p | Raise _ => [] end.
End Witness.

Lemma verify_consistency_complete_witness :
  ∃ proof, consistency_proof (H := Toy.instance) Witness.entries 3 5 = Ok proof ∧
    verify_consistency (H := Toy.instance) (Witness.root_of 3) (Witness.root_of 5) 3 5 proof = Ok true.
Proof.
  apply (verify_consistency_complete (H := Toy.instance) Witness.entries 3 5); [lia|lia|by vm_compute|..];
    vm_compute; reflexivity.
Defined.

Lemma verify_consistency_sound_witness :
  (0 < 3 ≤ 5 ∧
   (merkle_root (H := Toy.instance) (take 3 Witness.entries) = Ok (Witness.root_of 3) ∨
    collision (H := Toy.instance)
      (consistency_inputs (H := Toy.instance) (Witness.root_of 3) 3 5 (Witness.proof_of 3 5) ++
       tree_inputs (H := Toy.instance) Witness.bs))) ∨
  (3 = 0 ∧ Witness.proof_of 3 5 = [] ∧
   ∀ any_first any_second n, 0 ≤ n →
     verify_consistency (H := Toy.instance) any_first any_second 0 n (Witness.proof_of 3 5) = Ok true).
Proof.
  apply (verify_consistency_sound (H := Toy.instance) Witness.entries Witness.bs 3 (Witness.root_of 3)
           (Witness.root_of 5) (Witness.proof_of 3 5) (Witness.nodes_of 3 5)).
  - vm_compute. reflexivity.
  - vm_compute. reflexivity.
  - vm_compute. reflexivity.
  - vm_compute. repeat constructor.
  - vm_compute. reflexivity.
Defined.

Lemma verify_consistency_unaligned_witness :
  verify_consistency (H := Toy.instance)
    (hex (unaligned_root (H := Toy.instance) [x61] [x62] [x63] [x64] 5)) (Witness.root_of 4) 3 4
    (unaligned_proof (H := Toy.instance) [x61] [x62] [x63] [x64] 5) = Ok true.
Proof.
  apply (verify_consistency_unaligned (H := Toy.instance) [x61] [x62] [x63] [x64] 5);
    [lia|vm_compute; reflexivity].
Defined.


Lemma verify_consistency_degenerate_witness :
  verify_consistency (H := Toy.instance) "00" "11" 0 7 [] = Ok true.
Proof. exact (verify_consistency_degenerate (H := Toy.instance) "00" "11" 0 7 [] ltac:(left; lia)). Defined.
