(* ===== verification/Utf8.v ===== *)
(** * UTF-8 decoding

    [bytes.decode("utf-8")] as the sources use it, to accept or refuse octets,
    and its agreement with the encoding of code points. *)

From S2P Require Import Prelude PyRuntime.

(** [b.decode("utf-8")] succeeds: no overlong form, no surrogate, nothing
    above U+10FFFF. *)
Fixpoint utf8_valid (b : bytes) : bool :=
  let cont (x : byte) := (128 <=? byte_val x) && (byte_val x <=? 191) in
  match b with
  | [] => true
  | x :: b1 =>
      let v := byte_val x in
      if v <=? 127 then utf8_valid b1
      else if (194 <=? v) && (v <=? 223) then
        match b1 with y :: b2 => cont y && utf8_valid b2 | _ => false end
      else if (224 <=? v) && (v <=? 239) then
        match b1 with
        | y :: z :: b3 =>
            (if v =? 224 then 160 <=? byte_val y else true) &&
            (if v =? 237 then byte_val y <=? 159 else true) &&
            cont y && cont z && utf8_valid b3
        | _ => false
        end
      else if (240 <=? v) && (v <=? 244) then
        match b1 with
        | y :: z :: w :: b4 =>
            (if v =? 240 then 144 <=? byte_val y else true) &&
            (if v =? 244 then byte_val y <=? 143 else true) &&
            cont y && cont z && cont w && utf8_valid b4
        | _ => false
        end
      else false
  end.

(** The UTF-8 form of a code point, and the code points text may have. *)
Definition utf8_encode (c : Z) : bytes :=
  if c <? 128 then [byte_of c]
  else if c <? 2048 then [byte_of (192 + c / 64); byte_of (128 + c mod 64)]
  else if c <? 65536 then
    [byte_of (224 + c / 4096); byte_of (128 + c / 64 mod 64); byte_of (128 + c mod 64)]
  else
    [byte_of (240 + c / 262144); byte_of (128 + c / 4096 mod 64); byte_of (128 + c / 64 mod 64);
     byte_of (128 + c mod 64)].
Definition scalar_value (c : Z) : Prop := 0 ≤ c < 55296 ∨ 57344 ≤ c < 1114112.

(** ** The validator accepts exactly the encoded code points *)

Ltac byte_arith :=
  rewrite ?byte_val_of in *;
  repeat match goal with b : byte |- _ =>
    lazymatch goal with H : 0 ≤ byte_val b < 256 |- _ => fail | _ => pose proof (byte_val_range b) end end;
  Z.to_euclidean_division_equations; lia.

(** A byte is determined by the value an encoding computes for it. *)
Lemma byte_of_eq b z : byte_val b = z → byte_of z = b.
Proof. intros <-. apply byte_of_val. Qed.

(** Decide a comparison of the goal. *)
Ltac decide_cmp :=
  match goal with
  | |- context [?x <=? ?y] =>
      first [rewrite (proj2 (Z.leb_le x y)) by byte_arith | rewrite (proj2 (Z.leb_gt x y)) by byte_arith]
  | |- context [?x =? ?y] =>
      first [rewrite (proj2 (Z.eqb_eq x y)) by byte_arith | rewrite (proj2 (Z.eqb_neq x y)) by byte_arith]
  end.

Lemma utf8_valid_encode c b : scalar_value c → utf8_valid (utf8_encode c ++ b) = utf8_valid b.
Proof.
  intros Hc. unfold utf8_encode, scalar_value in *.
  repeat case_if; cbn [app utf8_valid]; rewrite !byte_val_of; rewrite ?Z.mod_small by byte_arith.
  - by decide_cmp.
  - by repeat (decide_cmp; cbn [andb]).
  - do 4 (decide_cmp; cbn [andb]).
    destruct (224 + c / 4096 =? 224) eqn:?, (224 + c / 4096 =? 237) eqn:?; by repeat (decide_cmp; cbn [andb]).
  - do 6 (decide_cmp; cbn [andb]).
    destruct (240 + c / 262144 =? 240) eqn:?, (240 + c / 262144 =? 244) eqn:?; by repeat (decide_cmp; cbn [andb]).
Qed.

(** The first code point of valid octets. *)
Lemma utf8_valid_step x b :
  utf8_valid (x :: b) = true → ∃ c r, scalar_value c ∧ x :: b = utf8_encode c ++ r ∧ utf8_valid r = true.
Proof.
  cbn [utf8_valid]. unfold scalar_value.
  destruct (byte_val x <=? 127) eqn:H1; [|destruct (_ && (byte_val x <=? 223)) eqn:H2;
    [|destruct (_ && (byte_val x <=? 239)) eqn:H3; [|destruct (_ && (byte_val x <=? 244)) eqn:H4; [|done]]]].
  - intros Hr. exists (byte_val x), b. split; [byte_arith|]. split; [|done].
    unfold utf8_encode. rewrite (proj2 (Z.ltb_lt _ 128)) by byte_arith. by rewrite byte_of_val.
  - destruct b as [|y b]; [done|]. intros [Hy Hr]%andb_prop.
    exists ((byte_val x - 192) * 64 + (byte_val y - 128)), b. split; [byte_arith|]. split; [|done].
    unfold utf8_encode. rewrite (proj2 (Z.ltb_ge _ 128)), (proj2 (Z.ltb_lt _ 2048)) by byte_arith.
    cbn [app]. repeat f_equal; symmetry; apply byte_of_eq; byte_arith.
  - destruct b as [|y [|z b]]; [done..|]. intros [[[[Hlo Hhi]%andb_prop Hy]%andb_prop Hz]%andb_prop Hr]%andb_prop.
    exists ((byte_val x - 224) * 4096 + (byte_val y - 128) * 64 + (byte_val z - 128)), b.
    split; [destruct (byte_val x =? 224) eqn:?, (byte_val x =? 237) eqn:?; byte_arith|]. split; [|done].
    unfold utf8_encode. rewrite (proj2 (Z.ltb_ge _ 128)), (proj2 (Z.ltb_ge _ 2048)), (proj2 (Z.ltb_lt _ 65536))
      by (destruct (byte_val x =? 224) eqn:?; byte_arith).
    cbn [app]. repeat f_equal; symmetry; apply byte_of_eq; byte_arith.
  - destruct b as [|y [|z [|w b]]]; [done..|].
    intros [[[[[Hlo Hhi]%andb_prop Hy]%andb_prop Hz]%andb_prop Hw]%andb_prop Hr]%andb_prop.
    exists ((byte_val x - 240) * 262144 + (byte_val y - 128) * 4096 + (byte_val z - 128) * 64 + (byte_val w - 128)), b.
    split; [destruct (byte_val x =? 240) eqn:?, (byte_val x =? 244) eqn:?; byte_arith|]. split; [|done].
    unfold utf8_encode. rewrite (proj2 (Z.ltb_ge _ 128)), (proj2 (Z.ltb_ge _ 2048)), (proj2 (Z.ltb_ge _ 65536))
      by (destruct (byte_val x =? 240) eqn:?; byte_arith).
    cbn [app]. repeat f_equal; symmetry; apply byte_of_eq; byte_arith.
Qed.

Lemma utf8_valid_iff b :
  utf8_valid b = true ↔ ∃ cs, Forall scalar_value cs ∧ b = concat (utf8_encode <$> cs).
Proof.
  split.
  - induction b as [b IH] using (induction_ltof1 _ (@length byte)). unfold ltof in IH.
    destruct b as [|x b]; [intros _; by exists []|].
    intros (c & r & Hc & E & Hr)%utf8_valid_step.
    destruct (IH r) as (cs & Hcs & ->); [|done|].
    + rewrite E, length_app. unfold utf8_encode. repeat case_if; cbn; lia.
    + exists (c :: cs). by split; [constructor|].
  - intros (cs & Hcs & ->). induction Hcs as [|c cs Hc _ IH]; [done|].
    cbn [fmap list_fmap concat]. by rewrite utf8_valid_encode.
Qed.

(** Text may be cut at an ASCII character. *)
Lemma utf8_valid_cut a x b :
  byte_val x < 128 → utf8_valid (a ++ x :: b) = utf8_valid a && utf8_valid b.
Proof.
  intros Hx. assert (Hc : 128 <=? byte_val x = false) by lia.
  induction a as [[|y a] IH] using (induction_ltof1 _ (@length byte)); unfold ltof in IH.
  { cbn. by replace (byte_val x <=? 127) with true by lia. }
  cbn [app utf8_valid]. destruct (byte_val y <=? 127); [apply IH; cbn; lia|].
  destruct ((194 <=? byte_val y) && _); [|destruct ((224 <=? byte_val y) && _); [|destruct ((240 <=? byte_val y) && _); [|done]]].
  - destruct a as [|z a]; cbn [app]; [by rewrite Hc|]. rewrite IH by (cbn; lia). by rewrite andb_assoc.
  - destruct a as [|z [|w a]]; cbn [app].
    + destruct b; [done|]. by rewrite Hc, andb_false_l, !andb_false_r, andb_false_l.
    + by rewrite Hc, andb_false_l, andb_false_r.
    + rewrite IH by (cbn; lia). by rewrite !andb_assoc.
  - destruct a as [|z [|w [|v a]]]; cbn [app].
    + destruct b as [|? [|? b]]; [done..|]. by rewrite Hc, !andb_false_l, !andb_false_r, !andb_false_l.
    + destruct b; [done|]. by rewrite Hc, andb_false_l, !andb_false_r, andb_false_l.
    + by rewrite Hc, andb_false_l, andb_false_r.
    + rewrite IH by (cbn; lia). by rewrite !andb_assoc.
Qed.

Lemma ascii_valid b : Forall (λ o, byte_val o < 128) b → utf8_valid b = true.
Proof.
  induction 1 as [|o b Ho _ IH]; [done|]. cbn. by replace (byte_val o <=? 127) with true by lia.
Qed.
