(* ===== verification/EncodingRule.v ===== *)
(** * The receipt encoding rule: the operations of [scitt_cose/_encoding_rule.py]

    The walk over raw octets that admits exactly one CBOR encoding per item.
    Definitions only; [EncodingRuleProof] relates them to a grammar.  A
    position is an index into the octets.  The nesting depth is carried as
    [room], the levels still allowed: [depth = MAX_DEPTH + 1 - room], so that
    [depth > MAX_DEPTH] is [room = 0]. *)

From S2P Require Import Prelude PyRuntime Utf8.

(** [CoseError(f"{what}: ...")] *)
Definition rule_error (what : string) (template : string) : exn :=
  CoseError (Msg template [AStr what]).

Definition COSE_SIGN1_TAG : Z := 18.
Definition MAX_DEPTH : Z := 16.

(** Octets of the argument and the smallest value that needs them. *)
Definition _WIDTH (info : Z) : option (nat * Z) :=
  if info =? 24 then Some (1%nat, 24)
  else if info =? 25 then Some (2%nat, Z.shiftl 1 8)
  else if info =? 26 then Some (4%nat, Z.shiftl 1 16)
  else if info =? 27 then Some (8%nat, Z.shiftl 1 32)
  else None.

Definition _ALLOWED_SIMPLE : list Z := [20; 21; 22].

Definition _head (octets : bytes) (pos : Z) (what : string) : result (Z * Z * Z) :=
  match octets !! Z.to_nat pos with
  | None => Raise (rule_error what "{what}: truncated CBOR")
  | Some octet =>
      let initial := byte_val octet in
      let major := Z.shiftr initial 5 in
      let info := Z.land initial 31 in
      let pos := pos + 1 in
      if info <? 24 then Ok (major, info, pos)
      else if info =? 31 then Raise (rule_error what "{what}: an indefinite length")
      else match _WIDTH info with
      | None => Raise (rule_error what "{what}: a reserved additional-information value")
      | Some (width, smallest) =>
          if pos + Z.of_nat width >? zlen octets then Raise (rule_error what "{what}: truncated CBOR")
          else
            let argument := from_bytes (py_slice octets pos (pos + Z.of_nat width)) in
            if negb (major =? 7) && (argument <? smallest)
            then Raise (rule_error what "{what}: an argument longer than its shortest form")
            else Ok (major, argument, pos + Z.of_nat width)
      end
  end.

(** One round of the map loop: the key octets seen so far and the position.
    [item] is the recursive call one level deeper. *)
Definition map_entry (item : Z → result Z) (octets : bytes) (what : string)
    (st : list bytes * Z) : result (list bytes * Z) :=
  let '(keys, pos) := st in
  match octets !! Z.to_nat pos with
  | None => Raise (rule_error what "{what}: truncated CBOR")
  | Some octet =>
      if bool_decide (Z.shiftr (byte_val octet) 5 ∉ [0; 1; 3])
      then Raise (rule_error what "{what}: a map key that is not an integer or a text string")
      else
        let key_start := pos in
        pos ← item pos;
        let key := py_slice octets key_start pos in
        if bool_decide (key ∈ keys) then Raise (rule_error what "{what}: a repeated map key")
        else pos ← item pos; Ok (key :: keys, pos)
  end.

Fixpoint item_room (room : nat) (octets : bytes) (pos : Z) (outer_tag : bool) (what : string) : result Z :=
  match room with
  | O => Raise (CoseError (Msg "{what}: an item nested more than {MAX_DEPTH} levels deep" [AStr what; AInt MAX_DEPTH]))
  | S room' =>
      let depth := MAX_DEPTH + 1 - Z.of_nat room in
      let start := pos in
      '(major, argument, pos) ← _head octets pos what;
      if major =? 0 then Ok pos
      else if major =? 1 then
        if argument >=? Z.shiftl 1 63 then Raise (rule_error what "{what}: an integer below -2^63")
        else Ok pos
      else if (major =? 2) || (major =? 3) then
        if argument >? zlen octets - pos then Raise (rule_error what "{what}: truncated CBOR")
        else
          let end_ := pos + argument in
          if (major =? 3) && negb (utf8_valid (py_slice octets pos end_))
          then Raise (rule_error what "{what}: a text string that is not valid UTF-8")
          else Ok end_
      else if major =? 4 then
        for_range argument (fun pos => item_room room' octets pos false what) pos
      else if major =? 5 then
        '(_, pos) ← for_range argument
          (map_entry (fun pos => item_room room' octets pos false what) octets what) ([], pos);
        Ok pos
      else if major =? 6 then
        if negb (outer_tag && (depth =? 0) && (argument =? COSE_SIGN1_TAG))
        then Raise (rule_error what "{what}: a CBOR tag other than the outer tag 18")
        else item_room room' octets pos false what
      else
        let info := match octets !! Z.to_nat start with Some octet => Z.land (byte_val octet) 31 | None => 0 end in
        if bool_decide (info ∈ [25; 26; 27]) then Raise (rule_error what "{what}: a float")
        else if bool_decide (argument ∉ _ALLOWED_SIMPLE) || (info =? 24)
        then Raise (rule_error what "{what}: a simple value other than false, true and null")
        else Ok pos
  end.

(** [_item(octets, pos, depth, outer_tag, what)] *)
Definition _item (octets : bytes) (pos depth : Z) (outer_tag : bool) (what : string) : result Z :=
  item_room (Z.to_nat (MAX_DEPTH + 1 - depth)) octets pos outer_tag what.

(** [check(octets, what, outer_tag=...)] *)
Definition check (octets : bytes) (what : string) (outer_tag : bool) : result unit :=
  end_ ← _item octets 0 0 outer_tag what;
  if negb (end_ =? zlen octets) then Raise (rule_error what "{what}: trailing octets after the CBOR item")
  else Ok ().

Example check_map : check [xa2; x01; x61; x61; x20; x80] "r" false = Ok ().
Proof. vm_compute. reflexivity. Qed.
Example check_huge : is_ok (check [x9b; xff; xff; xff; xff; xff; xff; xff; xff; x01] "r" false) = false.
Proof. vm_compute. reflexivity. Qed.
