(* ===== verification/EncodingRuleProof.v ===== *)
(** * The receipt encoding rule accepts one encoding per item

    A grammar of the admitted items, their encoding, and the proof that
    [check] accepts exactly the encodings of admitted items and that no two
    items share one. *)

From S2P Require Import Prelude PyRuntime Utf8 EncodingRule.

(** ** The grammar *)

(** A CBOR item of the rule; [Nint n] is the integer [-1 - n]. *)
#[warnings="-register-all"]
Inductive item : Type :=
| Uint (n : Z)
| Nint (n : Z)
| Octets (b : bytes)
| Text (b : bytes)
| Array (l : list item)
| Map (l : list (item * item))
| Tag (t : Z) (i : item)
| Simple (s : Z).

#[export] Instance item_inhabited : Inhabited item := populate (Uint 0).

(** The head of an item: its major type and argument in the shortest form. *)
Definition head (major arg : Z) : bytes :=
  let initial info := byte_of (major * 32 + info) in
  if arg <? 24 then [initial arg]
  else if arg <? 2 ^ 8 then initial 24 :: be_bytes 1 arg
  else if arg <? 2 ^ 16 then initial 25 :: be_bytes 2 arg
  else if arg <? 2 ^ 32 then initial 26 :: be_bytes 4 arg
  else initial 27 :: be_bytes 8 arg.

Fixpoint encode (i : item) : bytes :=
  match i with
  | Uint n => head 0 n
  | Nint n => head 1 n
  | Octets b => head 2 (zlen b) ++ b
  | Text b => head 3 (zlen b) ++ b
  | Array l => head 4 (zlen l) ++ concat (map encode l)
  | Map l => head 5 (zlen l) ++ concat (map (fun kv => encode kv.1 ++ encode kv.2) l)
  | Tag t i => head 6 t ++ encode i
  | Simple s => head 7 s
  end.

Lemma zlen_head_le m a : zlen (head m a) ≤ 9.
Proof. unfold head, zlen. repeat case_if; cbn [length]; rewrite ?length_be_bytes; lia. Qed.

Definition is_key (i : item) : Prop :=
  match i with Uint _ | Nint _ | Text _ => True | _ => False end.

(** The items the rule admits within [room] levels; [outer_tag] admits tag 18
    on the top item. *)
Fixpoint admitted (room : nat) (outer_tag : bool) (i : item) : Prop :=
  match room with
  | O => False
  | S room' =>
      match i with
      | Uint n => 0 ≤ n < 2 ^ 64
      | Nint n => 0 ≤ n < 2 ^ 63
      | Octets b => zlen b < 2 ^ 64
      | Text b => zlen b < 2 ^ 64 ∧ ∃ cs, Forall scalar_value cs ∧ b = concat (utf8_encode <$> cs)
      | Array l => zlen l < 2 ^ 64 ∧ Forall (admitted room' false) l
      | Map l => zlen l < 2 ^ 64 ∧ NoDup l.*1 ∧
          Forall (fun kv => is_key kv.1 ∧ admitted room' false kv.1 ∧ admitted room' false kv.2) l
      | Tag t i => outer_tag = true ∧ room' = 16%nat ∧ t = 18 ∧ admitted room' false i
      | Simple s => s ∈ [20; 21; 22]
      end
  end.

(** The grammar one level at a time, for a symbolic number of levels. *)
Section admitted.
Context (room : nat) (ot : bool).

Lemma admitted_Octets b : admitted (S room) ot (Octets b) ↔ zlen b < 2 ^ 64.
Proof. done. Qed.

Lemma admitted_Text b :
  admitted (S room) ot (Text b) ↔ zlen b < 2 ^ 64 ∧ ∃ cs, Forall scalar_value cs ∧ b = concat (utf8_encode <$> cs).
Proof. done. Qed.

Lemma admitted_Array l : admitted (S room) ot (Array l) ↔ zlen l < 2 ^ 64 ∧ Forall (admitted room false) l.
Proof. done. Qed.

Lemma admitted_Map l :
  admitted (S room) ot (Map l) ↔ zlen l < 2 ^ 64 ∧ NoDup l.*1 ∧
    Forall (fun kv => is_key kv.1 ∧ admitted room false kv.1 ∧ admitted room false kv.2) l.
Proof. done. Qed.

Lemma admitted_Tag t i :
  admitted (S room) ot (Tag t i) ↔ ot = true ∧ room = 16%nat ∧ t = 18 ∧ admitted room false i.
Proof. done. Qed.

Lemma admitted_Simple s : admitted (S room) ot (Simple s) ↔ s ∈ [20; 21; 22].
Proof. done. Qed.
End admitted.

(** ** Octets found at a position *)

Definition spans (octets : bytes) (pos : Z) (s : bytes) (p : Z) : Prop :=
  ∃ pre rest, octets = pre ++ s ++ rest ∧ pos = zlen pre ∧ p = zlen pre + zlen s.

Lemma spans_app octets pos s p t q :
  spans octets pos s p → spans octets p t q → spans octets pos (s ++ t) q.
Proof.
  intros (pre & rest & -> & -> & ->) (pre' & rest' & E & L & ->).
  rewrite app_assoc in E. apply app_eq_l in E as [<- ->]; [|rewrite length_app; unfold zlen in L; lia].
  exists pre, rest'. rewrite zlen_app in *. split_and!; [by rewrite <- !app_assoc|done|zlen].
Qed.

Lemma spans_split octets pos s t q :
  spans octets pos (s ++ t) q → spans octets pos s (pos + zlen s) ∧ spans octets (pos + zlen s) t q.
Proof.
  intros (pre & rest & -> & -> & ->). split.
  - exists pre, (t ++ rest). by rewrite <- app_assoc.
  - exists (pre ++ s), rest. rewrite !zlen_app, <- !app_assoc. split_and!; [done|done|lia].
Qed.

Lemma spans_nil octets pos : 0 ≤ pos ≤ zlen octets → spans octets pos [] pos.
Proof.
  intros H. exists (take (Z.to_nat pos) octets), (drop (Z.to_nat pos) octets).
  cbn [app]. rewrite take_drop, zlen_take, zlen_nil by lia. split_and!; [done|lia..].
Qed.

Lemma spans_bounds octets pos s p : spans octets pos s p → 0 ≤ pos ≤ p ∧ p ≤ zlen octets ∧ pos + zlen s = p.
Proof. intros (pre & rest & -> & -> & ->). pose proof (zlen_nonneg pre). pose proof (zlen_nonneg s). pose proof (zlen_nonneg rest). zlen. Qed.

Lemma spans_nil_eq octets pos p : spans octets pos [] p → p = pos.
Proof. intros (pre & rest & _ & -> & ->). by rewrite zlen_nil, Z.add_0_r. Qed.

Lemma spans_slice octets pos s p : spans octets pos s p → py_slice octets pos p = s.
Proof. intros (pre & rest & -> & -> & ->). apply py_slice_app. Qed.

Lemma slice_spans octets pos n :
  0 ≤ pos → 0 ≤ n → pos + n ≤ zlen octets → spans octets pos (py_slice octets pos (pos + n)) (pos + n).
Proof.
  intros. unfold py_slice. replace (pos + n - pos) with n by lia.
  exists (take (Z.to_nat pos) octets), (drop (Z.to_nat n) (drop (Z.to_nat pos) octets)).
  rewrite !take_drop, !zlen_take, zlen_drop by lia. split_and!; [done|lia..].
Qed.

Lemma lookup_spans octets pos o : 0 ≤ pos → octets !! Z.to_nat pos = Some o ↔ spans octets pos [o] (pos + 1).
Proof.
  intros Hp. split.
  - intros H. exists (take (Z.to_nat pos) octets), (drop (S (Z.to_nat pos)) octets).
    pose proof (lookup_lt_Some _ _ _ H). cbn [app]. rewrite take_drop_middle, zlen_take by (done || lia).
    change (zlen [o]) with 1. unfold zlen. split_and!; [done|lia..].
  - intros (pre & rest & -> & -> & _). unfold zlen. by rewrite Nat2Z.id, lookup_app_r, Nat.sub_diag by lia.
Qed.

Lemma spans_lookup octets pos o s p : spans octets pos (o :: s) p → octets !! Z.to_nat pos = Some o.
Proof.
  intros H. pose proof (spans_bounds _ _ _ _ H). change (o :: s) with ([o] ++ s) in H.
  apply spans_split in H as [H _]. by apply lookup_spans; [lia|].
Qed.

Lemma spans_unique octets pos s p t q :
  spans octets pos s p → spans octets pos t q → zlen s = zlen t → s = t ∧ p = q.
Proof.
  intros H1 H2 L. pose proof (spans_bounds _ _ _ _ H1). pose proof (spans_bounds _ _ _ _ H2).
  assert (p = q) as -> by lia. split; [|done].
  by rewrite <- (spans_slice _ _ _ _ H1), <- (spans_slice _ _ _ _ H2).
Qed.

(** ** Heads *)

Lemma initial_major m i : 0 ≤ m < 8 → 0 ≤ i < 32 → Z.shiftr (byte_val (byte_of (m * 32 + i))) 5 = m.
Proof. intros. rewrite byte_val_of, Z.shiftr_div_pow2 by lia. byte_arith. Qed.

Lemma initial_info m i : 0 ≤ m < 8 → 0 ≤ i < 32 → Z.land (byte_val (byte_of (m * 32 + i))) 31 = i.
Proof.
  intros. rewrite byte_val_of. change 31 with (Z.ones 5). rewrite Z.land_ones by lia. byte_arith.
Qed.

Lemma initial_split o :
  0 ≤ Z.shiftr (byte_val o) 5 < 8 ∧ 0 ≤ Z.land (byte_val o) 31 < 32 ∧
  o = byte_of (Z.shiftr (byte_val o) 5 * 32 + Z.land (byte_val o) 31).
Proof.
  change 31 with (Z.ones 5). rewrite Z.land_ones, Z.shiftr_div_pow2 by lia.
  split_and!; [byte_arith..|]. symmetry. apply byte_of_eq. byte_arith.
Qed.

(** The forms a head can take: its information value and argument octets. *)
Lemma head_form m a : 0 ≤ a < 2 ^ 64 →
  (a < 24 ∧ head m a = [byte_of (m * 32 + a)]) ∨
  ∃ info w smallest, 24 ≤ info < 28 ∧ _WIDTH info = Some (w, smallest) ∧ smallest ≤ a < 256 ^ Z.of_nat w ∧
    head m a = byte_of (m * 32 + info) :: be_bytes w a.
Proof.
  intros Ha. unfold head. destruct (Z.ltb_spec a 24); [by left|right].
  destruct (Z.ltb_spec a (2 ^ 8)); [exists 24, 1%nat, 24; split_and!; (done || cbn; lia)|].
  destruct (Z.ltb_spec a (2 ^ 16)); [exists 25, 2%nat, (2 ^ 8); split_and!; (done || cbn; lia)|].
  destruct (Z.ltb_spec a (2 ^ 32)); [exists 26, 4%nat, (2 ^ 16); split_and!; (done || cbn; lia)|].
  exists 27, 8%nat, (2 ^ 32); split_and!; (done || cbn; lia).
Qed.

Lemma form_head m a info w smallest :
  24 ≤ info < 28 → _WIDTH info = Some (w, smallest) → smallest ≤ a < 256 ^ Z.of_nat w →
  head m a = byte_of (m * 32 + info) :: be_bytes w a.
Proof.
  intros Hi Hw. unfold _WIDTH in Hw. unfold head.
  destruct (Z.eqb_spec info 24) as [->|]; [injection Hw as <- <-|destruct (Z.eqb_spec info 25) as [->|];
    [injection Hw as <- <-|destruct (Z.eqb_spec info 26) as [->|]; [injection Hw as <- <-|
      destruct (Z.eqb_spec info 27) as [->|]; [injection Hw as <- <-|done]]]].
  - intros Ha. change (24 ≤ a < 2 ^ 8) in Ha. repeat case_if; done || lia.
  - intros Ha. change (2 ^ 8 ≤ a < 2 ^ 16) in Ha. repeat case_if; done || lia.
  - intros Ha. change (2 ^ 16 ≤ a < 2 ^ 32) in Ha. repeat case_if; done || lia.
  - intros Ha. change (2 ^ 32 ≤ a < 2 ^ 64) in Ha. repeat case_if; done || lia.
Qed.

Lemma width_range info w smallest :
  _WIDTH info = Some (w, smallest) → 24 ≤ info < 28 ∧ 0 ≤ smallest ∧ 256 ^ Z.of_nat w ≤ 2 ^ 64.
Proof. unfold _WIDTH. repeat case_if; intros [= <- <-]; split_and!; (lia || by apply Z.leb_le).
Qed.

Lemma zlen_head m a : 0 < zlen (head m a).
Proof. unfold head. repeat case_if; rewrite zlen_cons; unfold zlen; lia. Qed.

(** [_head] reads back the head it finds. *)
Lemma head_complete octets pos m a p what :
  0 ≤ m < 8 → 0 ≤ a < 2 ^ 64 → spans octets pos (head m a) p → _head octets pos what = Ok (m, a, p).
Proof.
  intros Hm Ha Hs. pose proof (spans_bounds _ _ _ _ Hs) as Hb.
  destruct (head_form m a Ha) as [[H24 E]|(info & w & smallest & Hi & Hw & Hr & E)]; rewrite E in *.
  - unfold _head. rewrite (spans_lookup _ _ _ _ _ Hs). rewrite initial_major, initial_info by lia.
    replace (a <? 24) with true by lia. do 2 f_equal. change (zlen [_]) with 1 in Hb. lia.
  - unfold _head. rewrite (spans_lookup _ _ _ _ _ Hs). rewrite initial_major, initial_info, Hw by lia.
    replace (info <? 24) with false by lia. replace (info =? 31) with false by lia.
    rewrite zlen_cons in Hb. unfold zlen at 2 in Hb. rewrite length_be_bytes in Hb.
    replace (pos + 1 + Z.of_nat w >? zlen octets) with false by lia.
    change (?x :: ?l) with ([x] ++ l) in Hs. apply spans_split in Hs as [_ Hs].
    change (zlen [_]) with 1 in Hs. pose proof (spans_bounds _ _ _ _ Hs) as Hb'.
    unfold zlen at 2 in Hb'. rewrite length_be_bytes in Hb'.
    replace (pos + 1 + Z.of_nat w) with p by lia. rewrite (spans_slice _ _ _ _ Hs).
    rewrite from_be_bytes by (pose proof (width_range _ _ _ Hw); lia).
    replace (a <? smallest) with false by lia. by rewrite andb_false_r.
Qed.

Lemma head_sound octets pos m a p what :
  0 ≤ pos → _head octets pos what = Ok (m, a, p) →
  ∃ o, octets !! Z.to_nat pos = Some o ∧ m = Z.shiftr (byte_val o) 5 ∧ 0 ≤ m < 8 ∧ 0 ≤ a < 2 ^ 64 ∧
    0 ≤ p ≤ zlen octets ∧ Z.land (byte_val o) 31 < 28 ∧
    (m ≠ 7 ∨ Z.land (byte_val o) 31 < 24 → spans octets pos (head m a) p).
Proof.
  intros Hpos Hh. unfold _head in Hh. destruct (octets !! Z.to_nat pos) as [o|] eqn:Ho; [|done].
  exists o. destruct (initial_split o) as (Hm & Hi & Eo). set (info := Z.land _ _) in *.
  apply lookup_spans in Ho as Hs; [|done]. pose proof (spans_bounds _ _ _ _ Hs) as Hb.
  destruct (Z.ltb_spec info 24); [|destruct (Z.eqb_spec info 31); [done|]].
  - injection Hh as <- <- <-. split_and!; try (done || lia). intros _.
    unfold head. replace (info <? 24) with true by lia. by rewrite <- Eo.
  - destruct (_WIDTH info) as [[w smallest]|] eqn:Hw; [|done].
    destruct (pos + 1 + Z.of_nat w >? zlen octets) eqn:Hl; [done|]. cbv zeta in Hh.
    set (arg := from_bytes _) in *. destruct (negb _ && _) eqn:Hshort; [done|].
    injection Hh as <- <- <-.
    pose proof (slice_spans octets (pos + 1) (Z.of_nat w) ltac:(lia) ltac:(lia) ltac:(lia)) as Hsl.
    pose proof (spans_bounds _ _ _ _ Hsl) as Hbs.
    assert (length (py_slice octets (pos + 1) (pos + 1 + Z.of_nat w)) = w) as Hlen by (unfold zlen in Hbs; lia).
    pose proof (from_bytes_range (py_slice octets (pos + 1) (pos + 1 + Z.of_nat w))) as Hr. fold arg in Hr.
    unfold zlen in Hr. rewrite Hlen in Hr. pose proof (width_range _ _ _ Hw).
    fold info. split_and!; try (done || lia). intros [H7|?]; [|lia].
    apply andb_false_iff in Hshort as [?|?]; [lia|].
    rewrite (form_head _ arg info w smallest) by (done || lia). rewrite <- Eo.
    change (o :: ?l) with ([o] ++ l). eapply spans_app; [exact Hs|].
    set (sl := py_slice _ _ _) in *. assert (be_bytes w arg = sl) as -> by (by rewrite <- Hlen; apply be_from_bytes).
    exact Hsl.
Qed.

(** ** No two admitted items share an encoding *)

Lemma head_app_inj m a m' a' x y :
  0 ≤ m < 8 → 0 ≤ m' < 8 → 0 ≤ a < 2 ^ 64 → 0 ≤ a' < 2 ^ 64 →
  head m a ++ x = head m' a' ++ y → m = m' ∧ a = a' ∧ x = y.
Proof.
  intros Hm Hm' Ha Ha' E.
  assert (spans (head m a ++ x) 0 (head m a) (zlen (head m a))) as H1 by (by exists [], x).
  assert (spans (head m a ++ x) 0 (head m' a') (zlen (head m' a'))) as H2 by (by exists [], y).
  apply (head_complete _ _ _ _ _ "") in H1, H2; [|done..].
  rewrite H1 in H2. injection H2 as -> ->. split_and!; [done..|]. by apply app_inv_head in E.
Qed.

(** Items whose encodings determine themselves and what follows. *)
Definition decodable (i : item) (j : item) : Prop :=
  ∀ x y, encode i ++ x = encode j ++ y → i = j ∧ x = y.

Lemma concat_inj {A} (f : A → bytes) (P Q : A → Prop) l l' x y :
  (∀ a b x y, P a → Q b → f a ++ x = f b ++ y → a = b ∧ x = y) →
  Forall P l → Forall Q l' → length l = length l' →
  concat (map f l) ++ x = concat (map f l') ++ y → l = l' ∧ x = y.
Proof.
  intros Hf HP. revert l'. induction HP as [|a l Ha _ IH]; intros l' HQ Hlen E.
  - destruct l'; [by split|done].
  - destruct HQ as [|b l' Hb HQ]; [done|]. cbn in E. rewrite <- !app_assoc in E.
    apply Hf in E as [<- E]; [|done..]. apply IH in E as [<- <-]; [by split|done|by injection Hlen].
Qed.

Lemma zlen_eq_length {A B} (l : list A) (k : list B) : zlen l = zlen k → length l = length k.
Proof. unfold zlen. lia. Qed.

Lemma encode_inj room ot room' ot' i j :
  admitted room ot i → admitted room' ot' j → decodable i j.
Proof.
  revert ot room' ot' i j. induction room as [|room IH]; intros ot [|room'] ot' i j Hi Hj x y E; try done.
  assert (∀ (i j : item) x y, admitted room false i → admitted room' false j →
    encode i ++ x = encode j ++ y → i = j ∧ x = y) as IH' by (intros ?????? H; by eapply IH in H).
  assert (∀ s : Z, s ∈ [20; 21; 22] → 0 ≤ s < 2 ^ 64) as Hsimple by set_solver by lia.
  pose proof (@zlen_nonneg byte). pose proof (@zlen_nonneg item). pose proof (@zlen_nonneg (item * item)).
  destruct i, j; cbn [encode admitted] in *; destruct_and?; rewrite <- ?app_assoc in E;
    apply head_app_inj in E as (Em & Ea & E); try done; eauto with lia.
  all: try (subst; done).
  - apply app_eq_l in E as [-> ->]; [done|by apply zlen_eq_length].
  - apply app_eq_l in E as [-> ->]; [done|by apply zlen_eq_length].
  - eapply concat_inj in E as [-> ->]; [done|exact IH'|done..|by apply zlen_eq_length].
  - eapply concat_inj in E as [-> ->]; [done| |done..|by apply zlen_eq_length].
    intros [k v] [k' v'] x' y'. cbn. intros (_ & Hk & Hv) (_ & Hk' & Hv'). rewrite <- !app_assoc.
    intros E'. apply IH' in E' as [-> E']; [|done..]. by apply IH' in E' as [-> ->].
  - apply IH' in E as [-> ->]; [by subst|done..].
Qed.

(** ** The walk *)

Definition major (i : item) : Z :=
  match i with
  | Uint _ => 0 | Nint _ => 1 | Octets _ => 2 | Text _ => 3 | Array _ => 4 | Map _ => 5 | Tag _ _ => 6
  | Simple _ => 7
  end.

Lemma is_key_major i : is_key i ↔ major i ∈ [0; 1; 3].
Proof. destruct i; cbn; set_solver by lia. Qed.

Lemma head_initial m a : 0 ≤ m < 8 → 0 ≤ a < 2 ^ 64 → ∃ o s, head m a = o :: s ∧ Z.shiftr (byte_val o) 5 = m.
Proof.
  intros Hm Ha. destruct (head_form m a Ha) as [[? ->]|(? & ? & ? & ? & ? & ? & ->)];
    eexists _, _; (split; [done|apply initial_major; lia]).
Qed.

Lemma encode_initial room ot i :
  admitted room ot i → ∃ o s, encode i = o :: s ∧ Z.shiftr (byte_val o) 5 = major i.
Proof.
  assert (∀ m a s, 0 ≤ m < 8 → 0 ≤ a < 2 ^ 64 →
    ∃ o s', head m a ++ s = o :: s' ∧ Z.shiftr (byte_val o) 5 = m) as Hh.
  { intros m a s Hm Ha. destruct (head_initial m a Hm Ha) as (o & s' & -> & ?). by eexists o, _. }
  destruct room; [done|]. pose proof (@zlen_nonneg byte). pose proof (@zlen_nonneg item).
  pose proof (@zlen_nonneg (item * item)).
  destruct i; cbn [encode admitted major]; intros; destruct_and?.
  1,2: apply head_initial; lia.
  1-4: apply Hh; auto with lia.
  - subst. apply Hh; lia.
  - apply head_initial; [lia|]. set_solver by lia.
Qed.

Section walk.
Context (octets : bytes) (what : string) (body : Z → result Z) (P : item → Prop).
Context (body_sound : ∀ pos p, 0 ≤ pos ≤ zlen octets → body pos = Ok p → ∃ i, P i ∧ spans octets pos (encode i) p).
Context (body_complete : ∀ i pos p, P i → spans octets pos (encode i) p → body pos = Ok p).

Lemma array_sound n pos p :
  0 ≤ pos ≤ zlen octets → iterate n body pos = Ok p →
  ∃ l, length l = n ∧ Forall P l ∧ spans octets pos (concat (map encode l)) p.
Proof using body_sound.
  revert pos. induction n as [|n IH]; intros pos Hpos Hit.
  - injection Hit as <-. exists []. split_and!; [done|constructor|by apply spans_nil].
  - apply bind_ok in Hit as (q & Hq & Hit). apply body_sound in Hq as (i & Hi & Hs); [|done].
    pose proof (spans_bounds _ _ _ _ Hs). apply IH in Hit as (l & <- & Hl & Hs'); [|lia].
    exists (i :: l). split_and!; [done|by constructor|]. by eapply spans_app.
Qed.

Lemma array_complete l pos p :
  Forall P l → spans octets pos (concat (map encode l)) p → iterate (length l) body pos = Ok p.
Proof using body_complete.
  intros Hl. revert pos. induction Hl as [|i l Hi _ IH]; intros pos Hs; cbn.
  - by apply spans_nil_eq in Hs as ->.
  - cbn in Hs. apply spans_split in Hs as [Hs1 Hs2]. rewrite (body_complete _ _ _ Hi Hs1). by apply IH.
Qed.

Let entry := map_entry body octets what.
Let pair_ok (kv : item * item) : Prop := is_key kv.1 ∧ P kv.1 ∧ P kv.2.
Let pair_octets (kv : item * item) : bytes := encode kv.1 ++ encode kv.2.
Context (P_initial : ∀ i, P i → ∃ o s, encode i = o :: s ∧ Z.shiftr (byte_val o) 5 = major i).

Lemma entry_sound ks pos ks' p :
  0 ≤ pos ≤ zlen octets → entry (ks, pos) = Ok (ks', p) →
  ∃ kv, pair_ok kv ∧ ks' = (encode (fst kv) :: ks) ∧ (encode (fst kv) ∉ ks) ∧ spans octets pos (pair_octets kv) p.
Proof using body_sound P_initial.
  intros Hpos He. unfold entry, map_entry in He. destruct (octets !! Z.to_nat pos) as [o|] eqn:Ho; [|done].
  case_bool_decide as Hmaj; [done|]. apply bind_ok in He as (q & Hq & He). cbv zeta in He.
  apply body_sound in Hq as (k & Hk & Hsk); [|done]. rewrite (spans_slice _ _ _ _ Hsk) in He.
  case_bool_decide as Hin; [done|]. apply bind_ok in He as (r & Hr & [= <- <-]).
  pose proof (spans_bounds _ _ _ _ Hsk). apply body_sound in Hr as (v & Hv & Hsv); [|lia].
  exists (k, v). unfold pair_ok. cbn [fst snd]. split_and!; [|done..|by eapply spans_app].
  apply is_key_major. destruct (P_initial k Hk) as (o' & s & Ek & <-).
  rewrite Ek in Hsk. apply spans_lookup in Hsk. assert (o = o') as -> by congruence.
  by destruct (decide (Z.shiftr (byte_val o') 5 ∈ [0; 1; 3])).
Qed.

Lemma entry_complete ks kv pos p :
  pair_ok kv → encode kv.1 ∉ ks → spans octets pos (pair_octets kv) p →
  entry (ks, pos) = Ok (encode kv.1 :: ks, p).
Proof using body_complete P_initial.
  destruct kv as [k v]. intros (Hkey & Hk & Hv) Hin Hs. apply spans_split in Hs as [Hsk Hsv]. cbn [fst snd] in *.
  destruct (P_initial k Hk) as (o & s & Ek & Hmaj). unfold entry, map_entry.
  assert (octets !! Z.to_nat pos = Some o) as -> by (rewrite Ek in Hsk; by eapply spans_lookup).
  rewrite bool_decide_eq_false_2 by (rewrite Hmaj; by apply is_key_major in Hkey; intros ?).
  rewrite (body_complete _ _ _ Hk Hsk). cbn [mbind outcome_bind].
  rewrite (spans_slice _ _ _ _ Hsk), bool_decide_eq_false_2 by done.
  by rewrite (body_complete _ _ _ Hv Hsv).
Qed.

Lemma map_sound n ks pos ks' p :
  0 ≤ pos ≤ zlen octets → iterate n entry (ks, pos) = Ok (ks', p) →
  ∃ l, length l = n ∧ Forall pair_ok l ∧ NoDup l.*1 ∧ Forall (fun kv => encode kv.1 ∉ ks) l ∧
    spans octets pos (concat (map pair_octets l)) p.
Proof using body_sound P_initial.
  revert ks pos. induction n as [|n IH]; intros ks pos Hpos Hit.
  - injection Hit as <- <-. exists []. split_and!; try constructor. by apply spans_nil.
  - apply bind_ok in Hit as ([ks1 q] & Hq & Hit).
    apply entry_sound in Hq as (kv & Hkv & -> & Hnew & Hs); [|done].
    pose proof (spans_bounds _ _ _ _ Hs).
    apply IH in Hit as (l & <- & Hl & Hnd & Hks & Hs'); [|lia].
    exists (kv :: l). rewrite Forall_forall in Hks. split_and!; [done|by constructor| |..].
    + cbn. constructor; [|done]. intros (kv' & E & Hin)%list_elem_of_fmap. apply (Hks kv' Hin). rewrite <- E. by left.
    + constructor; [done|]. apply Forall_forall. intros kv' Hin Hc. apply (Hks kv' Hin). by right.
    + by eapply spans_app.
Qed.

Lemma map_complete l ks pos p :
  Forall pair_ok l → NoDup (encode <$> l.*1) → Forall (fun kv => encode kv.1 ∉ ks) l →
  spans octets pos (concat (map pair_octets l)) p → ∃ ks', iterate (length l) entry (ks, pos) = Ok (ks', p).
Proof using body_complete P_initial.
  intros Hl. revert ks pos. induction Hl as [|kv l Hkv _ IH]; intros ks pos Hnd Hks Hs; cbn [length iterate].
  - exists ks. by apply spans_nil_eq in Hs as ->.
  - cbn in Hs, Hnd. apply spans_split in Hs as [Hs1 Hs2].
    apply NoDup_cons in Hnd as [Hnew Hnd]. apply Forall_cons in Hks as [Hk Hks].
    rewrite (entry_complete _ _ _ _ Hkv Hk Hs1). cbn [mbind outcome_bind].
    apply IH; [done| |done].
    rewrite Forall_forall in Hks |- *. intros kv' Hin [E|Hc]%elem_of_cons; [|by apply (Hks kv')].
    apply Hnew. rewrite <- E. apply list_elem_of_fmap. exists kv'.1. split; [done|]. by apply list_elem_of_fmap_2.
Qed.
End walk.

Lemma utf8_text b : utf8_valid b = true ↔ ∃ cs, Forall scalar_value cs ∧ b = concat (utf8_encode <$> cs).
Proof. apply utf8_valid_iff. Qed.

Lemma encodings_distinct room (l : list (item * item)) :
  Forall (fun kv => is_key kv.1 ∧ admitted room false kv.1 ∧ admitted room false kv.2) l →
  NoDup l.*1 → NoDup (encode <$> l.*1).
Proof.
  intros Hl Hnd. apply NoDup_fmap_2_strong; [|done]. intros x y Hx Hy E.
  rewrite Forall_forall in Hl. apply list_elem_of_fmap in Hx as ([k v] & -> & Hk), Hy as ([k' v'] & -> & Hk').
  apply Hl in Hk as (_ & Hk & _), Hk' as (_ & Hk' & _).
  by apply (encode_inj _ _ _ _ _ _ Hk Hk' [] []); rewrite E.
Qed.

Lemma item_room_sound room octets pos ot what p :
  0 ≤ pos ≤ zlen octets → item_room room octets pos ot what = Ok p →
  ∃ i, admitted room ot i ∧ spans octets pos (encode i) p.
Proof.
  revert ot pos p. induction room as [|room IH]; intros ot pos p Hpos Hi; [done|]. cbn [item_room] in Hi.
  apply bind_ok in Hi as ([[m a] q] & Hh & Hi).
  apply head_sound in Hh as (o & Ho & Em & Hm & Ha & Hq & Hinfo & Hs); [|lia].
  destruct (Z.eqb_spec m 0) as [E|H0]; [|destruct (Z.eqb_spec m 1) as [E|H1]; [|destruct (Z.eqb_spec m 2) as [E|H2];
    [|destruct (Z.eqb_spec m 3) as [E|H3]; [|destruct (Z.eqb_spec m 4) as [E|H4]; [|destruct (Z.eqb_spec m 5) as [E|H5];
    [|destruct (Z.eqb_spec m 6) as [E|H6]]]]]]]; try rewrite E in *; cbn [orb andb negb] in Hi.
  - injection Hi as <-. exists (Uint a). split; [exact Ha|]. apply Hs. lia.
  - destruct (a >=? Z.shiftl 1 63) eqn:Hb; [done|]. injection Hi as <-. change (Z.shiftl 1 63) with (2 ^ 63) in Hb.
    exists (Nint a). split; [cbn; lia|]. apply Hs. lia.
  - destruct (a >? zlen octets - q) eqn:Hb; [done|]. injection Hi as <-.
    pose proof (slice_spans octets q a ltac:(lia) ltac:(lia) ltac:(lia)) as Hsl.
    pose proof (spans_bounds _ _ _ _ Hsl). assert (zlen (py_slice octets q (q + a)) = a) as Hl by lia.
    exists (Octets (py_slice octets q (q + a))). cbn. rewrite Hl. split; [lia|].
    eapply spans_app; [|exact Hsl]. apply Hs. lia.
  - destruct (a >? zlen octets - q) eqn:Hb; [done|]. cbv zeta in Hi.
    destruct (utf8_valid _) eqn:Hu; [|done]. injection Hi as <-.
    pose proof (slice_spans octets q a ltac:(lia) ltac:(lia) ltac:(lia)) as Hsl.
    pose proof (spans_bounds _ _ _ _ Hsl). assert (zlen (py_slice octets q (q + a)) = a) as Hl by lia.
    exists (Text (py_slice octets q (q + a))). cbn. rewrite Hl. split; [split; [lia|by apply utf8_text]|].
    eapply spans_app; [|exact Hsl]. apply Hs. lia.
  - rewrite for_range_iterate in Hi. eapply array_sound in Hi as (l & Hlen & Hl & Hsl);
      [|intros ????; eapply IH; eauto|lia].
    assert (zlen l = a) as El by (unfold zlen; lia).
    exists (Array l). cbn. rewrite El. split; [split; [lia|done]|]. eapply spans_app; [|exact Hsl]. apply Hs. lia.
  - apply bind_ok in Hi as ([ks r] & Hi & [= <-]). rewrite for_range_iterate in Hi.
    eapply (map_sound octets what _ (admitted room false)) in Hi as (l & Hlen & Hl & Hnd & _ & Hsl);
      [|intros ????; eapply IH; eauto|apply encode_initial|lia].
    assert (zlen l = a) as El by (unfold zlen; lia).
    exists (Map l). cbn. rewrite El. split; [split_and!; [lia|done|done]|]. eapply spans_app; [|exact Hsl]. apply Hs. lia.
  - destruct (ot && _ && _) eqn:Ht; [|done]. cbn [negb] in Hi.
    apply andb_prop in Ht as [[-> Hd]%andb_prop Ht]. unfold MAX_DEPTH, COSE_SIGN1_TAG in *.
    apply IH in Hi as (i & Hi & Hsi); [|lia]. cbv zeta beta in Hd. apply Z.eqb_eq in Hd, Ht. exists (Tag a i). cbn. split; [split_and!; [done|lia|lia|done]|].
    eapply spans_app; [|exact Hsi]. apply Hs. lia.
  - rewrite Ho in Hi. cbv zeta in Hi. case_bool_decide as Hf; [done|].
    case_bool_decide as Hal; [done|]. cbn [orb] in Hi. destruct (Z.eqb_spec (Z.land (byte_val o) 31) 24); [done|].
    injection Hi as <-. assert (a ∈ [20; 21; 22]) as Hin by (by destruct (decide (a ∈ [20; 21; 22]))).
    exists (Simple a). split; [exact Hin|]. assert (m = 7) as E7 by lia. rewrite E7 in Hs. cbn. apply Hs.
    right. destruct (initial_split o) as (_ & ? & _).
    rewrite !not_elem_of_cons in Hf. destruct Hf as (? & ? & ? & _). lia.
Qed.

Lemma item_room_complete room octets pos ot what i p :
  admitted room ot i → spans octets pos (encode i) p → item_room room octets pos ot what = Ok p.
Proof.
  revert ot pos p i. induction room as [|room IH]; intros ot pos p i Hi Hs; [done|].
  assert (∀ m a s, encode i = head m a ++ s → 0 ≤ m < 8 → 0 ≤ a < 2 ^ 64 →
    ∃ q, _head octets pos what = Ok (m, a, q) ∧ spans octets q s p) as Hhead.
  { intros m a s E Hm Ha. rewrite E in Hs. apply spans_split in Hs as [Hs1 Hs2].
    eexists. split; [by eapply head_complete|done]. }
  pose proof (@zlen_nonneg byte). pose proof (@zlen_nonneg item). pose proof (@zlen_nonneg (item * item)).
  cbn [item_room]. destruct i as [n|n|b|b|l|l|t i|s]; cbn [admitted] in Hi; destruct_and?.
  - destruct (Hhead 0 n []) as (q & -> & ->%spans_nil_eq); [by rewrite app_nil_r|lia..|done].
  - destruct (Hhead 1 n []) as (q & -> & ->%spans_nil_eq); [by rewrite app_nil_r|lia..|].
    cbn. change (Z.shiftl 1 63) with (2 ^ 63). by replace (n >=? 2 ^ 63) with false by lia.
  - destruct (Hhead 2 (zlen b) b) as (q & -> & Hb); [done|lia|auto|].
    pose proof (spans_bounds _ _ _ _ Hb) as (? & ? & Hp). cbn.
    replace (zlen b >? zlen octets - q) with false by lia. by rewrite Hp.
  - destruct (Hhead 3 (zlen b) b) as (q & -> & Hb); [done|lia|auto|].
    pose proof (spans_bounds _ _ _ _ Hb) as (? & ? & Hp). cbn.
    replace (zlen b >? zlen octets - q) with false by lia.
    rewrite Hp, (spans_slice _ _ _ _ Hb). by rewrite (proj2 (utf8_text b)).
  - destruct (Hhead 4 (zlen l) (concat (map encode l))) as (q & -> & Hl); [done|lia|auto|]. cbn.
    rewrite for_range_iterate. unfold zlen at 1. rewrite Nat2Z.id.
    by eapply array_complete; [intros ???; apply IH| |].
  - destruct (Hhead 5 (zlen l) (concat (map (fun kv => encode kv.1 ++ encode kv.2) l))) as (q & -> & Hl); [done|lia|auto|].
    cbn. rewrite for_range_iterate. unfold zlen at 1. rewrite Nat2Z.id.
    destruct (map_complete octets what (fun pos => item_room room octets pos false what) (admitted room false)
      (fun i pos p Hi => IH false pos p i Hi) (encode_initial room false) l [] q p) as (ks & ->);
      [done|by eapply encodings_distinct| |exact Hl|done].
    apply Forall_forall. intros x _. apply not_elem_of_nil.
  - subst ot t. destruct (Hhead 6 18 (encode i)) as (q & -> & Hl); [done|lia..|].
    cbn [mbind outcome_bind Z.eqb Pos.eqb orb]. unfold MAX_DEPTH, COSE_SIGN1_TAG.
    assert (16 + 1 - Z.of_nat (S room) = 0) as -> by lia. by eapply IH.
  - assert (0 ≤ s < 24) as Hr by set_solver by lia.
    destruct (Hhead 7 s []) as (q & -> & ->%spans_nil_eq); [by rewrite app_nil_r|lia..|]. cbn -[byte_val].
    cbn [encode] in Hs. unfold head in Hs. replace (s <? 24) with true in Hs by lia.
    rewrite (spans_lookup _ _ _ _ _ Hs), initial_info by lia.
    rewrite bool_decide_eq_false_2 by set_solver by lia. rewrite bool_decide_eq_false_2 by (intros Hn; by apply Hn).
    by replace (s =? 24) with false by lia.
Qed.

(** ** What [check] promises *)

Lemma check_iff octets what ot : check octets what ot = Ok () ↔ ∃ i, admitted 17 ot i ∧ encode i = octets.
Proof.
  unfold check, _item. change (Z.to_nat (MAX_DEPTH + 1 - 0)) with 17%nat. split.
  - intros (p & Hp & Hend)%bind_ok. destruct (Z.eqb_spec p (zlen octets)) as [->|]; [|done].
    apply item_room_sound in Hp as (i & Hi & Hs); [|pose proof (zlen_nonneg octets); lia].
    exists i. split; [done|]. apply spans_slice in Hs as <-. unfold py_slice. rewrite Z.sub_0_r. cbn [drop].
    apply take_ge. unfold zlen. lia.
  - intros (i & Hi & <-).
    rewrite (item_room_complete _ _ _ _ _ i (zlen (encode i))); [|done|by exists [], []; rewrite app_nil_r].
    cbn. by rewrite Z.eqb_refl.
Qed.

(** C9: [check] accepts octets exactly when they are the encoding of an
    admitted item, and then of one only: no accepted octet string has two
    readings, and no admitted item has a second accepted encoding. *)
Theorem check_exactly octets what ot :
  check octets what ot = Ok () ↔ exists! i, admitted 17 ot i ∧ encode i = octets.
Proof.
  rewrite check_iff. split; [|by intros (i & Hi & _); exists i].
  intros (i & Hi & <-). exists i. split; [done|]. intros j (Hj & Ej).
  apply (encode_inj _ _ _ _ _ _ Hi Hj [] []). by rewrite Ej.
Qed.

(** No accepted octet string is a proper prefix of another, whatever the
    two calls are for: octets appended to an accepted string are refused. *)
Theorem check_prefix_free octets octets' what what' ot ot' :
  check octets what ot = Ok () → check (octets ++ octets') what' ot' = Ok () → octets' = [].
Proof.
  intros (i & Hi & Ei)%check_iff (j & Hj & Ej)%check_iff.
  apply (encode_inj _ _ _ _ _ _ Hi Hj octets' []). by rewrite Ei, Ej, app_nil_r.
Qed.

(** ** Refusals *)

Definition rule_exn (what : string) (e : exn) : Prop := ∃ template args, e = CoseError (Msg template (AStr what :: args)).

Lemma rule_error_exn what template : rule_exn what (rule_error what template).
Proof. by exists template, []. Qed.

Lemma head_raise octets pos what e : _head octets pos what = Raise e → rule_exn what e.
Proof.
  unfold _head. destruct (_ !! _); [|intros [= <-]; apply rule_error_exn].
  repeat case_match; intros [= <-]; apply rule_error_exn.
Qed.

Lemma entry_raise item octets what st e :
  (∀ pos e, item pos = Raise e → rule_exn what e) →
  map_entry item octets what st = Raise e → rule_exn what e.
Proof.
  intros Hitem. destruct st as [ks pos]. unfold map_entry. destruct (_ !! _); [|intros [= <-]; apply rule_error_exn].
  case_bool_decide; [intros [= <-]; apply rule_error_exn|].
  destruct (item pos) eqn:E1; cbn; [|intros [= <-]; eauto].
  case_bool_decide; [intros [= <-]; apply rule_error_exn|].
  destruct (item a) as [r|] eqn:E2; cbn; intros [=]; subst; eauto.
Qed.

Lemma item_room_raise room octets pos ot what e :
  item_room room octets pos ot what = Raise e → rule_exn what e.
Proof.
  revert ot pos e. induction room as [|room IH]; intros ot pos e; cbn [item_room].
  { intros [= <-]. by eexists _, _. }
  destruct (_head octets pos what) as [[[m a] q]|] eqn:Hh; cbn [mbind outcome_bind];
    [|intros [= <-]; by eapply head_raise].
  repeat case_if; try (intros [= <-]; apply rule_error_exn); try done; eauto.
  - rewrite for_range_iterate. intros (q' & Hq)%iterate_raise. eauto.
  - rewrite for_range_iterate. destruct (iterate _ _ _) as [[ks r]|] eqn:E; cbn; [done|].
    intros [= <-]. apply iterate_raise in E as (st & E). eapply entry_raise; [|exact E].
    intros ??. apply IH.
Qed.

Lemma check_raise octets what ot e : check octets what ot = Raise e → rule_exn what e.
Proof.
  unfold check, _item. destruct (item_room _ _ _ _ _) eqn:E; cbn; [|intros [= <-]; by eapply item_room_raise].
  case_if; [intros [= <-]; apply rule_error_exn|done].
Qed.

(** A refusal is always a [CoseError] that names the checked object:
    whatever the octets, no index, decoding or other error escapes. *)
Theorem check_cose_error octets what ot :
  match check octets what ot with Ok _ => True | Raise e => rule_exn what e end.
Proof. destruct (check octets what ot) eqn:E; [done|by eapply check_raise]. Qed.

Lemma check_prefix_free_witness : check [x01] "r" false = Ok () ∧ [] = @nil byte.
Proof.
  split; [vm_compute; reflexivity|].
  apply (check_prefix_free [x01] [] "r" "r" false true); vm_compute; reflexivity.
Defined.
