(* ===== verification/Cbor.v ===== *)
(** * CBOR values and the interface to [cbor2]

    [cbor2] is not part of the sources: its functions are the fields of
    [Cbor], and [CborLaws] states what RFC 8949 and its documentation promise
    of them on the items of the receipt encoding rule.  [CborInstance] gives a
    concrete implementation that satisfies the laws. *)

From S2P Require Import Prelude PyRuntime Utf8 EncodingRuleProof.

(** ** Dicts with integer and text labels *)

(** The number an object equals: [True] and a float may equal an integer. *)
Definition num_of (v : pyval) : option Z :=
  match v with VInt z => Some z | VBool b => Some (Z.b2z b) | VOther n _ => n | _ => None end.

(** [k == label] for a label that is an integer, a bool or a text string. *)
Definition key_eq (k label : pyval) : bool :=
  match num_of label with
  | Some z => bool_decide (num_of k = Some z)
  | None => match label, k with VStr s, VStr s' => bool_decide (s = s') | _, _ => false end
  end.

Definition dict : Type := list (pyval * pyval).

(** [d.get(label)] *)
Fixpoint dict_get (d : dict) (label : pyval) : option pyval :=
  match d with
  | [] => None
  | (k, v) :: d' => if key_eq k label then Some v else dict_get d' label
  end.

(** [label in d] *)
Definition dict_mem (d : dict) (label : pyval) : bool :=
  match dict_get d label with Some _ => true | None => false end.

(** [d[label] = v]: an equal key keeps its place and its object. *)
Fixpoint dict_set (d : dict) (label v : pyval) : dict :=
  match d with
  | [] => [(label, v)]
  | (k, v') :: d' => if key_eq k label then (k, v) :: d' else (k, v') :: dict_set d' label v
  end.

(** ** The items of the encoding rule as Python values *)

Definition to_string (b : bytes) : string := String.string_of_list_byte b.
Definition of_string (s : string) : bytes := String.list_byte_of_string s.

(** [s.encode()]: a lone surrogate has no UTF-8 form. *)
Definition py_encode (s : string) : result bytes :=
  if utf8_valid (of_string s) then Ok (of_string s) else Raise UnicodeEncodeError.

(** Every leaf of [v], keys included, satisfies [p]. *)
Fixpoint all_leaves (p : pyval → bool) (v : pyval) : bool :=
  match v with
  | VList _ l => forallb (all_leaves p) l
  | VDict _ d => forallb (fun kv => all_leaves p kv.1 && all_leaves p kv.2) d
  | VTag _ v => all_leaves p v
  | _ => p v
  end.

(** Every text string in [v] has a UTF-8 form. *)
Definition text_leaf (v : pyval) : bool := match v with VStr s => utf8_valid (of_string s) | _ => true end.
Definition texts_ok : pyval → bool := all_leaves text_leaf.

(** Every integer in [v] is in the range of the encoding rule. *)
Definition int_leaf (v : pyval) : bool := match v with VInt z => Z.abs z <=? 2 ^ 64 | _ => true end.
Definition ints_small : pyval → bool := all_leaves int_leaf.

Fixpoint value_of (i : item) : pyval :=
  match i with
  | Uint n => VInt n
  | Nint n => VInt (-1 - n)
  | Octets b => VBytes b
  | Text b => VStr (to_string b)
  | Array l => VList false (map value_of l)
  | Map l => VDict false (map (fun kv => (value_of kv.1, value_of kv.2)) l)
  | Tag t i => VTag t (value_of i)
  | Simple s => if s =? 20 then VBool false else if s =? 21 then VBool true else VNone
  end.

(** The value with every container replaced by its plain form. *)
Fixpoint thaw (v : pyval) : pyval :=
  match v with
  | VList _ l => VList false (map thaw l)
  | VDict _ d => VDict false (map (fun kv => (thaw kv.1, thaw kv.2)) d)
  | VTag t v => VTag t (thaw v)
  | _ => v
  end.

(** [v] is a Python form of the item [i]. *)
Definition represents (v : pyval) (i : item) : Prop := thaw v = value_of i.

(** ** [cbor2] *)

Class Cbor := {
  (** [cbor2.dumps(v)] *)
  cbor_dumps : pyval → result bytes;
  (** [cbor2.dumps(v, canonical=True)] *)
  cbor_dumps_canonical : pyval → result bytes;
  (** [cbor2.loads(b)] *)
  cbor_loads : bytes → result pyval;
  (** [cbor2.CBORDecoder(stream).decode()] over [io.BytesIO(b)], with the
      octets [stream.read] returns afterwards. *)
  cbor_decode : bytes → result (pyval * bytes);
  (** [bool(v)] of an object of another class ([VOther]) *)
  other_truthy : N → bool
}.

(** What the sources rely on: arrays of byte strings and of text strings that
    have a UTF-8 form can be dumped; text is decoded as strict UTF-8, so what
    is read holds no lone surrogate; and every item of the encoding rule is
    dumped in its one admitted form up to map order and is read back. *)
Class CborLaws `(Cbor) : Prop := {
  dumps_strings l : Forall (fun v => match v with VBytes _ | VStr _ => texts_ok v = true | _ => False end) l →
    ∃ b, cbor_dumps (VList false l) = Ok b;
  loads_texts b v : cbor_loads b = Ok v → texts_ok v = true;
  dumps_item room ot v i : (room ≤ 17)%nat → admitted room ot i → represents v i → cbor_dumps v = Ok (encode i);
  canonical_item room ot v i : (room ≤ 17)%nat → admitted room ot i → represents v i →
    ∃ b, cbor_dumps_canonical v = Ok b ∧ length b = length (encode i);
  loads_item room ot i : (room ≤ 17)%nat → admitted room ot i → ∃ v, cbor_loads (encode i) = Ok v ∧ represents v i;
  decode_item room ot i : (room ≤ 17)%nat → admitted room ot i → ∃ v, cbor_decode (encode i) = Ok (v, []) ∧ represents v i
}.

(** ** Leaves *)

Lemma all_leaves_get p d label v : all_leaves p (VDict false d) = true → dict_get d label = Some v → all_leaves p v = true.
Proof.
  cbn [all_leaves]. induction d as [|[k v'] d IH]; [done|]. cbn. intros [[_ Hv]%andb_prop Hd]%andb_prop.
  destruct (key_eq k label); [by intros [= <-]|by apply IH].
Qed.

(** A property of the leaves of an item, up to text and integers. *)
Lemma admitted_leaves p room ot i :
  (∀ z, Z.abs z ≤ 2 ^ 64 → p (VInt z) = true) → (∀ b, p (VBytes b) = true) → (∀ b, p (VBool b) = true) → p VNone = true →
  (∀ b, utf8_valid b = true → p (VStr (to_string b)) = true) →
  admitted room ot i → all_leaves p (value_of i) = true.
Proof.
  intros Hint Hbytes Hbool Hnone Htext. revert ot i. induction room as [|room IH]; intros ot i Hi; [done|].
  destruct i as [n|n|b|b|l|l|t i|s]; cbn [value_of all_leaves].
  - cbn in Hi. apply Hint. lia.
  - cbn in Hi. apply Hint. lia.
  - apply Hbytes.
  - apply admitted_Text in Hi as [_ Hb%utf8_text]. by apply Htext.
  - apply admitted_Array in Hi as [_ Hl]. apply forallb_forall. intros v (i & <- & Hi)%in_map_iff.
    rewrite Forall_forall in Hl. by eapply IH, Hl, list_elem_of_In.
  - apply admitted_Map in Hi as (_ & _ & Hl). apply forallb_forall. intros v (kv & <- & Hi)%in_map_iff.
    rewrite Forall_forall in Hl. destruct (Hl kv) as (_ & Hk & Hv); [by apply list_elem_of_In|]. cbn.
    by rewrite (IH _ _ Hk), (IH _ _ Hv).
  - apply admitted_Tag in Hi as (_ & _ & _ & Hi). by apply (IH _ _ Hi).
  - destruct (s =? 20); [apply Hbool|]. destruct (s =? 21); [apply Hbool|apply Hnone].
Qed.

Lemma admitted_texts room ot i : admitted room ot i → texts_ok (value_of i) = true.
Proof.
  apply admitted_leaves; try done. intros b Hb. cbn. unfold of_string, to_string.
  by rewrite String.list_byte_of_string_of_list_byte.
Qed.

Lemma admitted_ints room ot i : admitted room ot i → ints_small (value_of i) = true.
Proof. apply admitted_leaves; try done. intros z Hz. by apply Z.leb_le. Qed.

Lemma py_encode_ok s : texts_ok (VStr s) = true → py_encode s = Ok (of_string s).
Proof. unfold py_encode. cbn. by intros ->. Qed.

Lemma py_encode_inv s b : py_encode s = Ok b → b = of_string s.
Proof. unfold py_encode. case_match; [by intros [= <-]|done]. Qed.
