(* ===== verification/Json.v ===== *)
(** * JSON values and canonical JSON

    The values [json.loads] returns and the text
    [json.dumps(v, sort_keys=True, separators=(",", ":"))] makes of them, as
    the checkpoint digest and the hosted profiles use it.  Text is its UTF-8
    octets, with a lone surrogate, which only an escape can bring in, in the
    three octets of its code point; a float is given by the text [json.dumps]
    writes for it. *)

From S2P Require Import Prelude PyRuntime Utf8 Cbor.

#[warnings="-register-all"]
Inductive json : Type :=
| JNull
| JBool (b : bool)
| JInt (z : Z)
| JFloat (repr : string)
| JStr (s : string)
| JArr (l : list json)
| JObj (d : list (string * json)).

Definition object : Type := list (string * json).

(** [d.get(key)] *)
Fixpoint jget (d : object) (key : string) : option json :=
  match d with
  | [] => None
  | (k, v) :: d => if bool_decide (k = key) then Some v else jget d key
  end.

(** [key in d] *)
Definition jmem (d : object) (key : string) : bool :=
  match jget d key with Some _ => true | None => false end.

(** [v == s] for text [s] *)
Definition is_text (v : json) (s : string) : bool := match v with JStr s' => bool_decide (s' = s) | _ => false end.

(** ** Text *)

(** The code points of UTF-8 text. *)
Fixpoint utf8_codes (b : bytes) : list Z :=
  let cont (x : byte) := byte_val x - 128 in
  match b with
  | [] => []
  | x :: b1 =>
      let v := byte_val x in
      if v <? 128 then v :: utf8_codes b1
      else if v <? 224 then
        match b1 with y :: b2 => (v - 192) * 64 + cont y :: utf8_codes b2 | _ => [] end
      else if v <? 240 then
        match b1 with y :: z :: b3 => (v - 224) * 4096 + cont y * 64 + cont z :: utf8_codes b3 | _ => [] end
      else
        match b1 with
        | y :: z :: w :: b4 => (v - 240) * 262144 + cont y * 4096 + cont z * 64 + cont w :: utf8_codes b4
        | _ => []
        end
  end.

Definition hex_octet (z : Z) : byte := byte_of (if z <? 10 then 48 + z else 87 + z).

(** [\uXXXX] *)
Definition escape_unit (n : Z) : bytes :=
  [x5c; x75; hex_octet (n / 4096); hex_octet (n / 256 mod 16); hex_octet (n / 16 mod 16); hex_octet (n mod 16)].

(** The escapes of [ensure_ascii=True]. *)
Definition escape (c : Z) : bytes :=
  if c =? 34 then [x5c; x22] else if c =? 92 then [x5c; x5c]
  else if c =? 10 then [x5c; x6e] else if c =? 13 then [x5c; x72] else if c =? 9 then [x5c; x74]
  else if c =? 12 then [x5c; x66] else if c =? 8 then [x5c; x62]
  else if (32 <=? c) && (c <=? 126) then [byte_of c]
  else if c <? 65536 then escape_unit c
  else
    let c := c - 65536 in
    escape_unit (55296 + c / 1024) ++ escape_unit (56320 + c mod 1024).

Definition json_string (s : string) : bytes :=
  x22 :: concat (map escape (utf8_codes (of_string s))) ++ [x22].

(** ** Numbers *)

Definition digit (n : Z) : byte := byte_of (48 + n).

Fixpoint dec_fuel (fuel : nat) (n : Z) : bytes :=
  match fuel with
  | O => [digit (n mod 10)]
  | S fuel' => if n <? 10 then [digit n] else dec_fuel fuel' (n / 10) ++ [digit (n mod 10)]
  end.
(** [int.__repr__] *)
Definition dec (n : Z) : bytes :=
  if n <? 0 then x2d :: dec_fuel (nbits (- n)) (- n) else dec_fuel (nbits n) n.

(** ** Canonical JSON *)

(** [", ".join] with a one-octet separator. *)
Fixpoint join (sep : byte) (l : list bytes) : bytes :=
  match l with
  | [] => []
  | [b] => b
  | b :: l => b ++ sep :: join sep l
  end.

(** Octet order of UTF-8 text is code-point order. *)
Fixpoint insert_item {A} (k : string) (a : A) (l : list (string * A)) : list (string * A) :=
  match l with
  | [] => [(k, a)]
  | (k', a') :: l' => if String.ltb k' k then (k', a') :: insert_item k a l' else (k, a) :: l
  end.
(** [sorted(d.items())] *)
Fixpoint sort_items {A} (l : list (string * A)) : list (string * A) :=
  match l with
  | [] => []
  | (k, a) :: l => insert_item k a (sort_items l)
  end.

Definition json_member (kv : string * bytes) : bytes := json_string kv.1 ++ x3a :: kv.2.

Fixpoint json_dumps (v : json) : bytes :=
  match v with
  | JNull => of_string "null"
  | JBool b => of_string (if b then "true" else "false")
  | JInt z => dec z
  | JFloat repr => of_string repr
  | JStr s => json_string s
  | JArr l => x5b :: join x2c (map json_dumps l) ++ [x5d]
  | JObj d => x7b :: join x2c (map json_member (sort_items (map (fun kv => (kv.1, json_dumps kv.2)) d))) ++ [x7d]
  end.

(** ** Other layouts

    What [json.dumps] writes after an opening bracket, after a comma and before
    a closing bracket, by the depth of the members or of the container, and
    after a colon. *)
Record layout := { after_open : nat → bytes; after_comma : nat → bytes; before_close : nat → bytes; after_colon : bytes }.

(** [separators=(",", ":")], the default, and [indent=2] *)
Definition compact : layout :=
  {| after_open _ := []; after_comma _ := []; before_close _ := []; after_colon := [] |}.
Definition default_layout : layout :=
  {| after_open _ := []; after_comma _ := [x20]; before_close _ := []; after_colon := [x20] |}.
Definition new_line (depth : nat) : bytes := x0a :: repeat x20 (2 * depth).
Definition indent_2 : layout :=
  {| after_open := new_line; after_comma := new_line; before_close := new_line; after_colon := [x20] |}.

(** The members between the brackets; an empty container has nothing there. *)
Definition members_text (lay : layout) (depth : nat) (l : list bytes) : bytes :=
  match l with
  | [] => []
  | b :: l =>
      after_open lay (S depth) ++ b ++ concat (map (fun b => x2c :: after_comma lay (S depth) ++ b) l) ++ before_close lay depth
  end.

(** The text of a value in insertion order; [text] writes strings. *)
Fixpoint json_text (lay : layout) (text : string → bytes) (depth : nat) (v : json) : bytes :=
  match v with
  | JStr s => text s
  | JArr l => x5b :: members_text lay depth (map (json_text lay text (S depth)) l) ++ [x5d]
  | JObj d =>
      x7b :: members_text lay depth
        (map (fun kv => text kv.1 ++ x3a :: after_colon lay ++ json_text lay text (S depth) kv.2) d) ++ [x7d]
  | _ => json_dumps v
  end.

(** The value with the members of every object in key order. *)
Fixpoint normal (v : json) : json :=
  match v with
  | JArr l => JArr (map normal l)
  | JObj d => JObj (sort_items (map (fun kv => (kv.1, normal kv.2)) d))
  | _ => v
  end.

Example json_text_indented :
  json_text indent_2 json_string 0 (JObj [("a", JArr [JInt 1; JNull]); ("b", JArr [])])
    = of_string "{" ++ x0a :: of_string "  " ++ x22 :: x61 :: x22 :: of_string ": [" ++ x0a :: of_string "    1,"
      ++ x0a :: of_string "    null" ++ x0a :: of_string "  ]," ++ x0a :: of_string "  " ++ x22 :: x62 :: x22
      :: of_string ": []" ++ x0a :: of_string "}".
Proof. vm_compute. reflexivity. Qed.

Example json_dumps_sorted :
  json_dumps (JObj [("b", JArr [JInt (-10); JNull]); ("a", JStr (to_string [xc3; xa9]))])
    = [x7b; x22; x61; x22; x3a; x22; x5c; x75; x30; x30; x65; x39; x22; x2c; x22; x62; x22; x3a;
       x5b; x2d; x31; x30; x2c; x6e; x75; x6c; x6c; x5d; x7d].
Proof. vm_compute. reflexivity. Qed.
