(* ===== verification/PyJson.v ===== *)
(** * Python's operations on JSON values

    Indexing, [int], [tuple], truth, equality and formatting of the values
    [json.loads] returns, as the checkpoint records and the hosted profiles
    use them.  What depends on floats, on non-ASCII digits or on [repr] of a
    container is a field of [PyObjects]. *)

From S2P Require Import Prelude PyRuntime Utf8 Cbor Json.

Class PyObjects := {
  (** [int(s)] of text that is not ASCII *)
  int_of_unicode : string → result Z;
  (** [int(f)], [bool(f)], [f == g] and [f == n] of floats *)
  float_to_int : string → result Z;
  float_truthy : string → bool;
  float_eq : string → string → bool;
  float_eq_int : string → Z → bool;
  (** [str(v)] of a value that is neither text nor an integer *)
  json_str : json → string;
  (** [repr(v)] *)
  json_repr : json → string;
  (** [v < w] of values that are not both integers *)
  json_lt : json → json → result bool;
  (** [urlsplit(url).hostname] *)
  url_hostname : string → result (option string);
  (** [d[:n]] of a dict: a slice is no key *)
  dict_slice : exn;
  (** [repr(float(s))] of a JSON number *)
  float_repr : string → string;
  (** how deep [json.loads] may nest before [RecursionError] *)
  recursion_room : nat
}.

Section python.
Context `{PyObjects}.

Definition int_error : exn := ValueError (Msg "invalid literal for int() with base 10" []).

(** A run of digits with single underscores between them: its value, the
    number of digits and what follows. *)
Fixpoint int_digits (b : bytes) (acc count : Z) (after_digit : bool) : option (Z * Z * bytes) :=
  match b with
  | [] => if after_digit then Some (acc, count, []) else None
  | o :: r =>
      if (48 <=? byte_val o) && (byte_val o <=? 57) then int_digits r (acc * 10 + (byte_val o - 48)) (count + 1) true
      else if bool_decide (o = x5f) then (if after_digit then int_digits r acc count false else None)
      else if after_digit then Some (acc, count, b) else None
  end.

Definition is_space_octet (o : byte) : bool := (byte_val o =? 32) || ((9 <=? byte_val o) && (byte_val o <=? 13)).
Fixpoint skip_space (b : bytes) : bytes :=
  match b with o :: r => if is_space_octet o then skip_space r else b | [] => [] end.

(** An optional sign. *)
Definition sign_of (b : bytes) : Z * bytes :=
  match b with x2b :: r => (1, r) | x2d :: r => (-1, r) | _ => (1, b) end.

(** [int(s)] of text *)
Definition int_of_text (s : string) : result Z :=
  let b := of_string s in
  if negb (forallb (fun o => byte_val o <? 128) b) then int_of_unicode s
  else
    let '(sign, b) := sign_of (skip_space b) in
    match int_digits b 0 0 false with
    | Some (n, count, r) =>
        if bool_decide (skip_space r ≠ []) || (count >? 4300) then Raise int_error else Ok (sign * n)
    | None => Raise int_error
    end.

(** [int(v)] *)
Definition py_int (v : json) : result Z :=
  match v with
  | JInt z => Ok z
  | JBool b => Ok (Z.b2z b)
  | JStr s => int_of_text s
  | JFloat f => float_to_int f
  | JNull | JArr _ | JObj _ => Raise TypeError
  end.

(** [d[key]] *)
Definition index (d : object) (key : string) : result json :=
  match jget d key with Some v => Ok v | None => Raise KeyError end.

(** [d.get(key, default)] *)
Definition get_or (d : object) (key : string) (default : json) : json :=
  match jget d key with Some v => v | None => default end.

(** [tuple(v)]: the elements, the characters or the keys *)
Definition py_tuple (v : json) : result (list json) :=
  match v with
  | JArr l => Ok l
  | JStr s => Ok (map (fun c => JStr (to_string (utf8_encode c))) (utf8_codes (of_string s)))
  | JObj d => Ok (map (fun kv => JStr kv.1) d)
  | JNull | JBool _ | JInt _ | JFloat _ => Raise TypeError
  end.

(** [bool(v)] *)
Definition json_truthy (v : json) : bool :=
  match v with
  | JNull => false
  | JBool b => b
  | JInt z => negb (z =? 0)
  | JFloat f => float_truthy f
  | JStr s => negb (bool_decide (s = ""))
  | JArr l => match l with [] => false | _ => true end
  | JObj d => match d with [] => false | _ => true end
  end.

(** The integer a bool or an integer equals. *)
Definition int_of (v : json) : option Z :=
  match v with JBool b => Some (Z.b2z b) | JInt z => Some z | _ => None end.

(** [v == w] *)
Fixpoint json_eq (v w : json) : bool :=
  match v, w with
  | JNull, JNull => true
  | JStr s, JStr s' => bool_decide (s = s')
  | JArr l, JArr l' =>
      (fix eq_list (l l' : list json) : bool :=
         match l, l' with
         | [], [] => true
         | v :: l, w :: l' => json_eq v w && eq_list l l'
         | _, _ => false
         end) l l'
  | JObj d, JObj d' =>
      (zlen d =? zlen d') &&
      forallb (fun kv => match jget d' kv.1 with Some w => json_eq kv.2 w | None => false end) d
  | JFloat f, JFloat g => float_eq f g
  | JFloat f, (JBool _ | JInt _) => match int_of w with Some z => float_eq_int f z | None => false end
  | (JBool _ | JInt _), JFloat f => match int_of v with Some z => float_eq_int f z | None => false end
  | (JBool _ | JInt _), (JBool _ | JInt _) => bool_decide (int_of v = int_of w)
  | _, _ => false
  end.

(** [str(v)], as an f-string formats it *)
Definition py_str (v : json) : string :=
  match v with JStr s => s | JInt z => to_string (dec z) | _ => json_str v end.

Definition int_str (z : Z) : string := to_string (dec z).

(** [v.get(key, default)] of whatever [v] is: only a dict has [get]. *)
Definition py_get (v : json) (key : string) (default : json) : result json :=
  match v with JObj d => Ok (get_or d key default) | _ => Raise AttributeError end.

(** [v or w] *)
Definition py_or (v w : json) : json := if json_truthy v then v else w.

(** [v < w] *)
Definition py_lt (v w : json) : result bool :=
  match int_of v, int_of w with Some a, Some b => Ok (a <? b) | _, _ => json_lt v w end.

(** The first [n] characters of text. *)
Definition text_prefix (n : nat) (s : string) : string :=
  to_string (concat (utf8_encode <$> take n (utf8_codes (of_string s)))).

(** [f"{v[:n]}"] *)
Definition py_prefix (n : nat) (v : json) : result string :=
  match v with
  | JStr s => Ok (text_prefix n s)
  | JArr l => Ok (json_str (JArr (take n l)))
  | JObj _ => Raise dict_slice
  | JNull | JBool _ | JInt _ | JFloat _ => Raise TypeError
  end.

(** [hash(v)]: a list or a dict is no member of a set and no key. *)
Definition py_hash (v : json) : result unit := match v with JArr _ | JObj _ => Raise TypeError | _ => Ok () end.
End python.

(** [sub in s] *)
Definition contains (sub s : string) : bool := match String.index 0 sub s with Some _ => true | None => false end.

(** A Python without floats and without text beyond ASCII, for witnesses. *)
Definition plain_objects : PyObjects := {|
  int_of_unicode _ := Raise int_error; float_to_int _ := Raise int_error; float_truthy _ := true;
  float_eq f g := bool_decide (f = g); float_eq_int _ _ := false; json_str _ := ""; json_repr _ := "";
  json_lt _ _ := Raise TypeError; url_hostname s := Ok (Some s); dict_slice := TypeError;
  float_repr s := s; recursion_room := 900%nat |}.

Example int_of_text_forms :
  int_of_text (H := plain_objects) " -1_0 " = Ok (-10) ∧ int_of_text (H := plain_objects) "1__0" = Raise int_error.
Proof. by vm_compute. Qed.
