(* ===== verification/JsonLoads.v ===== *)
(** * [json.loads]

    The scanner of the language's [json] module: one value between white
    space, objects whose last member of a name wins, text with its escapes.
    A character is a run of UTF-8 octets; an escaped lone surrogate is kept in
    the three octets UTF-8 would give it.  The position that
    [JSONDecodeError] adds to its text is left out. *)

From S2P Require Import Prelude PyRuntime Utf8 Cbor Json PyJson.

(** A scanner stops with an exception; [Exhausted] stands for running out of
    fuel, which [JsonLoadsProof] shows cannot happen. *)
Inductive scan_error : Type := Exhausted | Scan (e : exn).
Abbreviation scanned := (outcome scan_error).

(** [JSONDecodeError] *)
Definition decode_error {A} (what : string) : scanned A := Raise (Scan (ValueError (Msg what []))).

Definition is_json_space (o : byte) : bool := bool_decide (o ∈ [x20; x09; x0a; x0d]).
Fixpoint skip_json_space (b : bytes) : bytes :=
  match b with o :: r => if is_json_space o then skip_json_space r else b | [] => [] end.

(** ** Text *)

Definition hex_octet_value (o : byte) : option Z := hex_val (Ascii.ascii_of_byte o).

(** Four hexadecimal digits. *)
Definition hex_unit (h1 h2 h3 h4 : byte) : option Z :=
  a ← hex_octet_value h1; b ← hex_octet_value h2; c ← hex_octet_value h3; d ← hex_octet_value h4;
  Some (a * 4096 + b * 256 + c * 16 + d).

(** The character after a backslash that is not [u]. *)
Definition unescaped (e : byte) : option byte :=
  if bool_decide (e ∈ [x22; x5c; x2f]) then Some e
  else if bool_decide (e = x62) then Some x08 else if bool_decide (e = x66) then Some x0c
  else if bool_decide (e = x6e) then Some x0a else if bool_decide (e = x72) then Some x0d
  else if bool_decide (e = x74) then Some x09 else None.

Definition high_surrogate (c : Z) : bool := (55296 <=? c) && (c <=? 56319).
Definition low_surrogate (c : Z) : bool := (56320 <=? c) && (c <=? 57343).

(** [front] and then the rest of the text. *)
Definition text_before (front : bytes) (m : scanned (bytes * bytes)) : scanned (bytes * bytes) :=
  '(text, r) ← m; Ok (front ++ text, r).

(** [scanstring], after the opening quote: the text and what follows it. *)
Fixpoint scan_string (b : bytes) : scanned (bytes * bytes) :=
  match b with
  | [] => decode_error "Unterminated string starting at"
  | o :: r =>
      if bool_decide (o = x22) then Ok ([], r)
      else if byte_val o <? 32 then decode_error "Invalid control character at"
      else if negb (bool_decide (o = x5c)) then text_before [o] (scan_string r)
      else
        match r with
        | [] => decode_error "Unterminated string starting at"
        | e :: r =>
            if negb (bool_decide (e = x75)) then
              match unescaped e with Some c => text_before [c] (scan_string r) | None => decode_error "Invalid \escape" end
            else
              match r with
              | h1 :: h2 :: h3 :: h4 :: (_ :: _) as r =>
                  match hex_unit h1 h2 h3 h4 with
                  | None => decode_error "Invalid \uXXXX escape"
                  | Some c =>
                      let alone := text_before (utf8_encode c) (scan_string r) in
                      match r with
                      | s :: u :: g1 :: g2 :: g3 :: g4 :: (_ :: _) as r' =>
                          if high_surrogate c && bool_decide (s = x5c) && bool_decide (u = x75) then
                            match hex_unit g1 g2 g3 g4 with
                            | None => decode_error "Invalid \uXXXX escape"
                            | Some c2 =>
                                if low_surrogate c2
                                then text_before (utf8_encode (65536 + (c - 55296) * 1024 + (c2 - 56320))) (scan_string r')
                                else alone
                            end
                          else alone
                      | _ => alone
                      end
                  end
              | _ => decode_error "Invalid \uXXXX escape"
              end
        end
  end.

(** ** Numbers *)

Definition isdigit (o : byte) : bool := (48 <=? byte_val o) && (byte_val o <=? 57).

(** The digits at the front. *)
Fixpoint span_digits (b : bytes) : bytes * bytes :=
  match b with
  | o :: r => if isdigit o then let '(d, r) := span_digits r in (o :: d, r) else ([], b)
  | [] => ([], [])
  end.

(** The fraction, if there is one. *)
Definition span_fraction (b : bytes) : bytes * bytes :=
  match b with
  | o :: r =>
      if bool_decide (o = x2e) then
        match span_digits r with ([], _) => ([], b) | (d, r) => (o :: d, r) end
      else ([], b)
  | [] => ([], [])
  end.

(** The exponent, if there is one. *)
Definition span_exponent (b : bytes) : bytes * bytes :=
  match b with
  | o :: r =>
      if bool_decide (o ∈ [x65; x45]) then
        let '(sign, r) := match r with
                          | s :: r' => if bool_decide (s ∈ [x2b; x2d]) then ([s], r') else ([], r)
                          | [] => ([], []) end in
        match span_digits r with ([], _) => ([], b) | (d, r) => (o :: sign ++ d, r) end
      else ([], b)
  | [] => ([], [])
  end.

(** The integer part: an optional sign, then zero or digits without a leading
    zero. *)
Definition span_integer (b : bytes) : option (bytes * bytes) :=
  let '(sign, b) := match b with
                    | o :: r => if bool_decide (o = x2d) then ([o], r) else ([], b)
                    | [] => ([], []) end in
  match b with
  | o :: r =>
      if bool_decide (o = x30) then Some (sign ++ [o], r)
      else if isdigit o then let '(d, r) := span_digits r in Some (sign ++ o :: d, r)
      else None
  | [] => None
  end.

(** The octets after a literal. *)
Fixpoint after_literal (literal b : bytes) : option bytes :=
  match literal, b with
  | [], _ => Some b
  | o :: literal, o' :: b => if bool_decide (o = o') then after_literal literal b else None
  | _ :: _, [] => None
  end.

Section loads.
Context `{PyObjects}.

(** [_match_number] *)
Definition match_number (b : bytes) : scanned (json * bytes) :=
  match span_integer b with
  | None => decode_error "Expecting value"
  | Some (n, r) =>
      let '(f, r) := span_fraction r in
      let '(e, r) := span_exponent r in
      match f ++ e with
      | [] => match int_of_text (to_string n) with Ok z => Ok (JInt z, r) | Raise e => Raise (Scan e) end
      | _ => Ok (JFloat (float_repr (to_string (n ++ f ++ e))), r)
      end
  end.

(** The constants, by their first octet, then numbers. *)
Definition scan_scalar (b : bytes) : scanned (json * bytes) :=
  match after_literal (of_string "null") b with Some r => Ok (JNull, r) | None =>
  match after_literal (of_string "true") b with Some r => Ok (JBool true, r) | None =>
  match after_literal (of_string "false") b with Some r => Ok (JBool false, r) | None =>
  match after_literal (of_string "NaN") b with Some r => Ok (JFloat "NaN", r) | None =>
  match after_literal (of_string "Infinity") b with Some r => Ok (JFloat "Infinity", r) | None =>
  match after_literal (of_string "-Infinity") b with Some r => Ok (JFloat "-Infinity", r) | None =>
  match_number b
  end end end end end end.

(** ** Containers *)

(** [d[key] = v]: a known key keeps its place. *)
Fixpoint jset (d : object) (key : string) (v : json) : object :=
  match d with
  | [] => [(key, v)]
  | (k, w) :: d => if bool_decide (k = key) then (k, v) :: d else (k, w) :: jset d key v
  end.

Definition object_of (pairs : list (string * json)) : object :=
  fold_left (fun d kv => jset d kv.1 kv.2) pairs [].

Section scan.
Context (scan : bytes → scanned (json * bytes)).

(** The loop over the elements of an array, from the first element on. *)
Fixpoint scan_elements (fuel : nat) (b : bytes) : scanned (list json * bytes) :=
  '(v, r) ← scan b;
  match skip_json_space r with
  | x5d :: r => Ok ([v], r)
  | x2c :: r =>
      match fuel with
      | O => Raise Exhausted
      | S fuel => '(vs, r) ← scan_elements fuel (skip_json_space r); Ok (v :: vs, r)
      end
  | _ => decode_error "Expecting ',' delimiter"
  end.

Definition scan_array (b : bytes) : scanned (json * bytes) :=
  match skip_json_space b with
  | x5d :: r => Ok (JArr [], r)
  | b => '(vs, r) ← scan_elements (length b) b; Ok (JArr vs, r)
  end.

(** A name, the colon and the value. *)
Definition scan_member (b : bytes) : scanned ((string * json) * bytes) :=
  match b with
  | x22 :: r =>
      '(key, r) ← scan_string r;
      match skip_json_space r with
      | x3a :: r => '(v, r) ← scan (skip_json_space r); Ok ((to_string key, v), r)
      | _ => decode_error "Expecting ':' delimiter"
      end
  | _ => decode_error "Expecting property name enclosed in double quotes"
  end.

(** The loop over the members of an object, from the first name on. *)
Fixpoint scan_members (fuel : nat) (b : bytes) : scanned (list (string * json) * bytes) :=
  '(kv, r) ← scan_member b;
  match skip_json_space r with
  | x7d :: r => Ok ([kv], r)
  | x2c :: r =>
      match fuel with
      | O => Raise Exhausted
      | S fuel => '(kvs, r) ← scan_members fuel (skip_json_space r); Ok (kv :: kvs, r)
      end
  | _ => decode_error "Expecting ',' delimiter"
  end.

Definition scan_object (b : bytes) : scanned (json * bytes) :=
  match skip_json_space b with
  | x7d :: r => Ok (JObj [], r)
  | b => '(kvs, r) ← scan_members (length b) b; Ok (JObj (object_of kvs), r)
  end.
End scan.

(** [scan_once]; only a container recurses. *)
Fixpoint scan_once (room : nat) (b : bytes) : scanned (json * bytes) :=
  let recurse (body : (bytes → scanned (json * bytes)) → scanned (json * bytes)) : scanned (json * bytes) :=
    match room with
    | O => Raise (Scan (ThirdParty "RecursionError" (Msg "maximum recursion depth exceeded" [])))
    | S room => body (scan_once room)
    end in
  match b with
  | x22 :: r => '(s, r) ← scan_string r; Ok (JStr (to_string s), r)
  | x7b :: r => recurse (fun scan => scan_object scan r)
  | x5b :: r => recurse (fun scan => scan_array scan r)
  | _ => scan_scalar b
  end.

(** [JSONDecoder().decode] *)
Definition scan_document (b : bytes) : scanned json :=
  match after_literal [xef; xbb; xbf] b with
  | Some _ => decode_error "Unexpected UTF-8 BOM (decode using utf-8-sig)"
  | None =>
      '(v, r) ← scan_once recursion_room (skip_json_space b);
      match skip_json_space r with [] => Ok v | _ => decode_error "Extra data" end
  end.

Definition json_loads (s : string) : result json :=
  match scan_document (of_string s) with
  | Ok v => Ok v
  | Raise (Scan e) => Raise e
  | Raise Exhausted => Raise (ThirdParty "Exhausted" (Msg "" []))
  end.
End loads.

Example json_loads_object :
  json_loads (H := plain_objects)
    (to_string [x20; x7b; x22; x61; x22; x3a; x31; x2c; x22; x5c; x75; x30; x30; x65; x39; x22; x20; x3a; x5b; x2d; x30; x2e; x35; x5d;
                x2c; x22; x61; x22; x3a; x6e; x75; x6c; x6c; x7d; x0a])
    = Ok (JObj [("a", JNull); (to_string [xc3; xa9], JArr [JFloat "-0.5"])]).
Proof. vm_compute. reflexivity. Qed.

Example json_loads_refuses :
  json_loads (H := plain_objects) "01" = Raise (ValueError (Msg "Extra data" [])) ∧
  json_loads (H := plain_objects) "[1,]" = Raise (ValueError (Msg "Expecting value" [])) ∧
  json_loads (H := plain_objects) "{1:2}" = Raise (ValueError (Msg "Expecting property name enclosed in double quotes" [])).
Proof. vm_compute. split_and!; reflexivity. Qed.
