(* ===== verification/Base64.v ===== *)
(** * Base64

    [base64.b64decode] and [base64.urlsafe_b64decode] as the hosted verifier
    and the capsule profile call them: the lenient decoder of the language,
    which skips characters outside the alphabet, with the encoder it inverts. *)

From S2P Require Import Prelude PyRuntime Utf8 Cbor Json.

(** The value of a character of the standard alphabet. *)
Definition sextet (c : byte) : option Z :=
  let v := byte_val c in
  if (65 <=? v) && (v <=? 90) then Some (v - 65)
  else if (97 <=? v) && (v <=? 122) then Some (v - 71)
  else if (48 <=? v) && (v <=? 57) then Some (v + 4)
  else if v =? 43 then Some 62 else if v =? 47 then Some 63 else None.

(** [binascii.Error] *)
Definition padding_error : exn := ThirdParty "Error" (Msg "Incorrect padding" []).
Definition one_more_error : exn :=
  ThirdParty "Error" (Msg "Invalid base64-encoded string: number of data characters cannot be 1 more than a multiple of 4" []).

(** The decoder: [quad] characters of the current group of four were read,
    [left] holds their low bits, [pads] counts the padding since. *)
Fixpoint a2b (b : bytes) (quad left_ pads : Z) : result bytes :=
  match b with
  | [] => if quad =? 0 then Ok [] else Raise (if quad =? 1 then one_more_error else padding_error)
  | c :: b =>
      if bool_decide (c = x3d) then
        if 2 <=? quad then (if 4 <=? quad + (pads + 1) then Ok [] else a2b b quad left_ (pads + 1))
        else a2b b quad left_ pads
      else
        match sextet c with
        | None => a2b b quad left_ pads
        | Some v =>
            if quad =? 0 then a2b b 1 v 0
            else if quad =? 1 then r ← a2b b 2 (v mod 16) 0; Ok (byte_of (left_ * 4 + v / 16) :: r)
            else if quad =? 2 then r ← a2b b 3 (v mod 4) 0; Ok (byte_of (left_ * 16 + v / 4) :: r)
            else r ← a2b b 0 0 0; Ok (byte_of (left_ * 64 + v) :: r)
        end
  end.

(** [s.encode("ascii")] of text, given by its code points. *)
Definition ascii (codes : list Z) : result bytes :=
  if forallb (fun c => c <? 128) codes then Ok (map byte_of codes)
  else Raise (ValueError (Msg "string argument should contain only ASCII characters" [])).

Definition b64decode (codes : list Z) : result bytes := b ← ascii codes; a2b b 0 0 0.

(** The translation of [-] and [_] *)
Definition from_urlsafe (c : byte) : byte :=
  if bool_decide (c = x2d) then x2b else if bool_decide (c = x5f) then x2f else c.
Definition urlsafe_b64decode (codes : list Z) : result bytes := b ← ascii codes; a2b (map from_urlsafe b) 0 0 0.

(** ** The encoder *)

Definition b64char (v : Z) : byte :=
  byte_of (if v <? 26 then v + 65 else if v <? 52 then v + 71 else if v <? 62 then v - 4 else if v =? 62 then 43 else 47).

Definition to_urlsafe (c : byte) : byte :=
  if bool_decide (c = x2b) then x2d else if bool_decide (c = x2f) then x5f else c.

(** The characters that carry data; [pad] completes them to groups of four. *)
Fixpoint b64data (b : bytes) : bytes :=
  match b with
  | [] => []
  | [x] => let x := byte_val x in [b64char (x / 4); b64char (x mod 4 * 16)]
  | [x; y] =>
      let x := byte_val x in let y := byte_val y in
      [b64char (x / 4); b64char (x mod 4 * 16 + y / 16); b64char (y mod 16 * 4)]
  | x :: y :: z :: b =>
      let x := byte_val x in let y := byte_val y in let z := byte_val z in
      b64char (x / 4) :: b64char (x mod 4 * 16 + y / 16) :: b64char (y mod 16 * 4 + z / 64) :: b64char (z mod 64) :: b64data b
  end.
Definition pad (b : bytes) : bytes := repeat x3d (Z.to_nat (- zlen b mod 4)).
Definition b64encode (b : bytes) : bytes := b64data b ++ pad (b64data b).

(** ** The decoder inverts the encoder *)

Lemma below_64 (P : Z → Prop) : Forall P (seqZ 0 64) → ∀ v, 0 ≤ v < 64 → P v.
Proof. intros HP v Hv. rewrite Forall_forall in HP. apply HP, elem_of_seqZ. lia. Qed.

Lemma sextet_char v : 0 ≤ v < 64 → sextet (b64char v) = Some v ∧ b64char v ≠ x3d ∧ 48 - 5 ≤ byte_val (b64char v) < 123.
Proof.
  revert v. apply (below_64 (fun v => sextet (b64char v) = Some v ∧ b64char v ≠ x3d ∧ 48 - 5 ≤ byte_val (b64char v) < 123)).
  apply (bool_decide_unpack _). vm_compute. exact I.
Qed.

Lemma urlsafe_char v : 0 ≤ v < 64 → from_urlsafe (b64char v) = b64char v ∧ from_urlsafe (to_urlsafe (b64char v)) = b64char v ∧
  45 ≤ byte_val (to_urlsafe (b64char v)) < 123.
Proof.
  revert v. apply (below_64 (fun v => from_urlsafe (b64char v) = b64char v ∧ from_urlsafe (to_urlsafe (b64char v)) = b64char v ∧
    45 ≤ byte_val (to_urlsafe (b64char v)) < 123)).
  apply (bool_decide_unpack _). vm_compute. exact I.
Qed.

Lemma a2b_char v b quad left_ pads :
  0 ≤ v < 64 →
  a2b (b64char v :: b) quad left_ pads =
    if quad =? 0 then a2b b 1 v 0
    else if quad =? 1 then r ← a2b b 2 (v mod 16) 0; Ok (byte_of (left_ * 4 + v / 16) :: r)
    else if quad =? 2 then r ← a2b b 3 (v mod 4) 0; Ok (byte_of (left_ * 16 + v / 4) :: r)
    else r ← a2b b 0 0 0; Ok (byte_of (left_ * 64 + v) :: r).
Proof. intros Hv. destruct (sextet_char v Hv) as (Hs & Hne & _). cbn [a2b]. by rewrite bool_decide_eq_false_2, Hs. Qed.

(** The triples of an octet string. *)
Lemma triple_ind (P : bytes → Prop) :
  P [] → (∀ x, P [x]) → (∀ x y, P [x; y]) → (∀ x y z b, P b → P (x :: y :: z :: b)) → ∀ b, P b.
Proof.
  intros H0 H1 H2 H3. fix IH 1. intros [|x [|y [|z b]]]; [apply H0|apply H1|apply H2|]. apply H3, IH.
Qed.

Lemma b64_octet_eq n x : n = byte_val x → byte_of n = x.
Proof. intros ->. apply byte_of_val. Qed.

Ltac octets := repeat match goal with x : byte |- _ => lazymatch goal with
  | _ : 0 ≤ byte_val x < 256 |- _ => fail | |- _ => pose proof (byte_val_range x) end end.
Ltac quads := octets; Z.to_euclidean_division_equations; lia.

Lemma a2b_pads l : a2b [x3d; x3d] 2 l 0 = Ok [] ∧ a2b [x3d] 3 l 0 = Ok [].
Proof. by vm_compute. Qed.

Lemma a2b_data b pads :
  a2b (b64data b ++ pad (b64data b)) 0 0 pads = Ok b.
Proof.
  revert pads. induction b as [|x|x y|x y z b IH] using triple_ind; intros pads.
  - done.
  - change (pad (b64data [x])) with [x3d; x3d]. cbn [b64data app]. do 2 (rewrite a2b_char by quads; cbn [Z.eqb Pos.eqb]).
    rewrite (proj1 (a2b_pads _)). cbn. do 2 f_equal. apply b64_octet_eq. quads.
  - change (pad (b64data [x; y])) with [x3d]. cbn [b64data app]. do 3 (rewrite a2b_char by quads; cbn [Z.eqb Pos.eqb]).
    rewrite (proj2 (a2b_pads _)). cbn. f_equal. f_equal; [|f_equal]; apply b64_octet_eq; quads.
  - assert (pad (b64data (x :: y :: z :: b)) = pad (b64data b)) as ->.
    { unfold pad. cbn [b64data]. rewrite !zlen_cons. do 2 f_equal. Z.to_euclidean_division_equations; lia. }
    cbn [b64data app]. do 4 (rewrite a2b_char by quads; cbn [Z.eqb Pos.eqb]). rewrite IH. cbn.
    f_equal. f_equal; [|f_equal; [|f_equal]]; apply b64_octet_eq; quads.
Qed.

Lemma b64data_chars b : Forall (fun c => ∃ v, 0 ≤ v < 64 ∧ c = b64char v) (b64data b).
Proof.
  induction b as [|x|x y|x y z b IH] using triple_ind; cbn [b64data]; repeat constructor; try done;
    eexists; (split; [|reflexivity]); quads.
Qed.

Lemma from_urlsafe_data b : map from_urlsafe (b64data b) = b64data b.
Proof.
  pose proof (b64data_chars b) as Hb. induction Hb as [|c l (v & Hv & ->) _ IH]; cbn; [done|].
  destruct (urlsafe_char v Hv) as (-> & _). by rewrite IH.
Qed.

Lemma from_to_urlsafe_data b : map from_urlsafe (map to_urlsafe (b64data b)) = b64data b.
Proof.
  pose proof (b64data_chars b) as Hb. induction Hb as [|c l (v & Hv & ->) _ IH]; cbn; [done|].
  destruct (urlsafe_char v Hv) as (_ & -> & _). by rewrite IH.
Qed.

Lemma from_urlsafe_pad b : map from_urlsafe (pad b) = pad b.
Proof. unfold pad. by rewrite map_repeat. Qed.

Example a2b_lenient : a2b [x59; x0a; x51; x3d; x3d; x21] 0 0 0 = Ok [x61] ∧ is_ok (a2b [x59] 0 0 0) = false.
Proof. by vm_compute. Qed.
