(* ===== verification/PyText.v ===== *)
(** * Text as code points

    The part of Python's [str], [re] and [pathlib] that the repository's
    scanners use.  Elsewhere a [str] is its UTF-8 octets; the scanners compare
    positions in a line, so here text is the list of its code points.  What
    depends on the Unicode database (letter case, word characters) is the class
    [Unicode]; white space and line ends are fixed and written out. *)

From S2P Require Import Prelude PyRuntime Utf8 Cbor Json.

Abbreviation str := (list Z).

(** A literal, and text as the octets it is elsewhere. *)
Definition u (s : string) : str := utf8_codes (of_string s).
Definition utf8 (s : str) : string := to_string (concat (utf8_encode <$> s)).

Class Unicode := {
  (** [s.lower()], which may be longer than [s] *)
  str_lower : str → str;
  (** a character of a pattern matches one of the text under [re.IGNORECASE] *)
  same_letter : Z → Z → bool;
  (** [\w] *)
  is_word : Z → bool;
  (** [repr(s)] *)
  str_repr : str → str
}.

(** ** White space and lines *)

(** [c.isspace()], and [\s] of [re]; the line ends of [str.splitlines]. *)
Definition is_blank (c : Z) : bool :=
  bool_decide (c ∈ [9; 10; 11; 12; 13; 28; 29; 30; 31; 32; 133; 160; 5760; 8232; 8233; 8239; 8287; 12288])
  || ((8192 <=? c) && (c <=? 8202)).
Definition ends_line (c : Z) : bool := bool_decide (c ∈ [10; 11; 12; 13; 28; 29; 30; 133; 8232; 8233]).

(** [s.strip(chars)], [s.lstrip()] and [s.strip()] *)
Definition strip_of (chars : Z → bool) (s : str) : str := reverse (drop_while chars (reverse (drop_while chars s))).
Definition lstrip (s : str) : str := drop_while is_blank s.
Definition strip (s : str) : str := strip_of is_blank s.

(** [s.splitlines()]: a carriage return and the line feed after it end one
    line, and there is no empty line after the last line end. *)
Fixpoint lines_from (line s : str) : list str :=
  match s with
  | [] => match line with [] => [] | _ => [reverse line] end
  | 13 :: 10 :: r => reverse line :: lines_from [] r
  | c :: r => if ends_line c then reverse line :: lines_from [] r else lines_from (c :: line) r
  end.
Definition splitlines (s : str) : list str := lines_from [] s.

(** [s.split(sep)] for a separator of one character or octet. *)
Fixpoint split_by {A} (sep : A → bool) (word s : list A) : list (list A) :=
  match s with
  | [] => [reverse word]
  | c :: r => if sep c then reverse word :: split_by sep [] r else split_by sep (c :: word) r
  end.

(** ** Substrings *)

Definition starts_with (p s : str) : bool := bool_decide (take (length p) s = p).
Definition occurs_at (p s : str) (i : nat) : bool := starts_with p (drop i s).

(** [s.find(p, start)] *)
Definition find (s p : str) (start : nat) : option nat :=
  head (filter (λ i, Is_true (occurs_at p s i)) (seq start (S (length s) - start))).
Definition contains_str (p s : str) : bool := match find s p 0 with Some _ => true | None => false end.

Lemma find_Some s p start i :
  find s p start = Some i →
  (start ≤ i ≤ length s)%nat ∧ occurs_at p s i = true ∧ ∀ j, (start ≤ j < i)%nat → occurs_at p s j = false.
Proof.
  unfold find. intros Hf. destruct (filter _ _) as [|i' l] eqn:E; [done|]. injection Hf as ->.
  assert (Hi : i ∈ filter (λ i, Is_true (occurs_at p s i)) (seq start (S (length s) - start))) by (rewrite E; left).
  apply list_elem_of_filter in Hi as [Ho Hi%elem_of_seq].
  split_and!; [lia..|by apply Is_true_true|]. intros j Hj.
  destruct (occurs_at p s j) eqn:Hoj; [exfalso|done].
  replace (S (length s) - start)%nat with ((j - start) + S (length s - j))%nat in E by lia.
  rewrite seq_app, filter_app in E. replace (start + (j - start))%nat with j in E by lia.
  cbn [seq] in E. rewrite (filter_cons_True _ j) in E by by apply Is_true_true.
  destruct (filter _ (seq start (j - start))) as [|i' k] eqn:Ek.
  - injection E as E _. lia.
  - injection E as -> _.
    assert (Hi' : i ∈ filter (λ i, Is_true (occurs_at p s i)) (seq start (j - start))) by (rewrite Ek; left).
    apply list_elem_of_filter in Hi' as [_ Hi'%elem_of_seq]. lia.
Qed.

Lemma find_None s p start i : find s p start = None → (start ≤ i ≤ length s)%nat → occurs_at p s i = false.
Proof.
  unfold find. intros Hf Hi. destruct (occurs_at p s i) eqn:Ho; [exfalso|done].
  assert (Hi' : i ∈ filter (λ i, Is_true (occurs_at p s i)) (seq start (S (length s) - start))).
  { apply list_elem_of_filter. split; [by apply Is_true_true|]. apply elem_of_seq. lia. }
  destruct (filter _ _); [by apply elem_of_nil in Hi'|done].
Qed.

Lemma starts_with_spec p s : starts_with p s = true ↔ ∃ b, s = p ++ b.
Proof.
  unfold starts_with. rewrite bool_decide_eq_true. split.
  - intros E. exists (drop (length p) s). by rewrite <- E at 1; rewrite take_drop.
  - intros (b & ->). by rewrite take_app_length.
Qed.

(** [p in s] *)
Lemma contains_str_spec p s : contains_str p s = true ↔ ∃ a b, s = a ++ p ++ b.
Proof.
  unfold contains_str. split.
  - destruct (find s p 0) as [i|] eqn:Hf; [|done]. intros _. apply find_Some in Hf as (_ & (b & Hb)%starts_with_spec & _).
    exists (take i s), b. by rewrite <- Hb, take_drop.
  - intros (a & b & ->). destruct (find _ p 0) as [i|] eqn:Hf; [done|].
    pose proof (find_None _ _ _ (length a) Hf) as Ho. rewrite length_app in Ho. specialize (Ho ltac:(lia)).
    unfold occurs_at in Ho. rewrite drop_app_length in Ho.
    assert (starts_with p (p ++ b) = true) as E by (apply starts_with_spec; eauto). congruence.
Qed.

(** ** Decoding with an error handler

    [b.decode("utf-8", errors)]: a maximal run of octets that begins a
    character but does not complete it goes to the handler; [errors] maps that
    run to text. *)

(** The well-formed start of a character: how many octets of [b] belong
    together, and whether they make a character.  The second octet is bounded
    by the first. *)
Definition second_range (v : Z) : option (nat * Z * Z) :=
  if (194 <=? v) && (v <=? 223) then Some (2%nat, 128, 191)
  else if v =? 224 then Some (3%nat, 160, 191)
  else if v =? 237 then Some (3%nat, 128, 159)
  else if (225 <=? v) && (v <=? 239) then Some (3%nat, 128, 191)
  else if v =? 240 then Some (4%nat, 144, 191)
  else if v =? 244 then Some (4%nat, 128, 143)
  else if (241 <=? v) && (v <=? 243) then Some (4%nat, 128, 191)
  else None.
Fixpoint continuation (n : nat) (lo hi : Z) (b : bytes) : nat :=
  match n, b with
  | S n, x :: r => if (lo <=? byte_val x) && (byte_val x <=? hi) then S (continuation n 128 191 r) else O
  | _, _ => O
  end.
Definition char_run (b : bytes) : nat * bool :=
  match b with
  | [] => (O, false)
  | x :: r =>
      if byte_val x <? 128 then (1%nat, true)
      else match second_range (byte_val x) with
           | None => (1%nat, false)
           | Some (n, lo, hi) => let k := S (continuation (n - 1) lo hi r) in (k, bool_decide (k = n))
           end
  end.
Fixpoint decode_fuel (errors : bytes → str) (fuel : nat) (b : bytes) : str :=
  match fuel, b with
  | S fuel, _ :: _ =>
      let '(k, ok) := char_run b in
      (if ok then utf8_codes (take k b) else errors (take k b)) ++ decode_fuel errors fuel (drop k b)
  | _, _ => []
  end.
Definition decode (errors : bytes → str) (b : bytes) : str := decode_fuel errors (length b) b.

(** [errors="replace"], [errors="ignore"] and the handler of [os.fsdecode] *)
Definition replace_run (b : bytes) : str := [65533].
Definition ignore_run (b : bytes) : str := [].
Definition surrogateescape (b : bytes) : str := (λ x, 56320 + byte_val x) <$> b.
Definition fsdecode (b : bytes) : str := decode surrogateescape b.

Example decode_truncated :
  decode replace_run [x61; xe2; x82; x61; xed; xa0; x80; xc3; xa9] = [97; 65533; 97; 65533; 65533; 65533; 233].
Proof. by vm_compute. Qed.

(** ** Paths: [pathlib.PurePosixPath] *)

Record path := { absolute : bool; parts : list str }.
#[export] Instance path_eq_dec : EqDecision path.
Proof. solve_decision. Defined.

Definition Path (s : str) : path :=
  {| absolute := starts_with (u "/") s;
     parts := filter (λ p, p ≠ [] ∧ p ≠ u ".") (split_by (Z.eqb 47) [] s) |}.

Definition join_parts (l : list str) : str :=
  match l with [] => [] | p :: l => p ++ concat ((λ q, 47 :: q) <$> l) end.
Definition path_str (p : path) : str :=
  match absolute p, parts p with
  | true, l => 47 :: join_parts l
  | false, [] => u "."
  | false, l => join_parts l
  end.

(** [p / s] *)
Definition joinpath (p : path) (s : str) : path :=
  let q := Path s in
  if absolute q then q else {| absolute := absolute p; parts := parts p ++ parts q |}.

(** [p.name] and [p.suffix] *)
Definition path_name (p : path) : str := default [] (last (parts p)).
Definition path_suffix (p : path) : str :=
  let name := path_name p in
  match last (filter (λ i, name !! i = Some 46) (seq 0 (length name))) with
  | Some i => if (0 <? i)%nat && (i <? length name - 1)%nat then drop i name else []
  | None => []
  end.

(** [p.relative_to(root)] and [p.is_relative_to(root)] *)
Definition relative_to (p root : path) : option (list str) :=
  if bool_decide (absolute p = absolute root ∧ take (length (parts root)) (parts p) = parts root)
  then Some (drop (length (parts root)) (parts p)) else None.
Definition is_relative_to (p root : path) : bool := match relative_to p root with Some _ => true | None => false end.

Example path_forms :
  let p := joinpath (Path (u "repo/")) (u "docs//./spec.tar.MD") in
  path_str p = u "repo/docs/spec.tar.MD" ∧ path_suffix p = u ".MD" ∧
  relative_to p (Path (u "./repo")) = Some [u "docs"; u "spec.tar.MD"] ∧ path_suffix (Path (u ".md")) = [].
Proof. by vm_compute. Qed.

Example splitlines_forms :
  splitlines ([97; 13; 10; 98; 133; 10] ++ [99]) = [[97]; [98]; []; [99]] ∧ splitlines [97; 10] = [[97]].
Proof. by vm_compute. Qed.

(** Letter case and words of ASCII, and the one letter of Unicode whose lower
    case is two characters; for witnesses. *)
Definition ascii_lower (c : Z) : str :=
  if (65 <=? c) && (c <=? 90) then [c + 32] else if c =? 304 then [105; 775] else [c].
Definition ascii_unicode : Unicode := {|
  str_lower s := concat (ascii_lower <$> s);
  same_letter c d := bool_decide (ascii_lower c = ascii_lower d);
  is_word c := ((48 <=? c) && (c <=? 57)) || ((65 <=? c) && (c <=? 90)) || (c =? 95) || ((97 <=? c) && (c <=? 122)) || (c =? 304);
  str_repr s := 39 :: s ++ [39] |}.
