(* ===== verification/PyIo.v ===== *)
(** * Programs that change a state and may raise

    What was changed before an exception stays changed.  [always R m] says
    that every run of [m], also one that raises, relates the states before and
    after it by [R]. *)

From S2P Require Import Prelude PyRuntime.

Section prog.
Context {S : Type}.

Definition prog (A : Type) : Type := S → S * result A.
#[export] Instance prog_ret : MRet prog := λ A a s, (s, Ok a).
#[export] Instance prog_bind : MBind prog := λ A B f m s,
  match m s with (s, Ok a) => f a s | (s, Raise e) => (s, Raise e) end.
Definition lift {A} (m : result A) : prog A := λ s, (s, m).
(** A result read off the state. *)
Definition observe {A} (f : S → result A) : prog A := λ s, (s, f s).

Lemma prog_bind_ok {A B} (m : prog A) (f : A → prog B) s s' b :
  (m ≫= f) s = (s', Ok b) ↔ ∃ s1 a, m s = (s1, Ok a) ∧ f a s1 = (s', Ok b).
Proof.
  unfold mbind, prog_bind. destruct (m s) as [s1 [a|e]]; split; [eauto|by intros (? & ? & [= <- <-] & ?)|done|].
  by intros (? & ? & [=] & _).
Qed.

Lemma prog_bind_raise {A B} (m : prog A) (f : A → prog B) s s' e :
  (m ≫= f) s = (s', Raise e) ↔ m s = (s', Raise e) ∨ ∃ s1 a, m s = (s1, Ok a) ∧ f a s1 = (s', Raise e).
Proof.
  unfold mbind, prog_bind. destruct (m s) as [s1 [a|e']].
  - split; [eauto|by intros [?|(? & ? & [= <- <-] & ?)]].
  - split; [by intros [= -> ->]; left|by intros [[= -> ->]|(? & ? & ? & _)]].
Qed.

(** A step that ends well is followed by the rest. *)
Lemma prog_step {A B} (m : prog A) (f : A → prog B) s s' a : m s = (s', Ok a) → (m ≫= f) s = f a s'.
Proof. unfold mbind, prog_bind. by intros ->. Qed.

Lemma lift_ok {A} (m : result A) s s' a : lift m s = (s', Ok a) ↔ s' = s ∧ m = Ok a.
Proof. unfold lift. split; [by intros [= -> ->]|by intros [-> ->]]. Qed.

Lemma lift_raise {A} (m : result A) s s' e : lift m s = (s', Raise e) → s' = s.
Proof. by intros [= -> _]. Qed.

Section always.
Context (R : S → S → Prop) `{!PreOrder R}.
#[local] Set Default Proof Using "All".

Definition always {A} (m : prog A) : Prop := ∀ s, R s (m s).1.

Lemma always_ret {A} (a : A) : always (mret a).
Proof. intros s. reflexivity. Qed.

Lemma always_lift {A} (m : result A) : always (lift m).
Proof. intros s. reflexivity. Qed.

Lemma always_observe {A} (f : S → result A) : always (observe f).
Proof. intros s. reflexivity. Qed.

Lemma always_bind {A B} (m : prog A) (f : A → prog B) : always m → (∀ a, always (f a)) → always (m ≫= f).
Proof.
  intros Hm Hf s. unfold mbind, prog_bind. specialize (Hm s). destruct (m s) as [s1 [a|e]]; cbn in Hm; [|done].
  etrans; [exact Hm|apply Hf].
Qed.

Lemma always_mapM {A B} (f : A → prog B) l : (∀ a, always (f a)) → always (mapM f l).
Proof.
  intros Hf. induction l as [|a l IH]; [apply always_ret|]. cbn. apply always_bind; [apply Hf|]. intros b.
  apply always_bind; [exact IH|]. intros k. apply always_ret.
Qed.
End always.
End prog.
#[global] Arguments prog : clear implicits.
#[export] Hint Resolve always_ret always_lift always_observe always_bind always_mapM : scitt.
