(* ===== verification/Regex.v ===== *)
(** * Regular expressions: the part of [re] the scanners use

    An expression is matched against a line of code points from a position.
    [ends] lists the positions where a match may end, in the order in which the
    module's backtracking tries them, so that the first one is the match it
    takes; [matches] is the language, which says nothing of the order. *)

From S2P Require Import Prelude PyRuntime Utf8 Cbor Json PyText.

Inductive regex : Type :=
| Chr (p : Z → bool)
| Look (f : str → nat → bool)
| Seq (r q : regex)
| Alt (r q : regex)
| Star (r : regex)
| Lazy (r : regex).

(** A repetition: [f] is its body.  A turn consumes text, so a turn per
    remaining character is enough. *)
Fixpoint iterate (greedy : bool) (f : nat → list nat) (fuel i : nat) : list nat :=
  match fuel with
  | O => [i]
  | S fuel =>
      let more := filter (λ j, (i < j)%nat) (f i) ≫= iterate greedy f fuel in
      if greedy then more ++ [i] else i :: more
  end.

Fixpoint ends (r : regex) (line : str) (i : nat) : list nat :=
  match r with
  | Chr p => match line !! i with Some c => if p c then [S i] else [] | None => [] end
  | Look f => if f line i then [i] else []
  | Seq r q => ends r line i ≫= ends q line
  | Alt r q => ends r line i ++ ends q line i
  | Star r => iterate true (ends r line) (length line - i) i
  | Lazy r => iterate false (ends r line) (length line - i) i
  end.

(** ** Forms *)

Definition one_of (s : str) : regex := Chr (λ c, bool_decide (c ∈ s)).
Definition none_of (s : str) : regex := Chr (λ c, negb (bool_decide (c ∈ s))).
Definition in_range (a b c : Z) : bool := (a <=? c) && (c <=? b).
(** [.] *)
Definition dot : regex := none_of [10].
(** [\s] and [\S] *)
Definition blank : regex := Chr is_blank.
Definition non_blank : regex := Chr (λ c, negb (is_blank c)).
Definition nothing : regex := Look (λ _ _, true).
(** [^] and [$] *)
Definition at_start : regex := Look (λ _ i, (i =? 0)%nat).
Definition at_end : regex := Look (λ line i,
  (i =? length line)%nat || (S i =? length line)%nat && bool_decide (line !! i = Some 10)).
(** [(?=r)] *)
Definition ahead (r : regex) : regex := Look (λ line i, match ends r line i with [] => false | _ => true end).

Definition literal (s : str) : regex := foldr (λ c, Seq (Chr (Z.eqb c))) nothing s.
Definition choice (l : list str) : regex := foldr (λ s, Alt (literal s)) (Chr (λ _, false)) l.
Definition opt (r : regex) : regex := Alt r nothing.
(** [r{n,}] *)
Definition at_least (n : nat) (r : regex) : regex := Nat.iter n (Seq r) (Star r).

Section words.
Context `{Unicode}.
(** [\w] and [\b]: a word character on exactly one side *)
Definition word : regex := Chr is_word.
Definition word_at (line : str) (i : nat) : bool := match line !! i with Some c => is_word c | None => false end.
Definition boundary (line : str) (i : nat) : bool :=
  xorb (match i with O => false | S j => word_at line j end) (word_at line i).
End words.

(** ** Calls *)

Definition match_at (r : regex) (line : str) (i : nat) (must_advance : bool) : option nat :=
  head (filter (λ e, must_advance = true → (i < e)%nat) (ends r line i)).
(** [r.fullmatch(line)] succeeds *)
Definition fullmatch (r : regex) (line : str) : bool := bool_decide (length line ∈ ends r line 0).
(** [r.search(line)] succeeds *)
Definition search (r : regex) (line : str) : bool :=
  existsb (λ i, match ends r line i with [] => false | _ => true end) (seq 0 (S (length line))).

(** The loop of [finditer] over a line of length [n]: [at_ i must] is the match
    at [i], which has to consume text when the last one ended there and was
    empty; two turns per position are enough. *)
Section finditer.
Context (at_ : nat → bool → option nat) (n : nat).

Fixpoint finditer_from (fuel : nat) (i : nat) (must_advance : bool) : list (nat * nat) :=
  match fuel with
  | O => []
  | S fuel =>
      if (n <? i)%nat then []
      else match at_ i must_advance with
           | Some e => (i, e) :: finditer_from fuel e (e =? i)%nat
           | None => finditer_from fuel (S i) false
           end
  end.
Definition finditer_by : list (nat * nat) := finditer_from (2 * n + 2) 0 false.
End finditer.

Definition finditer (r : regex) (line : str) : list (nat * nat) := finditer_by (match_at r line) (length line).

(** ** Groups

    A row of expressions, each one a group: the position after each of them,
    for the ways to match in the order of backtracking. *)
Fixpoint groups_at (rs : list regex) (line : str) (i : nat) : list (list nat) :=
  match rs with
  | [] => [[]]
  | r :: rs => ends r line i ≫= λ e, cons e <$> groups_at rs line e
  end.

(** [line[i:j]] *)
Definition slice (line : str) (i j : nat) : str := take (j - i) (drop i line).

(** [pattern.sub(repl, line)] for a row whose matches consume text: [repl] gets
    where the match starts and its groups end. *)
Fixpoint sub_from (rs : list regex) (repl : nat → list nat → result str) (line : str) (fuel i : nat) : result str :=
  match fuel with
  | O => Ok []
  | S fuel =>
      match groups_at rs line i with
      | g :: _ =>
          new ← repl i g;
          rest ← sub_from rs repl line fuel (default i (last g));
          Ok (new ++ rest)
      | [] =>
          match line !! i with
          | Some c => rest ← sub_from rs repl line fuel (S i); Ok (c :: rest)
          | None => Ok []
          end
      end
  end.
Definition sub (rs : list regex) (repl : nat → list nat → result str) (line : str) : result str :=
  sub_from rs repl line (S (length line)) 0.

(** ** The language *)

(** [matches line r i j]: [r] matches what is between [i] and [j]. *)
Inductive matches (line : str) : regex → nat → nat → Prop :=
| matches_chr p i c : line !! i = Some c → p c = true → matches line (Chr p) i (S i)
| matches_look f i : f line i = true → matches line (Look f) i i
| matches_seq r q i j e : matches line r i j → matches line q j e → matches line (Seq r q) i e
| matches_left r q i e : matches line r i e → matches line (Alt r q) i e
| matches_right r q i e : matches line q i e → matches line (Alt r q) i e
| matches_star_nil r i : matches line (Star r) i i
| matches_star_more r i j e : matches line r i j → matches line (Star r) j e → matches line (Star r) i e
| matches_lazy r i e : matches line (Star r) i e → matches line (Lazy r) i e.
#[export] Hint Constructors matches : scitt.

Section language.
Context (line : str).

Lemma matches_le r i j : matches line r i j → (i ≤ j)%nat.
Proof. induction 1; lia. Qed.

Lemma matches_bound r i j : matches line r i j → (i ≤ length line)%nat → (j ≤ length line)%nat.
Proof. induction 1 as [p i c Hc| | | | | | |]; intros; auto. apply lookup_lt_Some in Hc. lia. Qed.

(** Turns that consume nothing can be left out. *)
Lemma iterate_spec greedy r fuel i e :
  (∀ i j, (i ≤ length line)%nat → j ∈ ends r line i ↔ matches line r i j) →
  (i ≤ length line)%nat → (length line - i ≤ fuel)%nat →
  e ∈ iterate greedy (ends r line) fuel i ↔ matches line (Star r) i e.
Proof.
  intros Hr. revert i e. induction fuel as [|fuel IH]; intros i e Hi Hfuel.
  - cbn [iterate]. rewrite list_elem_of_singleton. split; [intros ->; constructor|].
    intros Hm. pose proof (matches_le _ _ _ Hm). pose proof (matches_bound _ _ _ Hm Hi). lia.
  - assert (∀ e, e ∈ filter (λ j, (i < j)%nat) (ends r line i) ≫= iterate greedy (ends r line) fuel ↔
        ∃ j, (i < j)%nat ∧ matches line r i j ∧ matches line (Star r) j e) as Hmore.
    { intros e'. rewrite list_elem_of_bind. split.
      - intros (j & He & [Hlt Hj%Hr]%list_elem_of_filter); [|done]. exists j. split_and!; [done..|].
        apply IH; [by eapply matches_bound|lia|done].
      - intros (j & Hlt & Hj & He). exists j. split; [apply IH; [by eapply matches_bound|lia|done]|].
        apply list_elem_of_filter. split; [done|]. by apply Hr. }
    assert (matches line (Star r) i e ↔ e = i ∨ ∃ j, (i < j)%nat ∧ matches line r i j ∧ matches line (Star r) j e) as ->.
    { split; [|intros [->|(j & _ & ? & ?)]; eauto with scitt].
      remember (Star r) as s eqn:Es. induction 1 as [| | | | |r' i'|r' i' j e Hj _ He IHe|]; try done; injection Es as ->; [by left|].
      destruct (decide (i' = j)) as [<-|]; [auto|]. right. exists j. split_and!; [|done|done].
      apply matches_le in Hj. lia. }
    cbn [iterate]. destruct greedy; [rewrite elem_of_app, list_elem_of_singleton|rewrite elem_of_cons]; rewrite Hmore; tauto.
Qed.

(** The matcher decides the language. *)
Lemma ends_spec r i e : (i ≤ length line)%nat → e ∈ ends r line i ↔ matches line r i e.
Proof.
  revert i e. induction r as [p|f|r IHr q IHq|r IHr q IHq|r IHr|r IHr]; intros i e Hi; cbn [ends].
  - split.
    + destruct (line !! i) as [c|] eqn:Hc; [|intros ?%elem_of_nil; done]. destruct (p c) eqn:Hp; [|intros ?%elem_of_nil; done].
      intros ->%list_elem_of_singleton. eauto with scitt.
    + intros Hm. inversion Hm as [? ? c Hc Hp| | | | | | |]; subst. rewrite Hc, Hp. by left.
  - split.
    + destruct (f line i) eqn:Hf; [|intros ?%elem_of_nil; done]. intros ->%list_elem_of_singleton. auto with scitt.
    + intros Hm. inversion Hm as [|? ? Hf| | | | | |]; subst. rewrite Hf. by left.
  - rewrite list_elem_of_bind. split.
    + intros (j & He & Hj%IHr); [|done]. apply IHq in He; [eauto with scitt|by eapply matches_bound].
    + intros Hm. inversion Hm as [| |? ? ? j ? Hj He| | | | |]; subst. exists j. split; [|by apply IHr].
      apply IHq; [by eapply matches_bound|done].
  - rewrite elem_of_app, IHr, IHq by done. split; [intros [?|?]; auto with scitt|]. intros Hm. inversion Hm; auto.
  - apply iterate_spec; [exact IHr|done|lia].
  - rewrite iterate_spec by (exact IHr || lia). split; [auto with scitt|]. by inversion 1.
Qed.

Lemma ends_none r i : (i ≤ length line)%nat → ends r line i = [] ↔ ∀ e, ¬ matches line r i e.
Proof.
  intros Hi. split.
  - intros E e He%ends_spec; [|done]. rewrite E in He. by apply elem_of_nil in He.
  - intros Hno. destruct (ends r line i) as [|e l] eqn:E; [done|]. destruct (Hno e). apply ends_spec; [done|]. rewrite E. by left.
Qed.

Lemma fullmatch_spec r : fullmatch r line = true ↔ matches line r 0 (length line).
Proof. unfold fullmatch. rewrite bool_decide_eq_true. apply ends_spec. lia. Qed.

Lemma search_spec r : search r line = true ↔ ∃ i e, (i ≤ length line)%nat ∧ matches line r i e.
Proof.
  unfold search. rewrite existsb_exists. split.
  - intros (i & Hi%list_elem_of_In%elem_of_seq & He). destruct (ends r line i) as [|e l] eqn:E; [done|].
    exists i, e. split; [lia|]. apply ends_spec; [lia|]. rewrite E. by left.
  - intros (i & e & Hi & Hm). exists i. split; [apply list_elem_of_In, elem_of_seq; lia|].
    apply ends_spec in Hm; [|done]. destruct (ends r line i); [by apply elem_of_nil in Hm|done].
Qed.

Lemma match_at_Some r i must e : (i ≤ length line)%nat → match_at r line i must = Some e →
  matches line r i e ∧ (must = true → (i < e)%nat).
Proof.
  unfold match_at. intros Hi Hh. destruct (filter _ _) as [|e' l] eqn:E; [done|]. injection Hh as ->.
  assert (e ∈ filter (λ e, must = true → (i < e)%nat) (ends r line i)) as [He Hm]%list_elem_of_filter by (rewrite E; left).
  apply ends_spec in Hm; auto.
Qed.

Lemma match_at_complete r i must e : (i < e)%nat → (i ≤ length line)%nat → matches line r i e →
  ∃ e', match_at r line i must = Some e'.
Proof.
  intros Hlt Hi Hm%ends_spec; [|done]. unfold match_at. destruct (filter _ _) as [|e' l] eqn:E; [|by exists e'].
  assert (e ∈ filter (λ e, must = true → (i < e)%nat) (ends r line i)) as He by by apply list_elem_of_filter.
  rewrite E in He. by apply elem_of_nil in He.
Qed.
End language.

(** ** What a match consumes *)

(** Every character class of [r] is within [p]. *)
Fixpoint within (p : Z → bool) (r : regex) : Prop :=
  match r with
  | Chr q => ∀ c, q c = true → p c = true
  | Look _ => True
  | Seq r q | Alt r q => within p r ∧ within p q
  | Star r | Lazy r => within p r
  end.

Lemma within_at_least p n r : within p r → within p (at_least n r).
Proof. intros Hr. unfold at_least. induction n as [|n IH]; [done|]. by split. Qed.

Lemma matches_within line p r i j : matches line r i j → within p r →
  ∀ k, (i ≤ k < j)%nat → ∃ c, line !! k = Some c ∧ p c = true.
Proof.
  induction 1 as [q i c Hc Hq|f i Hf|r q i j e Hr IHr Hq IHq|r q i e Hm IH|r q i e Hm IH|r i|r i j e Hr IHr Hs IHs|r i e Hm IH];
    cbn [within]; intros Hw k Hk; [|lia|..].
  - exists c. replace k with i by lia. auto.
  - destruct (decide (k < j)%nat); [apply IHr; [apply Hw|lia]|apply IHq; [apply Hw|lia]].
  - apply IH; [apply Hw|lia].
  - apply IH; [apply Hw|lia].
  - lia.
  - destruct (decide (k < j)%nat); [apply IHr; [done|lia]|apply IHs; [done|lia]].
  - by apply IH.
Qed.

Lemma matches_chr_inv line p i j : matches line (Chr p) i j → j = S i ∧ ∃ c, line !! i = Some c ∧ p c = true.
Proof. inversion 1; subst. eauto. Qed.

Lemma matches_seq_inv line r q i e : matches line (Seq r q) i e → ∃ j, matches line r i j ∧ matches line q j e.
Proof. inversion 1; subst. eauto. Qed.

(** ** Groups *)

(** The expressions of a row match one after the other, ending at [g]. *)
Inductive groups_match (line : str) : list regex → nat → list nat → Prop :=
| groups_nil i : groups_match line [] i []
| groups_cons r rs i e g : matches line r i e → groups_match line rs e g → groups_match line (r :: rs) i (e :: g).

Lemma groups_cons_inv line r rs i g :
  groups_match line (r :: rs) i g → ∃ e g', g = e :: g' ∧ matches line r i e ∧ groups_match line rs e g'.
Proof. inversion 1; subst. eauto. Qed.

Lemma groups_nil_inv line i g : groups_match line [] i g → g = [].
Proof. by inversion 1. Qed.

Lemma groups_at_spec line rs i g :
  (i ≤ length line)%nat → g ∈ groups_at rs line i ↔ groups_match line rs i g.
Proof.
  revert i g. induction rs as [|r rs IH]; intros i g Hi; cbn [groups_at].
  - rewrite list_elem_of_singleton. split; [intros ->; constructor|]. by inversion 1.
  - rewrite list_elem_of_bind. split.
    + intros (e & (g' & -> & Hg)%list_elem_of_fmap & He%ends_spec); [|done].
      constructor; [done|]. apply IH; [by eapply matches_bound|done].
    + inversion 1 as [|? ? ? e g' He Hg]; subst. exists e. split; [|by apply ends_spec].
      apply list_elem_of_fmap. exists g'. split; [done|]. apply IH; [by eapply matches_bound|done].
Qed.

Lemma slice_app line i j k : (i ≤ j ≤ k)%nat → slice line i k = slice line i j ++ slice line j k.
Proof.
  intros Hj. unfold slice. rewrite <- (take_drop (j - i) (take (k - i) (drop i line))), take_take, skipn_firstn_comm, drop_drop.
  f_equal; [f_equal; lia|]. f_equal; [lia|]. f_equal. lia.
Qed.

Lemma slice_one line i c : line !! i = Some c → slice line i (S i) = [c].
Proof. intros Hc. unfold slice. rewrite (drop_S _ _ _ Hc). by replace (S i - i)%nat with 1%nat by lia. Qed.

Lemma slice_rest line i : slice line i (length line) = drop i line.
Proof. unfold slice. apply take_ge. rewrite length_drop. lia. Qed.

(** What [sub] makes of a line: pieces that stay and matches that are replaced,
    in their order. *)
Definition pieces (R : str → str → Prop) (old new : str) : Prop :=
  ∃ l : list (str * str), old = concat l.*1 ∧ new = concat l.*2 ∧ Forall (λ x, x.1 = x.2 ∨ R x.1 x.2) l.

Section sub_spec.
Context (rs : list regex) (repl : nat → list nat → result str) (line : str) (R : str → str → Prop).
Hypothesis repl_spec : ∀ i g new, (i ≤ length line)%nat → groups_match line rs i g → repl i g = Ok new →
  ∃ e, last g = Some e ∧ (i < e ≤ length line)%nat ∧ (slice line i e = new ∨ R (slice line i e) new).
#[local] Set Default Proof Using "All".

Lemma sub_from_pieces fuel i new :
  (i ≤ length line)%nat → (length line - i < fuel)%nat → sub_from rs repl line fuel i = Ok new → pieces R (drop i line) new.
Proof.
  revert i new. induction fuel as [|fuel IH]; intros i new Hi Hfuel; [lia|]. cbn [sub_from].
  destruct (groups_at rs line i) as [|g gs] eqn:Hg.
  - destruct (line !! i) as [c|] eqn:Hc.
    + intros (rest & Hrest & [= <-])%bind_ok. pose proof (lookup_lt_Some _ _ _ Hc).
      apply IH in Hrest as (l & Ho & Hn & Hl); [|lia..]. exists (([c], [c]) :: l). cbn. rewrite (drop_S _ _ _ Hc), Ho, Hn.
      split_and!; [done..|]. constructor; [by left|done].
    + intros [= <-]. apply lookup_ge_None in Hc. exists []. by rewrite drop_ge.
  - assert (groups_match line rs i g) as Hm by (apply groups_at_spec; [done|]; rewrite Hg; left).
    intros (new1 & Hnew & (rest & Hrest & [= <-])%bind_ok)%bind_ok.
    destruct (repl_spec i g new1 Hi Hm Hnew) as (e & He & Hlt & HR). rewrite He in Hrest. cbn in Hrest.
    apply IH in Hrest as (l & Ho & Hn & Hl); [|lia..]. exists ((slice line i e, new1) :: l). cbn. rewrite <- Ho, <- Hn.
    split_and!; [|done|by constructor]. rewrite <- !slice_rest. apply slice_app. lia.
Qed.

Lemma sub_pieces new : sub rs repl line = Ok new → pieces R line new.
Proof. intros Hs. apply (sub_from_pieces (S (length line)) 0); [lia|lia|done]. Qed.
End sub_spec.

(** ** [finditer] misses nothing *)

Section finditer_spec.
Context (at_ : nat → bool → option nat) (n : nat) (P : nat → nat → Prop).
Hypothesis at_sound : ∀ i must e, (i ≤ n)%nat → at_ i must = Some e → P i e ∧ (i ≤ e)%nat.
Hypothesis at_advance : ∀ i e, (i ≤ n)%nat → at_ i true = Some e → (i < e)%nat.
Hypothesis at_complete : ∀ i must e, (i ≤ n)%nat → P i e → (i < e)%nat → ∃ e', at_ i must = Some e'.

Lemma finditer_from_sound fuel j must m : m ∈ finditer_from at_ n fuel j must → P m.1 m.2.
Proof using at_sound.
  revert j must. induction fuel as [|fuel IH]; intros j must; cbn [finditer_from]; [intros ?%elem_of_nil; done|].
  case_if; [intros ?%elem_of_nil; done|]. apply Nat.ltb_ge in Heqb. destruct (at_ j must) as [e|] eqn:Hp; [|apply IH].
  intros [->|Hm]%elem_of_cons; [by eapply at_sound|by eapply IH].
Qed.

(** Every match starts inside one that was found. *)
Lemma finditer_from_covers fuel j must i e :
  (2 * (n + 1 - j) ≤ fuel + Nat.b2n must)%nat → (j ≤ i ≤ n)%nat → P i e → (i < e)%nat →
  ∃ m, m ∈ finditer_from at_ n fuel j must ∧ (m.1 ≤ i < m.2)%nat.
Proof using All.
  intros Hfuel Hj Hr Hlt. revert j must Hfuel Hj. induction fuel as [|fuel IH]; intros j must Hfuel Hj; cbn [finditer_from].
  { destruct must; cbn in Hfuel; lia. }
  replace (n <? j)%nat with false by (symmetry; apply Nat.ltb_ge; lia).
  destruct (at_ j must) as [e'|] eqn:Hp.
  - destruct (decide (i < e')%nat); [exists (j, e'); split; [left|cbn; lia]|].
    destruct (IH e' (e' =? j)%nat) as (m & Hm & ?); [|lia|exists m; split; [by right|done]].
    destruct (at_sound j must e') as [_ Hle]; [lia|done|].
    destruct (Nat.eqb_spec e' j) as [->|]; cbn [Nat.b2n]; destruct must; cbn [Nat.b2n] in Hfuel; [|lia..].
    apply at_advance in Hp; lia.
  - destruct (decide (j = i)) as [->|].
    { destruct (at_complete i must e) as (? & ?); [lia|done|done|congruence]. }
    apply IH; [destruct must; cbn [Nat.b2n] in *; lia|lia].
Qed.

Lemma finditer_by_sound m : m ∈ finditer_by at_ n → P m.1 m.2.
Proof using at_sound. apply finditer_from_sound. Qed.

Lemma finditer_by_covers i e : (i ≤ n)%nat → P i e → (i < e)%nat → ∃ m, m ∈ finditer_by at_ n ∧ (m.1 ≤ i < m.2)%nat.
Proof using All. intros. apply (finditer_from_covers _ _ _ i e); [cbn; lia|lia|done|done]. Qed.
End finditer_spec.

Section finditer_regex.
Context (line : str) (r : regex).

Lemma finditer_sound m : m ∈ finditer r line → matches line r m.1 m.2.
Proof.
  apply (finditer_by_sound _ _ (matches line r)).
  intros i must e Hi [Hm _]%match_at_Some; [|done]. split; [done|by eapply matches_le].
Qed.

Lemma finditer_covers i e : (i ≤ length line)%nat → matches line r i e → (i < e)%nat →
  ∃ m, m ∈ finditer r line ∧ (m.1 ≤ i < m.2)%nat.
Proof.
  apply (finditer_by_covers _ _ (matches line r)).
  - intros i' must e' Hi [Hm _]%match_at_Some; [|done]. split; [done|by eapply matches_le].
  - intros i' e' Hi [_ Hadv]%match_at_Some; auto.
  - intros i' must e' Hi Hm Hlt. by apply (match_at_complete line r i' must e').
Qed.
End finditer_regex.
