(* ===== verification/Release.v ===== *)
(** * The release helper: [.github/release.py]

    Text is octets, as the patterns only speak of ASCII.  The checkout is a
    store of octets by path, threaded through [bump]; reading a file decodes
    UTF-8 and translates its line ends, and writing keeps the line feeds there
    are, as on POSIX.  Git is an argument, its output the text [subprocess]
    makes of it ([text=True] translates line ends too), and so is the TOML reader, which is [tomllib] or the package [tomli]: it answers a
    value as JSON would hold it, a date being some value that is not text. *)

From S2P Require Import Prelude PyRuntime Utf8 Cbor Json PyJson JsonLoads PyText PyIo.

(** ** The checkout *)

Definition store : Type := gmap (list Z) bytes.

Abbreviation io := (prog store).

Definition file_not_found : exn := OSError (Msg "No such file or directory" []).
(** Universal newlines: CRLF and a lone CR are read as LF. *)
Fixpoint universal_newlines (b : bytes) : bytes :=
  match b with
  | [] => []
  | o :: r =>
      if bool_decide (o = x0d) then
        x0a :: match r with
               | o' :: r' => if bool_decide (o' = x0a) then universal_newlines r' else universal_newlines r
               | [] => []
               end
      else o :: universal_newlines r
  end.
Definition read_text (p : path) : io bytes := λ s,
  (s, match s !! path_str p with
      | Some b => if utf8_valid b then Ok (universal_newlines b) else Raise UnicodeDecodeError
      | None => Raise file_not_found
      end).
(** Opening empties the file; text with a lone surrogate is then refused. *)
Definition write_text (p : path) (b : bytes) : io unit := λ s,
  if utf8_valid b then (<[path_str p := b]> s, Ok ()) else (<[path_str p := []]> s, Raise UnicodeEncodeError).
Definition exists_file (p : path) : io bool := λ s, (s, Ok (bool_decide (is_Some (s !! path_str p)))).

Definition CONFIG : str := u ".github/releases.json".

(** ** Values of the configuration *)

(** [v[key]] *)
Definition py_index (v : json) (key : string) : result json :=
  match v with JObj d => index d key | _ => Raise TypeError end.
Definition as_text (v : json) : result bytes := match v with JStr s => Ok (of_string s) | _ => Raise TypeError end.
Definition as_path (v : json) : result str := match v with JStr s => Ok (u s) | _ => Raise TypeError end.
Definition quote : byte := x22.
Definition message (t : string) : exn := ValueError (Msg t []).

(** A key of a dict of literals. *)
Definition lookup_kind {A} (table : list (string * A)) (kind : json) : result A :=
  match kind with
  | JStr k => match list_find (λ ka, ka.1 = k) table with Some (_, (_, a)) => Ok a | None => Raise KeyError end
  | JArr _ | JObj _ => Raise TypeError
  | _ => Raise KeyError
  end.

(** ** Versions *)

(** [0|[1-9][0-9]*] *)
Definition span_number (b : bytes) : option (bytes * bytes) :=
  match b with
  | o :: r =>
      if bool_decide (o = x30) then Some ([o], r)
      else if isdigit o then let '(d, r) := span_digits r in Some (o :: d, r)
      else None
  | [] => None
  end.

(** [CORE], and what follows it. *)
Definition span_core (b : bytes) : option (bytes * bytes * bytes * bytes) :=
  '(major, b) ← span_number b;
  b ← after_literal [x2e] b;
  '(minor, b) ← span_number b;
  b ← after_literal [x2e] b;
  '(patch, b) ← span_number b;
  Some (major, minor, patch, b).

Definition numbered (b : bytes) : bool := match span_number b with Some (_, []) => true | _ => false end.
Definition python_tail (b : bytes) : bool :=
  match b with
  | [] => true
  | _ => match after_literal [x61] b, after_literal [x62] b, after_literal [x72; x63] b with
         | Some r, _, _ | None, Some r, _ | None, None, Some r => numbered r
         | None, None, None => false
         end
  end.
Definition npm_char (o : byte) : bool :=
  isdigit o || ((65 <=? byte_val o) && (byte_val o <=? 90)) || ((97 <=? byte_val o) && (byte_val o <=? 122))
  || bool_decide (o ∈ [x2e; x2d]).
Definition npm_tail (b : bytes) : bool :=
  match b with
  | [] => true
  | x2d :: (_ :: _) as r => forallb npm_char r
  | _ => false
  end.
Definition cargo_tail (b : bytes) : bool := match b with [] => true | _ => false end.

(** [VERSION[kind]] *)
Definition VERSION (kind : json) : result (bytes → bool) :=
  lookup_kind [("python", python_tail); ("npm", npm_tail); ("cargo", cargo_tail)] kind.
(** [VERSION[kind].fullmatch(b)]: the three groups. *)
Definition fullmatch (tail : bytes → bool) (b : bytes) : option (bytes * bytes * bytes) :=
  match span_core b with
  | Some (major, minor, patch, r) => if tail r then Some (major, minor, patch) else None
  | None => None
  end.

Definition TABLE (kind : json) : result bytes :=
  lookup_kind [("python", of_string "project"); ("cargo", of_string "package")] kind.

Section release.
Context `{PyObjects} (toml_loads : bytes → result json).

Definition load_json (b : bytes) : result json := json_loads (to_string b).

Definition is_npm (kind : json) : bool := json_eq kind (JStr "npm").
Definition is_cargo (kind : json) : bool := json_eq kind (JStr "cargo").

Definition read_version (kind : json) (text : bytes) : result bytes :=
  version ← (if is_npm kind then data ← load_json text; py_index data "version"
             else data ← toml_loads text; table ← TABLE kind;
                  section ← py_index data (to_string table); py_index section "version");
  match version with
  | JStr s => Ok (of_string s)
  | _ => Raise (message "the {TABLE.get(kind, 'package')} version must be a literal string")
  end.

(** [int(part)], and [f"{n}"]: both refuse more than 4300 digits. *)
Definition int_part (b : bytes) : result Z := int_of_text (to_string b).
Definition format_int (n : Z) : result bytes :=
  if zlen (dec n) >? 4300 then Raise (message "Exceeds the limit (4300 digits) for integer string conversion") else Ok (dec n).

(** [f"{major}.{minor}.{patch}"] *)
Definition format_version (major minor patch : Z) : result bytes :=
  a ← format_int major; b ← format_int minor; c ← format_int patch; Ok (a ++ x2e :: b ++ x2e :: c).

Definition next_version (kind : json) (current : bytes) (bump : string) : result bytes :=
  tail ← VERSION kind;
  match fullmatch tail current with
  | None => Raise (message "current version {current!r} is not a release version")
  | Some (major, minor, patch) =>
      major ← int_part major; minor ← int_part minor; patch ← int_part patch;
      if bool_decide (bump = "major") then format_version (major + 1) 0 0
      else if bool_decide (bump = "minor") then format_version major (minor + 1) 0
      else if bool_decide (bump = "patch") then format_version major minor (patch + 1)
      else Raise (message "unknown bump {bump!r}")
  end.

(** ** Rewriting a manifest *)

Definition is_tab (o : byte) : bool := bool_decide (o ∈ [x20; x09]).
Fixpoint skip_tabs (b : bytes) : bytes := match b with o :: r => if is_tab o then skip_tabs r else b | [] => [] end.

(** The first place at the start of a line where [at_line] holds: the text
    before it, and what [at_line] answers; [start] tells whether the text
    starts a line. *)
Fixpoint search_line {A} (at_line : bytes → option A) (start : bool) (b : bytes) : option (bytes * A) :=
  match (if start then at_line b else None), b with
  | Some a, _ => Some ([], a)
  | None, o :: r => '(before, a) ← search_line at_line (bool_decide (o = x0a)) r; Some (o :: before, a)
  | None, [] => None
  end.

(** [\[table\][ \t]*$]: what the match is and what follows it. *)
Definition header_at (table b : bytes) : option (bytes * bytes) :=
  let name := x5b :: table ++ [x5d] in
  r ← after_literal name b;
  let rest := skip_tabs r in
  match rest with
  | [] => Some (b, [])
  | o :: _ => if bool_decide (o = x0a) then Some (take (length b - length rest) b, rest) else None
  end.

(** [version[ \t]*=[ \t]*"old"]: the text up to [old] and what follows the
    closing quote. *)
Definition version_at_line (old b : bytes) : option (bytes * bytes) :=
  r ← after_literal (of_string "version") b;
  r ← after_literal [x3d] (skip_tabs r);
  r ← after_literal [quote] (skip_tabs r);
  rest ← after_literal (old ++ [quote]) r;
  Some (take (length b - length r) b, rest).

Definition table_at (b : bytes) : option unit := _ ← after_literal [x5b] b; Some ().

Definition replace_toml_version (text table old new : bytes) : result bytes :=
  match search_line (header_at table) true text with
  | None => Raise (message "no [{table}] table")
  | Some (before, (header, rest)) =>
      let section := match search_line table_at true rest with Some (b, _) => b | None => rest end in
      match search_line (version_at_line old) true section with
      | None => Raise (message "no literal version in [{table}]")
      | Some (b, (lead, after)) =>
          Ok (before ++ header ++ (b ++ lead ++ new ++ quote :: after) ++ drop (length section) rest)
      end
  end.

(** All occurrences of [lead ++ old ++ quote], left to right. *)
Fixpoint subn_lock (fuel : nat) (lead old new b : bytes) : bytes * Z :=
  match fuel with
  | O => (b, 0)
  | S fuel =>
      match after_literal (lead ++ old ++ [quote]) b, b with
      | Some r, _ => let '(r, n) := subn_lock fuel lead old new r in (lead ++ new ++ quote :: r, n + 1)
      | None, o :: r => let '(r, n) := subn_lock fuel lead old new r in (o :: r, n)
      | None, [] => ([], 0)
      end
  end.
Definition lock_lead (name : bytes) : bytes :=
  of_string "[[package]]" ++ x0a :: of_string "name = " ++ quote :: name ++ quote :: x0a :: of_string "version = " ++ [quote].

(** Writes the file only when it has the entry. *)
Definition replace_lock_version (lock_path : path) (name : json) (old new : bytes) : io bool :=
  name ← lift (as_text name);
  text ← read_text lock_path;
  let '(lock, count) := subn_lock (S (length text)) (lock_lead name) old new text in
  _ ← (if count =? 0 then mret () else write_text lock_path lock);
  mret (negb (count =? 0)).

(** ** [json.dumps(data, indent=2, ensure_ascii=False)] *)

Definition escape_plain (c : Z) : bytes := if (32 <=? c) && negb (bool_decide (c ∈ [34; 92])) then utf8_encode c else escape c.
Definition plain_string (s : string) : bytes := quote :: concat (escape_plain <$> utf8_codes (of_string s)) ++ [quote].

Definition write_json (p : path) (data : json) : io unit := write_text p (json_text indent_2 plain_string 0 data ++ [x0a]).

(** [data[key] = v] *)
Definition set_item (data : json) (key : string) (v : json) : result json :=
  match data with JObj d => Ok (JObj (jset d key v)) | _ => Raise TypeError end.

(** ** [bump] *)

Definition with_name (p : path) (name : str) : path :=
  {| absolute := absolute p; parts := take (length (parts p) - 1) (parts p) ++ [name] |}.

(** The npm branch: the manifest and the lockfile beside it. *)
Definition bump_npm (manifest : path) (new : bytes) : io unit :=
  let version := JStr (to_string new) in
  text ← read_text manifest;
  data ← lift (load_json text ≫= λ data, set_item data "version" version);
  _ ← write_json manifest data;
  let lock_path := with_name manifest (u "package-lock.json") in
  there ← exists_file lock_path;
  if negb there then mret () else
    text ← read_text lock_path;
    lock ← lift (
      lock ← load_json text;
      lock ← set_item lock "version" version;
      packages ← py_index lock "packages";
      root ← py_index packages EmptyString;
      root ← set_item root "version" version;
      packages ← set_item packages EmptyString root;
      set_item lock "packages" packages);
    write_json lock_path lock.

(** The lockfiles of the other cargo entries. *)
Fixpoint other_lockfiles (package : string) (config : object) : result (list json) :=
  match config with
  | [] => Ok []
  | (name, e) :: config =>
      kind ← py_index e "kind";
      here ← (if is_cargo kind then
                lockfile ← py_get e "lockfile" JNull;
                if json_truthy lockfile && negb (bool_decide (name = package))
                then _ ← py_hash lockfile; Ok [lockfile] else Ok []
              else Ok []);
      more ← other_lockfiles package config;
      Ok (here ++ more)
  end.

(** [sorted] of a set of text; anything else among them is refused there or
    where it becomes a path, before any file is written. *)
Definition sorted_paths (lockfiles : list json) : result (list string) :=
  l ← mapM (λ v, match v with JStr s => Ok s | _ => Raise TypeError end) lockfiles;
  Ok ((sort_items ((λ s, (s, ())) <$> remove_dups l)).*1).

Fixpoint replace_locks (repo : path) (name : json) (old new : bytes) (lockfiles : list string) : io unit :=
  match lockfiles with
  | [] => mret ()
  | l :: lockfiles => _ ← replace_lock_version (joinpath repo (u l)) name old new; replace_locks repo name old new lockfiles
  end.

Definition bump_cargo (repo manifest : path) (entry : json) (package : string) (config : object) (current new : bytes) : io unit :=
  text ← read_text manifest;
  name ← lift (data ← toml_loads text; section ← py_index data "package"; py_index section "name");
  others ← lift (other_lockfiles package config);
  own ← lift (py_get entry "lockfile" JNull);
  others ← (if json_truthy own then
              own_path ← lift (as_path own);
              found ← replace_lock_version (joinpath repo own_path) name current new;
              if negb found then lift (Raise (message "{entry['lockfile']} has no {name} {current} entry"))
              else mret (filter (λ v, json_eq v own = false) others)
            else mret others);
  lockfiles ← lift (sorted_paths others);
  replace_locks repo name current new lockfiles.

(** [entry] is [config[package]]; it is told from the other entries by its name. *)
Definition bump (repo : path) (entry : json) (kind_bump : string) (package : string) (config : object) : io bytes :=
  kind ← lift (py_index entry "kind");
  manifest ← lift (py_index entry "manifest" ≫= as_path);
  let manifest := joinpath repo manifest in
  text ← read_text manifest;
  current ← lift (read_version kind text);
  new ← lift (next_version kind current kind_bump);
  if is_npm kind then _ ← bump_npm manifest new; mret new
  else
    text ← read_text manifest;
    text ← lift (table ← TABLE kind; replace_toml_version text table current new);
    _ ← write_text manifest text;
    _ ← (if is_cargo kind then bump_cargo repo manifest entry package config current new else mret ());
    mret new.

(** ** git *)

(** [subprocess.CompletedProcess] *)
Record completed := { returncode : Z; git_stdout : bytes; git_stderr : bytes }.
Context (git : list string → result completed).

Definition require_commit (commit : string) : result unit :=
  r ← git ["cat-file"; "-e"; commit +:+ "^{commit}"];
  if bool_decide (returncode r ≠ 0) then Raise (message "unknown commit {commit!r}") else Ok ().

(** The text of a path at a commit, if it is there. *)
Definition shown_at (commit file : string) : result (option bytes) :=
  r ← git ["cat-file"; "-e"; commit +:+ ":" +:+ file];
  if bool_decide (returncode r ≠ 0) then Ok None
  else
    shown ← git ["show"; commit +:+ ":" +:+ file];
    if bool_decide (returncode shown ≠ 0) then Raise (message "git show failed: {shown.stderr.strip()}")
    else Ok (Some (git_stdout shown)).

Definition version_at (entry : json) (commit : string) : result (option bytes) :=
  manifest ← py_index entry "manifest";
  shown ← shown_at commit (py_str manifest);
  match shown with
  | None => Ok None
  | Some text => kind ← py_index entry "kind"; Some <$> read_version kind text
  end.

Definition config_at (commit : string) : result json :=
  shown ← shown_at commit (utf8 CONFIG);
  match shown with None => Ok (JObj []) | Some text => load_json text end.

(** A row of [changed]: package, version, tag, workflow. *)
Record row := { row_package : string; row_version : bytes; row_tag : bytes; row_workflow : json }.

Definition released_row (previous : json) (before after : string) (name : string) (entry : json) : result (option row) :=
  new ← version_at entry after;
  match new with
  | None => Ok None
  | Some new =>
      old_entry ← py_get previous name entry;
      old ← version_at old_entry before;
      if bool_decide (Some new = old) then Ok None
      else
        prefix ← py_index entry "tag_prefix" ≫= as_text;
        workflow ← py_index entry "workflow";
        Ok (Some {| row_package := name; row_version := new; row_tag := prefix ++ new; row_workflow := workflow |})
  end.
Fixpoint released_rows (previous : json) (before after : string) (config : object) : result (list row) :=
  match config with
  | [] => Ok []
  | (name, entry) :: config =>
      here ← released_row previous before after name entry;
      more ← released_rows previous before after config;
      Ok (match here with Some r => r :: more | None => more end)
  end.

Definition changed (config : object) (before after : string) : result (list row) :=
  _ ← require_commit before;
  _ ← require_commit after;
  previous ← config_at before;
  released_rows previous before after config.

Definition check (repo : path) (entry : json) (tag : bytes) (commit main : string) : io unit :=
  kind ← lift (py_index entry "kind");
  prefix ← lift (py_index entry "tag_prefix" ≫= as_text);
  is_release ← lift (match after_literal prefix tag with
                     | None => Ok false
                     | Some version => tail ← VERSION kind; Ok (bool_decide (is_Some (fullmatch tail version)))
                     end);
  if negb is_release then lift (Raise (message "{tag!r} is not a {prefix}<version> release tag"))
  else
    manifest ← lift (py_index entry "manifest" ≫= as_path);
    text ← read_text (joinpath repo manifest);
    version ← lift (read_version kind text);
    if bool_decide (tag ≠ prefix ++ version) then
      lift (Raise (message "release tag {tag!r} does not match {entry['manifest']} version {version!r}"))
    else
      r ← lift (git ["merge-base"; "--is-ancestor"; commit; main]);
      if returncode r =? 1 then lift (Raise (message "{commit} is not an ancestor of {main}"))
      else if bool_decide (returncode r ≠ 0) then lift (Raise (message "git merge-base failed: {result.stderr.strip()}"))
      else mret ().

(** ** The command line *)

(** What argparse hands over: [bump]'s second argument is one of the three choices. *)
Inductive command : Type :=
| Bump (package kind_bump : string)
| Changed (before after : string)
| Check_tag (package : string) (tag : bytes) (commit main : string).

(** [-> dict]: JSON that is not an object is refused here, where Python fails
    with the same [TypeError] or an unknown package at the first use. *)
Definition load_config (repo : path) : io object :=
  text ← read_text (joinpath repo CONFIG);
  v ← lift (load_json text);
  lift (match v with JObj d => Ok d | _ => Raise TypeError end).

Definition package (config : object) (name : string) : result json :=
  match jget config name with
  | Some v => Ok v
  | None => Raise (message "unknown package {name!r}; .github/releases.json lists {sorted(config)}")
  end.

(** [" ".join(row)] *)
Definition print_row (r : row) : result bytes :=
  workflow ← as_text (row_workflow r);
  Ok (of_string (row_package r) ++ x20 :: row_version r ++ x20 :: row_tag r ++ x20 :: workflow).

Definition run_command (repo : path) (c : command) : io (list bytes) :=
  config ← load_config repo;
  match c with
  | Bump name kind_bump => entry ← lift (package config name); new ← bump repo entry kind_bump name config; mret [new]
  | Changed before after => rows ← lift (changed config before after); lift (mapM print_row rows)
  | Check_tag name tag commit main => entry ← lift (package config name); _ ← check repo entry tag commit main; mret []
  end.

(** The exceptions [parser.error] reports, with status 2; the rest escape. *)
Definition is_reported (e : exn) : bool :=
  match e with ValueError _ | KeyError | OSError _ | UnicodeDecodeError | UnicodeEncodeError => true | _ => false end.
Definition main (repo : path) (c : command) : io (Z * list bytes) := λ s,
  match run_command repo c s with
  | (s, Ok lines) => (s, Ok (0, lines))
  | (s, Raise e) => (s, if is_reported e then Ok (2, []) else Raise e)
  end.
End release.
