(* ===== verification/LintTree.v ===== *)
(** * The tree two lints read

    [leak_lint.py] and [hostname_lint.py] share their ways to list and to read
    the committed files, and the form of their allowlists.  Text is decoded as
    UTF-8; the translation of line ends on reading changes nothing that
    [splitlines] tells apart. *)

From S2P Require Import Prelude PyRuntime Utf8 Cbor Json PyText.

(** What git and the files answer: the output of [git ls-files] or what running
    it raises, whether a path exists, and its octets. *)
Record tree := {
  git_ls_files : path → result bytes;
  path_exists : path → bool;
  read_bytes : path → result bytes }.

(** What a run prints and its exit status. *)
Record lint_run := { exit_status : Z; printed : list msg }.

(** [Path(sys.argv[1] if len(sys.argv) > 1 else ".")] *)
Definition lint_root (argv : list str) : path := Path (match argv with r :: _ => r | [] => u "." end).

(** Text decoded strictly, and with [errors="ignore"] *)
Definition strict_text (b : bytes) : result str := if utf8_valid b then Ok (utf8_codes b) else Raise UnicodeDecodeError.
Definition lenient_text (b : bytes) : str := decode ignore_run b.

Definition _tracked_files (t : tree) (root : path) : result (list path) :=
  out ← git_ls_files t root;
  text ← strict_text out;
  Ok (joinpath root <$> filter (λ p, p ≠ []) (splitlines text)).

(** The exact lines of the allowlist next to a lint, but for blank lines and
    comments. *)
Definition load_allowlist (t : tree) (comment : str → bool) (name : string) (root : path) : result (list str) :=
  let p := joinpath (joinpath root (u ".github")) (u name) in
  if negb (path_exists t p) then Ok []
  else
    b ← read_bytes t p;
    text ← strict_text b;
    Ok (filter (λ line, strip line ≠ [] ∧ comment (lstrip line) = false) (splitlines text)).

(** The text of a file, or [None] when it cannot be read. *)
Definition read_lenient (t : tree) (p : path) : result (option str) :=
  match read_bytes t p with
  | Ok b => Ok (Some (lenient_text b))
  | Raise (OSError _) => Ok None
  | Raise e => Raise e
  end.

(** [str(p.relative_to(root))] *)
Definition relative_name (p root : path) : result str :=
  match relative_to p root with
  | Some rel => Ok (path_str {| absolute := false; parts := rel |})
  | None => Raise (ValueError (Msg "{path} is not in the subpath of {root}" []))
  end.

(** Every line of every file that is scanned, numbered from 1: what [report]
    says of it is collected. *)
Section scan.
Context (t : tree) (root : path) (scanned : path → bool) (report : path → Z → str → result (list msg)).

Definition scan_text (p : path) (text : str) : result (list msg) :=
  hits ← mapM (λ l : nat * str, report p (Z.of_nat l.1 + 1) l.2) (imap pair (splitlines text));
  Ok (concat hits).

Definition scan_file (p : path) : result (list msg) :=
  if negb (scanned p) then Ok []
  else text ← read_lenient t p; match text with Some text => scan_text p text | None => Ok [] end.

Definition scan_files : result (list msg) :=
  files ← _tracked_files t root;
  hits ← mapM scan_file files;
  Ok (concat hits).

(** A line the scan looks at. *)
Definition scanned_line (p : path) (line : str) : Prop :=
  ∃ files text, _tracked_files t root = Ok files ∧ p ∈ files ∧ scanned p = true ∧
    read_lenient t p = Ok (Some text) ∧ line ∈ splitlines text.

Context (bad : path → str → Prop).
Hypothesis report_spec : ∀ p i line hits, report p i line = Ok hits → hits = [] ↔ ¬ bad p line.
#[local] Set Default Proof Using "All".

Lemma text_hits_nil p text hits :
  scan_text p text = Ok hits → hits = [] ↔ ∀ line, line ∈ splitlines text → ¬ bad p line.
Proof.
  unfold scan_text. intros (l & Hl%mapM_ok & [= <-])%bind_ok. rewrite concat_nil_Forall. split.
  - intros Hall line [k Hk]%list_elem_of_lookup.
    assert (imap pair (splitlines text) !! k = Some (k, line)) as Hi by by rewrite list_lookup_imap, Hk.
    destruct (Forall2_lookup_l _ _ _ _ _ Hl Hi) as (r & Hr & Hrep).
    apply (report_spec _ _ _ _ Hrep). exact (Forall_lookup_1 _ _ _ _ Hall Hr).
  - intros Hall. apply Forall_lookup. intros k r Hr. destruct (Forall2_lookup_r _ _ _ _ _ Hl Hr) as ([k' line] & Hi & Hrep).
    apply (report_spec _ _ _ _ Hrep), Hall. rewrite list_lookup_imap in Hi.
    destruct (splitlines text !! k) as [line'|] eqn:Hk; [|done]. cbn in Hi. injection Hi as <- <-. by eapply list_elem_of_lookup_2.
Qed.

Lemma scan_file_nil p hits :
  scan_file p = Ok hits →
  hits = [] ↔ ∀ text line, scanned p = true → read_lenient t p = Ok (Some text) → line ∈ splitlines text → ¬ bad p line.
Proof.
  unfold scan_file. destruct (scanned p) eqn:Hs; cbn [negb]; [|intros [= <-]; split; [by intros _ ? ? [=]|done]].
  intros (text & Ht & Hr)%bind_ok. rewrite Ht. destruct text as [text|].
  - rewrite (text_hits_nil _ _ _ Hr). split; [intros Hall ? line _ [= <-]; apply Hall|]. intros Hall line Hl. by apply (Hall text).
  - injection Hr as <-. split; [by intros _ ? ? _ [=]|done].
Qed.

(** Nothing is reported exactly when no scanned line is bad. *)
Lemma scan_files_nil hits : scan_files = Ok hits → hits = [] ↔ ∀ p line, scanned_line p line → ¬ bad p line.
Proof.
  unfold scan_files. intros (files & Hf & (l & Hl%mapM_ok & [= <-])%bind_ok)%bind_ok. rewrite concat_nil_Forall. split.
  - intros Hall p line (files' & text & Hf' & Hin & Hs & Hr & Hline). rewrite Hf in Hf'. injection Hf' as <-.
    apply list_elem_of_lookup in Hin as [k Hk]. destruct (Forall2_lookup_l _ _ _ _ _ Hl Hk) as (r & Hrk & Hrep).
    apply (proj1 (scan_file_nil _ _ Hrep) (Forall_lookup_1 _ _ _ _ Hall Hrk) text); done.
  - intros Hall. apply Forall_lookup. intros k r Hr. destruct (Forall2_lookup_r _ _ _ _ _ Hl Hr) as (p & Hk & Hrep).
    apply (scan_file_nil _ _ Hrep). intros text line Hs Ht Hline. apply (Hall p). exists files, text.
    split_and!; [done|by eapply list_elem_of_lookup_2|done..].
Qed.
End scan.
