(* ===== verification/Url.v ===== *)
(** * Splitting a URL: [urllib.parse.urlsplit]

    The parts of the result the scanners read: scheme, host, user and port.
    What is asked of the host in brackets and of one that is not ASCII depends
    on [ipaddress] and the Unicode database and is the class [NetlocChecks]. *)

From S2P Require Import Prelude PyRuntime Utf8 Cbor Json PyText Regex.

(** [s.partition(c)] and [s.rpartition(c)], or [None] without a [c] *)
Fixpoint partition (c : Z) (s : str) : option (str * str) :=
  match s with
  | [] => None
  | d :: r => if d =? c then Some ([], r) else match partition c r with Some (a, b) => Some (d :: a, b) | None => None end
  end.
Definition rpartition (c : Z) (s : str) : option (str * str) :=
  match partition c (reverse s) with Some (b, a) => Some (reverse a, reverse b) | None => None end.

Class NetlocChecks := {
  (** [_check_bracketed_netloc(netloc)] *)
  check_bracketed : str → result ();
  (** [_checknetloc(netloc)] of a location that is not ASCII *)
  check_normalized : str → result ()
}.

Record split_url := { scheme : str; netloc : str }.

Definition is_ascii (s : str) : bool := forallb (λ c, c <? 128) s.
Definition is_letter (c : Z) : bool := in_range 65 90 c || in_range 97 122 c.
Definition is_digit (c : Z) : bool := in_range 48 57 c.
(** a letter, a digit, or one of [+-.] *)
Definition scheme_char (c : Z) : bool := is_letter c || is_digit c || bool_decide (c ∈ [43; 45; 46]).

(** The text up to the first of [/?#] *)
Fixpoint location (s : str) : str :=
  match s with c :: r => if bool_decide (c ∈ [47; 63; 35]) then [] else c :: location r | [] => [] end.

(** Without the leading blanks and the tabs and line ends *)
Definition cleaned (s : str) : str := filter (λ c, c ∉ [9; 13; 10]) (drop_while (in_range 0 32) s).

Section url.
Context `{Unicode} `{NetlocChecks}.

Definition invalid_url : exn := ValueError (Msg "Invalid IPv6 URL" []).

Definition urlsplit (s : str) : result split_url :=
  let s := cleaned s in
  let '(scheme, rest) :=
    match partition 58 s with
    | Some (c :: lead, after) =>
        if is_letter c && forallb scheme_char (c :: lead) then (str_lower (c :: lead), after) else ([], s)
    | _ => ([], s)
    end in
  let netloc := if starts_with [47; 47] rest then location (drop 2 rest) else [] in
  let opened := bool_decide (91 ∈ netloc) in let closed := bool_decide (93 ∈ netloc) in
  if xorb opened closed then Raise invalid_url
  else
    _ ← (if opened then check_bracketed netloc else Ok ());
    _ ← (if is_ascii netloc then Ok () else check_normalized netloc);
    Ok {| scheme := scheme; netloc := netloc |}.

(** [_userinfo], [_hostinfo] *)
Definition username (v : split_url) : option str :=
  match rpartition 64 (netloc v) with
  | Some (userinfo, _) => Some (match partition 58 userinfo with Some (user, _) => user | None => userinfo end)
  | None => None
  end.
Definition hostinfo (v : split_url) : str * str :=
  let info := match rpartition 64 (netloc v) with Some (_, info) => info | None => netloc v end in
  let split_port s := match partition 58 s with Some (a, b) => (a, b) | None => (s, []) end in
  match partition 91 info with
  | Some (_, bracketed) =>
      match partition 93 bracketed with Some (host, rest) => (host, (split_port rest).2) | None => (bracketed, []) end
  | None => split_port info
  end.

Definition hostname (v : split_url) : option str :=
  match (hostinfo v).1 with
  | [] => None
  | host => Some (match partition 37 host with Some (a, zone) => str_lower a ++ 37 :: zone | None => str_lower host end)
  end.

Definition port_error : exn := ValueError (Msg "Port could not be cast to integer value" []).
Definition port (v : split_url) : result (option Z) :=
  match (hostinfo v).2 with
  | [] => Ok None
  | digits =>
      if forallb is_digit digits then
        let n := foldl (λ n c, 10 * n + (c - 48)) 0 digits in
        if n <=? 65535 then Ok (Some n) else Raise (ValueError (Msg "Port out of range 0-65535" []))
      else Raise port_error
  end.

(** ** What a split says *)

Lemma partition_Some c s a b : partition c s = Some (a, b) → s = a ++ c :: b.
Proof.
  revert a. induction s as [|d s IH]; intros a; [done|]. cbn. case_if; [intros [= <- <-]; apply Z.eqb_eq in Heqb0 as ->; done|].
  destruct (partition c s) as [[a' b']|]; [|done]. intros [= <- <-]. cbn. f_equal. by apply IH.
Qed.

Lemma partition_first c s a b : partition c s = Some (a, b) → c ∉ a.
Proof.
  revert a b. induction s as [|d s IH]; intros a b; cbn; [done|]. destruct (Z.eqb_spec d c) as [->|Hne]; [intros [= <- _]; apply not_elem_of_nil|].
  destruct (partition c s) as [[a' b']|]; [|done]. intros [= <- _] [->|Hin]%elem_of_cons; [done|]. by apply (IH a' b').
Qed.

Lemma partition_None c s : partition c s = None → c ∉ s.
Proof.
  induction s as [|d s IH]; [intros _ ?%elem_of_nil; done|]. cbn. case_if; [done|]. apply Z.eqb_neq in Heqb.
  destruct (partition c s) as [[a' b']|]; [done|]. intros _ [->|Hin]%elem_of_cons; [done|by apply IH].
Qed.

Lemma rpartition_Some c s a b : rpartition c s = Some (a, b) → s = a ++ c :: b.
Proof.
  unfold rpartition. destruct (partition c (reverse s)) as [[b' a']|] eqn:Hp; [|done]. intros [= <- <-].
  apply partition_Some in Hp. rewrite <- (reverse_involutive s), Hp, reverse_app, reverse_cons, <- app_assoc. done.
Qed.

Lemma rpartition_None c s : rpartition c s = None → c ∉ s.
Proof.
  unfold rpartition. destruct (partition c (reverse s)) as [[? ?]|] eqn:Hp; [done|]. intros _.
  apply partition_None in Hp. by rewrite elem_of_reverse in Hp.
Qed.

(** The location ends at a separator. *)
Definition ends_location (tail : str) : Prop := match tail with [] => True | c :: _ => c ∈ [47; 63; 35] end.
Lemma location_spec s : ∃ tail, s = location s ++ tail ∧ ends_location tail.
Proof.
  induction s as [|c s IH]; cbn; [by exists []|]. case_bool_decide; [by exists (c :: s)|].
  destruct IH as (tail & Hs & Ht). exists tail. split; [|done]. cbn. by rewrite <- Hs.
Qed.

(** A URL with a scheme and a location, taken apart. *)
Lemma urlsplit_ok s v :
  urlsplit s = Ok v → scheme v ≠ [] → netloc v ≠ [] →
  ∃ lead tail, cleaned s = lead ++ u "://" ++ netloc v ++ tail ∧ str_lower lead = scheme v ∧ ends_location tail ∧
    (91 ∈ netloc v → check_bracketed (netloc v) = Ok ()).
Proof.
  unfold urlsplit. cbv zeta.
  assert (∀ rest (netloc : str) (m : split_url), scheme m = [] →
    (if rest : bool then Raise invalid_url else
       _ ← (if bool_decide (91 ∈ netloc) then check_bracketed netloc else Ok ());
       _ ← (if is_ascii netloc then Ok () else check_normalized netloc); Ok m) = Ok v → scheme v = []) as Hnone.
  { intros [] n m Hm; [done|]. by intros (? & _ & (? & _ & [= <-])%bind_ok)%bind_ok. }
  destruct (partition 58 (cleaned s)) as [[[|c lead] after]|] eqn:Hp; [by intros Hs%Hnone| |by intros Hs%Hnone].
  destruct (is_letter c && forallb scheme_char (c :: lead)); [|by intros Hs%Hnone].
  destruct (xorb _ _); [done|]. intros ([] & Hb & ([] & _ & [= <-])%bind_ok)%bind_ok _. cbn [scheme netloc] in *.
  apply partition_Some in Hp. destruct (starts_with [47; 47] after) eqn:Hstart; [|done]. intros _.
  apply starts_with_spec in Hstart as (rest & ->). cbn [app drop] in *. destruct (location_spec rest) as (tail & Hrest & Ht).
  exists (c :: lead), tail. split_and!; [|done..|].
  - rewrite Hp, Hrest at 1. done.
  - intros Hin. by rewrite bool_decide_eq_true_2 in Hb.
Qed.
End url.
