(* ===== verification/LeakLint.v ===== *)
(** * The leak lint: [.github/leak_lint.py]

    Four classes of internal text, matched line by line over the committed
    tree; in a lockfile, what a dependency's URL or hash field holds is left
    out of the match when it looks like a public registry's. *)

From S2P Require Import Prelude PyRuntime Utf8 Cbor Json Base64 PyText Regex Url LintTree.

Definition SELF_NAMES : list str := u <$> ["leak_lint.py"; "leak_lint_allowlist.txt"; "leak-lint.yml"; "test_leak_lint.py"].
Definition SCAN_SUFFIXES : list str :=
  u <$> [".py"; ".go"; ".rs"; ".ts"; ".js"; ".mjs"; ".md"; ".rst"; ".txt"; ".xml";
         ".toml"; ".cfg"; ".yml"; ".yaml"; ".json"; ".html"; ".sh"].
Definition SCAN_NAMES : list str := [u "yarn.lock"].

(** ** The rules *)

(** [[a-z0-9]{2,}] *)
Definition id_char (c : Z) : bool := in_range 97 122 c || in_range 48 57 c.
Definition segment : regex := at_least 2 (Chr id_char).
Definition BRACKET_ID : regex :=
  Seq (Chr (Z.eqb 91)) (Seq segment (Seq (at_least 2 (Seq (Chr (Z.eqb 45)) segment)) (Chr (Z.eqb 93)))).

Definition OPS_VOCAB : list str :=
  u <$> ["QUEUE_PROTOCOL"; "claim.sh"; "close.sh"; "decide.sh"; "outbox"; "inbox"; "lane:"; "worktree";
         "held for EM push"; "coder-"; "Needs decision"; "Do line"; "R4:"].
Definition INTERNAL_PATHS : list str := u <$> ["/dev/asg"; "_work/"; "_ops/"; "action-state-ops"].
Definition NAMED_DECIDER : list str := u <$> ["Steven rules"; "Steven ratifies"; "Steven decides"].

(** ** Lockfile fields *)

Definition PUBLIC_REGISTRY_HOSTS : list str := u <$> ["registry.npmjs.org"; "registry.yarnpkg.com"; "crates.io"; "static.crates.io"].

(** The expression with a group for the algorithm, the data and the padding of
    the digest. *)
Definition b64_char : regex := Chr (λ c, in_range 65 90 c || in_range 97 122 c || in_range 48 57 c || bool_decide (c ∈ [43; 47])).
Definition SRI : list regex :=
  [choice (u <$> ["sha1"; "sha256"; "sha384"; "sha512"]); Chr (Z.eqb 45); at_least 1 b64_char;
   opt (Seq (Chr (Z.eqb 61)) (opt (Chr (Z.eqb 61))))].
Definition SRI_DIGEST_BYTES (algorithm : str) : Z :=
  if bool_decide (algorithm = u "sha1") then 20 else if bool_decide (algorithm = u "sha256") then 32
  else if bool_decide (algorithm = u "sha384") then 48 else 64.

(** [base64.b64decode(s, validate=True)] of characters of the alphabet and the
    padding behind them: beside what the decoder refuses anyway, nothing may
    follow the character that completes the padding. *)
Definition b64decode_strict (data padding : str) : result bytes :=
  if (zlen data mod 4 =? 3) && (1 <? zlen padding) then Raise (ThirdParty "Error" (Msg "Excess data after padding" []))
  else b64decode (data ++ padding).

Definition sri_digest (part : str) : bool :=
  match filter (λ g, last g = Some (length part)) (groups_at SRI part 0) with
  | [algorithm; dash; data; padding] :: _ =>
      match b64decode_strict (slice part dash data) (slice part data padding) with
      | Ok digest => zlen digest =? SRI_DIGEST_BYTES (slice part 0 algorithm)
      | Raise _ => false
      end
  | _ => false
  end.

Definition lower_hex : regex := Chr (λ c, in_range 48 57 c || in_range 97 102 c).
Definition digit : regex := Chr (in_range 48 57).
Definition YARN_CHECKSUM : regex :=
  Seq (opt (Seq (at_least 1 digit) (Seq (Chr (in_range 97 122)) (Seq (Star digit) (Chr (Z.eqb 47))))))
      (at_least 32 lower_hex).

Section lint.
Context `{Unicode} `{NetlocChecks}.

Definition package_char : regex := Chr (λ c, is_word c || bool_decide (c ∈ [46; 45])).
Definition package_name : regex := Seq (Chr id_char) (Star package_char).
Definition NPM_RESOLUTION : regex :=
  Seq (opt (Seq (Chr (Z.eqb 64)) (Seq package_name (Chr (Z.eqb 47)))))
    (Seq package_name (Seq (literal (u "@npm:"))
      (at_least 1 (Chr (λ c, in_range 48 57 c || is_letter c || bool_decide (c ∈ [46; 43; 45])))))).

(** A field pattern: what comes before the field's name, the name, what comes
    between it and the value, the value, and what has to follow.  The [lead] is
    the first three. *)
Definition blanks : regex := Star blank.
Definition some_blanks : regex := at_least 1 blank.
Definition quote : regex := Chr (Z.eqb 34).
Definition one_name (l : list string) : regex := choice (u <$> l).
Definition npm_field : list regex :=
  [Seq at_start (Seq blanks quote); one_name ["resolved"; "integrity"];
   Seq quote (Seq blanks (Seq (Chr (Z.eqb 58)) blanks));
   Seq quote (Seq (Star (Alt (none_of [34; 92]) (Seq (Chr (Z.eqb 92)) dot))) quote); nothing].
Definition yarn_value : regex := Seq non_blank (Star dot).
Definition yarn1_field : list regex :=
  [Seq at_start some_blanks; one_name ["resolved"; "integrity"]; some_blanks; yarn_value; at_end].
Definition yarn2_field : list regex :=
  [Seq at_start some_blanks; one_name ["resolution"; "checksum"]; Seq (Chr (Z.eqb 58)) blanks; yarn_value; at_end].
Definition pnpm_field : list regex :=
  [Alt (Seq at_start blanks) (Seq (one_of [123; 44]) blanks); one_name ["integrity"; "tarball"];
   Seq (Chr (Z.eqb 58)) blanks;
   Seq (Chr (λ c, negb (is_blank c) && negb (bool_decide (c ∈ [44; 123; 125])))) (Lazy (none_of [44; 123; 125]));
   ahead (Seq blanks (Alt (one_of [44; 125]) at_end))].

(** [LOCKFILE_EXEMPT_VALUES.get(name, ())] *)
Definition LOCKFILE_EXEMPT_VALUES (name : str) : list (list regex) :=
  if bool_decide (name = u "package-lock.json") then [npm_field]
  else if bool_decide (name = u "yarn.lock") then [yarn1_field; yarn2_field]
  else if bool_decide (name = u "pnpm-lock.yaml") then [pnpm_field]
  else [].

Definition public_registry_url (value : str) : result bool :=
  url ← urlsplit (match partition 35 value with Some (before, _) => before | None => value end);
  if bool_decide (scheme url = u "https") && existsb (λ h, bool_decide (hostname url = Some h)) PUBLIC_REGISTRY_HOSTS
     && bool_decide (username url = None)
  then p ← port url; Ok (bool_decide (p = None)) else Ok false.

(** [value.split()] *)
Definition words (value : str) : list str := filter (λ w, w ≠ []) (split_by is_blank [] value).

Definition exempt_remainder (field value : str) : result (option str) :=
  let value := strip_of (λ c, bool_decide (c ∈ [34; 39])) (strip value) in
  let fragment := match partition 35 value with Some (_, after) => 35 :: after | None => [] end in
  if bool_decide (field ∈ [u "resolved"; u "tarball"]) then
    public ← public_registry_url value; Ok (if public : bool then Some fragment else None)
  else if bool_decide (field = u "integrity") then
    Ok (if negb (bool_decide (words value = [])) && forallb sri_digest (words value) then Some [] else None)
  else if bool_decide (field = u "checksum") then Ok (if fullmatch YARN_CHECKSUM value then Some [] else None)
  else if bool_decide (field = u "resolution") then
    if fullmatch NPM_RESOLUTION value then Ok (Some [])
    else
      match rpartition 64 value with
      | Some (_, url) => public ← public_registry_url url; Ok (if public : bool then Some fragment else None)
      | None => Ok None
      end
  else Ok None.

(** What replaces a match from [i] on whose groups end at [g]. *)
Definition drop_value (line : str) (i : nat) (g : list nat) : result str :=
  match g with
  | [before; name; lead; value; follow] =>
      rest ← exempt_remainder (slice line before name) (slice line lead value);
      Ok (match rest with None => slice line i follow | Some rest => slice line i lead ++ rest end)
  | _ => Ok []
  end.

Definition term_text (name line : str) : result str :=
  foldl (λ line pattern, line ← line; sub pattern (drop_value line) line) (Ok line) (LOCKFILE_EXEMPT_VALUES name).

(** ** A line *)

(** [before] and [after] are the characters around the match, if any. *)
Definition excused (line : str) (m : nat * nat) : bool :=
  let content := drop 1 (slice line m.1 m.2) in
  let before := match m.1 with O => None | S i => line !! i end in
  let after := line !! m.2 in
  starts_with (u "data-") content || starts_with (u "aria-") content
  || match before with Some c => (is_word c && negb (c =? 95)) || bool_decide (c ∈ [95; 45]) | None => false end
  || match after with Some c => bool_decide (c ∈ [40; 91]) | None => false end
  || bool_decide (after = Some 58) && bool_decide (strip (take m.1 line) = []).

Definition _has_bracket_id_leak (line : str) : bool := existsb (λ m, negb (excused line m)) (finditer BRACKET_ID line).

Definition any_term (terms : list str) (matched : str) : bool := existsb (λ term, contains_str term matched) terms.

Definition _classify (line file_name : str) : result (list string) :=
  let hits := if _has_bracket_id_leak line then ["bracketed-id"%string] else [] in
  matched ← term_text file_name line;
  Ok (hits ++ (if any_term OPS_VOCAB matched then ["ops-vocab"%string] else [])
           ++ (if any_term INTERNAL_PATHS matched then ["internal-path"%string] else [])
           ++ (if any_term NAMED_DECIDER matched then ["named-decider"%string] else [])).

(** ** The scan *)

Definition _COMMENT_LINE : regex := Seq at_start (Seq (Chr (Z.eqb 35)) (Alt blank at_end)).
Definition _load_allowlist (t : tree) (root : path) : result (list str) :=
  load_allowlist t (λ line, match match_at _COMMENT_LINE line 0 false with Some _ => true | None => false end)
    "leak_lint_allowlist.txt" root.

Definition scanned (p : path) : bool :=
  negb (bool_decide (path_name p ∈ SELF_NAMES)) &&
  (bool_decide (path_suffix p ∈ SCAN_SUFFIXES) || bool_decide (path_name p ∈ SCAN_NAMES)).

Definition report (root : path) (allow : list str) (p : path) (i : Z) (line : str) : result (list msg) :=
  let stripped := strip line in
  if bool_decide (stripped ∈ allow) then Ok []
  else
    classes ← _classify line (path_name p);
    match classes with
    | [] => Ok []
    | _ =>
        name ← relative_name p root;
        Ok [Msg "{name}:{i}:{classes}: {stripped}"
              [AStr (utf8 name); AInt i; AStr (String.concat "," classes); AStr (utf8 stripped)]]
    end.

Definition scan (t : tree) (root : path) : result (list msg) :=
  allow ← _load_allowlist t root;
  scan_files t root scanned (report root allow).

Definition main (t : tree) (argv : list str) : result lint_run :=
  let root := lint_root argv in
  hits ← scan t root;
  Ok (match hits with
      | [] => {| exit_status := 0; printed := [Msg "leak-lint: clean." []] |}
      | _ => {| exit_status := 1;
                printed := Msg "leak-lint: {len(hits)} internal-leak hit(s) found in the committed tree." [AInt (zlen hits)]
                  :: Msg "If a hit is a genuine historical record (not live drift), add its exact stripped line text to .github/leak_lint_allowlist.txt. Otherwise, fix it -- an allowlist seeded with a real leak teaches the next person the lint is advisory." []
                  :: ((λ h, Msg "  {h}" [AMsg h]) <$> hits) |}
      end).
End lint.
