(* ===== verification/HostnameLint.v ===== *)
(** * The hostname lint: [.github/hostname_lint.py]

    No line of the committed tree names the hosts the services moved away
    from, but for the lines of its allowlist. *)

From S2P Require Import Prelude PyRuntime Utf8 Cbor Json PyText Regex LintTree.

Module HostnameLint.
Definition SCAN_SUFFIXES : list str :=
  u <$> [".html"; ".py"; ".go"; ".md"; ".rst"; ".txt"; ".xml"; ".toml"; ".cfg"; ".yml"; ".yaml"; ".json"].
(** The check's own files *)
Definition OWN_FILES : list str := u <$> ["hostname_lint.py"; "hostname_lint_allowlist.txt"; "hostname-lint.yml"].

Section lint.
Context `{Unicode}.

(** Under [re.IGNORECASE] a letter of the pattern matches a character of the
    same case folding, and a range what one of its members matches. *)
Definition letters (s : string) : regex := foldr (λ c, Seq (Chr (same_letter c))) nothing (u s).
Definition a_to_z : regex := Chr (λ c, existsb (λ d, same_letter d c) (seqZ 97 26)).
Definition DISALLOWED : regex :=
  Seq (Look boundary) (Seq (Alt (letters "verify") (letters "witness"))
    (Seq (letters ".actionstate.") (at_least 1 a_to_z))).

Definition _load_allowlist (t : tree) (root : path) : result (list str) :=
  load_allowlist t (starts_with (u "#")) "hostname_lint_allowlist.txt" root.

Definition scanned (p : path) : bool := bool_decide (path_suffix p ∈ SCAN_SUFFIXES) && negb (bool_decide (path_name p ∈ OWN_FILES)).

Definition report (root : path) (allow : list str) (p : path) (i : Z) (line : str) : result (list msg) :=
  if search DISALLOWED line && negb (bool_decide (strip line ∈ allow)) then
    name ← relative_name p root;
    Ok [Msg "{name}:{i}: {line.strip()}" [AStr (utf8 name); AInt i; AStr (utf8 (strip line))]]
  else Ok [].

Definition main (t : tree) (argv : list str) : result lint_run :=
  let root := lint_root argv in
  allow ← _load_allowlist t root;
  hits ← scan_files t root scanned (report root allow);
  Ok (match hits with
      | [] => {| exit_status := 0; printed := [Msg "hostname-lint: clean." []] |}
      | _ => {| exit_status := 1;
                printed := [Msg "hostname-lint: stale verify.actionstate.*/witness.actionstate.* reference(s) found." [];
                            Msg "Canonical: verify.agentactioncapsule.org / witness.agentactioncapsule.org." [];
                            Msg "(countersign.actionstate.* is correct and exempt -- it is the operated layer.)" [];
                            Msg "If a hit is a genuine historical record (not live drift), add its exact stripped line text to .github/hostname_lint_allowlist.txt." []]
                  ++ ((λ h, Msg "  {h}" [AMsg h]) <$> hits) |}
      end).
End lint.
End HostnameLint.
