(* ===== verification/LintProof.v ===== *)
(** * What the leak and hostname lints promise

    Status 0 means that no line of the scanned files leaks but for allowlisted
    ones, and every scanned line is looked at; what a lockfile's line is
    relieved of before matching is a public registry's URL or a hash. *)

From S2P Require Import Prelude PyRuntime Utf8 Cbor Json Base64 PyText Regex Url LintTree LeakLint HostnameLint.

Lemma ok_inj {A} (a b : A) : @Ok exn A a = Ok b → a = b.
Proof. congruence. Qed.

(** ** Bracketed ids *)

Definition id_text (c : Z) : bool := id_char c || (c =? 45).

(** A match is one pair of brackets with letters, digits and hyphens inside. *)
Lemma bracket_id_shape line i e :
  matches line BRACKET_ID i e →
  (S i < e)%nat ∧ line !! i = Some 91 ∧ line !! (e - 1)%nat = Some 93 ∧
  ∀ k, (i < k < e - 1)%nat → ∃ c, line !! k = Some c ∧ id_text c = true.
Proof.
  intros (i1 & (-> & c1 & Hc1 & ->%Z.eqb_eq)%matches_chr_inv & Hr)%matches_seq_inv.
  apply matches_seq_inv in Hr as (i2 & H2 & (i3 & H3 & (-> & c4 & Hc4 & ->%Z.eqb_eq)%matches_chr_inv)%matches_seq_inv).
  assert (within id_text segment) as Hw by (apply within_at_least; cbn; unfold id_text; intros c ->; done).
  pose proof (matches_le _ _ _ _ H2). pose proof (matches_le _ _ _ _ H3).
  replace (S i3 - 1)%nat with i3 by lia. split_and!; [lia|done..|]. intros k Hk.
  destruct (decide (k < i2)%nat).
  - apply (matches_within _ id_text _ _ _ H2 Hw). lia.
  - apply (matches_within _ id_text _ _ _ H3); [|lia]. apply within_at_least. split; [|done].
    intros c <-%Z.eqb_eq. done.
Qed.

(** Two matches are the same or apart. *)
Lemma bracket_ids_apart line i e j f :
  matches line BRACKET_ID i e → matches line BRACKET_ID j f → (i ≤ j < e)%nat → j = i ∧ f = e.
Proof.
  intros (Hi & Hopen & Hclose & Hin)%bracket_id_shape (Hj & Hopen' & Hclose' & Hin')%bracket_id_shape Hk.
  assert (j = i) as ->.
  { destruct (decide (j = i)) as [|Hne]; [done|]. destruct (decide (j = (e - 1)%nat)) as [->|]; [congruence|].
    destruct (Hin j) as (c & Hc & Ht); [lia|]. rewrite Hopen' in Hc. by injection Hc as <-. }
  split; [done|]. destruct (Nat.lt_trichotomy e f) as [Hlt|[->|Hlt]]; [|done|].
  - destruct (Hin' (e - 1)%nat) as (c & Hc & Ht); [lia|]. rewrite Hclose in Hc. by injection Hc as <-.
  - destruct (Hin (f - 1)%nat) as (c & Hc & Ht); [lia|]. rewrite Hclose' in Hc. by injection Hc as <-.
Qed.

Section leak.
Context `{Unicode} `{NetlocChecks}.

Lemma has_bracket_id_leak_spec line :
  _has_bracket_id_leak line = true ↔ ∃ i e, matches line BRACKET_ID i e ∧ excused line (i, e) = false.
Proof.
  unfold _has_bracket_id_leak. rewrite existsb_exists. split.
  - intros ([i e] & Hm%list_elem_of_In%finditer_sound & Hx%negb_true_iff). by exists i, e.
  - intros (i & e & Hm & Hx). pose proof (bracket_id_shape _ _ _ Hm) as (Hlt & Hi & _).
    apply lookup_lt_Some in Hi. destruct (finditer_covers line BRACKET_ID i e) as ([i' e'] & Hin & Hc); [lia|done|lia|].
    pose proof (finditer_sound _ _ _ Hin) as Hm'. cbn in Hc, Hm'.
    destruct (bracket_ids_apart _ _ _ _ _ Hm' Hm) as [-> ->]; [done|].
    exists (i', e'). split; [by apply list_elem_of_In|]. by apply negb_true_iff.
Qed.

(** ** A line *)

Definition TERMS : list str := OPS_VOCAB ++ INTERNAL_PATHS ++ NAMED_DECIDER.

Lemma any_term_spec terms s : any_term terms s = true ↔ ∃ term a b, term ∈ terms ∧ s = a ++ term ++ b.
Proof.
  unfold any_term. rewrite existsb_exists. split.
  - intros (term & Hin%list_elem_of_In & (a & b & Hs)%contains_str_spec). by exists term, a, b.
  - intros (term & a & b & Hin & Hs). exists term. split; [by apply list_elem_of_In|]. apply contains_str_spec. eauto.
Qed.

Lemma any_term_app terms more s : any_term (terms ++ more) s = any_term terms s || any_term more s.
Proof. apply existsb_app. Qed.

(** A line leaks: an id in brackets that nothing excuses, or a term in what the
    terms are looked for in. *)
Definition leaks (name line : str) : Prop :=
  (∃ i e, matches line BRACKET_ID i e ∧ excused line (i, e) = false) ∨
  (∃ matched term a b, term_text name line = Ok matched ∧ term ∈ TERMS ∧ matched = a ++ term ++ b).

Lemma classify_nil line name classes : _classify line name = Ok classes → classes = [] ↔ ¬ leaks name line.
Proof.
  unfold _classify, leaks. rewrite <- has_bracket_id_leak_spec. intros (matched & Hm & <-%ok_inj)%bind_ok.
  assert ((∃ matched' term a b, term_text name line = Ok matched' ∧ term ∈ TERMS ∧ matched' = a ++ term ++ b) ↔
    any_term TERMS matched = true) as ->.
  { rewrite any_term_spec. split; [|intros (term & a & b & ? & ?); by exists matched, term, a, b].
    intros (matched' & term & a & b & Hm' & ? & ?). rewrite Hm in Hm'. injection Hm' as <-. by exists term, a, b. }
  unfold TERMS. rewrite !any_term_app.
  destruct (_has_bracket_id_leak line), (any_term OPS_VOCAB matched), (any_term INTERNAL_PATHS matched), (any_term NAMED_DECIDER matched);
    cbn [app orb]; (split; [try discriminate; intros _ [?|?]; discriminate|intros Hn; try done; exfalso; apply Hn; auto 6]).
Qed.

Lemma report_nil root allow p i line hits :
  LeakLint.report root allow p i line = Ok hits → hits = [] ↔ ¬ (strip line ∉ allow ∧ leaks (path_name p) line).
Proof.
  unfold report. case_bool_decide; [intros [= <-]; naive_solver|]. intros (classes & Hc%classify_nil & Hr)%bind_ok.
  destruct classes as [|c classes]; [injection Hr as <-; naive_solver|].
  apply bind_ok in Hr as (name & _ & [= <-]). naive_solver.
Qed.

(** ** What a lockfile's line is relieved of *)

(** What follows a host names no port: there is no colon, or nothing after
    the first one. *)
Definition no_port (after : str) : Prop := 58 ∉ after ∨ ∃ before, after = before ++ [58] ∧ 58 ∉ before.

(** Where a location names its host: all of it up to a colon, or, when there is
    a bracket, what stands between it and the bracket that closes it; a
    bracketed location also passes the interpreter's own check. *)
Inductive located (host after : str) : str → Prop :=
| located_plain : 91 ∉ host ++ after → 58 ∉ host → (after = [] ∨ ∃ rest, after = 58 :: rest) → located host after (host ++ after)
| located_bracket before : 91 ∉ before → 93 ∉ host → check_bracketed (before ++ 91 :: host ++ 93 :: after) = Ok () →
    located host after (before ++ 91 :: host ++ 93 :: after)
| located_open before : 91 ∉ before → 93 ∉ host → after = [] → check_bracketed (before ++ 91 :: host) = Ok () →
    located host after (before ++ 91 :: host).

(** A URL on a public registry: https, one of the hosts, no user and no port. *)
Definition registry_url (s : str) : Prop :=
  ∃ lead location tail, cleaned s = lead ++ u "://" ++ location ++ tail ∧ str_lower lead = u "https" ∧
    64 ∉ location ∧ ends_location tail ∧
    ∃ host after, located host after location ∧ str_lower host ∈ PUBLIC_REGISTRY_HOSTS ∧ no_port after.

Definition before_fragment (s : str) : str := match partition 35 s with Some (before, _) => before | None => s end.

Lemma no_zone h : h ∈ PUBLIC_REGISTRY_HOSTS → 37 ∉ h ∧ h ≠ [].
Proof.
  assert (Forall (λ h, 37 ∉ h ∧ h ≠ []) PUBLIC_REGISTRY_HOSTS) as Hall; [|exact (proj1 (Forall_forall _ _) Hall h)].
  by apply (bool_decide_eq_true_1 (Forall _ _)).
Qed.

Lemma hostname_host (v : split_url) h :
  hostname v = Some h → h ∈ PUBLIC_REGISTRY_HOSTS → str_lower (hostinfo v).1 = h.
Proof.
  unfold hostname. destruct (hostinfo v).1 as [|c host]; [done|]. destruct (partition 37 (c :: host)) as [[a zone]|].
  - intros [= <-] [Hz _]%no_zone. destruct Hz. rewrite elem_of_app, elem_of_cons. auto.
  - by intros [= <-].
Qed.

(** Host and port of a location without a user. *)
Lemma hostinfo_located (v : split_url) :
  64 ∉ netloc v → (91 ∈ netloc v → check_bracketed (netloc v) = Ok ()) → (hostinfo v).2 = [] →
  ∃ after, located (hostinfo v).1 after (netloc v) ∧ no_port after.
Proof.
  intros Hat Hcheck. unfold hostinfo.
  replace (match rpartition 64 (netloc v) with Some (_, info) => info | None => netloc v end) with (netloc v)
    by (destruct (rpartition 64 (netloc v)) as [[? ?]|] eqn:Hr; [|done]; destruct Hat; apply rpartition_Some in Hr as ->; set_solver).
  destruct (partition 91 (netloc v)) as [[before bracketed]|] eqn:H91.
  - pose proof (partition_first _ _ _ _ H91) as Hb. apply partition_Some in H91.
    assert (check_bracketed (netloc v) = Ok ()) as Hok by (apply Hcheck; rewrite H91; set_solver).
    rewrite H91 in Hok |- *. destruct (partition 93 bracketed) as [[host after]|] eqn:H93; cbn [fst snd].
    + pose proof (partition_first _ _ _ _ H93) as Hh. apply partition_Some in H93 as ->. intros Hport. exists after. split; [by apply located_bracket|].
      destruct (partition 58 after) as [[a b]|] eqn:H58; cbn in Hport; [|left; by apply partition_None].
      subst b. right. exists a. split; [by apply partition_Some|by eapply partition_first].
    + intros _. exists []. split; [apply located_open; [done|by apply partition_None|done|done]|]. left. apply not_elem_of_nil.
  - apply partition_None in H91. destruct (partition 58 (netloc v)) as [[a b]|] eqn:H58; cbn [fst snd].
    + pose proof (partition_first _ _ _ _ H58) as Ha. apply partition_Some in H58. intros ->. exists [58]. rewrite H58 in H91 |- *.
      split; [apply located_plain; [done|done|right; by exists []]|]. right. exists []. split; [done|apply not_elem_of_nil].
    + apply partition_None in H58. intros _. exists []. rewrite <- (app_nil_r (netloc v)) at 2.
      split; [apply located_plain; [by rewrite app_nil_r|done|by left]|]. left. apply not_elem_of_nil.
Qed.

Lemma public_registry_url_ok value : public_registry_url value = Ok true → registry_url (before_fragment value).
Proof.
  unfold public_registry_url. fold (before_fragment value). intros (v & Hv & Hr)%bind_ok.
  case_if_in Hr; [|done]. apply andb_true_iff in Heqb as [[Hs%bool_decide_eq_true Hh]%andb_true_iff Hu%bool_decide_eq_true].
  apply existsb_exists in Hh as (h & Hin%list_elem_of_In & Hh%bool_decide_eq_true).
  apply bind_ok in Hr as (p & Hp & Hr%ok_inj). apply bool_decide_eq_true in Hr as ->.
  pose proof (hostname_host _ _ Hh Hin) as Hlower.
  assert (64 ∉ netloc v) as Hat.
  { unfold username in Hu. destruct (rpartition 64 (netloc v)) as [[? ?]|] eqn:Hr; [done|]. by apply rpartition_None. }
  assert (netloc v ≠ []) as Hne.
  { intros E. unfold hostname, hostinfo in Hh. by rewrite E in Hh. }
  destruct (urlsplit_ok _ _ Hv) as (lead & tail & Hc & Hl & Ht & Hb); [by rewrite Hs|done|].
  exists lead, (netloc v), tail. split_and!; [done|congruence|done..|].
  unfold port in Hp. destruct (hostinfo v).2 as [|c digits] eqn:Hport; [|destruct (forallb _ _); [case_if_in Hp|]; discriminate].
  destruct (hostinfo_located v Hat Hb Hport) as (after & Hloc & Hno). exists (hostinfo v).1, after. by rewrite Hlower.
Qed.

(** A hash of one of the four algorithms, as long as it has to be. *)
Definition integrity_hash (part : str) : Prop :=
  ∃ algorithm data padding digest, part = algorithm ++ 45 :: data ++ padding ∧
    b64decode (data ++ padding) = Ok digest ∧ zlen digest = SRI_DIGEST_BYTES algorithm ∧
    algorithm ∈ (u <$> ["sha1"; "sha256"; "sha384"; "sha512"]).

Lemma slice_all (s : str) : slice s 0 (length s) = s.
Proof. by rewrite slice_rest. Qed.

Lemma matches_literal line s i e : matches line (literal s) i e → slice line i e = s ∧ e = (i + length s)%nat.
Proof.
  revert i. induction s as [|c s IH]; intros i; cbn.
  - intros Hm. inversion Hm; subst. unfold slice. rewrite Nat.sub_diag. split; [done|lia].
  - intros (j & (-> & d & Hd & ->%Z.eqb_eq)%matches_chr_inv & Hm)%matches_seq_inv. apply matches_le in Hm as Hle.
    apply IH in Hm as [Hs ->]. split; [|lia]. rewrite (slice_app _ i (S i)) by lia. rewrite Hs.
    by rewrite (slice_one _ _ _ Hd).
Qed.

Lemma matches_choice line l i e : matches line (choice l) i e → slice line i e ∈ l.
Proof.
  induction l as [|s l IH]; cbn; intros Hm; [by apply matches_chr_inv in Hm as (_ & c & _ & ?)|].
  inversion Hm as [| | |? ? ? ? Hs|? ? ? ? Hs| | |]; subst; [apply matches_literal in Hs as [-> _]; left|right; auto].
Qed.

Lemma sri_digest_ok part : sri_digest part = true → integrity_hash part.
Proof.
  unfold sri_digest. destruct (filter _ _) as [|g l] eqn:Hf; [done|].
  assert (g ∈ filter (λ g, last g = Some (length part)) (groups_at SRI part 0)) as [Hlast Hg]%list_elem_of_filter by (rewrite Hf; left).
  apply groups_at_spec in Hg; [|lia]. unfold SRI in Hg.
  apply groups_cons_inv in Hg as (alg_end & g1 & -> & Halg & Hg). apply matches_choice in Halg as Hname.
  apply groups_cons_inv in Hg as (dash & g2 & -> & (-> & c & Hc & <-%Z.eqb_eq)%matches_chr_inv & Hg).
  apply groups_cons_inv in Hg as (data_end & g3 & -> & Hdata & Hg).
  apply groups_cons_inv in Hg as (pad_end & g4 & -> & Hpad & ->%groups_nil_inv). cbn in Hlast. injection Hlast as ->.
  repeat match goal with H : matches _ _ _ _ |- _ => apply matches_le in H end.
  unfold b64decode_strict. destruct (_ && _); [done|]. destruct (b64decode _) as [digest|] eqn:Hd; [|done].
  intros Hlen%Z.eqb_eq. do 4 eexists. split_and!; [|exact Hd|exact Hlen|exact Hname].
  rewrite <- (slice_all part) at 1. rewrite (slice_app _ 0 alg_end) by lia. f_equal.
  rewrite (slice_app _ alg_end (S alg_end)), (slice_app _ (S alg_end) data_end) by lia. by rewrite (slice_one _ _ _ Hc).
Qed.

(** What may be left out of a field's value, and what of it stays. *)
Definition unquoted (value : str) : str := strip_of (λ c, bool_decide (c ∈ [34; 39])) (strip value).
Definition fragment (s : str) : str := match partition 35 s with Some (_, after) => 35 :: after | None => [] end.
Definition may_drop (field value rest : str) : Prop :=
  let v := unquoted value in
  field ∈ [u "resolved"; u "tarball"] ∧ registry_url (before_fragment v) ∧ rest = fragment v ∨
  field = u "integrity" ∧ words v ≠ [] ∧ (∀ w, w ∈ words v → integrity_hash w) ∧ rest = [] ∨
  field = u "checksum" ∧ matches v YARN_CHECKSUM 0 (length v) ∧ rest = [] ∨
  field = u "resolution" ∧
    (matches v NPM_RESOLUTION 0 (length v) ∧ rest = [] ∨
     ∃ before url, v = before ++ 64 :: url ∧ registry_url (before_fragment url) ∧ rest = fragment v).

Lemma exempt_remainder_ok field value rest : exempt_remainder field value = Ok (Some rest) → may_drop field value rest.
Proof.
  unfold exempt_remainder, may_drop. fold (unquoted value). cbv zeta. fold (fragment (unquoted value)). set (v := unquoted value).
  case_bool_decide as Hf.
  { intros (public & Hp & Hr%ok_inj)%bind_ok. destruct public; [|done]. injection Hr as <-.
    apply public_registry_url_ok in Hp. auto. }
  case_bool_decide as Hi.
  { destruct (negb _ && _) eqn:Hw; intros Hr%ok_inj; [|done]. injection Hr as <-. right; left.
    apply andb_true_iff in Hw as [Hne%negb_true_iff%bool_decide_eq_false Hall]. split_and!; [done..| |done].
    intros w Hin. apply sri_digest_ok. rewrite forallb_forall in Hall. by apply Hall, list_elem_of_In. }
  case_bool_decide as Hc.
  { destruct (fullmatch _ _) eqn:Hm; intros Hr%ok_inj; [|done]. injection Hr as <-. right; right; left.
    by apply fullmatch_spec in Hm. }
  case_bool_decide as Hr; [|done]. destruct (fullmatch _ _) eqn:Hm.
  { intros E%ok_inj. injection E as <-. right; right; right. apply fullmatch_spec in Hm. auto. }
  destruct (rpartition 64 v) as [[before url]|] eqn:Hp; [|done].
  intros (public & Hu & E%ok_inj)%bind_ok. destruct public; [|done]. injection E as <-. apply public_registry_url_ok in Hu.
  apply rpartition_Some in Hp. right; right; right. split; [done|]. right. by exists before, url.
Qed.

(** A field with its value, and what is left of it. *)
Definition relieved_field (old new : str) : Prop :=
  ∃ before field between value rest, old = before ++ field ++ between ++ value ∧
    new = before ++ field ++ between ++ rest ∧ may_drop field value rest.

(** A row whose fourth group consumes text, and whose fifth only looks. *)
Definition field_row (rs : list regex) : Prop :=
  ∃ b n l v f, rs = [b; n; l; v; Look f] ∧ ∀ line i j, matches line v i j → (i < j)%nat.

Lemma drop_value_pieces rs line new :
  field_row rs → sub rs (drop_value line) line = Ok new → pieces relieved_field line new.
Proof.
  intros (b & n & l & v & f & -> & Hv). apply sub_pieces. intros i g new' Hi Hg Hrepl.
  apply groups_cons_inv in Hg as (e0 & g0 & -> & M0 & Hg). apply groups_cons_inv in Hg as (e1 & g1 & -> & M1 & Hg).
  apply groups_cons_inv in Hg as (e2 & g2 & -> & M2 & Hg). apply groups_cons_inv in Hg as (e3 & g3 & -> & M3 & Hg).
  apply groups_cons_inv in Hg as (e4 & g4 & -> & M4 & ->%groups_nil_inv).
  assert (e4 = e3) as -> by by inversion M4. pose proof (Hv _ _ _ M3) as Hlt.
  exists e3. split; [done|]. cbn [drop_value] in Hrepl. apply bind_ok in Hrepl as (rest & Hrest & Hnew%ok_inj).
  assert (e3 ≤ length line)%nat as Hend by exact (matches_bound _ _ _ _ M3 (matches_bound _ _ _ _ M2 (matches_bound _ _ _ _ M1 (matches_bound _ _ _ _ M0 Hi)))).
  apply matches_le in M0, M1, M2.
  split; [lia|]. destruct rest as [rest|]; [right|by left].
  exists (slice line i e0), (slice line e0 e1), (slice line e1 e2), (slice line e2 e3), rest.
  split_and!; [by rewrite <- !slice_app by lia| |by apply exempt_remainder_ok].
  rewrite <- Hnew, (slice_app line i e0), (slice_app line e0 e1) by lia. by rewrite <- !app_assoc.
Qed.

Lemma lockfile_rows name rs : rs ∈ LOCKFILE_EXEMPT_VALUES name → field_row rs.
Proof.
  assert (∀ line p r i j, matches line (Seq (Chr p) r) i j → (i < j)%nat) as Hchr.
  { intros line p r i j (k & (-> & _)%matches_chr_inv & Hr%matches_le)%matches_seq_inv. lia. }
  unfold LOCKFILE_EXEMPT_VALUES. repeat case_bool_decide; rewrite ?elem_of_cons, elem_of_nil; intros Hrs; destruct_or?; try done; subst rs;
    do 5 eexists; (split; [reflexivity|]); intros line i j; apply Hchr.
Qed.

(** C39: what the leak lint does not match against its terms: outside the three
    lockfiles it matches the line itself; in a lockfile, every pass leaves the
    line as it is but for values of dependency fields. What goes is an https
    URL whose host, in brackets or not, is a public registry, without user or
    port, but not its fragment; a list of integrity hashes of the right
    length; a checksum; a resolution [<package>@npm:<version>]; and of a
    resolution whose last [@] is followed by such a URL everything but the
    fragment, so also the text before that [@], whatever it is: nothing is
    shown about it, and the code does not match it, [file:] and [workspace:]
    paths included. *)
Theorem term_text_relieves name line matched :
  term_text name line = Ok matched →
  rtc (pieces relieved_field) line matched ∧
  (name ∉ u <$> ["package-lock.json"; "yarn.lock"; "pnpm-lock.yaml"] → matched = line).
Proof.
  unfold term_text. intros Hterm. split.
  - assert (Forall field_row (LOCKFILE_EXEMPT_VALUES name)) as Hrows by (rewrite Forall_forall; intros rs; apply lockfile_rows).
    revert line Hterm. induction Hrows as [|rs l Hrs _ IH]; cbn [foldl mbind outcome_bind]; intros line; [intros ->%ok_inj; reflexivity|].
    destruct (sub rs (drop_value line) line) as [line'|e] eqn:Hs.
    + intros Hf. eapply rtc_l; [by eapply drop_value_pieces|by apply IH].
    + intros Hf. exfalso. clear -Hf. induction l as [|rs' l IH]; cbn [foldl mbind outcome_bind] in Hf; [done|auto].
  - rewrite !fmap_cons, !not_elem_of_cons. intros (Ha & Hb & Hc & _). unfold LOCKFILE_EXEMPT_VALUES in Hterm.
    rewrite !bool_decide_eq_false_2 in Hterm by done. by apply ok_inj in Hterm.
Qed.

(** C38: the leak lint is exact: status 0 exactly when no scanned line of the
    committed tree leaks but the allowlisted ones, where a line leaks when a
    bracketed id in it is not excused by what surrounds it, or when what the
    terms are matched against holds one. *)
Theorem leak_lint_exact t argv allow r :
  LeakLint.main t argv = Ok r → LeakLint._load_allowlist t (lint_root argv) = Ok allow →
  exit_status r ∈ [0; 1] ∧
  (exit_status r = 0 ↔ ∀ p line, scanned_line t (lint_root argv) LeakLint.scanned p line →
     strip line ∉ allow → ¬ leaks (path_name p) line).
Proof.
  unfold LeakLint.main, LeakLint.scan. intros (hits & (allow' & Ha & Hs)%bind_ok & Hr%ok_inj)%bind_ok Hallow.
  rewrite Hallow in Ha. apply ok_inj in Ha as <-.
  pose proof (scan_files_nil _ _ _ _ (λ p line, strip line ∉ allow ∧ leaks (path_name p) line)
    (report_nil (lint_root argv) allow) hits Hs) as Hn.
  assert (exit_status r = 0 ↔ hits = []) as -> by (destruct hits; subst r; done).
  split; [destruct hits; subst r; set_solver|]. rewrite Hn. split; intros Hall p line; specialize (Hall p line); tauto.
Qed.
End leak.

(** ** The hostname lint *)

Section hostname.
Context `{Unicode}.

Lemma hostname_report_nil root allow p i line hits :
  HostnameLint.report root allow p i line = Ok hits →
  hits = [] ↔ ¬ (strip line ∉ allow ∧ ∃ i e, (i ≤ length line)%nat ∧ matches line HostnameLint.DISALLOWED i e).
Proof.
  unfold HostnameLint.report. rewrite <- search_spec. destruct (search _ line); cbn [andb].
  - case_bool_decide; cbn [negb].
    + intros <-%ok_inj. naive_solver.
    + intros (name & _ & <-%ok_inj)%bind_ok. naive_solver.
  - intros <-%ok_inj. naive_solver.
Qed.

(** The hostname lint is exact: status 0 exactly when in no scanned line of
    the committed tree, allowlisted ones apart, the pattern of the retired
    hosts matches anywhere. *)
Theorem hostname_lint_exact t argv allow r :
  HostnameLint.main t argv = Ok r → HostnameLint._load_allowlist t (lint_root argv) = Ok allow →
  exit_status r ∈ [0; 1] ∧
  (exit_status r = 0 ↔ ∀ p line i e, scanned_line t (lint_root argv) HostnameLint.scanned p line →
     strip line ∉ allow → (i ≤ length line)%nat → ¬ matches line HostnameLint.DISALLOWED i e).
Proof.
  unfold HostnameLint.main. intros (allow' & Ha & (hits & Hs & Hr%ok_inj)%bind_ok)%bind_ok Hallow.
  rewrite Hallow in Ha. apply ok_inj in Ha as <-.
  pose proof (scan_files_nil _ _ _ _ _ (hostname_report_nil (lint_root argv) allow) hits Hs) as Hn.
  assert (exit_status r = 0 ↔ hits = []) as -> by (destruct hits; subst r; done).
  split; [destruct hits; subst r; set_solver|]. rewrite Hn. split.
  - intros Hall p line i e Hp Hnot Hi Hm. apply (Hall p line Hp). eauto.
  - intros Hall p line Hp (Hnot & i & e & Hi & Hm). by apply (Hall p line i e).
Qed.
End hostname.
