(* ===== verification/LintWitness.v ===== *)
(** * The lints at concrete trees

    Lines and trees of a few files, the theorems of [LintProof] applied to
    them, and what the leak lint does not see. *)

From S2P Require Import Prelude PyRuntime Utf8 Cbor Json Base64 PyText Regex Url LintTree LeakLint HostnameLint LintProof.

#[local] Instance witness_unicode : Unicode := ascii_unicode.
#[local] Instance witness_checks : NetlocChecks := {| check_bracketed _ := Raise invalid_url; check_normalized _ := Ok () |}.

Module LintWitness.
Definition quoted (s : string) : string := to_string [x22] +:+ s +:+ to_string [x22].
Definition line_end : string := to_string [x0a].

(** Files under their names, as git lists them. *)
Definition files_tree (listing : list string) (files : list (string * string)) : tree := {|
  git_ls_files _ := Ok (of_string (String.concat line_end listing));
  path_exists p := existsb (λ f, bool_decide (Path (u f.1) = p)) files;
  read_bytes p :=
    match head (filter (λ f, Path (u f.1) = p) files) with
    | Some f => Ok (of_string f.2)
    | None => Raise (OSError (Msg "No such file or directory" []))
    end |}.

Definition sha512 : string := "sha512-" +:+ to_string (repeat x41 86) +:+ "==".
Definition classes (name line : string) : result (list string) := _classify (u line) (u name).
Definition matched (name line : string) : result string := utf8 <$> term_text (u name) (u line).
End LintWitness.
Import LintWitness.

Example bracketed_ids :
  classes "a.md" "See [totally-fake-internal-task-id] for context." = Ok ["bracketed-id"%string] ∧
  classes "a.md" "[some-fake-id]: does X" = Ok [] ∧ classes "a.py" "x [some-fake-id]: does X" = Ok ["bracketed-id"%string] ∧
  classes "a.md" "[some-fake-id](url), pkg[some-fake-id], '[data-report-date]', [build-system], [0-9a-f]" = Ok [].
Proof. by vm_compute. Qed.

Example lockfile_values :
  matched "package-lock.json" ("  " +:+ quoted "resolved" +:+ ": " +:+ quoted "https://registry.npmjs.org/inbox#outbox" +:+ ",")
    = Ok ("  " +:+ quoted "resolved" +:+ ": #outbox,") ∧
  matched "pnpm-lock.yaml" ("  resolution: {integrity: " +:+ sha512 +:+ ", tarball: https://crates.io/inbox}")
    = Ok "  resolution: {integrity: , tarball: }"%string ∧
  classes "yarn.lock" "  integrity sha512-inboxAAAA==" = Ok ["ops-vocab"%string] ∧
  classes "package.json" ("  " +:+ quoted "resolved" +:+ ": " +:+ quoted "https://registry.npmjs.org/inbox") = Ok ["ops-vocab"%string] ∧
  classes "yarn.lock" "  resolved https://user@registry.npmjs.org/inbox" = Ok ["ops-vocab"%string].
Proof. by vm_compute. Qed.

(** ** The theorems *)

Definition committed : tree :=
  files_tree ["notes.md"; "logo.png"; "gone.md"]
    [(".github/leak_lint_allowlist.txt", "# history" +:+ line_end +:+ "closed [an-old-task-id]" +:+ line_end);
     ("notes.md", "A neutral note." +:+ line_end +:+ "  closed [an-old-task-id]" +:+ line_end); ("logo.png", "inbox")]%string.

Lemma leak_lint_exact_witness :
  exit_status <$> LeakLint.main committed [] = Ok 0 ∧
  ∀ p line, scanned_line committed (lint_root []) LeakLint.scanned p line →
    strip line ∉ [u "closed [an-old-task-id]"] → ¬ leaks (path_name p) line.
Proof.
  split; [by vm_compute|].
  apply (leak_lint_exact committed [] [u "closed [an-old-task-id]"] {| exit_status := 0; printed := [Msg "leak-lint: clean." []] |});
    [by vm_compute|by vm_compute|done].
Defined.

Lemma term_text_relieves_witness :
  rtc (pieces relieved_field) (u "  checksum: 10c0/00000000000000000000000000000000") (u "  checksum: ").
Proof.
  apply (term_text_relieves (u "yarn.lock") (u "  checksum: 10c0/00000000000000000000000000000000") (u "  checksum: ")).
  by vm_compute.
Defined.

Definition hosts : tree :=
  files_tree ["site.md"] [("site.md", "Hosts: countersign.actionstate.ai, verify.agentactioncapsule.org" +:+ line_end)]%string.
Definition stale : tree :=
  files_tree ["site.md"] [("site.md", "See Verify.ActionState.ai" +:+ line_end)]%string.

Example hostname_flags :
  exit_status <$> HostnameLint.main stale [] = Ok 1 ∧ exit_status <$> HostnameLint.main hosts [] = Ok 0.
Proof. by vm_compute. Qed.

Lemma hostname_lint_exact_witness :
  exit_status <$> HostnameLint.main hosts [] = Ok 0 ∧
  ∀ p line i e, scanned_line hosts (lint_root []) HostnameLint.scanned p line →
    strip line ∉ [] → (i ≤ length line)%nat → ¬ matches line HostnameLint.DISALLOWED i e.
Proof.
  split; [by vm_compute|].
  apply (hostname_lint_exact hosts [] [] {| exit_status := 0; printed := [Msg "hostname-lint: clean." []] |});
    [by vm_compute|by vm_compute|done].
Defined.

(** ** What is not seen *)

(** What stands before the last [@] of a resolution goes with the URL behind it. *)
Example resolution_prefix_dropped :
  matched "yarn.lock" ("  resolution: " +:+ quoted "file:../_ops/inbox@https://crates.io/x") = Ok "  resolution: "%string ∧
  classes "yarn.lock" ("  resolution: " +:+ quoted "file:../_ops/inbox") = Ok ["ops-vocab"; "internal-path"]%string.
Proof. by vm_compute. Qed.

(** A URL of a registry whose port is no number ends the run by an exception. *)
Example bad_port_escapes :
  classes "yarn.lock" ("  resolved " +:+ quoted "https://crates.io:x/inbox") = Raise port_error.
Proof. by vm_compute. Qed.

(** A name that is not ASCII is listed between quotes, which is no name of a
    file: its text is not read. *)
Example quoted_name_skipped :
  let t := files_tree [quoted "\303\251.md"] [("é.md", "[one-leaked-task-id]" +:+ line_end)]%string in
  exit_status <$> LeakLint.main t [] = Ok 0 ∧
  exit_status <$> LeakLint.main (files_tree ["é.md"%string] [("é.md", "[one-leaked-task-id]" +:+ line_end)]%string) [] = Ok 1.
Proof. by vm_compute. Qed.
