(* ===== verification/NeutralityScan.v ===== *)
(** * The neutrality gate: [.github/neutrality_scan.py]

    The reserved terms are a secret of the environment; the tree that is
    scanned is a stranger's.  The operating system's part (git, links, opening
    and reading) is the record [filesystem]; the run answers the exit status
    and the lines printed. *)

From S2P Require Import Prelude PyRuntime Utf8 Cbor Json PyJson JsonLoads PyText Regex.

Definition SCAN_SUFFIXES : list str :=
  u <$> [".html"; ".py"; ".go"; ".rs"; ".md"; ".rst"; ".txt"; ".xml"; ".toml"; ".cfg"; ".yml"; ".yaml"; ".json"].

(** The two variables of [os.environ]. *)
Record environment := { NEUTRALITY_TERMS : option string; NEUTRALITY_REVEAL : option string }.

(** The compiled pattern: an alternative per term, between word boundaries or not. *)
Record alternative := { term : str; whole_word : bool }.
Abbreviation pattern := (list alternative).

(** A run stops by [SystemExit], with what it printed to [stderr], or by an
    exception nothing catches. *)
Inductive stop : Type :=
| SystemExit (code : Z) (stderr : msg)
| Uncaught (e : exn).

Definition uncaught {A} (m : result A) : outcome stop A :=
  match m with Ok a => Ok a | Raise e => Raise (Uncaught e) end.

(** What git, the directories and the files answer.  A descriptor is an
    integer; [git_ls_files] is [None] when git fails. *)
Record filesystem := {
  git_ls_files : path → result (option bytes);
  sorted_rglob : path → result (list path);
  is_symlink : path → bool;
  resolve : path → result path;
  lstat_regular : path → result bool;
  os_open : path → result Z;
  fstat_regular : Z → result bool;
  read_all : Z → result bytes }.

(** ** The configuration *)

Section config.
Context `{PyObjects} `{Unicode}.

(** [json.JSONDecodeError]; the other [ValueError] of the scanner is that of an
    integer with too many digits. *)
Definition is_decode_error (e : exn) : bool :=
  match e with
  | ValueError (Msg t _) => negb (bool_decide (t = "invalid literal for int() with base 10"))
  | _ => false
  end.

Definition not_json (e : exn) : stop :=
  if is_decode_error e
  then SystemExit 2 (Msg "error: NEUTRALITY_TERMS is not valid JSON: {exc}" [AMsg (exn_msg e)]) else Uncaught e.

Definition decoded (s : string) : outcome stop json :=
  match json_loads s with Ok v => Ok v | Raise e => Raise (not_json e) end.

(** [type(v).__name__] *)
Definition type_name (v : json) : string :=
  match v with
  | JNull => "NoneType" | JBool _ => "bool" | JInt _ => "int" | JFloat _ => "float" | JStr _ => "str"
  | JArr _ => "list" | JObj _ => "dict"
  end.

(** [tuple(cfg.get(key, ()))] *)
Definition terms_of (cfg : object) (key : string) : result (list json) :=
  match jget cfg key with Some v => py_tuple v | None => Ok [] end.
(** [re.escape(t)] of text is a literal. *)
Definition escaped (whole : bool) (t : json) : result alternative :=
  match t with JStr s => Ok {| term := u s; whole_word := whole |} | _ => Raise TypeError end.
Definition lowered (p : json) : result str :=
  match p with JStr s => Ok (str_lower (u s)) | _ => Raise AttributeError end.

Definition _load_config (env : environment) : outcome stop (pattern * list str) :=
  let raw := strip (u (default "" (NEUTRALITY_TERMS env))) in
  if bool_decide (raw = []) then
    Raise (SystemExit 2 (Msg "error: NEUTRALITY_TERMS secret is empty or unset. The neutrality gate is fail-closed — configure the repository secret. (On fork PRs secrets are withheld by design; run this gate on same-repo PRs.)" []))
  else
    cfg ← decoded (utf8 raw);
    cfg ← (match cfg with JStr s => decoded s | _ => Ok cfg end);
    match cfg with
    | JObj cfg =>
        substring ← uncaught (terms_of cfg "substring");
        word ← uncaught (terms_of cfg "word");
        allow ← uncaught (terms_of cfg "allow_phrases" ≫= mapM lowered);
        if bool_decide (substring = [] ∧ word = []) then
          Raise (SystemExit 2 (Msg "error: NEUTRALITY_TERMS carries no terms." []))
        else
          parts ← uncaught (mapM (escaped false) substring);
          more ← uncaught (mapM (escaped true) word);
          Ok (parts ++ more, allow)
    | _ => Raise (SystemExit 2 (Msg "error: NEUTRALITY_TERMS must decode to a JSON object, got {type(cfg).__name__}."
                                    [AStr (type_name cfg)]))
    end.

Definition _reveal_matches (env : environment) : bool :=
  bool_decide (str_lower (strip (u (default "" (NEUTRALITY_REVEAL env)))) ∈ [u "1"; u "true"; u "yes"; u "on"]).
End config.

(** ** Matching a line *)

Section matching.
Context `{Unicode}.

Fixpoint literal_at (lit s : str) : bool :=
  match lit, s with
  | [], _ => true
  | c :: lit, d :: s => same_letter c d && literal_at lit s
  | _ :: _, [] => false
  end.

(** One alternative at position [i]: where its match ends. *)
Definition alternative_at (line : str) (i : nat) (a : alternative) : option nat :=
  let e := (i + length (term a))%nat in
  if literal_at (term a) (drop i line) && (negb (whole_word a) || boundary line i && boundary line e) then Some e else None.

(** The first alternative that matches at [i]; right after an empty match the
    next one must not be empty. *)
Fixpoint pattern_at (line : str) (i : nat) (must_advance : bool) (p : pattern) : option nat :=
  match p with
  | [] => None
  | a :: p =>
      match alternative_at line i a with
      | Some e => if must_advance && (e =? i)%nat then pattern_at line i must_advance p else Some e
      | None => pattern_at line i must_advance p
      end
  end.

(** [pattern.finditer(line)]: the spans, left to right *)
Definition finditer (p : pattern) (line : str) : list (nat * nat) :=
  finditer_by (λ i must, pattern_at line i must p) (length line).

(** The spans of one phrase in the lowered line, overlapping ones included. *)
Fixpoint phrase_spans (fuel : nat) (line_lower phrase : str) (start : nat) : list (nat * nat) :=
  match fuel with
  | O => []
  | S fuel =>
      match find line_lower phrase start with
      | None => []
      | Some pos => (pos, pos + length phrase)%nat :: phrase_spans fuel line_lower phrase (S pos)
      end
  end.
Definition allow_spans (allow : list str) (line : str) : list (nat * nat) :=
  let line_lower := str_lower line in
  concat ((λ phrase, phrase_spans (length line_lower + 2) line_lower phrase 0) <$> allow).

Definition exempt (spans : list (nat * nat)) (m : nat * nat) : bool :=
  existsb (λ span, (span.1 <=? m.1)%nat && (m.2 <=? span.2)%nat) spans.

(** [m.group(0)] *)
Definition group0 (line : str) (m : nat * nat) : str := take (m.2 - m.1) (drop m.1 line).

Definition _line_offenders (line : str) (p : pattern) (allow : list str) : list str :=
  let spans := allow_spans allow line in
  group0 line <$> filter (λ m, exempt spans m = false) (finditer p line).

End matching.

(** ** Generated comments *)

Fixpoint skip_blank (s : str) : str :=
  match s with c :: r => if is_blank c then skip_blank r else s | [] => [] end.
Definition after_prefix (p s : str) : option str := if starts_with p s then Some (drop (length p) s) else None.

(** Up to the first [-->]. *)
Fixpoint after_close (s : str) : option str :=
  match after_prefix (u "-->") s with
  | Some r => Some r
  | None => match s with _ :: r => after_close r | [] => None end
  end.

(** What follows a generated comment that starts here. *)
Definition after_comment (s : str) : option str :=
  r ← after_prefix (u "<!--") s;
  r ← after_prefix (u "##markdown-source:") (skip_blank r);
  after_close r.

Fixpoint strip_from (fuel : nat) (s : str) : str :=
  match fuel with
  | O => []
  | S fuel =>
      match after_comment s, s with
      | Some r, _ => strip_from fuel r
      | None, c :: r => c :: strip_from fuel r
      | None, [] => []
      end
  end.
Definition _strip_generated_comments (s : str) : str := strip_from (S (length s)) s.

(** ** Files *)

Definition _git_tracked_files (fs : filesystem) (root : path) : result (option (list path)) :=
  r ← git_ls_files fs root;
  Ok (match r with
      | None => None
      | Some out => Some ((λ f, joinpath root (fsdecode f)) <$> filter (λ f, f ≠ []) (split_by (λ o, byte_val o =? 0) [] out))
      end).

(** Some component of [rel], going down from [current], is a link. *)
Fixpoint linked (fs : filesystem) (current : path) (rel : list str) : bool :=
  match rel with
  | [] => false
  | part :: rel => let current := joinpath current part in is_symlink fs current || linked fs current rel
  end.

(** [try: ... except OSError: return None] *)
Definition none_on_oserror {A} (m : result (option A)) : result (option A) :=
  match m with Raise (OSError _) => Ok None | _ => m end.

Definition _read_regular_file (fs : filesystem) (root p : path) : result (option str) :=
  match relative_to p root with
  | None => Ok None
  | Some rel =>
      if linked fs root rel then Ok None
      else
        fd ← none_on_oserror (
          here ← resolve fs p; top ← resolve fs root;
          if negb (is_relative_to here top) then Ok None
          else
            regular ← lstat_regular fs p;
            if negb regular then Ok None else Some <$> os_open fs p);
        match fd with
        | None => Ok None
        | Some fd =>
            none_on_oserror (
              regular ← fstat_regular fs fd;
              if negb regular then Ok None
              else b ← read_all fs fd; Ok (Some (decode replace_run b)))
        end
  end.

(** ** The scan *)

Section scan.
Context `{PyObjects} `{Unicode}.

(** The entries of one line. *)
Definition line_report (rel : str) (i : Z) (hits : list str) (reveal : bool) : list msg :=
  match hits with
  | [] => []
  | _ =>
      if reveal then (λ tok, Msg "{rel}:{i}: {tok!r}" [AStr (utf8 rel); AInt i; AStr (utf8 (str_repr tok))]) <$> hits
      else let n := zlen hits in
           [Msg (if n =? 1 then "{rel}:{i}: {n} reserved term (redacted)" else "{rel}:{i}: {n} reserved terms (redacted)")
                [AStr (utf8 rel); AInt i; AInt n]]
  end.

Definition scan_text (rel : str) (text : str) (p : pattern) (allow : list str) (reveal : bool) : list msg :=
  concat (imap (λ i line, line_report rel (Z.of_nat i + 1) (_line_offenders line p allow) reveal)
               (splitlines (_strip_generated_comments text))).

(** The paths the scan looks at. *)
Definition scannable (p : path) : bool :=
  bool_decide (str_lower (path_suffix p) ∈ SCAN_SUFFIXES) && negb (contains_str (u ".git/") (path_str p)).

Fixpoint scan_paths (fs : filesystem) (root : path) (p : pattern) (allow : list str) (reveal : bool)
    (candidates : list path) : result (list msg) :=
  match candidates with
  | [] => Ok []
  | path :: candidates =>
      offenders ←
        (if negb (scannable path) then Ok []
         else
           text ← _read_regular_file fs root path;
           match text, relative_to path root with
           | Some text, Some rel => Ok (scan_text (path_str {| absolute := false; parts := rel |}) text p allow reveal)
           | _, _ => Ok []
           end);
      more ← scan_paths fs root p allow reveal candidates;
      Ok (offenders ++ more)
  end.

Definition candidates (fs : filesystem) (root : path) : result (list path) :=
  tracked ← _git_tracked_files fs root;
  match tracked with Some l => Ok l | None => sorted_rglob fs root end.

Definition scan (env : environment) (fs : filesystem) (root : path) (p : pattern) (allow : list str)
    (reveal : option bool) : result (list msg) :=
  let reveal := match reveal with Some b => b | None => _reveal_matches env end in
  paths ← candidates fs root;
  scan_paths fs root p allow reveal paths.

(** ** The run *)

(** What a run answers that ends. *)
Record run := { status : Z; stdout : list msg; stderr : list msg }.

Definition clean : run := {| status := 0; stdout := [Msg "OK: no reserved vocabulary found." []]; stderr := [] |}.
Definition withheld : run :=
  {| status := 1;
     stdout := [Msg "neutrality: content check failed. Details are withheld on fork runs; a maintainer can re-run this gate on a trusted event." []];
     stderr := [] |}.
Definition violation (offenders : list msg) : run :=
  {| status := 1;
     stdout := Msg "NEUTRALITY VIOLATION: reserved vocabulary present ({len(offenders)} location(s)):" [AInt (zlen offenders)]
               :: ((λ o, Msg "  {o}" [AMsg o]) <$> offenders)
               ++ [Msg "\nThis public repo must carry none of the reserved vocabulary. Remove the flagged content." []];
     stderr := [] |}.

Definition scan_root (argv : list str) : path := match argv with r :: _ => Path r | [] => Path (u ".") end.

(** [argv and argv[0] == "--self-test"] *)
Definition asks_self_test (argv : list str) : bool :=
  match argv with a :: _ => bool_decide (a = u "--self-test") | [] => false end.

(** [self_test] is the outcome of [_run_self_tests], a test of this module in
    temporary directories: status 0 and a line, or status 1 and the failures. *)
Definition main (self_test : result run) (env : environment) (fs : filesystem) (argv : list str) : result run :=
  if asks_self_test argv then self_test else
  let root := scan_root argv in
  match _load_config env with
  | Raise (SystemExit code m) => Ok {| status := code; stdout := []; stderr := [m] |}
  | Raise (Uncaught e) => Raise e
  | Ok (p, allow) =>
      offenders ← scan env fs root p allow None;
      match offenders with
      | [] => Ok clean
      | _ => if negb (_reveal_matches env) then Ok withheld else Ok (violation offenders)
      end
  end.
End scan.
