(* ===== verification/NeutralityProof.v ===== *)
(** * What the neutrality gate promises

    A pass means that no reserved term is left in what was read but under an
    allowed phrase; without the opt-in, the output says nothing but the
    verdict. *)

From S2P Require Import Prelude PyRuntime Utf8 Cbor Json PyJson JsonLoads PyText Regex NeutralityScan.

Section matching.
Context `{Unicode}.

(** A reserved term occurs in a line from [i] to [e]. *)
Definition reserved_at (p : pattern) (line : str) (i e : nat) : Prop :=
  ∃ a, a ∈ p ∧ alternative_at line i a = Some e.
(** The lowered line holds an allowed phrase over [i] to [e]. *)
Definition allowed_over (allow : list str) (line : str) (i e : nat) : Prop :=
  ∃ phrase k, phrase ∈ allow ∧ (k ≤ length (str_lower line))%nat ∧ occurs_at phrase (str_lower line) k = true ∧
    (k ≤ i ∧ e ≤ k + length phrase)%nat.

(** The spans of a phrase are its occurrences, all of them. *)
Lemma phrase_spans_spec fuel s p start i e :
  (length s + 2 ≤ fuel + start)%nat →
  (i, e) ∈ phrase_spans fuel s p start ↔ (start ≤ i ≤ length s)%nat ∧ occurs_at p s i = true ∧ e = (i + length p)%nat.
Proof.
  revert start. induction fuel as [|fuel IH]; intros start Hfuel; cbn [phrase_spans].
  { split; [intros ?%elem_of_nil; done|lia]. }
  destruct (find s p start) as [pos|] eqn:Hf.
  - pose proof (find_Some _ _ _ _ Hf) as (Hpos & Ho & Hleast).
    rewrite elem_of_cons, IH by lia. split.
    + intros [[= -> ->]|(? & ? & ?)]; [done|]. split_and!; [lia..|done|done].
    + intros (Hi & Hoi & ->). destruct (decide (i = pos)) as [->|]; [by left|right].
      split; [|done]. destruct (decide (i < pos)%nat); [|lia]. rewrite Hleast in Hoi by lia. done.
  - split; [intros ?%elem_of_nil; done|]. intros (Hi & Ho & _). by rewrite (find_None _ _ _ i Hf Hi) in Ho.
Qed.

Lemma exempt_spec allow line i e : exempt (allow_spans allow line) (i, e) = true ↔ allowed_over allow line i e.
Proof.
  unfold exempt, allow_spans, allowed_over. rewrite existsb_exists. split.
  - intros ((a & b) & Hin%list_elem_of_In & [Ha%Nat.leb_le Hb%Nat.leb_le]%andb_true_iff). cbn in Ha, Hb.
    apply list_elem_of_In, in_concat in Hin as (l & Hl & Hab).
    apply list_elem_of_In, list_elem_of_fmap in Hl as (phrase & -> & Hp).
    apply list_elem_of_In, phrase_spans_spec in Hab as (Hk & Ho & ->); [|lia].
    exists phrase, a. split_and!; [done|lia|done..].
  - intros (phrase & k & Hp & Hk & Ho & Hi & He). exists (k, k + length phrase)%nat.
    split; [|apply andb_true_iff; split; by apply Nat.leb_le].
    apply in_concat. exists (phrase_spans (length (str_lower line) + 2) (str_lower line) phrase 0).
    split; apply list_elem_of_In; [apply list_elem_of_fmap; eauto|].
    apply phrase_spans_spec; [lia|]. split_and!; [lia..|done|done].
Qed.

(** ** [finditer] *)

Lemma alternative_at_end line i a e : alternative_at line i a = Some e → (i ≤ e)%nat.
Proof. unfold alternative_at. case_if; [|done]. intros [= <-]. lia. Qed.

Lemma literal_at_length lit s : literal_at lit s = true → (length lit ≤ length s)%nat.
Proof.
  revert s. induction lit as [|c lit IH]; intros [|d s]; cbn [literal_at length]; intros Hl; [lia..|done|].
  apply andb_true_iff in Hl as [_ Hl%IH]. lia.
Qed.

Lemma alternative_at_bound line i a e : alternative_at line i a = Some e → (i < e)%nat → (e ≤ length line)%nat.
Proof.
  unfold alternative_at. case_if; [|done]. intros [= <-] Hlt.
  apply andb_true_iff in Heqb as [Hl%literal_at_length _]. rewrite length_drop in Hl. lia.
Qed.

Lemma pattern_at_sound line i must p e : pattern_at line i must p = Some e → reserved_at p line i e.
Proof.
  induction p as [|a p IH]; cbn [pattern_at]; [done|]. intros Hp.
  destruct (alternative_at line i a) as [e'|] eqn:Ha; [case_if_in Hp|].
  - destruct (IH Hp) as (a' & ? & ?). exists a'. split; [by right|done].
  - injection Hp as ->. exists a. split; [left|done].
  - destruct (IH Hp) as (a' & ? & ?). exists a'. split; [by right|done].
Qed.

Lemma pattern_at_advance line i p e : pattern_at line i true p = Some e → (i < e)%nat.
Proof.
  induction p as [|a p IH]; cbn [pattern_at]; [done|].
  destruct (alternative_at line i a) as [e'|] eqn:Ha; [|done]. case_if; [done|]. intros [= ->].
  apply alternative_at_end in Ha. apply Nat.eqb_neq in Heqb. lia.
Qed.

Lemma pattern_at_complete line i must p e :
  reserved_at p line i e → (i < e)%nat → ∃ e', pattern_at line i must p = Some e'.
Proof.
  intros (a & Hin & Ha) Hlt. induction p as [|a' p IH]; [by apply elem_of_nil in Hin|].
  cbn [pattern_at]. apply elem_of_cons in Hin as [<-|Hin].
  - rewrite Ha. replace (e =? i)%nat with false by (symmetry; apply Nat.eqb_neq; lia).
    rewrite andb_false_r. eauto.
  - destruct (alternative_at line i a') as [e'|]; [destruct (_ && _)|]; eauto.
Qed.

Lemma reserved_spans_sound p line m : m ∈ finditer p line → reserved_at p line m.1 m.2.
Proof.
  apply (finditer_by_sound _ _ (reserved_at p line)). intros i must e _ Hp%pattern_at_sound.
  split; [done|]. destruct Hp as (a & _ & Ha). by eapply alternative_at_end.
Qed.

(** No occurrence is passed over: each starts inside a match. *)
Lemma reserved_spans_cover p line i e :
  reserved_at p line i e → (i < e)%nat → ∃ m, m ∈ finditer p line ∧ (m.1 ≤ i < m.2)%nat.
Proof.
  intros Hr Hlt. assert (e ≤ length line)%nat as He by (destruct Hr as (a & _ & Ha); by eapply alternative_at_bound).
  apply (finditer_by_covers _ _ (reserved_at p line)) with e; [..|lia|done|done].
  - intros j must e' _ Hp%pattern_at_sound. split; [done|]. destruct Hp as (a & _ & Ha). by eapply alternative_at_end.
  - intros j e' _. apply pattern_at_advance.
  - intros j must e' _ Hj Hlt'. by apply (pattern_at_complete line j must p e').
Qed.

Lemma no_offenders line p allow :
  _line_offenders line p allow = [] ↔ ∀ m, m ∈ finditer p line → allowed_over allow line m.1 m.2.
Proof.
  unfold _line_offenders. split.
  - intros E%fmap_nil_inv [i e] Hm. apply exempt_spec. destruct (exempt _ _) eqn:Hx; [done|exfalso].
    assert (Hin : (i, e) ∈ filter (λ m, exempt (allow_spans allow line) m = false) (finditer p line))
      by by apply list_elem_of_filter.
    rewrite E in Hin. by apply elem_of_nil in Hin.
  - intros Hall. destruct (filter _ _) as [|[i e] l] eqn:E; [done|exfalso].
    assert (Hin : (i, e) ∈ filter (λ m, exempt (allow_spans allow line) m = false) (finditer p line)) by (rewrite E; left).
    apply list_elem_of_filter in Hin as [Hx Hm]. apply Hall, exempt_spec in Hm. cbn in *. congruence.
Qed.

(** A line without an offender: every occurrence starts inside an occurrence
    that an allowed phrase covers. *)
Lemma no_offenders_covers line p allow i e :
  _line_offenders line p allow = [] → reserved_at p line i e → (i < e)%nat →
  ∃ i' e', (i' ≤ i < e')%nat ∧ reserved_at p line i' e' ∧ allowed_over allow line i' e'.
Proof.
  intros Hno Hr Hlt. destruct (reserved_spans_cover p line i e) as ([i' e'] & Hm & Hc); [done..|].
  exists i', e'. split; [done|]. split; [by apply (reserved_spans_sound _ _ (i', e'))|].
  by apply (proj1 (no_offenders _ _ _) Hno (i', e')).
Qed.

Lemma nothing_reserved line p allow : (∀ i e, ¬ reserved_at p line i e) → _line_offenders line p allow = [].
Proof.
  intros Hno. apply no_offenders. intros [i e] Hm. by apply reserved_spans_sound, Hno in Hm.
Qed.
End matching.

(** ** The run *)

Section run.
Context `{PyObjects} `{Unicode}.

(** A line the scan reads: of a text file of the tree that is safe to read. *)
Definition scanned_line (fs : filesystem) (root : path) (line : str) : Prop :=
  ∃ paths p text, candidates fs root = Ok paths ∧ p ∈ paths ∧ scannable p = true ∧
    _read_regular_file fs root p = Ok (Some text) ∧ line ∈ splitlines (_strip_generated_comments text).

Lemma line_report_nil rel i hits reveal : line_report rel i hits reveal = [] ↔ hits = [].
Proof. destruct hits, reveal; done. Qed.

Lemma scan_text_nil rel text p allow reveal :
  scan_text rel text p allow reveal = [] ↔
  ∀ line, line ∈ splitlines (_strip_generated_comments text) → _line_offenders line p allow = [].
Proof.
  unfold scan_text. rewrite concat_nil_Forall, Forall_lookup. split.
  - intros Hall line [i Hi]%list_elem_of_lookup. eapply line_report_nil, (Hall i).
    by rewrite list_lookup_imap, Hi.
  - intros Hall i l. rewrite list_lookup_imap. destruct (_ !! i) as [line|] eqn:Hi; [|done].
    cbn. intros [= <-]. apply line_report_nil, Hall. by eapply list_elem_of_lookup_2.
Qed.

Lemma read_relative fs root p text : _read_regular_file fs root p = Ok (Some text) → ∃ rel, relative_to p root = Some rel.
Proof. unfold _read_regular_file. destruct (relative_to p root); [eauto|done]. Qed.

Lemma scan_paths_nil fs root p allow reveal paths :
  scan_paths fs root p allow reveal paths = Ok [] →
  ∀ path text line, path ∈ paths → scannable path = true → _read_regular_file fs root path = Ok (Some text) →
    line ∈ splitlines (_strip_generated_comments text) → _line_offenders line p allow = [].
Proof.
  induction paths as [|q paths IH]; cbn [scan_paths]; intros Hscan path text line Hin Hs Hr Hl;
    [by apply elem_of_nil in Hin|].
  ok_inv. rename a into here, a0 into more. apply app_eq_nil in Hscan as [-> ->].
  apply elem_of_cons in Hin as [<-|Hin]; [|by eapply IH].
  rewrite Hs in Ha. cbn [negb] in Ha. rewrite Hr in Ha. cbn in Ha.
  destruct (read_relative _ _ _ _ Hr) as (rel & Hrel). rewrite Hrel in Ha. injection Ha as Ha.
  by eapply scan_text_nil in Ha.
Qed.

Lemma scan_paths_clean fs root p allow reveal paths offenders :
  scan_paths fs root p allow reveal paths = Ok offenders →
  (∀ path text line, path ∈ paths → scannable path = true → _read_regular_file fs root path = Ok (Some text) →
    line ∈ splitlines (_strip_generated_comments text) → _line_offenders line p allow = []) → offenders = [].
Proof.
  revert offenders. induction paths as [|q paths IH]; cbn [scan_paths]; intros offenders Hscan Hall; ok_inv; [done|].
  rename a into here, a0 into more.
  rewrite (IH more) by (try done; intros; eapply Hall; eauto; by right). rewrite app_nil_r.
  destruct (scannable q) eqn:Hs; cbn [negb] in Ha; [|by injection Ha as <-]. ok_inv.
  destruct a as [text|]; [|by injection Ha as <-].
  destruct (relative_to q root) as [rel|]; [|by injection Ha as <-].
  injection Ha as <-. apply scan_text_nil. intros. eapply Hall; eauto. left.
Qed.

Lemma decoded_exit s code m : decoded s = Raise (SystemExit code m) → code = 2.
Proof. unfold decoded, not_json. destruct (json_loads s); [done|]. case_if; [by intros [= <- _]|done]. Qed.

Lemma uncaught_exit {A} (m : result A) code x : uncaught m ≠ Raise (SystemExit code x).
Proof. by destruct m. Qed.

Lemma bind_raise {E A B} (m : outcome E A) (f : A → outcome E B) e :
  m ≫= f = Raise e → m = Raise e ∨ ∃ a, m = Ok a ∧ f a = Raise e.
Proof. destruct m; cbn; [eauto|intros [= ->]; auto]. Qed.

(** A configuration that is refused ends the run with status 2. *)
Lemma load_config_exit env code m : _load_config env = Raise (SystemExit code m) → code = 2.
Proof.
  unfold _load_config. case_if; [by intros [= <- _]|].
  intros [Hd%decoded_exit|(cfg & _ & [Hd|(cfg' & _ & Hc)]%bind_raise)]%bind_raise; [done| |].
  { destruct cfg; try discriminate. by apply decoded_exit in Hd. }
  destruct cfg'; try by injection Hc as <- _.
  repeat (apply bind_raise in Hc as [Hc|(? & _ & Hc)]; [by apply uncaught_exit in Hc|]).
  case_if_in Hc; [by injection Hc as <- _|].
  repeat (apply bind_raise in Hc as [Hc|(? & _ & Hc)]; [by apply uncaught_exit in Hc|]). done.
Qed.

(** One that is accepted has a term. *)
Lemma load_config_terms env p allow : _load_config env = Ok (p, allow) → p ≠ [].
Proof.
  unfold _load_config. case_if; [done|]. intros Hc. ok_inv. destruct a0; try discriminate. ok_inv.
  case_if_in Hc; [done|]. ok_inv.
  repeat match goal with Hm : uncaught ?m = Ok _ |- _ => destruct m eqn:?; [injection Hm as ->|discriminate] end.
  repeat match goal with Hm : mapM _ _ = Ok _ |- _ => apply mapM_ok_length in Hm end.
  intros [-> ->]%app_eq_nil. apply bool_decide_eq_false in Heqb0. apply Heqb0.
  cbn in *. split; apply nil_length_inv; congruence.
Qed.

Definition verdict (env : environment) (offenders : list msg) : run :=
  match offenders with [] => clean | _ => if negb (_reveal_matches env) then withheld else violation offenders end.

Lemma main_ok self_test env fs argv r :
  asks_self_test argv = false → main self_test env fs argv = Ok r →
  (∃ m, _load_config env = Raise (SystemExit 2 m) ∧ r = {| status := 2; stdout := []; stderr := [m] |}) ∨
  ∃ p allow offenders, _load_config env = Ok (p, allow) ∧
    scan env fs (scan_root argv) p allow None = Ok offenders ∧ r = verdict env offenders.
Proof.
  unfold main. intros ->. destruct (_load_config env) as [[p allow]|[code m|e]] eqn:Hc; [| |done].
  - intros Hr. ok_inv. right. exists p, allow, a. split_and!; [done..|].
    unfold verdict. destruct a; [|destruct (negb _)]; congruence.
  - intros [= <-]. left. exists m. by rewrite (load_config_exit _ _ _ Hc) in *.
Qed.

Lemma main_raise self_test env fs argv e c :
  asks_self_test argv = false → _load_config env = Ok c → main self_test env fs argv = Raise e →
  ∃ p allow, _load_config env = Ok (p, allow) ∧ scan env fs (scan_root argv) p allow None = Raise e.
Proof.
  unfold main. intros -> Hc. rewrite Hc. destruct c as [p allow]. intros [Hs|(o & _ & Ho)]%bind_raise; [eauto|].
  destruct o; [done|]. by destruct (negb _).
Qed.

(** Matching raises nothing: what stops a scan is reading, whatever is looked for. *)
Lemma scan_paths_raise fs root p allow reveal p' allow' reveal' paths e :
  scan_paths fs root p allow reveal paths = Raise e → scan_paths fs root p' allow' reveal' paths = Raise e.
Proof.
  induction paths as [|q paths IH]; cbn [scan_paths]; [done|].
  destruct (negb (scannable q)); cbn.
  - destruct (scan_paths fs root p _ _ _); cbn; [done|]. intros [= ->]. by rewrite IH.
  - destruct (_read_regular_file fs root q) as [[text|]|]; cbn; [|..]; try done.
    + destruct (relative_to q root); cbn; (destruct (scan_paths fs root p _ _ _); cbn; [done|]; intros [= ->]; by rewrite IH).
    + destruct (scan_paths fs root p _ _ _); cbn; [done|]. intros [= ->]. by rewrite IH.
Qed.

Lemma verdict_clean env offenders : status (verdict env offenders) = 0 ↔ offenders = [].
Proof. unfold verdict. destruct offenders; [done|]. destruct (_reveal_matches env); done. Qed.

Lemma verdict_untrusted env offenders :
  _reveal_matches env = false → verdict env offenders = if bool_decide (offenders = []) then clean else withheld.
Proof. unfold verdict. intros ->. by destruct offenders. Qed.

(** C37: a pass is a pass: unless the self-test is asked for, status 0 means that the secret gave terms and that
    in every line of every file the scan reads, each occurrence of a reserved
    term starts inside an occurrence which an allowed phrase of the lowered
    line covers, so there is none when no phrase is allowed; and a tree in
    which no reserved term occurs passes. *)
Theorem neutrality_clean self_test env fs argv r :
  asks_self_test argv = false → main self_test env fs argv = Ok r →
  (status r = 0 → ∃ p allow, _load_config env = Ok (p, allow) ∧ p ≠ [] ∧
    ∀ line i e, scanned_line fs (scan_root argv) line → reserved_at p line i e → (i < e)%nat →
      ∃ i' e', (i' ≤ i < e')%nat ∧ reserved_at p line i' e' ∧ allowed_over allow line i' e') ∧
  (∀ p allow, _load_config env = Ok (p, allow) →
    (∀ line i e, scanned_line fs (scan_root argv) line → ¬ reserved_at p line i e) → status r = 0).
Proof.
  intros Hself [(m & Hc & ->)|(p & allow & offenders & Hc & Hs & ->)]%main_ok; [..|done]; (split; [intros Hz|intros p' allow' Hc' Hno]).
  - done.
  - by rewrite Hc in Hc'.
  - apply verdict_clean in Hz as ->. exists p, allow. split_and!; [done|by eapply load_config_terms|].
    intros line i e (paths & q & text & Hp & Hq & Hsc & Hr & Hl) Hres Hlt.
    eapply no_offenders_covers; [|done..]. unfold scan in Hs. rewrite Hp in Hs. cbn in Hs.
    by eapply scan_paths_nil.
  - rewrite Hc in Hc'. injection Hc' as <- <-. apply verdict_clean. unfold scan in Hs. ok_inv.
    eapply scan_paths_clean; [done|]. intros. apply nothing_reserved. intros i e. eapply Hno.
    exists a. eauto 10.
Qed.

(** C36: without the opt-in the run says nothing but its verdict: two runs that
    both have the redacting default and end with the same status print the
    same, whatever the trees, the roots and, unless the status is that of a
    refused configuration, the secret terms, when both are scans or both the
    self-test, whose outcome is the same for all; and whether the scan of a tree is
    stopped by an exception, and by which, does not depend on the terms. *)
Theorem neutrality_untrusted self_test env env' fs argv :
  _reveal_matches env = false → _reveal_matches env' = false →
  (∀ fs' argv' r r', asks_self_test argv = asks_self_test argv' →
    main self_test env fs argv = Ok r → main self_test env' fs' argv' = Ok r' → status r = status r' →
    status r ≠ 2 ∨ NEUTRALITY_TERMS env = NEUTRALITY_TERMS env' → r = r') ∧
  (∀ e c c', _load_config env = Ok c → _load_config env' = Ok c' →
    main self_test env fs argv = Raise e → main self_test env' fs argv = Raise e).
Proof.
  intros Hv Hv'. split.
  - intros fs' argv' r r' Hself Hr Hr' Hst Hterms. destruct (asks_self_test argv) eqn:Ha; symmetry in Hself.
    { unfold main in Hr, Hr'. rewrite Ha in Hr. rewrite Hself in Hr'. congruence. }
    apply main_ok in Hr as [(m & Hc & ->)|(p & allow & o & Hc & Hs & ->)]; [..|done];
      apply main_ok in Hr' as [(m' & Hc' & ->)|(p' & allow' & o' & Hc' & Hs' & ->)]; try done.
    + destruct Hterms as [?|Heq]; [done|]. unfold _load_config in Hc, Hc'. rewrite <- Heq in Hc'. congruence.
    + rewrite verdict_untrusted in Hst by done. by case_bool_decide.
    + rewrite verdict_untrusted in Hst by done. by case_bool_decide.
    + rewrite !verdict_untrusted in * by done. by do 2 case_bool_decide.
  - intros e [p allow] [p' allow'] Hc Hc' Hm. destruct (asks_self_test argv) eqn:Ha; [unfold main in *; by rewrite Ha in *|].
    destruct (main_raise _ _ _ _ _ _ Ha Hc Hm) as (p0 & allow0 & Hc0 & Hs).
    unfold main. rewrite Ha, Hc'. unfold scan in *.
      apply bind_raise in Hs as [->|(paths & -> & Hs)]; [done|]. cbn.
      eapply scan_paths_raise in Hs. by rewrite Hs.
Qed.

(** ** What is read *)

(** A path the reader may open: below the root by no link, resolved inside it,
    and a regular file. *)
Definition confined (fs : filesystem) (root p : path) : Prop :=
  ∃ rel here top, relative_to p root = Some rel ∧ linked fs root rel = false ∧
    resolve fs p = Ok here ∧ resolve fs root = Ok top ∧ is_relative_to here top = true ∧ lstat_regular fs p = Ok true.

(** The same tree but for the contents of files. *)
Definition with_contents (fs : filesystem) (contents : Z → result bytes) : filesystem :=
  {| git_ls_files := git_ls_files fs; sorted_rglob := sorted_rglob fs; is_symlink := is_symlink fs;
     resolve := resolve fs; lstat_regular := lstat_regular fs; os_open := os_open fs;
     fstat_regular := fstat_regular fs; read_all := contents |}.

Lemma linked_contents fs contents current rel : linked (with_contents fs contents) current rel = linked fs current rel.
Proof. revert current. induction rel as [|q rel IH]; intros current; cbn [linked]; [done|]. by rewrite IH. Qed.

Lemma read_confined fs contents root p :
  (∀ fd, confined fs root p → os_open fs p = Ok fd → fstat_regular fs fd = Ok true → contents fd = read_all fs fd) →
  _read_regular_file (with_contents fs contents) root p = _read_regular_file fs root p.
Proof.
  intros Hsame. unfold _read_regular_file. destruct (relative_to p root) as [rel|] eqn:Hrel; [|done].
  rewrite linked_contents. destruct (linked fs root rel) eqn:Hl; [done|]. cbn [with_contents resolve lstat_regular os_open].
  destruct (resolve fs p) as [here|x] eqn:Hp; [|by destruct x]. cbn.
  destruct (resolve fs root) as [top|x] eqn:Ht; [|by destruct x]. cbn.
  destruct (is_relative_to here top) eqn:Hin; [|done]. cbn.
  destruct (lstat_regular fs p) as [[|]|x] eqn:Hreg; [|done|by destruct x]. cbn.
  destruct (os_open fs p) as [fd|x] eqn:Ho; [|by destruct x]. cbn.
  destruct (fstat_regular fs fd) as [[|]|] eqn:Hf; [|done..]. cbn.
  rewrite Hsame; [done| |done..]. exists rel, here, top. done.
Qed.

(** The gate reads nothing but regular files inside the scanned root,
    reached without following a link: a run depends on no other contents. *)
Theorem neutrality_confined self_test env fs contents argv :
  (∀ p fd, confined fs (scan_root argv) p → os_open fs p = Ok fd → fstat_regular fs fd = Ok true →
    contents fd = read_all fs fd) →
  main self_test env (with_contents fs contents) argv = main self_test env fs argv.
Proof.
  intros Hsame. unfold main. destruct (asks_self_test argv); [done|]. destruct (_load_config env) as [[p allow]|]; [|done].
  assert (scan env (with_contents fs contents) (scan_root argv) p allow None = scan env fs (scan_root argv) p allow None)
    as ->; [|done].
  unfold scan. change (candidates (with_contents fs contents)) with (candidates fs).
  destruct (candidates fs _) as [paths|]; [cbn|done].
  induction paths as [|q paths IH]; cbn [scan_paths]; [done|]. rewrite IH.
  by rewrite (read_confined _ _ _ _ (λ fd, Hsame q fd)).
Qed.
End run.
