(* ===== verification/NeutralityWitness.v ===== *)
(** * The neutrality gate at concrete trees

    A tree of a few tracked files, terms in the environment, the theorems of
    [NeutralityProof] applied to them; and two ways past the gate. *)

From S2P Require Import Prelude PyRuntime Utf8 Cbor Json PyJson JsonLoads PyText Regex NeutralityScan NeutralityProof.

#[local] Instance witness_objects : PyObjects := plain_objects.
#[local] Instance witness_unicode : Unicode := ascii_unicode.

(** Three tracked files: text that spells the term under the allowed phrase, a
    link, and a picture; [leak] is what the link points at. *)
Definition tree (spec leak : string) : filesystem := {|
  git_ls_files _ := Ok (Some (of_string "doc/spec.md" ++ [x00] ++ of_string "link.md" ++ [x00] ++ of_string "logo.png" ++ [x00]));
  sorted_rglob _ := Ok [];
  is_symlink p := bool_decide (path_name p = u "link.md");
  resolve p := Ok (if bool_decide (path_name p = u "link.md") then Path (u "/outside/leak.md")
                   else joinpath (Path (u "/repo")) (path_str p));
  lstat_regular p := Ok true;
  os_open p := Ok (if bool_decide (path_name p = u "link.md") then 4 else 3);
  fstat_regular fd := Ok true;
  read_all fd := Ok (of_string (if fd =? 3 then spec else leak)) |}.

Definition quoted (s : string) : string := to_string [x22] +:+ s +:+ to_string [x22].
Definition terms (reveal : option string) : environment := {|
  NEUTRALITY_TERMS := Some ("{" +:+ quoted "word" +:+ ": [" +:+ quoted "zzterm" +:+ "], " +:+ quoted "allow_phrases" +:+ ": ["
                            +:+ quoted "Use of ZZterm" +:+ "]}");
  NEUTRALITY_REVEAL := reveal |}.

Definition exempted : filesystem := tree "The use of zzTERM is fine; zzterms is another word." "zzterm".
Definition flagged : filesystem := tree "The use of zzterm, and zzterm" "".

(** The self-test passes. *)
Definition self_tested : result run := Ok {| status := 0; stdout := [Msg "neutrality self-test: OK" []]; stderr := [] |}.

Example scan_flags :
  main self_tested (terms (Some " True ")) flagged [] =
    Ok (violation [Msg "{rel}:{i}: {tok!r}" [AStr "doc/spec.md"; AInt 1; AStr "'zzterm'"]]) ∧
  main self_tested (terms None) flagged [] = Ok withheld ∧ main self_tested (terms None) exempted [] = Ok clean.
Proof. by vm_compute. Qed.

(** ** The theorems at these trees *)

Lemma neutrality_clean_witness :
  (∃ p allow, _load_config (terms None) = Ok (p, allow) ∧ p ≠ [] ∧
    ∀ line i e, scanned_line exempted (scan_root []) line → reserved_at p line i e → (i < e)%nat →
      ∃ i' e', (i' ≤ i < e')%nat ∧ reserved_at p line i' e' ∧ allowed_over allow line i' e').
Proof. apply (neutrality_clean self_tested (terms None) exempted [] clean); [done|by vm_compute|done]. Defined.

(** The same output for other terms and another tree. *)
Definition other_terms : environment := {|
  NEUTRALITY_TERMS := Some ("{" +:+ quoted "substring" +:+ ": [" +:+ quoted "fine" +:+ "]}"); NEUTRALITY_REVEAL := Some "0" |}.
Lemma neutrality_untrusted_witness :
  main self_tested (terms None) flagged [] = Ok withheld ∧ main self_tested other_terms exempted [u "pr"] = Ok withheld ∧ withheld = withheld.
Proof.
  split; [by vm_compute|]. split; [by vm_compute|].
  apply (proj1 (neutrality_untrusted self_tested (terms None) other_terms flagged [] ltac:(by vm_compute) ltac:(by vm_compute)) exempted [u "pr"]);
    [by vm_compute|by vm_compute|by vm_compute|done|by left].
Defined.

(** What the link points at is not read. *)
Lemma neutrality_confined_witness :
  main self_tested (terms None) (with_contents exempted (λ fd, if fd =? 4 then Ok (of_string "zzterm") else read_all exempted fd)) []
    = Ok clean.
Proof.
  rewrite (neutrality_confined self_tested (terms None) exempted); [by vm_compute|].
  intros p fd (rel & here & top & _ & _ & [= <-] & [= <-] & Hin & _) [= <-] _.
  case_bool_decide; [discriminate Hin|done].
Defined.

(** ** Ways past the gate *)

(** The spans of a phrase are found in the lowered line and compared with
    positions in the line itself: letters whose lower case is longer move them,
    and a term that no phrase covers is let through. *)
Theorem allow_span_shifted :
  let line := replicate 9 304 ++ u "the use of reserved word reserved" in
  let p := [{| term := u "reserved"; whole_word := true |}] in
  let phrase := u "the use of reserved word" in
  _line_offenders line p [phrase] = [] ∧ reserved_at p line 34 42 ∧
  ∀ k, (k ≤ 34)%nat → (42 ≤ k + length phrase)%nat →
    occurs_at phrase line k = false.
Proof.
  intros line p phrase. split_and!; [by vm_compute|exists {| term := u "reserved"; whole_word := true |}; split; [left|by vm_compute]|].
  intros k Hk Hlen. change (length phrase) with 24%nat in Hlen.
  assert (Hall : forallb (λ k, negb (occurs_at phrase line k)) (seq 18 17) = true) by by vm_compute.
  rewrite forallb_forall in Hall. apply negb_true_iff, Hall, in_seq. lia.
Qed.

(** A directory whose name ends in [.git] hides what is below it. *)
Example hidden_directory : scannable (Path (u "notes.git/spec.md")) = false ∧ scannable (Path (u "notes/spec.md")) = true.
Proof. by vm_compute. Qed.
