(* ===== verification/Mmr.v ===== *)
(** * The Merkle mountain range: the verifiers of [scitt_cose/cll.py]

    Hashing, position arithmetic, proof shapes and the three total verifiers.
    Definitions only; [MmrShape] proves the position arithmetic right and the
    files after it the verifiers.  Integers are Python's, so the [isinstance]
    tests of the sources hold by typing; an element of a proof stays a dynamic
    value, which [_parse_digest_hex] tests. *)

From S2P Require Import Prelude PyRuntime Sha256 Cbor Json.

Definition DIGEST_LEN : Z := 32.
Definition MAX_MMR_SIZE : Z := 2 ^ 50.

Definition invalid (template : string) (args : list msg_arg) : exn := InvalidArgumentError (Msg template args).

Definition _assert_digest (d : bytes) (what : string) : result unit :=
  if negb (zlen d =? DIGEST_LEN) then Raise (invalid "{what} must be {DIGEST_LEN} bytes" [AStr what; AInt DIGEST_LEN])
  else Ok ().

Definition _require_nonneg_int (n : Z) (what : string) : result unit :=
  if n <? 0 then Raise (invalid "{what} must be a non-negative integer: {n}" [AStr what; AInt n]) else Ok ().

(** ** Position arithmetic *)

(** [while 2 ** (h + 1) - 1 < pos1: h += 1] *)
Fixpoint grow_height (fuel : nat) (h pos1 : Z) : Z :=
  match fuel with
  | O => h
  | S fuel' => if 2 ^ (h + 1) - 1 <? pos1 then grow_height fuel' (h + 1) pos1 else h
  end.

(** [while h > 0: ...] of [height_at]; [h] is the loop variable. *)
Fixpoint descend (h : nat) (pos1 : Z) : Z :=
  match h with
  | O => 0
  | S h' =>
      let size := 2 ^ (Z.of_nat h + 1) - 1 in
      if pos1 =? size then Z.of_nat h
      else
        let left_size := 2 ^ Z.of_nat h - 1 in
        descend h' (if pos1 >? left_size then pos1 - left_size else pos1)
  end.

Definition height_at (pos : Z) : result Z :=
  _ ← _require_nonneg_int pos "pos";
  let pos1 := pos + 1 in
  let h := grow_height (Z.to_nat (Z.log2_up (pos1 + 1))) 0 pos1 in
  Ok (descend (Z.to_nat h) pos1).

(** [bin(n).count("1")] *)
Fixpoint pos_ones (p : positive) : Z :=
  match p with xH => 1 | xO p => pos_ones p | xI p => pos_ones p + 1 end.
Definition count_ones (n : Z) : Z := match n with Zpos p => pos_ones p | _ => 0 end.

Definition node_count (leaf_count_ : Z) : result Z :=
  _ ← _require_nonneg_int leaf_count_ "leaf_count";
  Ok (2 * leaf_count_ - count_ones leaf_count_).

(** [h = 0; while 2 ** (h + 2) - 1 <= remaining: h += 1] *)
Fixpoint mountain_height (fuel : nat) (h remaining : Z) : Z :=
  match fuel with
  | O => h
  | S fuel' => if 2 ^ (h + 2) - 1 <=? remaining then mountain_height fuel' (h + 1) remaining else h
  end.

(** [while remaining > 0] of [peaks]; [None] is the infinite [prev_height].
    Heights decrease strictly, so one unit of fuel per bit is enough. *)
Fixpoint peaks_loop (fuel : nat) (size remaining offset : Z) (prev_height : option Z) (acc : list Z) :
    result (list Z) :=
  if remaining >? 0 then
    match fuel with
    | O => Ok acc
    | S fuel' =>
        let h := mountain_height (Z.to_nat (Z.log2_up (remaining + 1))) 0 remaining in
        if match prev_height with Some prev => h >=? prev | None => false end
        then Raise (invalid "invalid MMR size (not a valid node count): {size}" [AInt size])
        else
          let m_size := 2 ^ (h + 1) - 1 in
          let offset := offset + m_size in
          peaks_loop fuel' size (remaining - m_size) offset (Some h) (acc ++ [offset - 1])
    end
  else Ok acc.

Definition peaks (size : Z) : result (list Z) :=
  if (size <? 0) || (size >=? MAX_MMR_SIZE) then Raise (invalid "invalid MMR size: {size}" [AInt size])
  else peaks_loop (S (Z.to_nat (Z.log2_up (size + 1)))) size size 0 None [].

Definition leaf_count (size : Z) : result Z :=
  pks ← peaks size;
  hs ← mapM height_at pks;
  Ok (foldr Z.add 0 ((fun h => 2 ^ h) <$> hs)).

Definition leaf_index_to_pos (leaf_index : Z) : result Z :=
  _ ← _require_nonneg_int leaf_index "leaf_index";
  pos ← node_count leaf_index;
  if pos >=? MAX_MMR_SIZE then Raise (invalid "leaf_index too large: {leaf_index}" [AInt leaf_index]) else Ok pos.

Record _PathStep := { sibling_pos : Z; target_is_right : bool; parent_pos : Z }.

(** The [for i, peak_pos in enumerate(peak_positions)] loop from index [i]. *)
Fixpoint find_peak_from (i pos : Z) (peak_positions : list Z) : result Z :=
  match peak_positions with
  | [] => Ok (-1)
  | peak_pos :: rest =>
      h ← height_at peak_pos;
      let m_size := 2 ^ (h + 1) - 1 in
      let start := peak_pos - m_size + 1 in
      if (start <=? pos) && (pos <=? peak_pos) then Ok i else find_peak_from (i + 1) pos rest
  end.
Definition _find_containing_peak (pos : Z) (peak_positions : list Z) : result Z :=
  find_peak_from 0 pos peak_positions.

(** [while cur_height > 0 and cur_root != target_pos]; [top_down] is the list
    the loop appends to. *)
Fixpoint locate_loop (cur_height : nat) (cur_root target_pos : Z) (top_down : list _PathStep) : list _PathStep :=
  match cur_height with
  | O => top_down
  | S cur_height' =>
      if cur_root =? target_pos then top_down
      else
        let parent_pos := cur_root in
        let left_size := 2 ^ Z.of_nat cur_height - 1 in
        let left_child_root := cur_root - left_size - 1 in
        let right_child_root := cur_root - 1 in
        if target_pos <=? left_child_root then
          locate_loop cur_height' left_child_root target_pos
            (top_down ++ [{| sibling_pos := right_child_root; target_is_right := false; parent_pos := parent_pos |}])
        else
          locate_loop cur_height' right_child_root target_pos
            (top_down ++ [{| sibling_pos := left_child_root; target_is_right := true; parent_pos := parent_pos |}])
  end.
Definition _locate_path (root_pos height target_pos : Z) : list _PathStep :=
  reverse (locate_loop (Z.to_nat height) root_pos target_pos []).

Definition _parse_digest_hex (h : json) : result bytes :=
  match h with
  | JStr h =>
      b ← fromhex h;
      if negb (zlen b =? DIGEST_LEN)
      then Raise (invalid "proof element has wrong digest length: {len(b)}" [AInt (zlen b)])
      else Ok b
  | _ => Raise (invalid "proof element is not a hex string" [])
  end.

(** ** Proof shapes *)

Module InclusionProof.
Record t := {
  v : Z; kind : json; size : Z; leaf_index : Z;
  witness : list json; peaks_left : list json; peaks_right : list json }.
End InclusionProof.

Module ConsistencyProof.
Record t := {
  v : Z; kind : json; size_a : Z; size_b : Z;
  old_peaks : list json; witness : list (list json); new_peaks : list json }.
End ConsistencyProof.

Module RangeProof.
Record t := {
  from_seq : Z; to_seq : Z; size : Z; from_index : Z; to_index : Z; witness : list json }.
End RangeProof.

(** [try: ... except Exception: return False] *)
Definition never_raises (m : result bool) : bool :=
  match m with Ok b => b | Raise _ => false end.

(** [if not ...: return False] inside the [try] *)
Definition guard_else_false (b : bool) (k : result bool) : result bool := if b then k else Ok false.

Section hashing.
Context `{Sha256}.

Definition leaf_hash (body_digest : bytes) : result bytes :=
  _ ← _assert_digest body_digest "body_digest";
  Ok (sha256 ([x00] ++ body_digest)).

Definition interior_hash (left right : bytes) (position : Z) : result bytes :=
  _ ← _assert_digest left "left";
  _ ← _assert_digest right "right";
  _ ← _require_nonneg_int position "position";
  pos_bytes ← to_bytes 8 (position + 1);
  Ok (sha256 (pos_bytes ++ left ++ right)).

(** The [while len(hashes) > 1] loop, on the list read from its end: [right]
    is popped first, the combination is pushed back. *)
Fixpoint bag (right : bytes) (rest : list bytes) : bytes :=
  match rest with
  | [] => right
  | left_ :: rest' => bag (sha256 (right ++ left_)) rest'
  end.

Definition root_from_peaks (peak_hashes : list bytes) : result bytes :=
  match peak_hashes with
  | [] => Ok (replicate 32 x00)
  | _ =>
      _ ← mapM (fun p => _assert_digest p "peak") peak_hashes;
      match reverse peak_hashes with
      | [] => Raise (IndexError (Msg "list index out of range" []))
      | last :: rest => Ok (bag last rest)
      end
  end.

(** The loop [for step, sib in zip(path, witness_bytes)]. *)
Fixpoint climb (acc : bytes) (path : list _PathStep) (witness_bytes : list bytes) : result bytes :=
  match path, witness_bytes with
  | step :: path, sib :: witness_bytes =>
      acc ← (if target_is_right step then interior_hash sib acc (parent_pos step)
             else interior_hash acc sib (parent_pos step));
      climb acc path witness_bytes
  | _, _ => Ok acc
  end.

(** The body of the [try] of [verify_inclusion]. *)
Definition inclusion_body (root : bytes) (size leaf_index : Z) (body_digest : bytes)
    (proof : InclusionProof.t) : result bool :=
  _ ← _assert_digest root "root";
  _ ← _assert_digest body_digest "body_digest";
  guard_else_false ((InclusionProof.v proof =? 1) && is_text (InclusionProof.kind proof) "inclusion") $
  guard_else_false ((InclusionProof.size proof =? size) && (InclusionProof.leaf_index proof =? leaf_index)) $
  guard_else_false (negb ((size <? 0) || (size >=? MAX_MMR_SIZE))) $
  guard_else_false (negb (leaf_index <? 0)) (
  lc ← leaf_count size;
  guard_else_false (negb (leaf_index >=? lc)) (
  leaf_pos ← leaf_index_to_pos leaf_index;
  pks ← peaks size;
  peak_idx ← _find_containing_peak leaf_pos pks;
  guard_else_false (negb (peak_idx =? -1)) (
  match pks !! Z.to_nat peak_idx with
  | None => Raise (IndexError (Msg "list index out of range" []))
  | Some peak_pos =>
      peak_height ← height_at peak_pos;
      let path := _locate_path peak_pos peak_height leaf_pos in
      guard_else_false (zlen (InclusionProof.witness proof) =? zlen path) $
      guard_else_false (zlen (InclusionProof.peaks_left proof) =? peak_idx) $
      guard_else_false (zlen (InclusionProof.peaks_right proof) =? zlen pks - peak_idx - 1) (
      witness_bytes ← mapM _parse_digest_hex (InclusionProof.witness proof);
      peaks_left_bytes ← mapM _parse_digest_hex (InclusionProof.peaks_left proof);
      peaks_right_bytes ← mapM _parse_digest_hex (InclusionProof.peaks_right proof);
      acc ← leaf_hash body_digest;
      acc ← climb acc path witness_bytes;
      computed_root ← root_from_peaks (peaks_left_bytes ++ [acc] ++ peaks_right_bytes);
      Ok (bool_decide (computed_root = root)))
  end))).

(** [proof] is [None] when the caller passes [None]. *)
Definition verify_inclusion (root : bytes) (size leaf_index : Z) (body_digest : bytes)
    (proof : option InclusionProof.t) : bool :=
  match proof with
  | None => false
  | Some proof => never_raises (inclusion_body root size leaf_index body_digest proof)
  end.

(** One round of [for i, p in enumerate(old_peak_positions)]: [None] when the
    round passes, [Some false] for [return False]. *)
Definition check_old_peak (new_peak_positions : list Z) (new_peaks_bytes : list bytes)
    (p : Z) (old_peak : bytes) (w : list json) : result bool :=
  containing_idx ← _find_containing_peak p new_peak_positions;
  guard_else_false (negb (containing_idx =? -1)) (
  match new_peak_positions !! Z.to_nat containing_idx, new_peaks_bytes !! Z.to_nat containing_idx with
  | Some new_peak_pos, Some new_peak =>
      new_peak_height ← height_at new_peak_pos;
      let path := _locate_path new_peak_pos new_peak_height p in
      guard_else_false (zlen w =? zlen path) (
      w_bytes ← mapM _parse_digest_hex w;
      acc ← climb old_peak path w_bytes;
      Ok (bool_decide (acc = new_peak)))
  | _, _ => Raise (IndexError (Msg "list index out of range" []))
  end).

Fixpoint check_old_peaks (new_peak_positions : list Z) (new_peaks_bytes : list bytes)
    (ps : list Z) (old_peaks_bytes : list bytes) (ws : list (list json)) : result bool :=
  match ps, old_peaks_bytes, ws with
  | [], _, _ => Ok true
  | p :: ps, old_peak :: old_peaks_bytes, w :: ws =>
      ok ← check_old_peak new_peak_positions new_peaks_bytes p old_peak w;
      guard_else_false ok (check_old_peaks new_peak_positions new_peaks_bytes ps old_peaks_bytes ws)
  | _, _, _ => Raise (IndexError (Msg "list index out of range" []))
  end.

Definition consistency_body (root_a : bytes) (size_a : Z) (root_b : bytes) (size_b : Z)
    (proof : ConsistencyProof.t) : result bool :=
  _ ← _assert_digest root_a "root_a";
  _ ← _assert_digest root_b "root_b";
  guard_else_false ((ConsistencyProof.v proof =? 1) && is_text (ConsistencyProof.kind proof) "consistency") $
  guard_else_false ((ConsistencyProof.size_a proof =? size_a) && (ConsistencyProof.size_b proof =? size_b)) $
  guard_else_false (negb (size_a <? 0)) $
  guard_else_false (negb (size_b <? size_a)) (
  old_peak_positions ← peaks size_a;
  new_peak_positions ← peaks size_b;
  guard_else_false (zlen (ConsistencyProof.old_peaks proof) =? zlen old_peak_positions) $
  guard_else_false (zlen (ConsistencyProof.new_peaks proof) =? zlen new_peak_positions) $
  guard_else_false (zlen (ConsistencyProof.witness proof) =? zlen old_peak_positions) (
  old_peaks_bytes ← mapM _parse_digest_hex (ConsistencyProof.old_peaks proof);
  new_peaks_bytes ← mapM _parse_digest_hex (ConsistencyProof.new_peaks proof);
  computed_a ← root_from_peaks old_peaks_bytes;
  guard_else_false (bool_decide (computed_a = root_a)) (
  computed_b ← root_from_peaks new_peaks_bytes;
  guard_else_false (bool_decide (computed_b = root_b))
  (check_old_peaks new_peak_positions new_peaks_bytes old_peak_positions old_peaks_bytes
     (ConsistencyProof.witness proof))))).

Definition verify_consistency (root_a : bytes) (size_a : Z) (root_b : bytes) (size_b : Z)
    (proof : option ConsistencyProof.t) : bool :=
  match proof with
  | None => false
  | Some proof => never_raises (consistency_body root_a size_a root_b size_b proof)
  end.

(** [cursor] is the shared one-element list of the source. *)
Fixpoint _reconstruct_range_subtree (pos : Z) (height : nat) (leaf_start lo hi : Z)
    (body_digests : gmap Z bytes) (witness_bytes : list bytes) (cursor : Z) : result (bytes * Z) :=
  let leaf_end := leaf_start + Z.shiftl 1 (Z.of_nat height) - 1 in
  if (leaf_end <? lo) || (leaf_start >? hi) then
    match witness_bytes !! Z.to_nat cursor with
    | None => Raise (invalid "range proof witness exhausted" [])
    | Some w => Ok (w, cursor + 1)
    end
  else
    match height with
    | O =>
        match body_digests !! leaf_start with
        | None => Raise KeyError
        | Some d => h ← leaf_hash d; Ok (h, cursor)
        end
    | S height' =>
        let half := Z.shiftl 1 (Z.of_nat height') in
        '(left_, cursor) ← _reconstruct_range_subtree (pos - Z.shiftl 1 (Z.of_nat height)) height'
          leaf_start lo hi body_digests witness_bytes cursor;
        '(right_, cursor) ← _reconstruct_range_subtree (pos - 1) height'
          (leaf_start + half) lo hi body_digests witness_bytes cursor;
        h ← interior_hash left_ right_ pos;
        Ok (h, cursor)
    end.

(** The loop [for p in pks]. *)
Fixpoint range_peaks (pks : list Z) (leaf_start lo hi : Z) (body_digests : gmap Z bytes)
    (witness_bytes : list bytes) (cursor : Z) : result (list bytes * Z) :=
  match pks with
  | [] => Ok ([], cursor)
  | p :: pks =>
      h ← height_at p;
      '(peak, cursor) ← _reconstruct_range_subtree p (Z.to_nat h) leaf_start lo hi body_digests witness_bytes cursor;
      '(reconstructed_peaks, cursor) ← range_peaks pks (leaf_start + Z.shiftl 1 h) lo hi body_digests witness_bytes cursor;
      Ok (peak :: reconstructed_peaks, cursor)
  end.

(** [{from_index + i: d for i, d in enumerate(body_digests)}] *)
Fixpoint digest_by_index (from_index : Z) (body_digests : list bytes) : gmap Z bytes :=
  match body_digests with
  | [] => ∅
  | d :: ds => <[from_index := d]> (digest_by_index (from_index + 1) ds)
  end.

Definition range_body (root : bytes) (from_seq to_seq : Z) (body_digests : list bytes)
    (proof : RangeProof.t) : result bool :=
  _ ← _assert_digest root "root";
  guard_else_false ((RangeProof.from_seq proof =? from_seq) && (RangeProof.to_seq proof =? to_seq)) $
  guard_else_false (negb ((from_seq <? 1) || (to_seq <? from_seq))) (
  lc ← leaf_count (RangeProof.size proof);
  guard_else_false (lc =? to_seq) (
  let size := RangeProof.size proof in
  let from_index := RangeProof.from_index proof in
  let to_index := RangeProof.to_index proof in
  guard_else_false ((from_index =? from_seq - 1) && (to_index =? to_seq - 1)) $
  guard_else_false (zlen body_digests =? to_index - from_index + 1) (
  _ ← mapM (fun d => _assert_digest d "body_digest") body_digests;
  witness_bytes ← mapM _parse_digest_hex (RangeProof.witness proof);
  pks ← peaks size;
  '(reconstructed_peaks, cursor) ← range_peaks pks 0 from_index to_index
    (digest_by_index from_index body_digests) witness_bytes 0;
  guard_else_false (cursor =? zlen witness_bytes) (
  computed_root ← root_from_peaks reconstructed_peaks;
  Ok (bool_decide (computed_root = root)))))).

Definition verify_range (root : bytes) (from_seq to_seq : Z) (body_digests : list bytes)
    (proof : option RangeProof.t) : bool :=
  match proof with
  | None => false
  | Some proof => never_raises (range_body root from_seq to_seq body_digests proof)
  end.
End hashing.

Example peaks_39 : peaks 39 = Ok [30; 37; 38].
Proof. vm_compute. reflexivity. Qed.
Example leaf_count_39 : leaf_count 39 = Ok 21.
Proof. vm_compute. reflexivity. Qed.
Example peaks_bad : is_ok (peaks 5) = false.
Proof. vm_compute. reflexivity. Qed.
