(* ===== verification/MmrShape.v ===== *)
(** * The shape of a Merkle mountain range

    Every node has coordinates: its height [h] and the index [F] of the first
    of the [2^h] leaves below it, a multiple of [2^h].  The position functions
    of [cll.py] are proved to compute with these coordinates. *)

From S2P Require Import Prelude PyRuntime Sha256 Cbor Json Mmr.

(** ** Powers of two with a natural exponent *)

Definition p2 (h : nat) : Z := 2 ^ Z.of_nat h.

Lemma p2_0 : p2 0 = 1.
Proof. done. Qed.

Lemma p2_S h : p2 (S h) = 2 * p2 h.
Proof. unfold p2. rewrite Nat2Z.inj_succ, Z.pow_succ_r by lia. lia. Qed.

Lemma p2_pos h : 0 < p2 h.
Proof. unfold p2. apply pow2_pos. lia. Qed.

Lemma p2_mono h k : (h ≤ k)%nat → p2 h ≤ p2 k.
Proof. intros. apply pow2_mono. lia. Qed.

Lemma p2_lt_inv h k : p2 h < p2 k → (h < k)%nat.
Proof. intros Hlt. unfold p2 in Hlt. apply pow2_lt_inv in Hlt; lia. Qed.

Lemma p2_of_Z h z : z = Z.of_nat h → 2 ^ z = p2 h.
Proof. by intros ->. Qed.

Lemma p2_divide h k : (h ≤ k)%nat → (p2 h | p2 k).
Proof. intros. exists (p2 (k - h)). unfold p2. rewrite <- Z.pow_add_r by lia. f_equal. lia. Qed.

#[export] Hint Resolve p2_pos p2_mono p2_divide : scitt.

(** ** Node counts *)

Lemma ones_double n : 0 ≤ n → count_ones (2 * n) = count_ones n.
Proof. by destruct n. Qed.

Lemma ones_double_1 n : 0 ≤ n → count_ones (2 * n + 1) = count_ones n + 1.
Proof. by destruct n. Qed.

Lemma ones_add k a g : 0 ≤ a → 0 ≤ g < p2 k → count_ones (a * p2 k + g) = count_ones a + count_ones g.
Proof.
  revert g. induction k as [|k IH]; intros g Ha Hg.
  - rewrite p2_0 in *. assert (g = 0) as -> by lia. cbn. rewrite Z.mul_1_r, !Z.add_0_r. done.
  - rewrite p2_S in *. pose proof (p2_pos k).
    destruct (Z.Even_or_Odd g) as [[g' ->]|[g' ->]].
    + replace (a * (2 * p2 k) + 2 * g') with (2 * (a * p2 k + g')) by lia.
      rewrite !ones_double, IH by lia. done.
    + replace (a * (2 * p2 k) + (2 * g' + 1)) with (2 * (a * p2 k + g') + 1) by lia.
      rewrite !ones_double_1, IH by lia. lia.
Qed.

Lemma ones_p2 k : count_ones (p2 k) = 1.
Proof. induction k as [|k IH]; [done|]. rewrite p2_S, ones_double by (pose proof (p2_pos k); lia). done. Qed.

Lemma pos_ones_succ p : pos_ones (Pos.succ p) ≤ pos_ones p + 1.
Proof. induction p; simpl Pos.succ; simpl pos_ones; lia. Qed.

Lemma pos_ones_le p : pos_ones p ≤ Z.pos p.
Proof. induction p; cbn [Pos.succ pos_ones]; lia. Qed.

(** Nodes of a range of [f] leaves. *)
Definition nodes (f : Z) : Z := 2 * f - count_ones f.

Lemma nodes_succ f : 0 ≤ f → nodes f < nodes (f + 1).
Proof.
  intros Hf. unfold nodes. destruct f as [|p|p]; [done| |lia].
  change (Z.pos p + 1) with (Z.pos (p + 1)). rewrite Pos.add_1_r. pose proof (pos_ones_succ p). cbn [count_ones]. lia.
Qed.

Lemma nodes_mono a b : 0 ≤ a → a ≤ b → nodes a + (b - a) ≤ nodes b.
Proof.
  intros Ha Hab.
  assert (∀ n, nodes a + Z.of_nat n ≤ nodes (a + Z.of_nat n)) as Hn.
  { induction n as [|n IH]; [replace (a + Z.of_nat 0) with a by lia; lia|]. pose proof (nodes_succ (a + Z.of_nat n) ltac:(lia)).
    rewrite Nat2Z.inj_succ. replace (a + Z.succ (Z.of_nat n)) with (a + Z.of_nat n + 1) by lia. lia. }
  specialize (Hn (Z.to_nat (b - a))). rewrite Z2Nat.id in Hn by lia.
  replace (a + (b - a)) with b in Hn by lia. lia.
Qed.

Lemma nodes_inj a b : 0 ≤ a → 0 ≤ b → nodes a = nodes b → a = b.
Proof.
  intros Ha Hb E. destruct (Z.lt_trichotomy a b) as [Hlt|[?|Hlt]]; [|done|].
  - pose proof (nodes_mono a b). lia.
  - pose proof (nodes_mono b a). lia.
Qed.

Lemma nodes_nonneg f : 0 ≤ f → f ≤ nodes f.
Proof. intros. pose proof (nodes_mono 0 f). change (nodes 0) with 0 in *. lia. Qed.

Lemma node_count_spec f : 0 ≤ f → node_count f = Ok (nodes f).
Proof. intros. unfold node_count, _require_nonneg_int. by replace (f <? 0) with false by lia. Qed.

(** ** Coordinates *)

Definition aligned (h : nat) (F : Z) : Prop := 0 ≤ F ∧ (p2 h | F).

Lemma aligned_le h k F : (h ≤ k)%nat → aligned k F → aligned h F.
Proof. intros ? [? ?]. split; [done|]. etrans; [by apply p2_divide|done]. Qed.

Lemma aligned_add h k F : (h ≤ k)%nat → aligned h F → aligned h (F + p2 k).
Proof.
  intros ? [? ?]. pose proof (p2_pos k). split; [lia|]. apply Z.divide_add_r; [done|by apply p2_divide].
Qed.

Lemma aligned_0 F : 0 ≤ F → aligned 0 F.
Proof. split; [done|]. rewrite p2_0. apply Z.divide_1_l. Qed.

Lemma aligned_zero h : aligned h 0.
Proof. split; [done|apply Z.divide_0_r]. Qed.

(** Two aligned indices are equal or a whole subtree apart. *)
Lemma aligned_lt h F G : aligned h F → aligned h G → F < G → F + p2 h ≤ G.
Proof.
  intros [_ [a ->]] [_ [b ->]] Hlt. pose proof (p2_pos h).
  apply Z.mul_lt_mono_pos_r in Hlt; [|done].
  pose proof (Z.mul_le_mono_nonneg_r (a + 1) b (p2 h) ltac:(lia) ltac:(lia)). lia.
Qed.

#[export] Hint Resolve aligned_zero aligned_0 : scitt.

Lemma nodes_add k F g : aligned k F → 0 ≤ g < p2 k → nodes (F + g) = nodes F + nodes g.
Proof.
  intros [HF [a ->]] Hg. pose proof (p2_pos k). unfold nodes. assert (0 ≤ a) by nia.
  rewrite ones_add by done. pose proof (ones_add k a 0 ltac:(done) ltac:(lia)) as E.
  rewrite Z.add_0_r in E. cbn in E. lia.
Qed.

Lemma nodes_p2 h : nodes (p2 h) = p2 (S h) - 1.
Proof. unfold nodes. rewrite ones_p2, p2_S. lia. Qed.

Lemma nodes_up h F : aligned (S h) F → nodes (F + p2 h) = nodes F + p2 (S h) - 1.
Proof.
  intros HF. rewrite (nodes_add (S h)), nodes_p2; [lia|done|]. rewrite p2_S. pose proof (p2_pos h). lia.
Qed.

(** The position of a node. *)
Definition root_pos (h : nat) (F : Z) : Z := nodes F + p2 (S h) - 2.

(** [(h, F)] lies in the subtree [(H, G)]. *)
Definition inside (h : nat) (F : Z) (H : nat) (G : Z) : Prop :=
  aligned h F ∧ aligned H G ∧ G ≤ F ∧ F + p2 h ≤ G + p2 H.

Lemma inside_height h F H G : inside h F H G → (h ≤ H)%nat ∧ (h = H → F = G).
Proof.
  intros (_ & _ & ? & ?). split; [|intros ->; lia].
  destruct (le_lt_dec h H); [done|]. assert (p2 (S H) ≤ p2 h) by (apply p2_mono; lia).
  rewrite p2_S in *. pose proof (p2_pos H). lia.
Qed.

(** A node strictly inside a subtree is inside one of its halves. *)
Lemma inside_split h F H G :
  inside h F (S H) G → h ≠ S H →
  (F < G + p2 H ∧ inside h F H G) ∨ (G + p2 H ≤ F ∧ inside h F H (G + p2 H)).
Proof.
  intros Hin Hne. pose proof (inside_height _ _ _ _ Hin) as [Hle _]. destruct Hin as (HF & HG & HGF & Hend).
  assert (aligned H G) by (eapply aligned_le; [|exact HG]; lia).
  assert (aligned H (G + p2 H)) by (by apply aligned_add).
  destruct (Z.lt_ge_cases F (G + p2 H)); [left|right]; (split; [done|]); split_and!; try done.
  - apply aligned_lt; [done| |done]. eapply aligned_le; [|eassumption]. lia.
  - rewrite p2_S in Hend. lia.
Qed.

Lemma root_pos_left H G : root_pos H G = root_pos (S H) G - p2 (S H).
Proof. unfold root_pos. rewrite !p2_S. lia. Qed.

Lemma root_pos_right H G : aligned (S H) G → root_pos H (G + p2 H) = root_pos (S H) G - 1.
Proof. intros. unfold root_pos. rewrite nodes_up by done. rewrite !p2_S. lia. Qed.

(** Positions of a subtree's nodes. *)
Lemma inside_range h F H G : inside h F H G → nodes G ≤ root_pos h F ≤ root_pos H G.
Proof.
  revert G. induction H as [|H IH]; intros G Hin.
  - pose proof (inside_height _ _ _ _ Hin) as [? Heq]. rewrite Heq by lia.
    assert (h = 0%nat) as -> by lia. unfold root_pos. rewrite p2_S, p2_0. lia.
  - destruct (decide (h = S H)) as [->|Hne].
    + pose proof (inside_height _ _ _ _ Hin) as [_ Heq]. rewrite Heq by lia.
      unfold root_pos. rewrite !p2_S. pose proof (p2_pos H). lia.
    + pose proof Hin as (_ & HG & _). destruct (inside_split _ _ _ _ Hin Hne) as [[_ Hin']|[_ Hin']]; apply IH in Hin'.
      * rewrite (root_pos_left H G) in Hin'. pose proof (p2_pos (S H)). lia.
      * rewrite root_pos_right in Hin' by done. rewrite nodes_up in Hin' by done. pose proof (p2_pos (S H)). lia.
Qed.

(** ** Heights *)

Lemma root_pos_top h F H : inside h F H 0 → root_pos h F + 1 ≤ p2 (S H) - 1.
Proof. intros Hin%inside_range. unfold root_pos in *. change (nodes 0) with 0 in Hin. lia. Qed.

Lemma inside_shift h F H G : inside h F H (G + p2 H) → aligned (S H) G → inside h (F - (G + p2 H)) H 0 .
Proof.
  intros Hin HG. pose proof (inside_height _ _ _ _ Hin) as [Hle _]. destruct Hin as (HF & HG' & ? & ?).
  split_and!; [|apply aligned_zero|lia..]. split; [lia|]. apply Z.divide_sub_r; [by destruct HF|].
  etrans; [by apply p2_divide|by destruct HG'].
Qed.

Lemma nodes_offset h F H : inside h F H (p2 H) → nodes F = nodes (F - p2 H) + (p2 (S H) - 1).
Proof.
  intros (HF & _ & ? & Hend). replace F with (p2 H + (F - p2 H)) at 1 by lia. pose proof (p2_pos h).
  rewrite (nodes_add H), nodes_p2; [lia| |lia]. rewrite <- (Z.add_0_l (p2 H)). apply aligned_add; [done|apply aligned_zero].
Qed.

Lemma descend_spec h F H : inside h F H 0 → descend H (root_pos h F + 1) = Z.of_nat h.
Proof.
  revert h F. induction H as [|H IH]; intros h F Hin.
  - pose proof (inside_height _ _ _ _ Hin). cbn. lia.
  - cbn [descend]. rewrite (p2_of_Z (S (S H))), (p2_of_Z (S H)) by lia.
    destruct (decide (h = S H)) as [->|Hne].
    + pose proof (inside_height _ _ _ _ Hin) as [_ Heq]. rewrite Heq by done.
      unfold root_pos. change (nodes 0) with 0. replace (_ =? _) with true by lia. done.
    + pose proof (p2_S (S H)). pose proof (p2_pos (S H)).
      destruct (inside_split _ _ _ _ Hin Hne) as [[_ Hin']|[_ Hin']]; rewrite ?Z.add_0_l in *.
      * pose proof (root_pos_top _ _ _ Hin').
        replace (_ =? _) with false by lia. replace (_ >? _) with false by lia. by apply IH.
      * pose proof (nodes_offset _ _ _ Hin') as Hn. pose proof (inside_range _ _ _ _ Hin') as Hr.
        rewrite <- (Z.add_0_l (p2 H)) in Hin'. apply inside_shift in Hin'; [|apply aligned_zero].
        rewrite Z.add_0_l in Hin'. pose proof (root_pos_top _ _ _ Hin') as Ht. pose proof (IH _ _ Hin') as IH'.
        rewrite nodes_p2 in Hr. unfold root_pos in *.
        replace (_ =? _) with false by lia. replace (_ >? _) with true by lia.
        rewrite <- IH'. f_equal. lia.
Qed.

Lemma grow_height_spec fuel (H : nat) pos1 :
  pos1 + 1 ≤ p2 (H + fuel + 1) →
  ∃ K : nat, grow_height fuel (Z.of_nat H) pos1 = Z.of_nat K ∧ pos1 ≤ p2 (S K) - 1.
Proof.
  revert H. induction fuel as [|fuel IH]; intros H Hf; cbn [grow_height].
  - exists H. split; [done|]. replace (H + 0 + 1)%nat with (S H) in Hf by lia. lia.
  - rewrite (p2_of_Z (S H)) by lia. destruct (Z.ltb_spec (p2 (S H) - 1) pos1).
    + replace (Z.of_nat H + 1) with (Z.of_nat (S H)) by lia. apply IH.
      by replace (S H + fuel + 1)%nat with (H + S fuel + 1)%nat by lia.
    + exists H. split; [done|lia].
Qed.

Lemma log2_up_fuel n : 1 < n → n ≤ p2 (Z.to_nat (Z.log2_up n)).
Proof.
  intros Hn. unfold p2. rewrite Z2Nat.id by apply Z.log2_up_nonneg. by apply Z.log2_up_spec.
Qed.

Lemma top_bound h F K : aligned h F → root_pos h F + 1 ≤ p2 (S K) - 1 → inside h F K 0.
Proof.
  intros HF Hr. split_and!; [done|apply aligned_zero|by destruct HF|]. rewrite Z.add_0_l.
  destruct (Z.le_gt_cases (F + p2 h) (p2 K)) as [|Hgt]; [done|exfalso].
  assert (0 ≤ F) by (by destruct HF). pose proof (nodes_nonneg F ltac:(done)). unfold root_pos in Hr.
  destruct (le_lt_dec h K) as [Hle|Hlt].
  - assert (p2 K ≤ F).
    { destruct (Z.lt_ge_cases F (p2 K)); [|done].
      assert (F + p2 h ≤ p2 K); [|lia]. apply aligned_lt; [done| |done].
      rewrite <- (Z.add_0_l (p2 K)). apply aligned_add; [done|apply aligned_zero]. }
    pose proof (nodes_mono (p2 K) F). rewrite nodes_p2 in *. pose proof (p2_pos K). pose proof (p2_pos h).
    rewrite !p2_S in *. lia.
  - pose proof (p2_mono (S K) h ltac:(lia)). rewrite !p2_S in *. pose proof (p2_pos K). lia.
Qed.

Lemma root_pos_nonneg h F : aligned h F → 0 ≤ root_pos h F.
Proof.
  intros [? _]. unfold root_pos. pose proof (nodes_nonneg F). rewrite p2_S. pose proof (p2_pos h). lia.
Qed.

Lemma height_at_root h F : aligned h F → height_at (root_pos h F) = Ok (Z.of_nat h).
Proof.
  intros HF. pose proof (root_pos_nonneg _ _ HF) as Hp. unfold height_at, _require_nonneg_int.
  replace (root_pos h F <? 0) with false by lia. cbn [mbind outcome_bind].
  destruct (grow_height_spec (Z.to_nat (Z.log2_up (root_pos h F + 1 + 1))) 0 (root_pos h F + 1)) as (K & HK & Hb).
  - pose proof (log2_up_fuel (root_pos h F + 1 + 1)). rewrite Nat.add_1_r, p2_S. cbn [Nat.add]. lia.
  - change (Z.of_nat 0) with 0 in HK. rewrite HK, Nat2Z.id. f_equal. apply descend_spec. by apply top_bound.
Qed.

(** ** Mountains

    The perfect trees of a range of [rem < 2^k] leaves that starts at leaf
    [F]: one per bit of [rem], highest first. *)
Fixpoint mountains (k : nat) (F rem : Z) : list (nat * Z) :=
  match k with
  | O => []
  | S k' =>
      if p2 k' <=? rem then (k', F) :: mountains k' (F + p2 k') (rem - p2 k')
      else mountains k' F rem
  end.

Definition positions (ms : list (nat * Z)) : list Z := (fun m => root_pos m.1 m.2) <$> ms.

Lemma mountains_rem k F rem : aligned k F → 0 ≤ rem < p2 k →
  Forall (fun m => aligned (S m.1) m.2 ∧ F ≤ m.2 ∧ m.2 + p2 m.1 ≤ F + rem ∧ (m.1 < k)%nat) (mountains k F rem).
Proof.
  revert F rem. induction k as [|k IH]; intros F rem HF Hrem; cbn; [constructor|].
  rewrite p2_S in Hrem. pose proof (p2_pos k). assert (aligned k F) by (eapply aligned_le; [|done]; lia).
  destruct (Z.leb_spec (p2 k) rem).
  - constructor; cbn; [split_and!; [done|lia..]|].
    eapply Forall_impl; [apply IH; [by apply aligned_add|lia]|]. cbn. intros m (? & ? & ? & ?). split_and!; [done|lia..].
  - eapply Forall_impl; [apply IH; [done|lia]|]. cbn. intros m (? & ? & ? & ?). split_and!; [done|lia..].
Qed.

Lemma mountains_more k j F rem : rem < p2 k → mountains (j + k) F rem = mountains k F rem.
Proof.
  intros Hrem. induction j as [|j IH]; [done|]. cbn.
  pose proof (p2_mono k (j + k) ltac:(lia)). by replace (p2 (j + k) <=? rem) with false by lia.
Qed.

Lemma mountain_height_spec fuel (h k : nat) remaining :
  p2 (S k) - 1 ≤ remaining < p2 (S (S k)) - 1 → (h ≤ k)%nat → (k ≤ h + fuel)%nat →
  mountain_height fuel (Z.of_nat h) remaining = Z.of_nat k.
Proof.
  intros Hr. revert h. induction fuel as [|fuel IH]; intros h Hh Hk; cbn; [f_equal; lia|].
  rewrite (p2_of_Z (S (S h))) by lia. destruct (Z.leb_spec (p2 (S (S h)) - 1) remaining) as [Hle|Hlt].
  - assert (h < k)%nat. { assert (p2 (S (S h)) < p2 (S (S k))) as Hl%p2_lt_inv by lia. lia. }
    replace (Z.of_nat h + 1) with (Z.of_nat (S h)) by lia. apply IH; lia.
  - f_equal. destruct (decide (h = k)) as [|Hne]; [done|]. pose proof (p2_mono (S (S h)) (S k) ltac:(lia)). lia.
Qed.

Lemma mountain_height_fuel k remaining :
  p2 (S k) - 1 ≤ remaining < p2 (S (S k)) - 1 →
  mountain_height (Z.to_nat (Z.log2_up (remaining + 1))) 0 remaining = Z.of_nat k.
Proof.
  intros Hr. apply (mountain_height_spec _ 0); [done|lia|].
  assert (p2 (S k) ≤ p2 (Z.to_nat (Z.log2_up (remaining + 1)))) as Hp.
  { pose proof (p2_S k). pose proof (p2_pos k). etrans; [|apply log2_up_fuel]; lia. }
  destruct (le_lt_dec (S k) (Z.to_nat (Z.log2_up (remaining + 1)))) as [|Hlt]; [lia|].
  pose proof (p2_mono _ _ Hlt). rewrite !p2_S in *. pose proof (p2_pos k). lia.
Qed.

(** A positive node count has a highest mountain. *)
Lemma top_mountain remaining : 0 < remaining → ∃ k, p2 (S k) - 1 ≤ remaining < p2 (S (S k)) - 1.
Proof.
  intros Hr. pose proof (Z.log2_spec (remaining + 1) ltac:(lia)) as [Hlo Hhi].
  pose proof (Z.log2_nonneg (remaining + 1)).
  assert (1 ≤ Z.log2 (remaining + 1)) by (apply Z.log2_le_pow2; [lia|]; change (2 ^ 1) with 2; lia).
  exists (Z.to_nat (Z.log2 (remaining + 1) - 1)).
  rewrite (p2_of_Z (S (Z.to_nat (Z.log2 (remaining + 1) - 1)))) in Hlo by lia.
  rewrite (p2_of_Z (S (S (Z.to_nat (Z.log2 (remaining + 1) - 1))))) in Hhi by lia. lia.
Qed.

Definition below (prev : option Z) (k : nat) : Prop :=
  match prev with Some p => Z.of_nat k ≤ p | None => True end.

(** The loop finds the mountains of [rem] leaves from leaf [F] on. *)
Lemma peaks_loop_complete k fuel size F rem prev acc :
  aligned k F → 0 ≤ rem < p2 k → below prev k → (k ≤ fuel)%nat →
  peaks_loop fuel size (nodes rem) (nodes F) prev acc = Ok (acc ++ positions (mountains k F rem)).
Proof.
  revert fuel F rem prev acc. induction k as [|k IH]; intros fuel F rem prev acc HF Hrem Hprev Hfuel.
  - rewrite p2_0 in Hrem. assert (rem = 0) as -> by lia. change (nodes 0) with 0.
    destruct fuel; cbn; by rewrite app_nil_r.
  - cbn [mountains]. assert (aligned k F) as HF' by (eapply aligned_le; [|done]; lia).
    rewrite p2_S in Hrem. pose proof (p2_pos k).
    destruct (Z.leb_spec (p2 k) rem) as [Hk|Hk].
    2: { apply IH; [done|lia| |lia]. destruct prev; cbn in *; [lia|done]. }
    destruct fuel as [|fuel]; [lia|]. cbn [peaks_loop].
    pose proof (nodes_mono (p2 k) rem ltac:(lia) ltac:(lia)) as Hlo. rewrite nodes_p2 in Hlo.
    pose proof (nodes_mono rem (p2 (S k)) ltac:(lia) ltac:(rewrite p2_S; lia)) as Hhi. rewrite nodes_p2 in Hhi.
    rewrite (mountain_height_fuel k) by (rewrite !p2_S in *; lia).
    replace (nodes rem >? 0) with true by (rewrite !p2_S in *; lia).
    replace (match prev with Some prev => Z.of_nat k >=? prev | None => false end) with false
      by (destruct prev; cbn in *; [lia|done]).
    rewrite (p2_of_Z (S k)) by lia.
    replace (nodes rem - (p2 (S k) - 1)) with (nodes (rem - p2 k)).
    2: { replace rem with (p2 k + (rem - p2 k)) at 2 by lia. rewrite (nodes_add k), nodes_p2; [lia| |lia].
         rewrite <- (Z.add_0_l (p2 k)). apply aligned_add; [done|apply aligned_zero]. }
    replace (nodes F + (p2 (S k) - 1)) with (nodes (F + p2 k)) by (rewrite nodes_up by done; lia).
    rewrite IH; [|by apply aligned_add|lia|cbn; lia|lia].
    cbn [positions fmap list_fmap fst snd]. rewrite <- app_assoc. cbn [app].
    unfold root_pos at 1. rewrite nodes_up by done.
    replace (nodes F + p2 (S k) - 1 - 1) with (nodes F + p2 (S k) - 2) by lia. done.
Qed.

(** Fuel for every mountain the loop can still find. *)
Definition fuel_ok (fuel : nat) (remaining : Z) (prev : option Z) : Prop :=
  match prev with
  | Some p => ∃ k : nat, p = Z.of_nat k ∧ (k < fuel)%nat
  | None => ∀ k : nat, p2 (S k) - 1 ≤ remaining → (S k < fuel)%nat
  end.

Lemma peaks_loop_sound fuel size remaining offset prev acc ps :
  0 ≤ remaining → fuel_ok fuel remaining prev →
  peaks_loop fuel size remaining offset prev acc = Ok ps →
  ∃ rem, 0 ≤ rem ∧ remaining = nodes rem ∧ match prev with Some p => rem < 2 ^ p | None => True end.
Proof.
  revert remaining offset prev acc. induction fuel as [|fuel IH]; intros remaining offset prev acc Hr Hfuel Hl.
  all: destruct (Z.eq_dec remaining 0) as [->|Hne];
    [exists 0; split_and!; [done|done|]; destruct prev as [p|]; [|done]; destruct Hfuel as (k & -> & _); by apply p2_pos|].
  all: destruct (top_mountain remaining ltac:(lia)) as [k Hk]; cbn [peaks_loop] in Hl.
  - exfalso. destruct prev as [p|]; cbn in Hfuel; [destruct Hfuel; lia|]. specialize (Hfuel k). lia.
  - replace (remaining >? 0) with true in Hl by lia. rewrite (mountain_height_fuel k) in Hl by done.
    rewrite (p2_of_Z (S k)) in Hl by lia.
    destruct (match prev with Some _ => _ | None => _ end) eqn:Hprev in Hl; [done|].
    apply IH in Hl as (rem & Hrem & E & Hb); [|lia|].
    + change (rem < p2 k) in Hb. exists (p2 k + rem). pose proof (p2_pos k). split_and!; [lia| |].
      * rewrite (nodes_add k), nodes_p2; [lia| |lia]. rewrite <- (Z.add_0_l (p2 k)).
        apply aligned_add; [done|apply aligned_zero].
      * destruct prev as [p|]; [|done]. destruct Hfuel as (j & -> & _). change (p2 k + rem < p2 j).
        pose proof (p2_mono (S k) j ltac:(lia)). rewrite p2_S in *. lia.
    + cbn. exists k. split; [done|]. destruct prev as [p|]; cbn in Hfuel; [destruct Hfuel; lia|].
      specialize (Hfuel k). lia.
Qed.

(** The mountains of a range of [f] leaves. *)
Definition mountains_of (f : Z) : list (nat * Z) := mountains (nbits f) 0 f.

Lemma nbits_bound f : 0 ≤ f → f < p2 (nbits f).
Proof.
  intros Hf. unfold p2, nbits. rewrite Z2Nat.id by (pose proof (Z.log2_nonneg f); lia).
  destruct (Z.eq_dec f 0) as [->|]; [done|]. pose proof (Z.log2_spec f ltac:(lia)). rewrite Z.add_1_r. lia.
Qed.

Lemma peaks_fuel f : 0 ≤ f → (nbits f ≤ S (Z.to_nat (Z.log2_up (nodes f + 1))))%nat.
Proof.
  intros Hf. pose proof (nodes_nonneg f Hf). unfold nbits.
  destruct (Z.eq_dec f 0) as [->|]; [vm_compute; lia|].
  pose proof (Z.log2_le_mono f (nodes f + 1)). pose proof (Z.le_log2_log2_up (nodes f + 1)).
  pose proof (Z.log2_nonneg f). lia.
Qed.

(** [peaks] succeeds exactly on the node counts below [MAX_MMR_SIZE], and
    returns the roots of the mountains. *)
Lemma peaks_spec size ps :
  peaks size = Ok ps ↔ ∃ f, 0 ≤ f ∧ size = nodes f ∧ size < MAX_MMR_SIZE ∧ ps = positions (mountains_of f).
Proof.
  assert (∀ f, 0 ≤ f → nodes f < MAX_MMR_SIZE → peaks (nodes f) = Ok (positions (mountains_of f))) as Hok.
  { intros f Hf Hmax. pose proof (nodes_nonneg f Hf). unfold peaks.
    replace ((nodes f <? 0) || (nodes f >=? MAX_MMR_SIZE)) with false by lia.
    pose proof (nbits_bound f Hf). pose proof (peaks_fuel f Hf).
    exact (peaks_loop_complete (nbits f) _ (nodes f) 0 f None [] (aligned_zero _) ltac:(lia) I ltac:(done)). }
  split.
  - intros Hp. unfold peaks in Hp. destruct (Z.ltb_spec size 0); [done|].
    destruct (size >=? MAX_MMR_SIZE) eqn:Hmax; [done|]. cbn [orb] in Hp. pose proof Hp as Hp'.
    apply peaks_loop_sound in Hp as (f & Hf & -> & _); [|lia|].
    + exists f. split_and!; [done|done|lia|]. specialize (Hok f Hf ltac:(lia)). unfold peaks in Hok.
      replace (nodes f <? 0) with false in Hok by lia. rewrite Hmax in Hok. cbn [orb] in Hok. congruence.
    + cbn. intros k Hk. assert (p2 (S k) ≤ p2 (Z.to_nat (Z.log2_up (size + 1)))) as Hle.
      { pose proof (p2_S k). pose proof (p2_pos k). etrans; [|apply log2_up_fuel]; lia. }
      destruct (le_lt_dec (S k) (Z.to_nat (Z.log2_up (size + 1)))) as [|Hlt]; [lia|].
      pose proof (p2_mono _ _ Hlt). rewrite !p2_S in *. pose proof (p2_pos k). lia.
  - intros (f & Hf & -> & Hmax & ->). by apply Hok.
Qed.

(** ** Leaves *)

Lemma sum_mountains k F rem : 0 ≤ rem < p2 k → foldr Z.add 0 ((fun m => p2 m.1) <$> mountains k F rem) = rem.
Proof.
  revert F rem. induction k as [|k IH]; intros F rem Hrem; cbn [mountains].
  - rewrite p2_0 in Hrem. cbn. lia.
  - rewrite p2_S in Hrem. destruct (Z.leb_spec (p2 k) rem); [|apply IH; lia].
    cbn [fmap list_fmap foldr fst]. change (foldr Z.add 0) with (foldr Z.add 0).
    specialize (IH (F + p2 k) (rem - p2 k) ltac:(lia)). cbn [fmap] in IH. rewrite IH. lia.
Qed.

Lemma heights_ok ms : Forall (fun m => aligned m.1 m.2) ms → mapM height_at (positions ms) = Ok ((fun m => Z.of_nat m.1) <$> ms).
Proof.
  intros Hms. apply mapM_ok. induction Hms as [|m ms Hm _ IH]; cbn; constructor; [|done]. by apply height_at_root.
Qed.

Lemma mountains_of_aligned f : 0 ≤ f →
  Forall (fun m => aligned (S m.1) m.2 ∧ 0 ≤ m.2 ∧ m.2 + p2 m.1 ≤ f) (mountains_of f).
Proof.
  intros Hf. pose proof (nbits_bound f Hf).
  eapply Forall_impl; [apply (mountains_rem (nbits f) 0 f); [apply aligned_zero|lia]|].
  cbn. intros m (? & ? & ? & ?). split_and!; [done|lia..].
Qed.

Lemma mountain_bound f m : 0 ≤ f → m ∈ mountains_of f → root_pos m.1 m.2 < nodes f.
Proof.
  intros Hf Hm. pose proof (mountains_of_aligned f Hf) as Ha. rewrite Forall_forall in Ha.
  destruct (Ha m Hm) as (Hal & ? & ?). pose proof (p2_pos m.1).
  pose proof (nodes_mono (m.2 + p2 m.1) f ltac:(lia) ltac:(lia)). rewrite nodes_up in * by done.
  unfold root_pos. lia.
Qed.

Lemma leaf_count_spec f : 0 ≤ f → nodes f < MAX_MMR_SIZE → leaf_count (nodes f) = Ok f.
Proof.
  intros Hf Hmax. unfold leaf_count. rewrite (proj2 (peaks_spec (nodes f) (positions (mountains_of f)))) by eauto.
  cbn [mbind outcome_bind]. rewrite heights_ok.
  - cbn [mbind outcome_bind]. rewrite <- list_fmap_compose. f_equal. apply sum_mountains.
    pose proof (nbits_bound f Hf). lia.
  - eapply Forall_impl; [by apply mountains_of_aligned|]. cbn. intros m (? & _). eapply aligned_le; [|done]. lia.
Qed.

Lemma leaf_index_to_pos_spec i : 0 ≤ i → nodes i < MAX_MMR_SIZE → leaf_index_to_pos i = Ok (root_pos 0 i).
Proof.
  intros Hi Hmax. unfold leaf_index_to_pos, _require_nonneg_int. replace (i <? 0) with false by lia.
  cbn [mbind outcome_bind]. rewrite node_count_spec by done. cbn [mbind outcome_bind].
  replace (nodes i >=? MAX_MMR_SIZE) with false by lia. f_equal. unfold root_pos. rewrite p2_S, p2_0. lia.
Qed.

(** ** The mountain over a node *)

Definition over (h : nat) (F : Z) (m : nat * Z) : Prop := inside h F m.1 m.2.

Lemma find_peak_spec k i h F G rem :
  aligned k G → 0 ≤ rem < p2 k → aligned h F → G ≤ F → F + p2 h ≤ G + rem →
  ∃ j m, find_peak_from i (root_pos h F) (positions (mountains k G rem)) = Ok (i + Z.of_nat j) ∧
    mountains k G rem !! j = Some m ∧ over h F m.
Proof.
  revert i G rem. induction k as [|k IH]; intros i G rem HG Hrem HF HGF Hend; pose proof (p2_pos h).
  { rewrite p2_0 in Hrem. lia. }
  rewrite p2_S in Hrem. pose proof (p2_pos k). assert (aligned k G) as HG' by (eapply aligned_le; [|done]; lia).
  cbn [mountains]. destruct (Z.leb_spec (p2 k) rem) as [Hk|Hk]; [|apply IH; (done || lia)].
  cbn [positions fmap list_fmap find_peak_from fst snd].
  rewrite height_at_root by done. cbn [mbind outcome_bind]. rewrite (p2_of_Z (S k)) by lia.
  assert (root_pos k G - (p2 (S k) - 1) + 1 = nodes G) as -> by (unfold root_pos; lia).
  destruct (Z.lt_ge_cases F (G + p2 k)) as [Hlt|Hge].
  - assert (inside h F k G) as Hin.
    { assert (h < S k)%nat by (apply p2_lt_inv; rewrite p2_S; lia).
      split_and!; [done..|]. apply aligned_lt; [done| |done]. eapply aligned_le; [|by apply (aligned_add k)]. lia. }
    pose proof (inside_range _ _ _ _ Hin).
    replace ((nodes G <=? root_pos h F) && (root_pos h F <=? root_pos k G)) with true by lia.
    exists 0%nat, (k, G). split_and!; [f_equal; lia|done|done].
  - pose proof (nodes_mono (G + p2 k) F ltac:(destruct HG; lia) ltac:(lia)) as Hn.
    rewrite nodes_up in Hn by done.
    assert (root_pos k G < root_pos h F) by (unfold root_pos; rewrite !p2_S in *; lia).
    replace ((nodes G <=? root_pos h F) && (root_pos h F <=? root_pos k G)) with false by lia.
    destruct (IH (i + 1) (G + p2 k) (rem - p2 k)) as (j & m & E & Hm & Hin);
      [by apply aligned_add|lia|done|lia|lia|].
    exists (S j), m. split_and!; [|done|done]. change (fmap _ (mountains _ _ _)) with (positions (mountains k (G + p2 k) (rem - p2 k))).
    rewrite E. f_equal. lia.
Qed.

Lemma _find_containing_peak_spec f h F :
  0 ≤ f → aligned h F → F + p2 h ≤ f →
  ∃ j m, _find_containing_peak (root_pos h F) (positions (mountains_of f)) = Ok (Z.of_nat j) ∧
    mountains_of f !! j = Some m ∧ over h F m.
Proof.
  intros Hf HF Hend. pose proof (nbits_bound f Hf).
  apply (find_peak_spec (nbits f) 0 h F 0 f); [apply aligned_zero|lia|done|by destruct HF|lia].
Qed.

(** ** The path from a subtree's root down to a node *)

Fixpoint steps (H : nat) (G : Z) (h : nat) (F : Z) : list _PathStep :=
  match H with
  | O => []
  | S H' =>
      if decide (h = S H') then []
      else if F <? G + p2 H' then
        {| sibling_pos := root_pos H' (G + p2 H'); target_is_right := false; parent_pos := root_pos (S H') G |}
          :: steps H' G h F
      else
        {| sibling_pos := root_pos H' G; target_is_right := true; parent_pos := root_pos (S H') G |}
          :: steps H' (G + p2 H') h F
  end.

Lemma locate_loop_spec h F H G acc :
  inside h F H G → locate_loop H (root_pos H G) (root_pos h F) acc = acc ++ steps H G h F.
Proof.
  revert G acc. induction H as [|H IH]; intros G acc Hin; cbn [locate_loop steps]; [by rewrite app_nil_r|].
  destruct (decide (h = S H)) as [->|Hne].
  - pose proof (inside_height _ _ _ _ Hin) as [_ Heq]. rewrite Heq, Z.eqb_refl by done. by rewrite app_nil_r.
  - rewrite (p2_of_Z (S H)) by lia. pose proof Hin as (_ & HG & _). pose proof (p2_pos (S H)).
    assert (root_pos (S H) G - (p2 (S H) - 1) - 1 = root_pos H G) as -> by (rewrite (root_pos_left H G); lia).
    rewrite <- (root_pos_right H G) by done.
    destruct (inside_split _ _ _ _ Hin Hne) as [[Hlt Hin']|[Hge Hin']]; pose proof (inside_range _ _ _ _ Hin') as Hr.
    + pose proof (root_pos_left H G).
      replace (root_pos (S H) G =? root_pos h F) with false by lia. replace (_ <=? _) with true by lia.
      replace (F <? G + p2 H) with true by lia. rewrite IH, <- app_assoc by done. done.
    + pose proof (root_pos_left H G). pose proof (root_pos_right H G HG). pose proof (nodes_up H G HG).
      assert (root_pos H G < root_pos h F) by (unfold root_pos in *; lia).
      replace (root_pos (S H) G =? root_pos h F) with false by lia. replace (_ <=? _) with false by lia.
      replace (F <? G + p2 H) with false by lia. rewrite IH, <- app_assoc by done. done.
Qed.

Lemma _locate_path_spec h F H G :
  inside h F H G → _locate_path (root_pos H G) (Z.of_nat H) (root_pos h F) = reverse (steps H G h F).
Proof. intros Hin. unfold _locate_path. by rewrite Nat2Z.id, locate_loop_spec. Qed.
