(* ===== verification/MmrTree.v ===== *)
(** * The hashes of a Merkle mountain range

    What the root over a list of leaf digests is, and what a fold along a
    path or a bagging of peaks says about it up to an exhibited collision. *)

From S2P Require Import Prelude PyRuntime Sha256 Cbor Json Mmr MmrShape.

Abbreviation digest := (fun b : bytes => length b = 32%nat).

Lemma zlen_digest b : zlen b = DIGEST_LEN ↔ digest b.
Proof. unfold zlen, DIGEST_LEN. lia. Qed.

Lemma assert_digest_ok d what u : _assert_digest d what = Ok u ↔ digest d.
Proof.
  unfold _assert_digest. rewrite <- zlen_digest. destruct (Z.eqb_spec (zlen d) DIGEST_LEN); cbn; [|by split].
  destruct u. by split.
Qed.

Lemma assert_digests_ok ds what u : mapM (fun d => _assert_digest d what) ds = Ok u → Forall digest ds.
Proof. intros H%mapM_ok. induction H; constructor; [by eapply assert_digest_ok|done]. Qed.

Lemma parse_digest_ok w b : _parse_digest_hex w = Ok b → digest b ∧ ∃ s, w = JStr s ∧ fromhex s = Ok b.
Proof.
  destruct w; try done. cbn. intros (b' & Hb & H)%bind_ok.
  destruct (Z.eqb_spec (zlen b') DIGEST_LEN) as [E|]; [|done]. injection H as <-.
  split; [by apply zlen_digest|eauto].
Qed.

Lemma parse_digests_ok ws bs : mapM _parse_digest_hex ws = Ok bs → Forall digest bs.
Proof. intros H%mapM_ok. induction H as [|???? H]; constructor; [by apply parse_digest_ok in H as []|done]. Qed.

Lemma parse_digest_hex b : digest b → _parse_digest_hex (JStr (hex b)) = Ok b.
Proof. intros Hb%zlen_digest. cbn. by rewrite fromhex_hex; cbn; rewrite Hb. Qed.

Lemma parse_digests_hex bs : Forall digest bs → mapM _parse_digest_hex ((fun b => JStr (hex b)) <$> bs) = Ok bs.
Proof. intros H. apply mapM_ok. induction H; cbn; constructor; [by apply parse_digest_hex|done]. Qed.

Section hashes.
Context `{Sha256}.

(** ** Subtrees *)

(** The preimage of the node [(h, F)] over the leaf digests [ds], and its hash. *)
Fixpoint node_hash (ds : list bytes) (h : nat) (F : Z) : bytes :=
  match h with
  | O => sha256 (x00 :: ds !!! Z.to_nat F)
  | S h' => sha256 (be_bytes 8 (root_pos h F + 1) ++ node_hash ds h' F ++ node_hash ds h' (F + p2 h'))
  end.

Definition node_input (ds : list bytes) (h : nat) (F : Z) : bytes :=
  match h with
  | O => x00 :: ds !!! Z.to_nat F
  | S h' => be_bytes 8 (root_pos h F + 1) ++ node_hash ds h' F ++ node_hash ds h' (F + p2 h')
  end.

(** Every preimage hashed below [(h, F)]. *)
Fixpoint node_inputs (ds : list bytes) (h : nat) (F : Z) : list bytes :=
  node_input ds h F ::
  match h with
  | O => []
  | S h' => node_inputs ds h' F ++ node_inputs ds h' (F + p2 h')
  end.

Lemma node_hash_input ds h F : node_hash ds h F = sha256 (node_input ds h F).
Proof. by destruct h. Qed.

Lemma node_hash_digest ds h F : digest (node_hash ds h F).
Proof. rewrite node_hash_input. apply sha256_length. Qed.

Lemma node_hash_leaves ds ds' h F :
  0 ≤ F → (∀ i, F ≤ i < F + p2 h → ds !!! Z.to_nat i = ds' !!! Z.to_nat i) → node_hash ds h F = node_hash ds' h F.
Proof.
  revert F. induction h as [|h IH]; intros F HF Hds; cbn.
  - rewrite Hds; [done|]. rewrite p2_0. lia.
  - rewrite p2_S in Hds. pose proof (p2_pos h). rewrite (IH F), (IH (F + p2 h)); try done; try lia; intros; apply Hds; lia.
Qed.

Lemma node_inputs_inside ds h F T G : inside h F T G → node_input ds h F ∈ node_inputs ds T G.
Proof.
  revert G. induction T as [|T IH]; intros G Hin; cbn [node_inputs].
  - pose proof (inside_height _ _ _ _ Hin) as [? Heq]. assert (h = 0%nat) as -> by lia. rewrite Heq by done. by left.
  - destruct (decide (h = S T)) as [->|Hne].
    + pose proof (inside_height _ _ _ _ Hin) as [_ Heq]. rewrite Heq by done. by left.
    + right. apply elem_of_app. destruct (inside_split _ _ _ _ Hin Hne) as [[_ Hin']|[_ Hin']]; auto.
Qed.

(** ** Interior hashes *)

Lemma interior_hash_ok l r pos h :
  interior_hash l r pos = Ok h ↔
  digest l ∧ digest r ∧ 0 ≤ pos < 2 ^ 64 - 1 ∧ h = sha256 (be_bytes 8 (pos + 1) ++ l ++ r).
Proof.
  unfold interior_hash, _require_nonneg_int, to_bytes. change (256 ^ Z.of_nat 8) with (2 ^ 64). split.
  - intros (? & Hl%assert_digest_ok & Hh)%bind_ok. apply bind_ok in Hh as (? & Hr%assert_digest_ok & Hh).
    apply bind_ok in Hh as (? & Hp & Hh). destruct (Z.ltb_spec pos 0); [done|].
    apply bind_ok in Hh as (pb & Hb & [= <-]). destruct (_ && _) eqn:Hr'; [|done]. injection Hb as <-.
    split_and!; [done|done|lia|lia|done].
  - intros (Hl & Hr & Hp & ->). rewrite (proj2 (assert_digest_ok _ _ ()) Hl), (proj2 (assert_digest_ok _ _ ()) Hr).
    cbn [mbind outcome_bind]. replace (pos <? 0) with false by lia. cbn [mbind outcome_bind].
    replace ((0 <=? pos + 1) && (pos + 1 <? 2 ^ 64)) with true by lia. done.
Qed.

Lemma interior_digest l r pos h : interior_hash l r pos = Ok h → digest h.
Proof. intros (_ & _ & _ & ->)%interior_hash_ok. apply sha256_length. Qed.

Lemma leaf_hash_ok d h : leaf_hash d = Ok h ↔ digest d ∧ h = sha256 (x00 :: d).
Proof.
  unfold leaf_hash. split.
  - intros (? & Hd%assert_digest_ok & [= <-])%bind_ok. done.
  - intros (Hd & ->). by rewrite (proj2 (assert_digest_ok _ _ ()) Hd).
Qed.

(** ** Climbing a path *)

Definition climb_step (acc : bytes) (s : _PathStep) (sib : bytes) : result bytes :=
  if target_is_right s then interior_hash sib acc (parent_pos s) else interior_hash acc sib (parent_pos s).

Definition step_input (acc : bytes) (s : _PathStep) (sib : bytes) : bytes :=
  be_bytes 8 (parent_pos s + 1) ++ (if target_is_right s then sib ++ acc else acc ++ sib).

(** The preimages [climb] hashes. *)
Fixpoint climb_inputs (acc : bytes) (path : list _PathStep) (ws : list bytes) : list bytes :=
  match path, ws with
  | s :: path, sib :: ws => step_input acc s sib :: climb_inputs (sha256 (step_input acc s sib)) path ws
  | _, _ => []
  end.

Lemma climb_step_ok acc s sib h :
  climb_step acc s sib = Ok h → digest acc ∧ digest sib ∧ h = sha256 (step_input acc s sib).
Proof. unfold climb_step, step_input. by destruct (target_is_right s); intros (? & ? & _ & ->)%interior_hash_ok. Qed.

Lemma climb_snoc acc path ws s sib :
  length path = length ws →
  climb acc (path ++ [s]) (ws ++ [sib]) = climb acc path ws ≫= (fun c => climb_step c s sib).
Proof.
  intros Hl. revert acc. apply Forall2_same_length in Hl.
  induction Hl as [|s' w path ws _ _ IH]; intros acc; cbn.
  - unfold climb_step. by destruct (if target_is_right s then _ else _).
  - by destruct (if target_is_right s' then _ else _); cbn.
Qed.

Lemma climb_inputs_snoc acc path ws s sib c :
  length path = length ws → climb acc path ws = Ok c →
  climb_inputs acc (path ++ [s]) (ws ++ [sib]) = climb_inputs acc path ws ++ [step_input c s sib].
Proof.
  intros Hl. revert acc. apply Forall2_same_length in Hl.
  induction Hl as [|s' w path ws _ _ IH]; intros acc Hc; cbn [climb climb_inputs app] in *; [by injection Hc as ->|].
  apply bind_ok in Hc as (a & Ha & Hc). apply (climb_step_ok acc s' w a) in Ha as (_ & _ & ->).
  by rewrite (IH _ Hc).
Qed.

Lemma climb_digest acc path ws c : digest acc → climb acc path ws = Ok c → digest c.
Proof.
  revert acc ws. induction path as [|s path IH]; intros acc [|w ws] Hacc Hc; cbn in Hc; try by injection Hc as <-.
  apply bind_ok in Hc as (a & Ha & Hc). apply (climb_step_ok acc s w a) in Ha as (_ & _ & ->).
  eapply IH; [|done]. apply sha256_length.
Qed.

(** Siblings beside the path, from the top. *)
Fixpoint siblings (ds : list bytes) (T : nat) (G : Z) (h : nat) (F : Z) : list bytes :=
  match T with
  | O => []
  | S T' =>
      if decide (h = S T') then []
      else if F <? G + p2 T' then node_hash ds T' (G + p2 T') :: siblings ds T' G h F
      else node_hash ds T' G :: siblings ds T' (G + p2 T') h F
  end.

Lemma siblings_length ds T G h F : length (siblings ds T G h F) = length (steps T G h F).
Proof.
  revert G. induction T as [|T IH]; intros G; cbn; [done|].
  destruct (decide _); [done|]. destruct (_ <? _); cbn; by rewrite IH.
Qed.

Lemma siblings_digest ds T G h F : Forall digest (siblings ds T G h F).
Proof.
  revert G. induction T as [|T IH]; intros G; cbn; [constructor|].
  destruct (decide _); [constructor|]. destruct (_ <? _); constructor; auto using node_hash_digest.
Qed.

Lemma steps_self T G F : steps T G T F = [].
Proof. destruct T; cbn; [done|]. by destruct (decide _). Qed.

(** Climbing the honest siblings rebuilds the subtree. *)
Lemma climb_honest ds T G h F :
  inside h F T G → root_pos T G < 2 ^ 64 - 1 →
  climb (node_hash ds h F) (reverse (steps T G h F)) (reverse (siblings ds T G h F)) = Ok (node_hash ds T G).
Proof.
  revert G. induction T as [|T IH]; intros G Hin Hpos.
  - pose proof (inside_height _ _ _ _ Hin) as [? Heq]. assert (h = 0%nat) as -> by lia. by rewrite Heq.
  - pose proof (inside_height _ _ _ _ Hin) as [_ Heq]. cbn [steps siblings].
    destruct (decide (h = S T)) as [->|Hne]; [by rewrite Heq|]. pose proof Hin as (_ & HG & _).
    pose proof (root_pos_left T G). pose proof (root_pos_right T G HG). pose proof (p2_pos (S T)).
    pose proof (root_pos_nonneg (S T) G HG).
    destruct (inside_split _ _ _ _ Hin Hne) as [[Hlt Hin']|[Hge Hin']].
    + replace (F <? G + p2 T) with true by lia. rewrite !reverse_cons, climb_snoc
        by (by rewrite !length_reverse, siblings_length).
      rewrite IH by (done || lia). cbn [mbind outcome_bind]. unfold climb_step. cbn [target_is_right parent_pos].
      apply interior_hash_ok. split_and!; auto using node_hash_digest.
    + replace (F <? G + p2 T) with false by lia. rewrite !reverse_cons, climb_snoc
        by (by rewrite !length_reverse, siblings_length).
      rewrite IH by (done || lia). cbn [mbind outcome_bind]. unfold climb_step. cbn [target_is_right parent_pos].
      apply interior_hash_ok. split_and!; auto using node_hash_digest.
Qed.

(** A path that climbs to a subtree's hash starts from the node's hash. *)
Lemma climb_sound ds S T G h F acc ws :
  inside h F T G → digest acc → length ws = length (steps T G h F) →
  climb acc (reverse (steps T G h F)) ws = Ok (node_hash ds T G) →
  climb_inputs acc (reverse (steps T G h F)) ws ⊆ S → node_inputs ds T G ⊆ S →
  acc = node_hash ds h F ∨ collision S.
Proof.
  revert G ws. induction T as [|T IH]; intros G ws Hin Hacc Hlen Hc HV HT.
  - pose proof (inside_height _ _ _ _ Hin) as [? Heq]. assert (h = 0%nat) as -> by lia. left.
    rewrite Heq by done. by injection Hc.
  - pose proof (inside_height _ _ _ _ Hin) as [_ Heq]. cbn [steps] in *.
    destruct (decide (h = Datatypes.S T)) as [->|Hne]; [left; rewrite Heq by done; by injection Hc|].
    assert (∃ s rest, (if F <? G + p2 T then
        {| sibling_pos := root_pos T (G + p2 T); target_is_right := false; parent_pos := root_pos (Datatypes.S T) G |} :: steps T G h F
      else {| sibling_pos := root_pos T G; target_is_right := true; parent_pos := root_pos (Datatypes.S T) G |} :: steps T (G + p2 T) h F)
      = s :: rest) as (s & rest & Es) by (destruct (_ <? _); eauto).
    rewrite Es in *. destruct ws as [|sib ws _] using rev_ind; [done|].
    rewrite length_app, Nat.add_1_r in Hlen. injection Hlen as Hlen.
    rewrite reverse_cons in Hc, HV. rewrite climb_snoc in Hc by (by rewrite length_reverse).
    apply bind_ok in Hc as (c & Hc & Hs).
    rewrite (climb_inputs_snoc _ _ _ _ _ c) in HV by (done || by rewrite length_reverse).
    pose proof (climb_step_ok _ _ _ _ Hs) as (Hdc & Hdsib & Heqh). cbn [node_hash] in Heqh.
    cbn [node_inputs] in HT. cbn [node_input] in HT.
    assert (Hpre := sha256_eq S _ _ Heqh ltac:(set_solver) ltac:(set_solver)).
    destruct Hpre as [Hpre|]; [|by right]. unfold step_input in Hpre.
    apply app_eq_l in Hpre as [_ Hpre]; [|by rewrite !length_be_bytes].
    destruct (inside_split _ _ _ _ Hin Hne) as [[Hlt Hin']|[Hge Hin']].
    + replace (F <? G + p2 T) with true in Es by lia. injection Es as <- <-. cbn [target_is_right] in Hpre.
      apply app_eq_l in Hpre as [E _]; [|pose proof (node_hash_digest ds T G); cbn in *; congruence].
      apply (IH G ws); [done..|by rewrite E|set_solver|set_solver].
    + replace (F <? G + p2 T) with false in Es by lia. injection Es as <- <-. cbn [target_is_right] in Hpre.
      apply app_eq_r in Hpre as [_ E]; [|pose proof (node_hash_digest ds T (G + p2 T)); cbn in *; congruence].
      apply (IH (G + p2 T) ws); [done..|by rewrite E|set_solver|set_solver].
Qed.

(** ** Bagging *)

Definition bagged (ps : list bytes) : bytes :=
  match reverse ps with [] => replicate 32 x00 | last :: rest => bag last rest end.

Fixpoint bag_loop_inputs (right : bytes) (rest : list bytes) : list bytes :=
  match rest with
  | [] => []
  | l :: rest' => (right ++ l) :: bag_loop_inputs (sha256 (right ++ l)) rest'
  end.
Definition bag_inputs (ps : list bytes) : list bytes :=
  match reverse ps with [] => [] | last :: rest => bag_loop_inputs last rest end.

Lemma root_from_peaks_ok ps r : root_from_peaks ps = Ok r ↔ Forall digest ps ∧ r = bagged ps.
Proof.
  destruct ps as [|p ps]; [cbn; split; [by intros [= <-]|by intros [_ ->]]|].
  unfold root_from_peaks, bagged. split.
  - intros (u & Hd%assert_digests_ok & Hr)%bind_ok. split; [done|]. destruct (reverse _); [done|by injection Hr].
  - intros [Hd ->]. assert (mapM (fun d => _assert_digest d "peak") (p :: ps) = Ok ((fun _ => ()) <$> (p :: ps))) as ->.
    { apply mapM_ok. induction Hd; constructor; [by apply assert_digest_ok|done]. }
    cbn [mbind outcome_bind]. destruct (reverse (p :: ps)) eqn:E; [|done].
    apply (f_equal length) in E. rewrite length_reverse in E. done.
Qed.

Lemma bag_digest r ps : digest r → digest (bag r ps).
Proof. revert r. induction ps as [|p ps IH]; intros r Hr; [done|]. apply IH, sha256_length. Qed.

Lemma bagged_digest ps : Forall digest ps → digest (bagged ps).
Proof.
  intros Hps. unfold bagged. apply Forall_reverse in Hps.
  destruct (reverse ps) as [|l rest]; [done|]. apply bag_digest. by inversion Hps.
Qed.

Lemma bag_inj S r ps r' ps' :
  length ps = length ps' → digest r → digest r' → bag r ps = bag r' ps' →
  bag_loop_inputs r ps ⊆ S → bag_loop_inputs r' ps' ⊆ S → (r = r' ∧ ps = ps') ∨ collision S.
Proof.
  intros Hl. revert r r'. apply Forall2_same_length in Hl.
  induction Hl as [|l l' ps ps' _ _ IH]; intros r r' Hr Hr' E HS HS'; cbn [bag bag_loop_inputs] in *; [by left|].
  destruct (IH _ _ (sha256_length _) (sha256_length _) E) as [[Heq ->]|]; [set_solver..| |by right].
  destruct (sha256_eq S _ _ Heq) as [Hpre|]; [set_solver..| |by right].
  left. apply app_eq_l in Hpre as [-> ->]; [done|congruence].
Qed.

(** Equally many peaks with one root are equal, or a collision is exhibited. *)
Lemma bagged_inj S ps qs :
  length ps = length qs → Forall digest ps → Forall digest qs → bagged ps = bagged qs →
  bag_inputs ps ⊆ S → bag_inputs qs ⊆ S → ps = qs ∨ collision S.
Proof.
  intros Hl Hps%Forall_reverse Hqs%Forall_reverse. unfold bagged, bag_inputs.
  rewrite <- (length_reverse ps), <- (length_reverse qs) in Hl. intros E HS HS'.
  rewrite <- (reverse_involutive ps), <- (reverse_involutive qs).
  destruct (reverse ps) as [|p ps'], (reverse qs) as [|q qs']; try done; [by left|].
  injection Hl as Hl. inversion Hps; inversion Hqs; subst.
  destruct (bag_inj S p ps' q qs') as [[-> ->]|]; auto.
Qed.

(** ** The root *)

Definition mountain_hash (ds : list bytes) (m : nat * Z) : bytes := node_hash ds m.1 m.2.
Definition mmr_peaks (ds : list bytes) (f : Z) : list bytes := mountain_hash ds <$> mountains_of f.

(** The root over the leaf digests [ds]. *)
Definition mmr_root (ds : list bytes) : bytes := bagged (mmr_peaks ds (zlen ds)).

(** Every preimage hashed to compute it. *)
Definition mmr_inputs (ds : list bytes) : list bytes :=
  concat ((fun m => node_inputs ds m.1 m.2) <$> mountains_of (zlen ds)) ++ bag_inputs (mmr_peaks ds (zlen ds)).

Lemma mmr_peaks_digest ds f : Forall digest (mmr_peaks ds f).
Proof. apply Forall_fmap, Forall_true. intros m. apply node_hash_digest. Qed.

Lemma mmr_inputs_mountain ds m : m ∈ mountains_of (zlen ds) → node_inputs ds m.1 m.2 ⊆ mmr_inputs ds.
Proof.
  intros Hm x Hx. unfold mmr_inputs. apply elem_of_app. left.
  apply list_elem_of_In, in_concat. exists (node_inputs ds m.1 m.2).
  split; apply list_elem_of_In; [|done]. apply list_elem_of_fmap. eauto.
Qed.

Lemma mmr_inputs_bag ds : bag_inputs (mmr_peaks ds (zlen ds)) ⊆ mmr_inputs ds.
Proof. unfold mmr_inputs. set_solver. Qed.

(** The peaks of an extended log below the old size are the old peaks. *)
Lemma mmr_peaks_take ds f : 0 ≤ f ≤ zlen ds → mmr_peaks (take (Z.to_nat f) ds) f = mmr_peaks ds f.
Proof.
  intros Hf. apply list_fmap_ext. intros j m Hm%list_elem_of_lookup_2.
  pose proof (mountains_of_aligned f ltac:(lia)) as Ha. rewrite Forall_forall in Ha.
  destruct (Ha m Hm) as (_ & ? & ?). apply node_hash_leaves; [lia|]. intros i Hi.
  rewrite !list_lookup_total_alt, lookup_take_lt by lia. done.
Qed.
End hashes.
