(* ===== verification/MmrInclusion.v ===== *)
(** * Inclusion in a Merkle mountain range

    [verify_inclusion] of [cll.py] accepts the honest proof of every leaf and
    nothing but leaves of the log under the root, up to a collision. *)

From S2P Require Import Prelude PyRuntime Sha256 Cbor Json Mmr MmrShape MmrTree.

Lemma guard_ok b k : guard_else_false b k = Ok true ↔ b = true ∧ k = Ok true.
Proof. destruct b; cbn; [by split; [intros|intros []]|]. by split; [|intros [[=] _]]. Qed.

Lemma never_raises_true m : never_raises m = true ↔ m = Ok true.
Proof. destruct m as [[]|]; by cbn. Qed.

Section inclusion.
Context `{Sha256}.

(** The preimages an accepting run of [verify_inclusion] hashes. *)
Definition inclusion_inputs (size leaf_index : Z) (body : bytes) (p : InclusionProof.t) : list bytes :=
  match
    leaf_pos ← leaf_index_to_pos leaf_index;
    pks ← peaks size;
    idx ← _find_containing_peak leaf_pos pks;
    peak_height ← height_at (pks !!! Z.to_nat idx);
    ws ← mapM _parse_digest_hex (InclusionProof.witness p);
    pl ← mapM _parse_digest_hex (InclusionProof.peaks_left p);
    pr ← mapM _parse_digest_hex (InclusionProof.peaks_right p);
    let path := _locate_path (pks !!! Z.to_nat idx) peak_height leaf_pos in
    acc ← climb (sha256 (x00 :: body)) path ws;
    Ok ((x00 :: body) :: climb_inputs (sha256 (x00 :: body)) path ws ++ bag_inputs (pl ++ [acc] ++ pr))
  with Ok l => l | Raise _ => [] end.

Lemma leaf_count_inv size lc : leaf_count size = Ok lc → ∃ f, 0 ≤ f ∧ size = nodes f ∧ nodes f < MAX_MMR_SIZE ∧ lc = f.
Proof.
  intros Hlc. pose proof Hlc as (pks & (f & Hf & -> & Hmax & _)%peaks_spec & _)%bind_ok.
  rewrite leaf_count_spec in Hlc by done. injection Hlc as <-. eauto.
Qed.

(** What an acceptance says about the proof. *)
Lemma mmr_verify_inclusion_true root size i body proof :
  verify_inclusion root size i body proof = true →
  ∃ p f j m ws pl pr acc, proof = Some p ∧ 0 ≤ i < f ∧ size = nodes f ∧
    mountains_of f !! j = Some m ∧ over 0 i m ∧
    length ws = length (steps m.1 m.2 0 i) ∧ length pl = j ∧ length (pl ++ [acc] ++ pr) = length (mountains_of f) ∧
    digest body ∧ Forall digest (pl ++ [acc] ++ pr) ∧
    climb (sha256 (x00 :: body)) (reverse (steps m.1 m.2 0 i)) ws = Ok acc ∧ root = bagged (pl ++ [acc] ++ pr) ∧
    inclusion_inputs size i body p =
      (x00 :: body) :: climb_inputs (sha256 (x00 :: body)) (reverse (steps m.1 m.2 0 i)) ws ++ bag_inputs (pl ++ [acc] ++ pr).
Proof.
  destruct proof as [p|]; [|done]. cbn [verify_inclusion]. rewrite never_raises_true. unfold inclusion_body.
  intros (? & _ & Hv)%bind_ok. apply bind_ok in Hv as (? & Hbody%assert_digest_ok & Hv).
  apply guard_ok in Hv as [_ Hv]. apply guard_ok in Hv as [_ Hv]. apply guard_ok in Hv as [_ Hv].
  apply guard_ok in Hv as [Hi Hv]. apply bind_ok in Hv as (lc & Hlc & Hv).
  apply guard_ok in Hv as [Hlt Hv]. apply leaf_count_inv in Hlc as (f & Hf & -> & Hmax & ->).
  assert (0 ≤ i < f) as Hif by lia. pose proof (nodes_mono i f ltac:(lia) ltac:(lia)).
  rewrite leaf_index_to_pos_spec in Hv by lia. cbn [mbind outcome_bind] in Hv.
  assert (peaks (nodes f) = Ok (positions (mountains_of f))) as Hpk by (apply peaks_spec; eauto).
  rewrite Hpk in Hv. cbn [mbind outcome_bind] in Hv.
  destruct (_find_containing_peak_spec f 0 i Hf) as (j & m & Hfind & Hm & Hover);
    [apply aligned_0; lia|rewrite p2_0; lia|].
  rewrite Hfind in Hv. cbn [mbind outcome_bind] in Hv. apply guard_ok in Hv as [_ Hv]. rewrite Nat2Z.id in Hv.
  assert (positions (mountains_of f) !! j = Some (root_pos m.1 m.2)) as Hpos
    by (unfold positions; by rewrite list_lookup_fmap, Hm).
  rewrite Hpos in Hv. pose proof Hover as (_ & Hal & _).
  rewrite height_at_root in Hv by done. cbn [mbind outcome_bind] in Hv. cbv zeta in Hv.
  rewrite _locate_path_spec in Hv by done.
  apply guard_ok in Hv as [Hlw Hv]. apply guard_ok in Hv as [Hll Hv]. apply guard_ok in Hv as [Hlr Hv].
  apply bind_ok in Hv as (ws & Hws & Hv). apply bind_ok in Hv as (pl & Hpl & Hv). apply bind_ok in Hv as (pr & Hpr & Hv).
  apply bind_ok in Hv as (l & (_ & ->)%leaf_hash_ok & Hv). apply bind_ok in Hv as (acc & Hacc & Hv).
  apply bind_ok in Hv as (r & (Hds & ->)%root_from_peaks_ok & [= <-%bool_decide_eq_true_1]).
  exists p, f, j, m, ws, pl, pr, acc.
  pose proof (mapM_ok_length _ _ _ Hws). pose proof (mapM_ok_length _ _ _ Hpl). pose proof (mapM_ok_length _ _ _ Hpr).
  unfold zlen in *. rewrite length_reverse in Hlw. unfold positions in Hlr. rewrite length_fmap in Hlr.
  apply lookup_lt_Some in Hm as Hjl.
  split_and!; try done; try lia.
  - rewrite !length_app. cbn [length]. lia.
  - unfold inclusion_inputs. rewrite leaf_index_to_pos_spec, Hpk by lia. cbn [mbind outcome_bind].
    rewrite Hfind. cbn [mbind outcome_bind].
    rewrite Nat2Z.id, (list_lookup_total_correct _ _ _ Hpos), height_at_root by done. cbn [mbind outcome_bind].
    rewrite Hws, Hpl, Hpr. cbn [mbind outcome_bind]. rewrite _locate_path_spec by done. by rewrite Hacc.
Qed.

(** [mmr_inclusion_sound], for the theorems that build on it. *)
Lemma inclusion_opens (ds : list bytes) i body proof :
  verify_inclusion (mmr_root ds) (nodes (zlen ds)) i body (Some proof) = true →
  0 ≤ i ∧ (ds !! Z.to_nat i = Some body ∨
           collision (inclusion_inputs (nodes (zlen ds)) i body proof ++ mmr_inputs ds)).
Proof.
  intros (p & f & j & m & ws & pl & pr & acc & [= <-] & Hi & Hsz & Hm & Hover & Hws & Hpl & Hlen & Hbody & Hds & Hc & Hroot & ->)%mmr_verify_inclusion_true.
  split; [lia|]. pose proof (zlen_nonneg ds). apply nodes_inj in Hsz as <-; [|lia..].
  set (S := _ ++ mmr_inputs ds). pose proof (list_elem_of_lookup_2 _ _ _ Hm) as Hin.
  pose proof (mmr_inputs_mountain ds m Hin). pose proof (mmr_inputs_bag ds).
  destruct (bagged_inj S (mmr_peaks ds (zlen ds)) (pl ++ [acc] ++ pr)) as [Heq|];
    [by rewrite Hlen; apply length_fmap|apply mmr_peaks_digest|done|done|set_solver|set_solver| |by right].
  assert (acc = mountain_hash ds m) as ->.
  { apply (f_equal (lookup j)) in Heq. unfold mmr_peaks in Heq. rewrite list_lookup_fmap, Hm in Heq.
    rewrite lookup_app_r, <- Hpl, Nat.sub_diag in Heq by lia. by injection Heq. }
  destruct (climb_sound ds S m.1 m.2 0 i (sha256 (x00 :: body)) ws) as [Heql|];
    [done|apply sha256_length|done|done|set_solver|set_solver| |by right].
  cbn [node_hash] in Heql. destruct (sha256_eq S _ _ Heql) as [Hpre|]; [set_solver| | |by right].
  - enough ((x00 :: ds !!! Z.to_nat i) ∈ node_inputs ds m.1 m.2) by set_solver.
    by apply (node_inputs_inside ds 0 i).
  - left. injection Hpre as ->. apply list_lookup_lookup_total_lt. unfold zlen in *. lia.
Qed.

(** C11: an inclusion proof accepted against the root and size of a log opens
    the digest at the claimed leaf index of that log, up to a collision among
    the preimages the verifier and the log hash. *)
Theorem mmr_inclusion_sound (ds : list bytes) i body proof :
  verify_inclusion (mmr_root ds) (nodes (zlen ds)) i body (Some proof) = true →
  0 ≤ i ∧ (ds !! Z.to_nat i = Some body ∨
           collision (inclusion_inputs (nodes (zlen ds)) i body proof ++ mmr_inputs ds)).
Proof. apply inclusion_opens. Qed.

(** The proof an honest producer makes for leaf [i]. *)
Definition honest_inclusion (ds : list bytes) (i : Z) : InclusionProof.t :=
  let f := zlen ds in
  let j := match _find_containing_peak (root_pos 0 i) (positions (mountains_of f)) with
           | Ok j => Z.to_nat j | Raise _ => 0%nat end in
  let m := mountains_of f !!! j in
  let texts (bs : list bytes) := (fun b => JStr (hex b)) <$> bs in
  {| InclusionProof.v := 1; InclusionProof.kind := JStr "inclusion"; InclusionProof.size := nodes f;
     InclusionProof.leaf_index := i;
     InclusionProof.witness := texts (reverse (siblings ds m.1 m.2 0 i));
     InclusionProof.peaks_left := texts (take j (mmr_peaks ds f));
     InclusionProof.peaks_right := texts (drop (S j) (mmr_peaks ds f)) |}.

(** C26: the honest proof of every leaf of every log of digests whose node
    count is below [MAX_MMR_SIZE] is accepted. *)
Theorem mmr_inclusion_complete (ds : list bytes) i :
  Forall digest ds → 0 ≤ i < zlen ds → nodes (zlen ds) < MAX_MMR_SIZE →
  verify_inclusion (mmr_root ds) (nodes (zlen ds)) i (ds !!! Z.to_nat i) (Some (honest_inclusion ds i)) = true.
Proof.
  intros Hds Hi Hmax. set (f := zlen ds) in *. assert (0 ≤ f) as Hf by lia.
  destruct (_find_containing_peak_spec f 0 i Hf) as (j & m & Hfind & Hm & Hover);
    [apply aligned_0; lia|rewrite p2_0; lia|].
  assert (peaks (nodes f) = Ok (positions (mountains_of f))) as Hpk by (apply peaks_spec; eauto).
  assert (positions (mountains_of f) !! j = Some (root_pos m.1 m.2)) as Hpos
    by (unfold positions; by rewrite list_lookup_fmap, Hm).
  pose proof Hover as (_ & Hal & _). pose proof (lookup_lt_Some _ _ _ Hm) as Hj.
  assert (digest (ds !!! Z.to_nat i)) as Hleaf.
  { rewrite Forall_forall in Hds. apply Hds, list_elem_of_lookup_total_2. unfold f, zlen in *. lia. }
  pose proof (nodes_mono i f ltac:(lia) ltac:(lia)).
  pose proof (mountain_bound f m Hf (list_elem_of_lookup_2 _ _ _ Hm)).
  assert (root_pos m.1 m.2 < 2 ^ 64 - 1) as Hbound by (unfold MAX_MMR_SIZE in Hmax; lia).
  cbn [verify_inclusion]. rewrite never_raises_true. unfold inclusion_body, honest_inclusion.
  change (zlen ds) with f. rewrite Hfind, Nat2Z.id, (list_lookup_total_correct _ _ _ Hm).
  cbn [InclusionProof.v InclusionProof.kind InclusionProof.size InclusionProof.leaf_index InclusionProof.witness
       InclusionProof.peaks_left InclusionProof.peaks_right].
  rewrite (proj2 (assert_digest_ok (mmr_root ds) _ ())) by (apply bagged_digest, mmr_peaks_digest).
  rewrite (proj2 (assert_digest_ok _ _ ()) Hleaf). cbn [mbind outcome_bind].
  pose proof (nodes_nonneg f Hf). rewrite !Z.eqb_refl.
  repeat (rewrite guard_ok; split; [lia || done|]).
  rewrite leaf_count_spec by done. cbn [mbind outcome_bind]. rewrite guard_ok. split; [lia|].
  rewrite leaf_index_to_pos_spec, Hpk by lia. cbn [mbind outcome_bind]. rewrite Hfind. cbn [mbind outcome_bind].
  rewrite guard_ok. split; [lia|]. rewrite Nat2Z.id, Hpos, height_at_root by done. cbn [mbind outcome_bind]. cbv zeta.
  rewrite _locate_path_spec by done. unfold zlen. rewrite !length_fmap, !length_reverse, siblings_length.
  rewrite length_take, length_drop. unfold mmr_peaks at 1 2. unfold positions. rewrite !length_fmap.
  rewrite guard_ok. split; [apply Z.eqb_refl|]. do 2 (rewrite guard_ok; split; [apply Z.eqb_eq; lia|]).
  rewrite (parse_digests_hex (reverse _)) by apply Forall_reverse, siblings_digest.
  rewrite !parse_digests_hex by auto using Forall_take, Forall_drop, mmr_peaks_digest.
  cbn [mbind outcome_bind]. assert (leaf_hash (ds !!! Z.to_nat i) = Ok (node_hash ds 0 i)) as -> by (by apply leaf_hash_ok).
  cbn [mbind outcome_bind]. rewrite climb_honest by done.
  cbn [mbind outcome_bind].
  assert (take j (mmr_peaks ds f) ++ [node_hash ds m.1 m.2] ++ drop (S j) (mmr_peaks ds f) = mmr_peaks ds f) as ->.
  { apply take_drop_middle. unfold mmr_peaks. by rewrite list_lookup_fmap, Hm. }
  rewrite (proj2 (root_from_peaks_ok _ _)) by (split; [apply mmr_peaks_digest|done]).
  cbn [mbind outcome_bind]. by rewrite bool_decide_eq_true_2.
Qed.
End inclusion.

(** ** Witnesses *)

Module MmrInclusionWitness.
Definition ds : list bytes := (fun b => repeat b 32) <$> [x01; x02; x03; x04; x05].
End MmrInclusionWitness.

Lemma mmr_inclusion_complete_witness :
  verify_inclusion (H := Toy.instance) (mmr_root (H := Toy.instance) MmrInclusionWitness.ds) 8 2 (repeat x03 32)
    (Some (honest_inclusion (H := Toy.instance) MmrInclusionWitness.ds 2)) = true.
Proof.
  apply (mmr_inclusion_complete (H := Toy.instance) MmrInclusionWitness.ds 2);
    [repeat constructor|vm_compute; split; [discriminate|reflexivity]|vm_compute; reflexivity].
Defined.

Lemma mmr_inclusion_sound_witness :
  0 ≤ 2 ∧ (MmrInclusionWitness.ds !! 2%nat = Some (repeat x03 32) ∨
    collision (H := Toy.instance)
      (inclusion_inputs (H := Toy.instance) 8 2 (repeat x03 32) (honest_inclusion (H := Toy.instance) MmrInclusionWitness.ds 2)
       ++ mmr_inputs (H := Toy.instance) MmrInclusionWitness.ds)).
Proof. apply (mmr_inclusion_sound (H := Toy.instance) MmrInclusionWitness.ds 2). vm_compute. reflexivity. Defined.
