(* ===== verification/MmrConsistency.v ===== *)
(** * Consistency of two Merkle mountain ranges

    [verify_consistency] of [cll.py] accepts the honest proof between any two
    sizes of a log, and an accepted proof makes the old root the root of the
    log's first leaves, up to a collision. *)

From S2P Require Import Prelude PyRuntime Sha256 Cbor Json Mmr MmrShape MmrTree MmrInclusion.

Section consistency.
Context `{Sha256}.

(** The preimages hashed for one old peak. *)
Definition old_peak_inputs (new_positions : list Z) (p : Z) (old_peak : bytes) (w : list json) : list bytes :=
  match
    idx ← _find_containing_peak p new_positions;
    h ← height_at (new_positions !!! Z.to_nat idx);
    ws ← mapM _parse_digest_hex w;
    Ok (climb_inputs old_peak (_locate_path (new_positions !!! Z.to_nat idx) h p) ws)
  with Ok l => l | Raise _ => [] end.

Fixpoint old_peaks_inputs (new_positions : list Z) (ps : list Z) (olds : list bytes) (ws : list (list json)) : list bytes :=
  match ps, olds, ws with
  | p :: ps, old_peak :: olds, w :: ws =>
      old_peak_inputs new_positions p old_peak w ++ old_peaks_inputs new_positions ps olds ws
  | _, _, _ => []
  end.

(** The preimages an accepting run of [verify_consistency] hashes. *)
Definition consistency_inputs (size_a size_b : Z) (p : ConsistencyProof.t) : list bytes :=
  match
    old_positions ← peaks size_a;
    new_positions ← peaks size_b;
    olds ← mapM _parse_digest_hex (ConsistencyProof.old_peaks p);
    news ← mapM _parse_digest_hex (ConsistencyProof.new_peaks p);
    Ok (bag_inputs olds ++ bag_inputs news ++
        old_peaks_inputs new_positions old_positions olds (ConsistencyProof.witness p))
  with Ok l => l | Raise _ => [] end.

(** A mountain of the old range inside the new one. *)
Definition within (g : Z) (m : nat * Z) : Prop := aligned m.1 m.2 ∧ m.2 + p2 m.1 ≤ g.

Lemma mountains_within f g : 0 ≤ f ≤ g → Forall (within g) (mountains_of f).
Proof.
  intros Hf. eapply Forall_impl; [apply (mountains_of_aligned f); lia|]. cbn. intros m (? & ? & ?).
  split; [|lia]. eapply aligned_le; [|done]. lia.
Qed.

Lemma check_old_peak_sound ds S m old_peak w :
  within (zlen ds) m → digest old_peak →
  check_old_peak (positions (mountains_of (zlen ds))) (mmr_peaks ds (zlen ds)) (root_pos m.1 m.2) old_peak w = Ok true →
  old_peak_inputs (positions (mountains_of (zlen ds))) (root_pos m.1 m.2) old_peak w ⊆ S → mmr_inputs ds ⊆ S →
  old_peak = mountain_hash ds m ∨ collision S.
Proof.
  intros [Hal Hend] Hd Hc HV HT. pose proof (zlen_nonneg ds) as Hf.
  destruct (_find_containing_peak_spec (zlen ds) m.1 m.2 Hf Hal Hend) as (j & M & Hfind & HM & Hover).
  unfold check_old_peak in Hc. unfold old_peak_inputs in HV. rewrite Hfind in Hc, HV.
  cbn [mbind outcome_bind] in Hc, HV. rewrite Nat2Z.id in Hc, HV.
  assert (positions (mountains_of (zlen ds)) !! j = Some (root_pos M.1 M.2)) as Hpos
    by (unfold positions; by rewrite list_lookup_fmap, HM).
  apply guard_ok in Hc as [_ Hc]. rewrite (list_lookup_total_correct _ _ _ Hpos) in HV. rewrite Hpos in Hc.
  unfold mmr_peaks in Hc at 1. rewrite list_lookup_fmap, HM in Hc. cbn [fmap option_fmap option_map] in Hc.
  pose proof Hover as (_ & HalM & _). rewrite height_at_root in Hc, HV by done. cbn [mbind outcome_bind] in Hc, HV.
  cbv zeta in Hc. rewrite _locate_path_spec in Hc, HV by done. apply guard_ok in Hc as [Hlen Hc].
  apply bind_ok in Hc as (ws & Hws & Hc). rewrite Hws in HV. cbn [mbind outcome_bind] in HV.
  apply bind_ok in Hc as (acc & Hacc & [= ->%bool_decide_eq_true_1]).
  pose proof (mapM_ok_length _ _ _ Hws). pose proof (mmr_inputs_mountain ds M (list_elem_of_lookup_2 _ _ _ HM)).
  apply (climb_sound ds S M.1 M.2 m.1 m.2 old_peak ws); [done|done| |done|done|set_solver].
  unfold zlen in Hlen. rewrite length_reverse in Hlen. lia.
Qed.

Lemma check_old_peaks_sound ds S ms olds ws :
  Forall (within (zlen ds)) ms → Forall digest olds → length olds = length ms →
  check_old_peaks (positions (mountains_of (zlen ds))) (mmr_peaks ds (zlen ds)) (positions ms) olds ws = Ok true →
  old_peaks_inputs (positions (mountains_of (zlen ds))) (positions ms) olds ws ⊆ S → mmr_inputs ds ⊆ S →
  olds = mountain_hash ds <$> ms ∨ collision S.
Proof.
  intros Hms. revert olds ws. induction Hms as [|m ms Hm _ IH]; intros [|old olds] ws Hd Hlen Hc HV HT; try done; [by left|].
  cbn [positions fmap list_fmap check_old_peaks] in Hc. destruct ws as [|w ws]; [done|].
  cbn [positions fmap list_fmap old_peaks_inputs] in HV.
  apply bind_ok in Hc as (ok & Hok & Hc). apply guard_ok in Hc as [-> Hc]. inversion Hd; subst. injection Hlen as Hlen.
  destruct (check_old_peak_sound ds S m old w) as [->|]; [done..|set_solver|done| |by right].
  destruct (IH olds ws) as [->|]; [done..|set_solver|done|by left|by right].
Qed.

Lemma mmr_verify_consistency_true root_a size_a root_b size_b p :
  verify_consistency root_a size_a root_b size_b (Some p) = true →
  ∃ f g olds news, 0 ≤ f ≤ g ∧ size_a = nodes f ∧ size_b = nodes g ∧
    peaks size_a = Ok (positions (mountains_of f)) ∧ peaks size_b = Ok (positions (mountains_of g)) ∧
    Forall digest olds ∧ Forall digest news ∧
    length olds = length (mountains_of f) ∧ length news = length (mountains_of g) ∧
    root_a = bagged olds ∧ root_b = bagged news ∧
    check_old_peaks (positions (mountains_of g)) news (positions (mountains_of f)) olds (ConsistencyProof.witness p) = Ok true ∧
    consistency_inputs size_a size_b p =
      bag_inputs olds ++ bag_inputs news ++
      old_peaks_inputs (positions (mountains_of g)) (positions (mountains_of f)) olds (ConsistencyProof.witness p).
Proof.
  cbn [verify_consistency]. rewrite never_raises_true. unfold consistency_body, consistency_inputs.
  intros (? & _ & Hv)%bind_ok. apply bind_ok in Hv as (? & _ & Hv).
  apply guard_ok in Hv as [_ Hv]. apply guard_ok in Hv as [_ Hv]. apply guard_ok in Hv as [_ Hv].
  apply guard_ok in Hv as [Hle Hv]. apply bind_ok in Hv as (pa & Hpa & Hv). apply bind_ok in Hv as (pb & Hpb & Hv).
  pose proof Hpa as (f & Hf & -> & _ & ->)%peaks_spec. pose proof Hpb as (g & Hg & -> & _ & ->)%peaks_spec.
  apply guard_ok in Hv as [Hla Hv]. apply guard_ok in Hv as [Hlb Hv]. apply guard_ok in Hv as [_ Hv].
  apply bind_ok in Hv as (olds & Holds & Hv). apply bind_ok in Hv as (news & Hnews & Hv).
  apply bind_ok in Hv as (ra & (Hda & ->)%root_from_peaks_ok & Hv). apply guard_ok in Hv as [Hra%bool_decide_eq_true_1 Hv].
  apply bind_ok in Hv as (rb & (Hdb & ->)%root_from_peaks_ok & Hv). apply guard_ok in Hv as [Hrb%bool_decide_eq_true_1 Hv].
  pose proof (mapM_ok_length _ _ _ Holds). pose proof (mapM_ok_length _ _ _ Hnews).
  unfold zlen, positions in Hla, Hlb. rewrite length_fmap in Hla, Hlb.
  exists f, g, olds, news. rewrite Hpa, Hpb, Holds, Hnews. split_and!; try done; try lia.
  destruct (Z.le_gt_cases f g) as [|Hgt]; [done|]. pose proof (nodes_mono g f). lia.
Qed.

(** [mmr_consistency_sound], for the theorems that build on it. *)
Lemma consistency_extends (ds : list bytes) root_a size_a proof :
  verify_consistency root_a size_a (mmr_root ds) (nodes (zlen ds)) (Some proof) = true →
  ∃ f, 0 ≤ f ≤ zlen ds ∧ size_a = nodes f ∧
    (root_a = mmr_root (take (Z.to_nat f) ds) ∨
     collision (consistency_inputs size_a (nodes (zlen ds)) proof ++ mmr_inputs ds)).
Proof.
  intros (f & g & olds & news & Hfg & -> & Hsz & _ & _ & Hda & Hdb & Hla & Hlb & -> & Hrb & Hc & ->)%mmr_verify_consistency_true.
  pose proof (zlen_nonneg ds). apply nodes_inj in Hsz as <-; [|lia..]. exists f. split; [done|]. split; [done|].
  set (S := _ ++ mmr_inputs ds). pose proof (mmr_inputs_bag ds).
  destruct (bagged_inj S (mmr_peaks ds (zlen ds)) news) as [<-|];
    [by rewrite Hlb; apply length_fmap|apply mmr_peaks_digest|done|done|set_solver|set_solver| |by right].
  destruct (check_old_peaks_sound ds S (mountains_of f) olds (ConsistencyProof.witness proof)) as [->|];
    [by apply mountains_within|done..|set_solver|set_solver| |by right].
  left. unfold mmr_root. rewrite zlen_take, Z.min_l by lia. by rewrite mmr_peaks_take.
Qed.

(** C12: a consistency proof accepted against the root and size of a log makes
    the older size the node count of one of its prefixes and the older root
    that prefix's root, up to a collision among the preimages hashed: a log
    that was rewound or rewritten below the older size is detected. *)
Theorem mmr_consistency_sound (ds : list bytes) root_a size_a proof :
  verify_consistency root_a size_a (mmr_root ds) (nodes (zlen ds)) (Some proof) = true →
  ∃ f, 0 ≤ f ≤ zlen ds ∧ size_a = nodes f ∧
    (root_a = mmr_root (take (Z.to_nat f) ds) ∨
     collision (consistency_inputs size_a (nodes (zlen ds)) proof ++ mmr_inputs ds)).
Proof. apply consistency_extends. Qed.

(** The witness of one old mountain in the log [ds]. *)
Definition honest_witness (ds : list bytes) (m : nat * Z) : list json :=
  let ms := mountains_of (zlen ds) in
  let j := match _find_containing_peak (root_pos m.1 m.2) (positions ms) with Ok j => Z.to_nat j | Raise _ => 0%nat end in
  let M := ms !!! j in
  (fun b => JStr (hex b)) <$> reverse (siblings ds M.1 M.2 m.1 m.2).

(** The proof an honest producer makes between [f] leaves and the log. *)
Definition honest_consistency (ds : list bytes) (f : Z) : ConsistencyProof.t :=
  {| ConsistencyProof.v := 1; ConsistencyProof.kind := JStr "consistency";
     ConsistencyProof.size_a := nodes f; ConsistencyProof.size_b := nodes (zlen ds);
     ConsistencyProof.old_peaks := (fun b => JStr (hex b)) <$> mmr_peaks ds f;
     ConsistencyProof.witness := honest_witness ds <$> mountains_of f;
     ConsistencyProof.new_peaks := (fun b => JStr (hex b)) <$> mmr_peaks ds (zlen ds) |}.

Lemma zlen_positions ms : zlen (positions ms) = zlen ms.
Proof. apply zlen_fmap. Qed.

Lemma zlen_mmr_peaks ds f : zlen (mmr_peaks ds f) = zlen (mountains_of f).
Proof. apply zlen_fmap. Qed.

Lemma check_old_peak_complete ds m :
  nodes (zlen ds) < MAX_MMR_SIZE → within (zlen ds) m →
  check_old_peak (positions (mountains_of (zlen ds))) (mmr_peaks ds (zlen ds)) (root_pos m.1 m.2)
    (mountain_hash ds m) (honest_witness ds m) = Ok true.
Proof.
  intros Hmax [Hal Hend]. pose proof (zlen_nonneg ds) as Hf.
  destruct (_find_containing_peak_spec (zlen ds) m.1 m.2 Hf Hal Hend) as (j & M & Hfind & HM & Hover).
  unfold check_old_peak, honest_witness. rewrite Hfind. cbn [mbind outcome_bind].
  rewrite guard_ok. split; [apply negb_true_iff, Z.eqb_neq; lia|]. rewrite Nat2Z.id, (list_lookup_total_correct _ _ _ HM).
  assert (positions (mountains_of (zlen ds)) !! j = Some (root_pos M.1 M.2)) as ->
    by (unfold positions; by rewrite list_lookup_fmap, HM).
  unfold mmr_peaks at 1. rewrite list_lookup_fmap, HM. cbn [fmap option_fmap option_map].
  pose proof Hover as (_ & HalM & _). rewrite height_at_root by done. cbn [mbind outcome_bind]. cbv zeta.
  rewrite _locate_path_spec by done. rewrite guard_ok. split.
  { unfold zlen. rewrite !length_fmap, !length_reverse, siblings_length. apply Z.eqb_refl. }
  rewrite parse_digests_hex by apply Forall_reverse, siblings_digest. cbn [mbind outcome_bind].
  pose proof (mountain_bound _ M Hf (list_elem_of_lookup_2 _ _ _ HM)).
  unfold mountain_hash. rewrite climb_honest by (done || unfold MAX_MMR_SIZE in Hmax; lia).
  cbn [mbind outcome_bind]. by rewrite bool_decide_eq_true_2.
Qed.

Lemma check_old_peaks_complete ds ms :
  nodes (zlen ds) < MAX_MMR_SIZE → Forall (within (zlen ds)) ms →
  check_old_peaks (positions (mountains_of (zlen ds))) (mmr_peaks ds (zlen ds)) (positions ms)
    (mountain_hash ds <$> ms) (honest_witness ds <$> ms) = Ok true.
Proof.
  intros Hmax Hms. induction Hms as [|m ms Hm _ IH]; [done|].
  cbn [positions fmap list_fmap check_old_peaks]. rewrite check_old_peak_complete by done.
  cbn [mbind outcome_bind guard_else_false]. exact IH.
Qed.

(** C27: between every prefix of a log and the log itself the honest proof is
    accepted, the empty prefix and the whole log included, as long as the log
    has fewer than [MAX_MMR_SIZE] nodes. *)
Theorem mmr_consistency_complete (ds : list bytes) f :
  0 ≤ f ≤ zlen ds → nodes (zlen ds) < MAX_MMR_SIZE →
  verify_consistency (mmr_root (take (Z.to_nat f) ds)) (nodes f) (mmr_root ds) (nodes (zlen ds))
    (Some (honest_consistency ds f)) = true.
Proof.
  intros Hf Hmax. assert (mmr_root (take (Z.to_nat f) ds) = bagged (mmr_peaks ds f)) as ->.
  { unfold mmr_root. rewrite zlen_take, Z.min_l by lia. by rewrite mmr_peaks_take. }
  pose proof (nodes_mono f (zlen ds) ltac:(lia) ltac:(lia)). pose proof (nodes_nonneg f ltac:(lia)).
  cbn [verify_consistency]. rewrite never_raises_true. unfold consistency_body, honest_consistency.
  cbn [ConsistencyProof.v ConsistencyProof.kind ConsistencyProof.size_a ConsistencyProof.size_b
       ConsistencyProof.old_peaks ConsistencyProof.witness ConsistencyProof.new_peaks].
  rewrite !(proj2 (assert_digest_ok _ _ ())) by (apply bagged_digest, mmr_peaks_digest).
  cbn [mbind outcome_bind]. rewrite !Z.eqb_refl.
  repeat (rewrite guard_ok; split; [lia || done|]).
  rewrite (proj2 (peaks_spec (nodes f) _)) by (exists f; split_and!; (done || lia)).
  rewrite (proj2 (peaks_spec (nodes (zlen ds)) _)) by (exists (zlen ds); split_and!; (done || lia)).
  cbn [mbind outcome_bind]. rewrite !zlen_fmap, !zlen_positions, !zlen_mmr_peaks, !Z.eqb_refl.
  do 3 (rewrite guard_ok; split; [done|]).
  rewrite !parse_digests_hex by apply mmr_peaks_digest. cbn [mbind outcome_bind].
  rewrite !(proj2 (root_from_peaks_ok _ _)) by (split; [apply mmr_peaks_digest|done]).
  cbn [mbind outcome_bind]. rewrite guard_ok. split; [by apply bool_decide_eq_true_2|].
  rewrite guard_ok. split; [by apply bool_decide_eq_true_2|].
  apply check_old_peaks_complete; [done|]. by apply mountains_within.
Qed.
End consistency.

(** ** Witnesses *)

Lemma mmr_consistency_complete_witness :
  verify_consistency (H := Toy.instance) (mmr_root (H := Toy.instance) (take 3 MmrInclusionWitness.ds)) 4
    (mmr_root (H := Toy.instance) MmrInclusionWitness.ds) 8
    (Some (honest_consistency (H := Toy.instance) MmrInclusionWitness.ds 3)) = true.
Proof.
  apply (mmr_consistency_complete (H := Toy.instance) MmrInclusionWitness.ds 3);
    [vm_compute; split; discriminate|vm_compute; reflexivity].
Defined.

Lemma mmr_consistency_sound_witness :
  ∃ f, 0 ≤ f ≤ 5 ∧ 4 = nodes f ∧
    (mmr_root (H := Toy.instance) (take 3 MmrInclusionWitness.ds) =
     mmr_root (H := Toy.instance) (take (Z.to_nat f) MmrInclusionWitness.ds) ∨
     collision (H := Toy.instance)
       (consistency_inputs (H := Toy.instance) 4 8 (honest_consistency (H := Toy.instance) MmrInclusionWitness.ds 3)
        ++ mmr_inputs (H := Toy.instance) MmrInclusionWitness.ds)).
Proof. apply (mmr_consistency_sound (H := Toy.instance) MmrInclusionWitness.ds). vm_compute. reflexivity. Defined.
