(* ===== verification/MmrRange.v ===== *)
(** * Range proofs over a Merkle mountain range

    [verify_range] of [cll.py]: with the log's own size every record of the
    range is bound to the log; without it the sequence numbers are not. *)

From S2P Require Import Prelude PyRuntime Sha256 Cbor Json Mmr MmrShape MmrTree MmrInclusion.

Section range.
Context `{Sha256}.

(** The preimages [_reconstruct_range_subtree] hashes. *)
Fixpoint subtree_inputs (pos : Z) (height : nat) (leaf_start lo hi : Z) (dig : gmap Z bytes) (ws : list bytes)
    (cursor : Z) : list bytes :=
  if (leaf_start + Z.shiftl 1 (Z.of_nat height) - 1 <? lo) || (leaf_start >? hi) then []
  else
    match height with
    | O => match dig !! leaf_start with Some d => [x00 :: d] | None => [] end
    | S h =>
        let lpos := pos - Z.shiftl 1 (Z.of_nat height) in
        let half := Z.shiftl 1 (Z.of_nat h) in
        match _reconstruct_range_subtree lpos h leaf_start lo hi dig ws cursor with
        | Ok (l, cursor') =>
            match _reconstruct_range_subtree (pos - 1) h (leaf_start + half) lo hi dig ws cursor' with
            | Ok (r, _) =>
                (be_bytes 8 (pos + 1) ++ l ++ r) :: subtree_inputs lpos h leaf_start lo hi dig ws cursor ++
                subtree_inputs (pos - 1) h (leaf_start + half) lo hi dig ws cursor'
            | Raise _ => []
            end
        | Raise _ => []
        end
    end.

Fixpoint peaks_inputs (pks : list Z) (leaf_start lo hi : Z) (dig : gmap Z bytes) (ws : list bytes) (cursor : Z) :
    list bytes :=
  match pks with
  | [] => []
  | p :: pks =>
      match height_at p with
      | Ok h =>
          subtree_inputs p (Z.to_nat h) leaf_start lo hi dig ws cursor ++
          match _reconstruct_range_subtree p (Z.to_nat h) leaf_start lo hi dig ws cursor with
          | Ok (_, cursor') => peaks_inputs pks (leaf_start + Z.shiftl 1 h) lo hi dig ws cursor'
          | Raise _ => []
          end
      | Raise _ => []
      end
  end.

(** The preimages an accepting run of [verify_range] hashes. *)
Definition range_inputs (bodies : list bytes) (p : RangeProof.t) : list bytes :=
  match
    ws ← mapM _parse_digest_hex (RangeProof.witness p);
    pks ← peaks (RangeProof.size p);
    let dig := digest_by_index (RangeProof.from_index p) bodies in
    '(ps, _) ← range_peaks pks 0 (RangeProof.from_index p) (RangeProof.to_index p) dig ws 0;
    Ok (bag_inputs ps ++ peaks_inputs pks 0 (RangeProof.from_index p) (RangeProof.to_index p) dig ws 0)
  with Ok l => l | Raise _ => [] end.

Lemma shiftl_p2 h : Z.shiftl 1 (Z.of_nat h) = p2 h.
Proof. by rewrite Z.shiftl_1_l. Qed.

Lemma digest_by_index_lookup from bodies i :
  digest_by_index from bodies !! i = if decide (from ≤ i) then bodies !! Z.to_nat (i - from) else None.
Proof.
  revert from. induction bodies as [|d bodies IH]; intros from; cbn [digest_by_index].
  - rewrite lookup_empty. by case_decide.
  - destruct (decide (i = from)) as [->|Hne].
    + rewrite lookup_insert_eq, decide_True, Z.sub_diag by lia. done.
    + rewrite lookup_insert_ne, IH by done. repeat case_decide; try done; try lia.
      replace (Z.to_nat (i - from)) with (S (Z.to_nat (i - (from + 1)))) by lia. done.
Qed.

(** Leaves of [(h, F)] in the range carry the log's digests. *)
Definition agrees (ds : list bytes) (dig : gmap Z bytes) (lo hi F n : Z) : Prop :=
  ∀ i, F ≤ i < F + n → lo ≤ i ≤ hi → dig !! i = Some (ds !!! Z.to_nat i).

Lemma reconstruct_sound ds S h F lo hi dig ws c c' :
  aligned h F →
  _reconstruct_range_subtree (root_pos h F) h F lo hi dig ws c = Ok (node_hash ds h F, c') →
  subtree_inputs (root_pos h F) h F lo hi dig ws c ⊆ S → node_inputs ds h F ⊆ S →
  agrees ds dig lo hi F (p2 h) ∨ collision S.
Proof.
  revert F c c'. induction h as [|h IH]; intros F c c' HF Hr HV HT;
    cbn [_reconstruct_range_subtree subtree_inputs] in Hr, HV; rewrite !shiftl_p2 in *;
    (destruct ((_ <? lo) || _) eqn:Hout; [left; intros i ? ?; lia|]).
  - destruct (dig !! F) as [d|] eqn:Hd; [|done]. apply bind_ok in Hr as (l & (Hdd & ->)%leaf_hash_ok & [= Heq _]).
    destruct (sha256_eq S _ _ Heq) as [Hpre|]; [set_solver|cbn in HT; set_solver| |by right].
    left. intros i Hi _. rewrite p2_0 in Hi. assert (i = F) as -> by lia. by injection Hpre as <-.
  - rewrite <- root_pos_left, <- (root_pos_right h F) in Hr, HV by done.
    apply bind_ok in Hr as ([l c1] & Hl & Hr). apply bind_ok in Hr as ([r c2] & Hr' & Hr).
    apply bind_ok in Hr as (x & Hx & Hr). assert (x = node_hash ds (Datatypes.S h) F) as -> by congruence.
    apply interior_hash_ok in Hx as (Hdl & Hdr & _ & Heq). cbn [node_hash] in Heq.
    rewrite Hl, Hr' in HV. cbn [node_inputs node_input] in HT.
    destruct (sha256_eq S _ _ Heq) as [Hpre|]; [set_solver..| |by right].
    apply app_inv_head in Hpre. apply app_eq_l in Hpre as [<- <-];
      [|pose proof (node_hash_digest ds h F); cbn in *; congruence].
    assert (aligned h F) by (eapply aligned_le; [|done]; lia).
    destruct (IH F c c1) as [Ha|]; [done|done|set_solver|set_solver| |by right].
    destruct (IH (F + p2 h) c1 c2) as [Hb|]; [by apply aligned_add|done|set_solver|set_solver| |by right].
    left. intros i Hi Hlo. rewrite p2_S in Hi.
    destruct (Z.lt_ge_cases i (F + p2 h)); [apply Ha|apply Hb]; lia.
Qed.

Lemma range_peaks_sound ds S k F rem lo hi dig ws c c' :
  aligned k F → 0 ≤ rem < p2 k →
  range_peaks (positions (mountains k F rem)) F lo hi dig ws c = Ok (mountain_hash ds <$> mountains k F rem, c') →
  peaks_inputs (positions (mountains k F rem)) F lo hi dig ws c ⊆ S →
  (∀ m, m ∈ mountains k F rem → node_inputs ds m.1 m.2 ⊆ S) →
  agrees ds dig lo hi F rem ∨ collision S.
Proof.
  revert F rem c c'. induction k as [|k IH]; intros F rem c c' HF Hrem Hr HV HT.
  { rewrite p2_0 in Hrem. left. intros i Hi. lia. }
  cbn [mountains] in *. rewrite p2_S in Hrem. assert (aligned k F) as HF' by (eapply aligned_le; [|done]; lia).
  destruct (Z.leb_spec (p2 k) rem) as [Hk|Hk]; [|by eapply IH; eauto; lia].
  cbn [positions fmap list_fmap range_peaks peaks_inputs fst snd] in Hr, HV.
  rewrite height_at_root in Hr, HV by done. cbn [mbind outcome_bind] in Hr, HV.
  rewrite Nat2Z.id, shiftl_p2 in *.
  apply bind_ok in Hr as ([p c1] & Hp & Hr). apply bind_ok in Hr as ([ps c2] & Hps & [= -> -> _]).
  rewrite Hp in HV. change (mountain_hash ds (k, F)) with (node_hash ds k F) in Hp.
  destruct (reconstruct_sound ds S k F lo hi dig ws c c1) as [Ha|]; [done|done|set_solver|apply (HT (k, F)); by left| |by right].
  destruct (IH (F + p2 k) (rem - p2 k) c1 c2) as [Hb|]; [by apply aligned_add|lia|done|set_solver| | |by right].
  { intros m Hm. apply HT. by right. }
  left. intros i Hi Hlo. destruct (Z.lt_ge_cases i (F + p2 k)); [apply Ha|apply Hb]; lia.
Qed.

Lemma range_peaks_length pks F lo hi dig ws c ps c' :
  range_peaks pks F lo hi dig ws c = Ok (ps, c') → length ps = length pks.
Proof.
  revert F c ps. induction pks as [|p pks IH]; intros F c ps Hr; cbn in Hr; [by injection Hr as <-|].
  apply bind_ok in Hr as (h & _ & Hr). apply bind_ok in Hr as ([q c1] & _ & Hr).
  apply bind_ok in Hr as ([qs c2] & Hq & [= <- <-]). cbn. f_equal. by eapply IH.
Qed.

Lemma verify_range_true root a b bodies p :
  verify_range root a b bodies (Some p) = true →
  ∃ f ws ps c, 1 ≤ a ≤ b ∧ b = f ∧ 0 ≤ f ∧ RangeProof.size p = nodes f ∧
    RangeProof.from_index p = a - 1 ∧ RangeProof.to_index p = b - 1 ∧ zlen bodies = b - a + 1 ∧
    Forall digest ws ∧ Forall digest ps ∧
    range_peaks (positions (mountains_of f)) 0 (a - 1) (b - 1) (digest_by_index (a - 1) bodies) ws 0 = Ok (ps, c) ∧
    root = bagged ps ∧
    range_inputs bodies p = bag_inputs ps ++
      peaks_inputs (positions (mountains_of f)) 0 (a - 1) (b - 1) (digest_by_index (a - 1) bodies) ws 0.
Proof.
  cbn [verify_range]. rewrite never_raises_true. unfold range_body, range_inputs.
  intros (? & _ & Hv)%bind_ok. apply guard_ok in Hv as [_ Hv]. apply guard_ok in Hv as [Hab Hv].
  apply bind_ok in Hv as (lc & Hlc & Hv). apply guard_ok in Hv as [Hb Hv]. cbv zeta in Hv.
  apply guard_ok in Hv as [[Hfi%Z.eqb_eq Hti%Z.eqb_eq]%andb_prop Hv]. apply guard_ok in Hv as [Hlen Hv].
  apply bind_ok in Hv as (? & _ & Hv). apply bind_ok in Hv as (ws & Hws & Hv). apply bind_ok in Hv as (pks & Hpk & Hv).
  apply bind_ok in Hv as ([ps c] & Hps & Hv). apply guard_ok in Hv as [_ Hv].
  apply bind_ok in Hv as (r & (Hd & ->)%root_from_peaks_ok & [= <-%bool_decide_eq_true_1]).
  apply leaf_count_inv in Hlc as (f & Hf & Hsz & Hmax & ->).
  pose proof Hpk as (f' & Hf' & Hsz' & _ & ->)%peaks_spec. assert (f' = f) as -> by (apply nodes_inj; lia).
  pose proof (parse_digests_ok _ _ Hws). rewrite Hfi, Hti in *.
  exists f, ws, ps, c. rewrite Hws, Hpk. cbn [mbind outcome_bind]. rewrite Hps. cbn [mbind outcome_bind].
  split_and!; try done; lia.
Qed.

(** [mmr_range_sound], for the theorems that build on it. *)
Lemma range_carries (ds : list bytes) a b bodies proof :
  verify_range (mmr_root ds) a b bodies (Some proof) = true → RangeProof.size proof = nodes (zlen ds) →
  1 ≤ a ≤ b ∧ b = zlen ds ∧
  (bodies = drop (Z.to_nat (a - 1)) ds ∨ collision (range_inputs bodies proof ++ mmr_inputs ds)).
Proof.
  intros (f & ws & ps & c & Hab & -> & Hf & Hsz & Hfi & Hti & Hlen & _ & Hd & Hps & Hroot & ->)%verify_range_true Heq.
  pose proof (zlen_nonneg ds). rewrite Hsz in Heq. apply nodes_inj in Heq as ->; [|lia..].
  split; [done|]. split; [done|]. set (S := _ ++ mmr_inputs ds). pose proof (mmr_inputs_bag ds).
  pose proof (range_peaks_length _ _ _ _ _ _ _ _ _ Hps) as Hl. unfold positions in Hl. rewrite length_fmap in Hl.
  destruct (bagged_inj S (mmr_peaks ds (zlen ds)) ps) as [<-|];
    [by rewrite Hl; apply length_fmap|apply mmr_peaks_digest|done|done|set_solver|set_solver| |by right].
  pose proof (nbits_bound (zlen ds) ltac:(lia)).
  destruct (range_peaks_sound ds S (nbits (zlen ds)) 0 (zlen ds) (a - 1) (zlen ds - 1)
    (digest_by_index (a - 1) bodies) ws 0 c) as [Ha|]; [apply aligned_zero|lia|done|set_solver| |left|by right].
  { intros m Hm. pose proof (mmr_inputs_mountain ds m Hm). set_solver. }
  apply list_eq. intros j. rewrite lookup_drop. unfold zlen in *.
  destruct (le_lt_dec (length bodies) j) as [Hj|Hj].
  - rewrite !lookup_ge_None_2; [done|lia|lia].
  - specialize (Ha (a - 1 + Z.of_nat j) ltac:(lia) ltac:(lia)).
    rewrite digest_by_index_lookup, decide_True in Ha by lia.
    replace (Z.to_nat (a - 1 + Z.of_nat j - (a - 1))) with j in Ha by lia. rewrite Ha.
    replace (Z.to_nat (a - 1) + j)%nat with (Z.to_nat (a - 1 + Z.of_nat j)) by lia.
    symmetry. apply list_lookup_lookup_total_lt. lia.
Qed.

(** C13: a range proof that states the log's own size and is accepted against
    its root carries exactly the digests of the records [from_seq] to
    [to_seq], and [to_seq] is the last record, up to a collision: no interior
    record can be altered, dropped or replaced. *)
Theorem mmr_range_sound (ds : list bytes) a b bodies proof :
  verify_range (mmr_root ds) a b bodies (Some proof) = true → RangeProof.size proof = nodes (zlen ds) →
  1 ≤ a ≤ b ∧ b = zlen ds ∧
  (bodies = drop (Z.to_nat (a - 1)) ds ∨ collision (range_inputs bodies proof ++ mmr_inputs ds)).
Proof. apply range_carries. Qed.

(** ** Completeness *)

(** The maximal subtrees outside the range, left to right. *)
Fixpoint outside (ds : list bytes) (h : nat) (F lo hi : Z) : list bytes :=
  if (F + p2 h - 1 <? lo) || (F >? hi) then [node_hash ds h F]
  else match h with O => [] | S h' => outside ds h' F lo hi ++ outside ds h' (F + p2 h') lo hi end.

Lemma outside_digest ds h F lo hi : Forall digest (outside ds h F lo hi).
Proof.
  revert F. induction h as [|h IH]; intros F; cbn [outside]; destruct (_ || _);
    repeat constructor; auto using node_hash_digest. by apply Forall_app.
Qed.

Lemma reconstruct_complete ds h F lo hi dig pre post :
  aligned h F → root_pos h F < 2 ^ 64 - 1 → agrees ds dig lo hi F (p2 h) →
  (∀ i, F ≤ i < F + p2 h → digest (ds !!! Z.to_nat i)) →
  _reconstruct_range_subtree (root_pos h F) h F lo hi dig (pre ++ outside ds h F lo hi ++ post) (zlen pre) =
    Ok (node_hash ds h F, zlen pre + zlen (outside ds h F lo hi)).
Proof.
  revert F pre post. induction h as [|h IH]; intros F pre post HF Hpos Ha Hds;
    cbn [_reconstruct_range_subtree outside]; rewrite !shiftl_p2;
    (destruct ((_ <? lo) || _) eqn:Hout;
      [unfold zlen at 1; rewrite Nat2Z.id, lookup_app_r, Nat.sub_diag by done; cbn; by rewrite zlen_cons|]).
  - rewrite p2_0 in *. rewrite Ha by lia. rewrite (proj2 (leaf_hash_ok _ (node_hash ds 0 F))) by (split; [apply Hds; lia|done]).
    cbn [mbind outcome_bind]. by rewrite zlen_nil, Z.add_0_r.
  - rewrite <- root_pos_left, <- (root_pos_right h F) by done.
    assert (aligned h F) by (eapply aligned_le; [|done]; lia). pose proof (p2_pos h).
    pose proof (root_pos_left h F). pose proof (root_pos_right h F HF). pose proof (p2_pos (S h)).
    pose proof (root_pos_nonneg _ _ HF). rewrite (p2_S h) in Ha, Hds. rewrite <- app_assoc.
    rewrite IH; [|done|lia|intros i Hi Hlo; apply Ha; lia|intros i Hi; apply Hds; lia]. cbn [mbind outcome_bind].
    rewrite <- zlen_app, (app_assoc pre).
    rewrite IH; [|by apply aligned_add|lia|intros i Hi Hlo; apply Ha; lia|intros i Hi; apply Hds; lia].
    cbn [mbind outcome_bind].
    rewrite (proj2 (interior_hash_ok _ _ (root_pos (S h) F) (node_hash ds (S h) F))); [|split_and!; [apply node_hash_digest..|lia|lia|done]].
    cbn [mbind outcome_bind]. by rewrite !zlen_app, Z.add_assoc.
Qed.

Definition outside_all (ds : list bytes) (lo hi : Z) (ms : list (nat * Z)) : list bytes :=
  concat ((fun m => outside ds m.1 m.2 lo hi) <$> ms).

Lemma range_peaks_complete ds k F rem lo hi dig pre :
  aligned k F → 0 ≤ rem < p2 k → agrees ds dig lo hi F rem → (∀ i, F ≤ i < F + rem → digest (ds !!! Z.to_nat i)) →
  Forall (fun m => root_pos m.1 m.2 < 2 ^ 64 - 1) (mountains k F rem) →
  range_peaks (positions (mountains k F rem)) F lo hi dig (pre ++ outside_all ds lo hi (mountains k F rem)) (zlen pre) =
    Ok (mountain_hash ds <$> mountains k F rem, zlen pre + zlen (outside_all ds lo hi (mountains k F rem))).
Proof.
  revert F rem pre. induction k as [|k IH]; intros F rem pre HF Hrem Ha Hds Hb.
  { cbn. by rewrite zlen_nil, Z.add_0_r. }
  cbn [mountains] in *. rewrite p2_S in Hrem. assert (aligned k F) as HF' by (eapply aligned_le; [|done]; lia).
  destruct (Z.leb_spec (p2 k) rem) as [Hk|Hk]; [|apply IH; (done || lia)].
  apply Forall_cons in Hb as [Hb1 Hb2]. cbn [fst snd] in Hb1. pose proof (p2_pos k).
  cbn [positions fmap list_fmap range_peaks fst snd]. unfold outside_all. cbn [fmap list_fmap concat fst snd].
  change (concat (list_fmap _ _ (fun m => outside ds m.1 m.2 lo hi) ?ms)) with (outside_all ds lo hi ms).
  change (list_fmap _ _ (fun m => root_pos m.1 m.2) ?ms) with (positions ms).
  rewrite height_at_root by done. cbn [mbind outcome_bind]. rewrite Nat2Z.id, shiftl_p2.
  rewrite reconstruct_complete; [|done|done|intros i Hi Hlo; apply Ha; lia|intros i Hi; apply Hds; lia].
  cbn [mbind outcome_bind]. rewrite app_assoc, <- zlen_app.
  rewrite IH; [|by apply aligned_add|lia|intros i Hi Hlo; apply Ha; lia|intros i Hi; apply Hds; lia|done].
  cbn [mbind outcome_bind]. f_equal. rewrite !zlen_app, Z.add_assoc. done.
Qed.

(** The proof an honest producer makes for the records from [a] to the end. *)
Definition honest_range (ds : list bytes) (a : Z) : RangeProof.t :=
  {| RangeProof.from_seq := a; RangeProof.to_seq := zlen ds; RangeProof.size := nodes (zlen ds);
     RangeProof.from_index := a - 1; RangeProof.to_index := zlen ds - 1;
     RangeProof.witness := (fun b => JStr (hex b)) <$> outside_all ds (a - 1) (zlen ds - 1) (mountains_of (zlen ds)) |}.

(** The honest proof of every suffix of every log is accepted. *)
Theorem mmr_range_complete (ds : list bytes) a :
  Forall digest ds → 1 ≤ a ≤ zlen ds → nodes (zlen ds) < MAX_MMR_SIZE →
  verify_range (mmr_root ds) a (zlen ds) (drop (Z.to_nat (a - 1)) ds) (Some (honest_range ds a)) = true.
Proof.
  intros Hds Ha Hmax. pose proof (zlen_nonneg ds) as Hf.
  cbn [verify_range]. rewrite never_raises_true. unfold range_body, honest_range.
  cbn [RangeProof.from_seq RangeProof.to_seq RangeProof.size RangeProof.from_index RangeProof.to_index RangeProof.witness].
  rewrite (proj2 (assert_digest_ok (mmr_root ds) _ ())) by (apply bagged_digest, mmr_peaks_digest).
  cbn [mbind outcome_bind]. rewrite !Z.eqb_refl. rewrite guard_ok. split; [done|].
  rewrite guard_ok. split; [lia|]. rewrite leaf_count_spec by done. cbn [mbind outcome_bind]. cbv zeta.
  rewrite !Z.eqb_refl, zlen_drop by lia.
  rewrite guard_ok. split; [done|]. rewrite guard_ok. split; [done|]. rewrite guard_ok. split; [lia|].
  assert (mapM (fun d => _assert_digest d "body_digest") (drop (Z.to_nat (a - 1)) ds) =
    Ok ((fun _ => ()) <$> drop (Z.to_nat (a - 1)) ds)) as ->.
  { apply mapM_ok. induction (Forall_drop _ (Z.to_nat (a - 1)) _ Hds); constructor; [by apply assert_digest_ok|done]. }
  cbn [mbind outcome_bind]. assert (Forall digest (outside_all ds (a - 1) (zlen ds - 1) (mountains_of (zlen ds)))) as Hout.
  { apply Forall_concat, Forall_fmap, Forall_true. intros m. apply outside_digest. }
  rewrite parse_digests_hex by done. cbn [mbind outcome_bind].
  rewrite (proj2 (peaks_spec (nodes (zlen ds)) _)) by eauto. cbn [mbind outcome_bind].
  pose proof (nbits_bound (zlen ds) Hf).
  assert (Hrp := range_peaks_complete ds (nbits (zlen ds)) 0 (zlen ds) (a - 1) (zlen ds - 1)
    (digest_by_index (a - 1) (drop (Z.to_nat (a - 1)) ds)) []).
  change (zlen []) with 0 in Hrp. cbn [app] in Hrp. unfold mountains_of. rewrite Hrp; clear Hrp.
  - cbn [mbind outcome_bind]. rewrite guard_ok. split; [apply Z.eqb_eq; done|].
    change (mountain_hash ds <$> mountains (nbits (zlen ds)) 0 (zlen ds)) with (mmr_peaks ds (zlen ds)).
    rewrite (proj2 (root_from_peaks_ok _ _)) by (split; [apply mmr_peaks_digest|done]).
    cbn [mbind outcome_bind]. by rewrite bool_decide_eq_true_2.
  - apply aligned_zero.
  - lia.
  - intros i Hi Hlo. rewrite digest_by_index_lookup, decide_True, lookup_drop by lia.
    replace (Z.to_nat (a - 1) + Z.to_nat (i - (a - 1)))%nat with (Z.to_nat i) by lia.
    apply list_lookup_lookup_total_lt. unfold zlen in *. lia.
  - intros i Hi. rewrite Forall_forall in Hds. apply Hds, list_elem_of_lookup_total_2. unfold zlen in *. lia.
  - apply Forall_forall. intros m Hm. pose proof (mountain_bound (zlen ds) m Hf Hm). unfold MAX_MMR_SIZE in Hmax. lia.
Qed.

(** The third of three records, presented as the fifth of five: the subtree
    of the first two stands for the absent subtree of four. *)
Definition shifted_range (a b c : bytes) : RangeProof.t :=
  {| RangeProof.from_seq := 5; RangeProof.to_seq := 5; RangeProof.size := 8;
     RangeProof.from_index := 4; RangeProof.to_index := 4;
     RangeProof.witness := [JStr (hex (node_hash [a; b; c] 1 0))] |}.

(** The size a proof states is not bound by the root. *)
Lemma verify_range_shifted a b c :
  Forall digest [a; b; c] → verify_range (mmr_root [a; b; c]) 5 5 [c] (Some (shifted_range a b c)) = true.
Proof.
  intros Hds. assert (digest c) as Hc by (by repeat (apply Forall_cons in Hds as [? Hds])).
  cbn [verify_range]. rewrite never_raises_true. unfold range_body, shifted_range.
  cbn [RangeProof.from_seq RangeProof.to_seq RangeProof.size RangeProof.from_index RangeProof.to_index RangeProof.witness].
  rewrite (proj2 (assert_digest_ok (mmr_root _) _ ())) by (apply bagged_digest, mmr_peaks_digest).
  assert (leaf_count 8 = Ok 5) as -> by (vm_compute; reflexivity).
  assert (peaks 8 = Ok [6; 7]) as -> by (vm_compute; reflexivity).
  cbn [mbind outcome_bind mapM guard_else_false Z.eqb Pos.eqb andb orb negb Z.ltb Z.compare Pos.compare Pos.compare_cont Z.sub].
  change (5 =? 5) with true. cbn [andb guard_else_false]. change (negb ((5 <? 1) || (5 <? 5))) with true.
  cbn [guard_else_false mbind outcome_bind]. change (zlen [c]) with 1.
  change ((4 =? 5 - 1) && (4 =? 5 - 1)) with true. change (1 =? 4 - 4 + 1) with true. cbn [guard_else_false].
  rewrite (proj2 (assert_digest_ok c _ ()) Hc). cbn [mbind outcome_bind].
  rewrite parse_digest_hex by apply (node_hash_digest [a; b; c] 1 0). cbn [mbind outcome_bind mret outcome_ret range_peaks].
  assert (height_at 6 = Ok 2) as -> by (vm_compute; reflexivity).
  assert (height_at 7 = Ok 0) as -> by (vm_compute; reflexivity).
  cbn [mbind outcome_bind]. set (N := node_hash [a; b; c] 1 0).
  change (_reconstruct_range_subtree 6 (Z.to_nat 2) 0 4 4 (digest_by_index 4 [c]) [N] 0) with (Ok (E := exn) (N, 1)).
  cbn [mbind outcome_bind]. change (Z.to_nat 0) with 0%nat. change (0 + Z.shiftl 1 2) with 4.
  cbn [_reconstruct_range_subtree]. change ((4 + Z.shiftl 1 (Z.of_nat 0) - 1 <? 4) || (4 >? 4)) with false.
  rewrite digest_by_index_lookup. change (decide (4 ≤ 4)) with (decide (4 ≤ 4)). rewrite decide_True by lia.
  change (Z.to_nat (4 - 4)) with 0%nat. cbn [lookup list_lookup].
  rewrite (proj2 (leaf_hash_ok c (sha256 (x00 :: c)))) by done. cbn [mbind outcome_bind].
  change (1 =? zlen [N]) with true. cbn [guard_else_false].
  rewrite (proj2 (root_from_peaks_ok [N; sha256 (x00 :: c)] (bagged [N; sha256 (x00 :: c)]))).
  - cbn [mbind outcome_bind]. rewrite bool_decide_eq_true_2; reflexivity.
  - split; [|done]. repeat constructor; [apply (node_hash_digest [a; b; c] 1 0)|apply sha256_length].
Qed.
End range.

(** ** Witnesses *)

Lemma mmr_range_complete_witness :
  verify_range (H := Toy.instance) (mmr_root (H := Toy.instance) MmrInclusionWitness.ds) 2 5
    (drop 1 MmrInclusionWitness.ds) (Some (honest_range (H := Toy.instance) MmrInclusionWitness.ds 2)) = true.
Proof.
  apply (mmr_range_complete (H := Toy.instance) MmrInclusionWitness.ds 2);
    [repeat constructor|vm_compute; split; discriminate|vm_compute; reflexivity].
Defined.

Lemma mmr_range_sound_witness :
  1 ≤ 2 ≤ 5 ∧ 5 = zlen MmrInclusionWitness.ds ∧
  (drop 1 MmrInclusionWitness.ds = drop 1 MmrInclusionWitness.ds ∨
   collision (H := Toy.instance)
     (range_inputs (H := Toy.instance) (drop 1 MmrInclusionWitness.ds) (honest_range (H := Toy.instance) MmrInclusionWitness.ds 2)
      ++ mmr_inputs (H := Toy.instance) MmrInclusionWitness.ds)).
Proof.
  apply (mmr_range_sound (H := Toy.instance) MmrInclusionWitness.ds 2 5 (drop 1 MmrInclusionWitness.ds));
    vm_compute; reflexivity.
Defined.
