(* ===== verification/MmrWire.v ===== *)
(** * The wire form of the proofs of [scitt_cose/cll.py]

    [from_dict] and [to_dict] of the three proof records, and that a record
    survives the trip through its dict. *)

From S2P Require Import Prelude PyRuntime Sha256 Cbor Json PyJson Mmr.

Section wire.
Context `{PyObjects}.

(** [int(d[key])] *)
Definition int_field (d : object) (key : string) : result Z := v ← index d key; py_int v.
(** [tuple(d[key])] *)
Definition tuple_field (d : object) (key : string) : result (list json) := v ← index d key; py_tuple v.

Definition inclusion_from_dict (d : object) : result InclusionProof.t :=
  v ← int_field d "v";
  kind ← index d "kind";
  size ← int_field d "size";
  leaf_index ← int_field d "leaf_index";
  witness ← tuple_field d "witness";
  peaks_left ← tuple_field d "peaks_left";
  peaks_right ← tuple_field d "peaks_right";
  Ok (InclusionProof.Build_t v kind size leaf_index witness peaks_left peaks_right).

Definition inclusion_to_dict (p : InclusionProof.t) : object :=
  [("v", JInt (InclusionProof.v p)); ("kind", InclusionProof.kind p); ("size", JInt (InclusionProof.size p));
   ("leaf_index", JInt (InclusionProof.leaf_index p)); ("witness", JArr (InclusionProof.witness p));
   ("peaks_left", JArr (InclusionProof.peaks_left p)); ("peaks_right", JArr (InclusionProof.peaks_right p))].

Definition consistency_from_dict (d : object) : result ConsistencyProof.t :=
  v ← int_field d "v";
  kind ← index d "kind";
  size_a ← int_field d "size_a";
  size_b ← int_field d "size_b";
  old_peaks ← tuple_field d "old_peaks";
  rows ← tuple_field d "witness";
  witness ← mapM py_tuple rows;
  new_peaks ← tuple_field d "new_peaks";
  Ok (ConsistencyProof.Build_t v kind size_a size_b old_peaks witness new_peaks).

Definition consistency_to_dict (p : ConsistencyProof.t) : object :=
  [("v", JInt (ConsistencyProof.v p)); ("kind", ConsistencyProof.kind p); ("size_a", JInt (ConsistencyProof.size_a p));
   ("size_b", JInt (ConsistencyProof.size_b p)); ("old_peaks", JArr (ConsistencyProof.old_peaks p));
   ("witness", JArr (JArr <$> ConsistencyProof.witness p)); ("new_peaks", JArr (ConsistencyProof.new_peaks p))].

Definition range_from_dict (d : object) : result RangeProof.t :=
  from_seq ← int_field d "from_seq";
  to_seq ← int_field d "to_seq";
  size ← int_field d "size";
  from_index ← int_field d "from_index";
  to_index ← int_field d "to_index";
  witness ← tuple_field d "witness";
  Ok (RangeProof.Build_t from_seq to_seq size from_index to_index witness).

Definition range_to_dict (p : RangeProof.t) : object :=
  [("from_seq", JInt (RangeProof.from_seq p)); ("to_seq", JInt (RangeProof.to_seq p)); ("size", JInt (RangeProof.size p));
   ("from_index", JInt (RangeProof.from_index p)); ("to_index", JInt (RangeProof.to_index p));
   ("witness", JArr (RangeProof.witness p))].

Lemma mapM_tuple_rows rows : mapM py_tuple (JArr <$> rows) = Ok rows.
Proof. apply mapM_ok. induction rows; cbn; by constructor. Qed.

(** Every proof record survives serialisation: [from_dict] of [to_dict]
    returns the record itself, for the inclusion, the consistency and the
    range proof, whatever its fields hold. *)
Theorem proof_dicts_roundtrip (p : InclusionProof.t) (q : ConsistencyProof.t) (r : RangeProof.t) :
  inclusion_from_dict (inclusion_to_dict p) = Ok p ∧
  consistency_from_dict (consistency_to_dict q) = Ok q ∧
  range_from_dict (range_to_dict r) = Ok r.
Proof.
  destruct p, q as [vq kq a b olds w news], r. split_and!; [done| |done].
  change (consistency_from_dict _) with
    (witness ← mapM py_tuple (JArr <$> w); Ok (ConsistencyProof.Build_t vq kq a b olds witness news)).
  by rewrite mapM_tuple_rows.
Qed.
End wire.
