(* ===== verification/Crypto.v ===== *)
(** * The interface to [cryptography]

    Keys, PEM loading and signatures are not part of the sources.  The class
    holds the functions the sources call, with the key classes they test. *)

From S2P Require Import Prelude PyRuntime.

(** [ec.SECP256R1], [ec.SECP384R1] and any other curve. *)
Inductive curve : Type := SECP256R1 | SECP384R1 | OtherCurve (id : N).
#[export] Instance curve_eq_dec : EqDecision curve.
Proof. solve_decision. Defined.

(** What [isinstance] distinguishes of a key object. *)
Inductive key_class : Type := Ed25519Key | EllipticCurveKey (c : curve) | OtherKey.
#[export] Instance key_class_eq_dec : EqDecision key_class.
Proof. solve_decision. Defined.

Inductive digest_alg : Type := SHA256 | SHA384.

Class Crypto := {
  private_key : Type;
  public_key : Type;
  private_class : private_key → key_class;
  public_class : public_key → key_class;
  load_pem_private_key : bytes → result private_key;
  load_pem_public_key : bytes → result public_key;
  (** [key.sign(tbs)] of an Ed25519 key *)
  ed25519_sign : private_key → bytes → bytes;
  (** [pubkey.verify(signature, tbs)] *)
  ed25519_verify : public_key → bytes → bytes → result unit;
  (** [key.sign(tbs, ec.ECDSA(digest()))], a DER signature *)
  ecdsa_sign : private_key → digest_alg → bytes → bytes;
  (** [pubkey.verify(der, tbs, ec.ECDSA(digest()))] *)
  ecdsa_verify : public_key → digest_alg → bytes → bytes → result unit;
  decode_dss_signature : bytes → result (Z * Z);
  encode_dss_signature : Z → Z → bytes
}.

(** A refusal of a signature is [InvalidSignature]. *)
Class VerifyLaws `(Crypto) : Prop := {
  ed25519_verify_raises k sig tbs e : ed25519_verify k sig tbs = Raise e → e = InvalidSignature;
  ecdsa_verify_raises k h sig tbs e : ecdsa_verify k h sig tbs = Raise e → e = InvalidSignature
}.

(** Octets of [r] and of [s] on a curve. *)
Definition coordinate_width (c : curve) : nat :=
  match c with SECP256R1 => 32 | SECP384R1 => 48 | OtherCurve _ => 0 end.

(** The public key of a private key, and that it accepts what the other signs. *)
Class SignLaws `(Crypto) := {
  public_of : private_key → public_key;
  ed25519_sign_length k tbs : length (ed25519_sign k tbs) = 64%nat;
  public_of_class k : public_class (public_of k) = private_class k;
  ed25519_sign_verify k tbs :
    private_class k = Ed25519Key → ed25519_verify (public_of k) (ed25519_sign k tbs) tbs = Ok ();
  ecdsa_sign_verify k c h tbs :
    private_class k = EllipticCurveKey c → c = SECP256R1 ∨ c = SECP384R1 →
    ∃ r s, decode_dss_signature (ecdsa_sign k h tbs) = Ok (r, s) ∧
      0 ≤ r < 256 ^ Z.of_nat (coordinate_width c) ∧ 0 ≤ s < 256 ^ Z.of_nat (coordinate_width c) ∧
      ecdsa_verify (public_of k) h (encode_dss_signature r s) tbs = Ok ()
}.
