(* ===== verification/CoseSign1.v ===== *)
(** * COSE_Sign1: the operations of [scitt_cose/cose_sign1.py]

    Strict decoding, critical headers, signing and verification, over the
    interfaces [Cbor] and [Crypto].  Definitions only; [CoseSign1Proof] and
    [CoseRoundTrip] prove what they promise. *)

From S2P Require Import Prelude PyRuntime EncodingRule Cbor Crypto.

Definition HDR_ALG : pyval := VInt 1.
Definition HDR_CRIT : pyval := VInt 2.
Definition MAX_MESSAGE_BYTES : Z := 10 * 1024 * 1024.
Definition COSE_ALG_EDDSA : Z := -8.
Definition COSE_ALG_ES256 : Z := -7.
Definition COSE_ALG_ES384 : Z := -35.

Definition ALG_NAME_TO_CODE (alg : string) : option Z :=
  if bool_decide (alg = "EdDSA") then Some COSE_ALG_EDDSA
  else if bool_decide (alg = "ES256") then Some COSE_ALG_ES256
  else if bool_decide (alg = "ES384") then Some COSE_ALG_ES384
  else None.

Definition ALG_CODE_TO_NAME (code : Z) : option string :=
  if code =? COSE_ALG_EDDSA then Some "EdDSA"
  else if code =? COSE_ALG_ES256 then Some "ES256"
  else if code =? COSE_ALG_ES384 then Some "ES384"
  else None.

Definition _ECDSA (code : Z) : option (curve * digest_alg * nat) :=
  if code =? COSE_ALG_ES256 then Some (SECP256R1, SHA256, 32%nat)
  else if code =? COSE_ALG_ES384 then Some (SECP384R1, SHA384, 48%nat)
  else None.

Definition _CURVE_NAME (c : curve) : string :=
  match c with SECP256R1 => "P-256" | SECP384R1 => "P-384" | OtherCurve _ => "" end.

(** [raise CoseError(template)] with the interpolated values. *)
Definition cose (template : string) (args : list msg_arg) : exn := CoseError (Msg template args).

(** [bytes | str]; of any other object a caller passes, what [bytes(object)]
    returns or raises. *)
Inductive PemLike : Type := PemBytes (b : bytes) | PemStr (s : string) | PemObject (octets : result bytes).
Definition _as_bytes (pem : PemLike) : result bytes :=
  match pem with PemBytes b => Ok b | PemStr s => py_encode s | PemObject octets => octets end.

Record Sign1 := { sign1_protected : dict; sign1_unprotected : dict; sign1_payload : bytes }.

(** [_plain]: containers become [dict] and [list]; a tag is left alone. *)
Fixpoint _plain (v : pyval) : pyval :=
  match v with
  | VDict _ d => VDict false (map (fun kv => (kv.1, _plain kv.2)) d)
  | VList _ l => VList false (map _plain l)
  | _ => v
  end.

(** [raw.startswith(p)] *)
Definition startswith (raw p : bytes) : bool := bool_decide (take (length p) raw = p).

(** [type(label) in (int, str)] *)
Definition is_label (v : pyval) : bool := match v with VInt _ | VStr _ => true | _ => false end.

(** [try: m except Exception as exc: raise h(exc)] *)
Definition rethrow {A} (m : result A) (h : exn → exn) : result A :=
  match m with Ok a => Ok a | Raise e => Raise (h e) end.

(** [str(n)] and [repr(n)] of an integer: the interpreter refuses more than
    4300 digits. *)
Definition digit_bound : Z := 10 ^ 4300.
Definition digits_error : exn := ValueError (Msg "Exceeds the limit (4300 digits) for integer string conversion" []).
Definition int_text (n : Z) : result unit := if Z.abs n <? digit_bound then Ok () else Raise digits_error.

(** [f"{label!r}"] *)
Definition label_text (label : pyval) : result unit := match label with VInt n => int_text n | _ => Ok () end.

(** The loop of [_check_critical_headers] over the listed labels. *)
Fixpoint check_crit_labels (protected : dict) (understood_labels : list pyval) (crit : list pyval) : result unit :=
  match crit with
  | [] => Ok ()
  | label :: crit =>
      if negb (is_label label) then Raise (cose "crit lists a label that is not an integer or a text string" [])
      else if negb (dict_mem protected label)
      then _ ← label_text label; Raise (cose "crit lists header {label!r} which is absent from the protected header" [AVal label])
      else if negb (existsb (fun u => key_eq u label) understood_labels)
      then _ ← label_text label; Raise (cose "crit marks header {label!r} as critical, but this verifier does not understand it; rejecting (RFC 9052 §3.1)" [AVal label])
      else check_crit_labels protected understood_labels crit
  end.

Definition _check_critical_headers (protected : dict) (understood_labels : list pyval) : result unit :=
  match dict_get protected HDR_CRIT with
  | None => Ok ()
  | Some (VList _ ((_ :: _) as crit)) => check_crit_labels protected understood_labels crit
  | Some _ => Raise (cose "crit (label 2) must be a non-empty array (RFC 9052 §3.1)" [])
  end.

Definition default_understood : list pyval := [HDR_ALG; HDR_CRIT].

Section cose.
Context `{Cbor} `{Crypto}.

Definition _sig_structure (protected_bstr payload : bytes) : result bytes :=
  cbor_dumps (VList false [VStr "Signature1"; VBytes protected_bstr; VBytes []; VBytes payload]).

(** [protected or {}] *)
Definition or_empty (d : option dict) : dict := match d with Some d => d | None => [] end.

(** [serialization.load_pem_private_key(_as_bytes(pem), password=None)] *)
Definition load_private (pem : PemLike) : result private_key := b ← _as_bytes pem; load_pem_private_key b.
(** [serialization.load_pem_public_key(_as_bytes(pem))] *)
Definition load_public (pem : PemLike) : result public_key := b ← _as_bytes pem; load_pem_public_key b.

Definition sign_sign1 (payload : bytes) (alg : string) (private_key_pem : PemLike)
    (protected unprotected : option dict) (detached : bool) : result bytes :=
  match ALG_NAME_TO_CODE alg with
  | None => Raise (cose "unsupported alg {alg!r}; expected one of {sorted(ALG_NAME_TO_CODE)}" [AStr alg])
  | Some code =>
      let protected := dict_set (or_empty protected) HDR_ALG (VInt code) in
      let unprotected := or_empty unprotected in
      protected_bstr ← (match protected with [] => Ok [] | _ => cbor_dumps (VDict false protected) end);
      tbs ← _sig_structure protected_bstr payload;
      key ← load_private private_key_pem;
      signature ← (
        if bool_decide (alg = "EdDSA") then
          if bool_decide (private_class key ≠ Ed25519Key)
          then Raise (cose "alg EdDSA requires an Ed25519 private key" [])
          else Ok (ed25519_sign key tbs)
        else
          match _ECDSA code with
          | None => Raise KeyError
          | Some (curve, digest, width) =>
              if bool_decide (private_class key ≠ EllipticCurveKey curve)
              then Raise (cose "alg {alg} requires an EC ({_CURVE_NAME[curve]}) private key" [AStr alg; AStr (_CURVE_NAME curve)])
              else
                '(r, s) ← decode_dss_signature (ecdsa_sign key digest tbs);
                r ← to_bytes width r;
                s ← to_bytes width s;
                Ok (r ++ s)
          end);
      let payload_slot := if detached then VNone else VBytes payload in
      cbor_dumps (VTag COSE_SIGN1_TAG
        (VList false [VBytes protected_bstr; VDict false unprotected; payload_slot; VBytes signature]))
  end.

Definition _strict_decode_item (raw : bytes) (what : string) : result pyval :=
  '(value, _) ← rethrow (cbor_decode raw)
    (fun exc => cose "{what} is not valid CBOR ({type(exc).__name__})" [AStr what; AStr (exn_name exc)]);
  recanonical ← rethrow (cbor_dumps_canonical value)
    (fun exc => cose "{what} could not be re-encoded ({type(exc).__name__})" [AStr what; AStr (exn_name exc)]);
  if (zlen recanonical <? zlen raw) && startswith raw recanonical then
    let extra := zlen raw - zlen recanonical in
    Raise (cose "trailing bytes after {what} ({extra} extra) — rejected as malleable" [AStr what; AInt extra])
  else if negb (zlen recanonical =? zlen raw) then
    Raise (cose "non-deterministic {what} (indefinite-length, non-minimal, or duplicate keys) — rejected as malleable" [AStr what])
  else Ok value.

(** The tag and the tagged value of the message. *)
Definition strict_decode (data : bytes) : result (Z * pyval) :=
  if zlen data >? MAX_MESSAGE_BYTES
  then Raise (cose "COSE message too large ({len(data)} > {MAX_MESSAGE_BYTES} bytes)" [AInt (zlen data); AInt MAX_MESSAGE_BYTES])
  else
    value ← _strict_decode_item data "the COSE_Sign1 message";
    match value with
    | VTag tag value =>
        _ ← (match value with
             | VList _ [VBytes ((_ :: _) as prot); _; _; _] => _ ← _strict_decode_item prot "the protected header"; Ok ()
             | _ => Ok ()
             end);
        Ok (tag, value)
    | _ => Raise (cose "top-level value is not a CBOR tag; expected COSE_Sign1 (tag 18)" [])
    end.

Definition _decode_envelope (msg : bytes) : result (pyval * pyval * pyval * pyval) :=
  '(tag, value) ← strict_decode msg;
  if negb (tag =? COSE_SIGN1_TAG) then Raise (cose "wrong CBOR tag {outer.tag}; expected COSE_Sign1 (tag 18)" [AInt tag])
  else
    match _plain value with
    | VList _ [a; b; c; d] => Ok (a, b, c, d)
    | _ => Raise (cose "COSE_Sign1 value must be a 4-element array [protected, unprotected, payload, signature]" [])
    end.

(** The protected header map of [verify_sign1]. *)
Definition decode_protected (protected_bstr : bytes) : result dict :=
  match protected_bstr with
  | [] => Ok []
  | _ =>
      v ← rethrow (cbor_loads protected_bstr)
        (fun exc => cose "protected header is not valid CBOR ({type(exc).__name__})" [AStr (exn_name exc)]);
      match _plain v with
      | VDict false protected =>
          if existsb (fun kv => negb (is_label kv.1)) protected
          then Raise (cose "protected header has a label that is not an integer or a text string" [])
          else Ok protected
      | _ => Raise (cose "decoded protected header is not a map" [])
      end
  end.

(** The signature check, from loading the key on. *)
Definition check_signature (public_key_pem : PemLike) (alg : Z) (signature tbs : bytes) : result unit :=
  pubkey ← rethrow (load_public public_key_pem)
    (fun exc => cose "could not load public key: {exc}" [AMsg (exn_msg exc)]);
  catch (
    if alg =? COSE_ALG_EDDSA then
      if bool_decide (public_class pubkey ≠ Ed25519Key)
      then Raise (cose "alg is EdDSA (-8) but the public key is not Ed25519" [])
      else ed25519_verify pubkey signature tbs
    else
      match _ECDSA alg with
      | Some (curve, digest, width) =>
          let name := match ALG_CODE_TO_NAME alg with Some n => n | None => "" end in
          match public_class pubkey with
          | EllipticCurveKey c =>
              if bool_decide (c ≠ curve)
              then Raise (cose "alg is {name} but the public key is not {_CURVE_NAME[curve]}" [AStr name; AInt alg; AStr (_CURVE_NAME curve)])
              else if negb (zlen signature =? 2 * Z.of_nat width)
              then Raise (cose "{ALG_CODE_TO_NAME[alg]} COSE signature must be {2 * width} raw bytes (r||s), got {len(signature)}"
                [AStr name; AInt (2 * Z.of_nat width); AInt (zlen signature)])
              else
                let r := from_bytes (take width signature) in
                let s := from_bytes (drop width signature) in
                ecdsa_verify pubkey digest (encode_dss_signature r s) tbs
          | _ => Raise (cose "alg is {name} but the public key is not EC" [AStr name; AInt alg])
          end
      | None => _ ← int_text alg; Raise (cose "unsupported alg code point {alg} for verification" [AInt alg])
      end)
    (fun exc => match exc with
                | InvalidSignature => Raise (cose "signature verification FAILED (InvalidSignature)" [])
                | _ => Raise exc
                end).

Definition verify_sign1 (msg : bytes) (public_key_pem : PemLike) (detached_payload : option bytes)
    (understood_labels : list pyval) : result Sign1 :=
  '(protected_bstr, unprotected, payload_slot, signature) ← _decode_envelope msg;
  match protected_bstr with
  | VBytes protected_bstr =>
      protected ← decode_protected protected_bstr;
      unprotected ← (match unprotected with
                     | VDict false unprotected => Ok unprotected
                     | VNone => Ok []
                     | _ => Raise (cose "unprotected header is not a map" [])
                     end);
      payload ← (match payload_slot with
                 | VNone =>
                     match detached_payload with
                     | None => Raise (cose "payload is detached (nil); supply detached_payload to verify" [])
                     | Some payload => Ok payload
                     end
                 | VBytes payload => Ok payload
                 | _ => Raise (cose "attached payload must be a byte string" [])
                 end);
      match signature with
      | VBytes signature =>
          match dict_get protected HDR_ALG with
          | Some (VInt alg) =>
              _ ← _check_critical_headers protected understood_labels;
              tbs ← _sig_structure protected_bstr payload;
              _ ← check_signature public_key_pem alg signature tbs;
              Ok {| sign1_protected := protected; sign1_unprotected := unprotected; sign1_payload := payload |}
          | _ => Raise (cose "protected header has no integer alg (label 1)" [])
          end
      | _ => Raise (cose "signature element is not a byte string" [])
      end
  | _ => Raise (cose "protected header must be a bstr-wrapped map" [])
  end.
End cose.
