(* ===== verification/CoseSign1Proof.v ===== *)
(** * What [verify_sign1] promises

    Acceptance, critical headers and the errors that can escape. *)

From S2P Require Import Prelude PyRuntime EncodingRule EncodingRuleProof Cbor Crypto CoseSign1.

(** ** Critical headers *)

(** The reading of RFC 9052 section 3.1 the module documents. *)
Definition crit_satisfied (protected : dict) (understood : list pyval) : Prop :=
  ∀ crit, dict_get protected HDR_CRIT = Some crit →
    ∃ tuple label labels, crit = VList tuple (label :: labels) ∧
      ∀ l, l ∈ label :: labels →
        is_label l = true ∧ dict_mem protected l = true ∧ ∃ u, u ∈ understood ∧ key_eq u l = true.

Lemma check_crit_labels_ok protected understood crit :
  check_crit_labels protected understood crit = Ok () ↔
  ∀ l, l ∈ crit → is_label l = true ∧ dict_mem protected l = true ∧ ∃ u, u ∈ understood ∧ key_eq u l = true.
Proof.
  assert (∀ l, existsb (fun u => key_eq u l) understood = true ↔ ∃ u, u ∈ understood ∧ key_eq u l = true) as Hex.
  { intros l. rewrite existsb_exists. split; intros (u & Hu & E); exists u; (split; [by apply list_elem_of_In|done]). }
  induction crit as [|l crit IH]; cbn [check_crit_labels]; [by split; [intros _ l ?%elem_of_nil|]|].
  destruct (is_label l) eqn:Hl; cbn; [|split; [done|intros Ha; destruct (Ha l ltac:(by left)); congruence]].
  destruct (dict_mem protected l) eqn:Hm; cbn; [|split; [by destruct (label_text l)|intros Ha; destruct (Ha l ltac:(by left)) as (_ & ? & _); congruence]].
  destruct (existsb _ understood) eqn:He; cbn.
  - rewrite IH. split; [|intros Ha l' Hl'; apply Ha; by right].
    intros Ha l' [->|Hl']%elem_of_cons; [|by apply Ha]. split_and!; [done..|by apply Hex].
  - split; [by destruct (label_text l)|]. intros Ha. destruct (Ha l ltac:(by left)) as (_ & _ & Hu%Hex). congruence.
Qed.

(** ** Computations that only raise [CoseError] *)

Definition raises_cose {A} (m : result A) : Prop := ∀ e, m = Raise e → ∃ x, e = CoseError x.

Lemma raises_cose_bind {A B} (m : result A) (f : A → result B) :
  raises_cose m → (∀ a, m = Ok a → raises_cose (f a)) → raises_cose (m ≫= f).
Proof. intros Hm Hf e. destruct m as [a|e']; cbn; [by apply Hf|intros [= ->]; by apply Hm]. Qed.

Lemma raises_cose_ok {A} (a : A) : raises_cose (Ok a).
Proof. by intros e. Qed.

Lemma raises_cose_raise {A} t args : raises_cose (Raise (A := A) (cose t args)).
Proof. intros e [= <-]. by eexists. Qed.

Lemma raises_cose_rethrow {A} (m : result A) h : (∀ e, ∃ x, h e = CoseError x) → raises_cose (rethrow m h).
Proof. intros Hh e. destruct m; cbn; [done|intros [= <-]; apply Hh]. Qed.

(** The same but for text of an integer that is too long, which needs [C]. *)
Definition raises_cose_unless (C : Prop) {A} (m : result A) : Prop :=
  ∀ e, m = Raise e → (∃ x, e = CoseError x) ∨ (e = digits_error ∧ C).

Lemma raises_cose_unless_bind C {A B} (m : result A) (f : A → result B) :
  raises_cose_unless C m → (∀ a, m = Ok a → raises_cose_unless C (f a)) → raises_cose_unless C (m ≫= f).
Proof. intros Hm Hf e. destruct m as [a|e']; cbn; [by apply Hf|intros [= ->]; by apply Hm]. Qed.

Lemma raises_cose_weaken C {A} (m : result A) : raises_cose m → raises_cose_unless C m.
Proof. intros Hm e He. left. by apply Hm. Qed.

Lemma raises_cose_never C {A} (m : result A) : raises_cose_unless C m → ¬ C → raises_cose m.
Proof. intros Hm Hc e He. by destruct (Hm e He) as [|[_ ?]]. Qed.

(** Integers of the encoding rule are far from the limit. *)
Lemma small_int_text z : Z.abs z ≤ 2 ^ 64 → int_text z = Ok ().
Proof.
  intros Hz. unfold int_text, digit_bound. assert (10 ^ 20 ≤ 10 ^ 4300) as Hp by (by apply Z.pow_le_mono_r).
  assert (2 ^ 64 < 10 ^ 20) as Hs by done. revert Hp. generalize (10 ^ 4300). intros b Hp.
  by replace (Z.abs z <? b) with true by lia.
Qed.

Lemma int_text_raises (C : Prop) z : (int_leaf (VInt z) = false → C) → raises_cose_unless C (int_text z).
Proof.
  intros HC e He. destruct (int_leaf (VInt z)) eqn:Hz.
  - rewrite small_int_text in He; [done|]. by apply Z.leb_le.
  - unfold int_text in He. destruct (Z.abs z <? digit_bound); [done|]. injection He as <-. auto.
Qed.

#[export] Hint Resolve raises_cose_ok raises_cose_raise : scitt.

Ltac cose_errors :=
  repeat first
    [ apply raises_cose_ok | apply raises_cose_raise
    | apply raises_cose_rethrow; intros; by eexists
    | apply raises_cose_bind; [|intros]
    | match goal with |- raises_cose (if ?b then _ else _) => destruct b end
    | match goal with |- raises_cose (match ?x with _ => _ end) => destruct x end
    | progress cbv beta iota zeta ].

(** ** Critical headers, continued *)

Lemma check_critical_headers_ok protected understood :
  _check_critical_headers protected understood = Ok () ↔ crit_satisfied protected understood.
Proof.
  unfold _check_critical_headers, crit_satisfied.
  destruct (dict_get protected HDR_CRIT) as [crit|] eqn:Hc; [|done].
  destruct crit as [| | | | |tuple crit| | |]; try destruct crit as [|label labels];
    try (split; [done|intros Ha; destruct (Ha _ eq_refl) as (? & ? & ? & [=] & _)]).
  rewrite check_crit_labels_ok. split.
  - intros Hl crit' [= <-]. by exists tuple, label, labels.
  - intros Ha. by destruct (Ha _ eq_refl) as (? & ? & ? & [= <- <- <-] & Hl).
Qed.

Lemma check_crit_labels_raises (C : Prop) protected understood labels :
  (forallb int_leaf labels = false → C) → raises_cose_unless C (check_crit_labels protected understood labels).
Proof.
  induction labels as [|label labels IH]; intros HC; cbn [check_crit_labels]; [by apply raises_cose_weaken, raises_cose_ok|].
  assert (raises_cose_unless C (label_text label)) as Ht.
  { destruct label; try apply raises_cose_weaken, raises_cose_ok. apply int_text_raises. intros E. apply HC. cbn [forallb]. by rewrite E. }
  destruct (is_label label); cbn [negb]; [|by apply raises_cose_weaken, raises_cose_raise].
  destruct (dict_mem protected label); cbn [negb];
    [|apply raises_cose_unless_bind; [done|intros; by apply raises_cose_weaken, raises_cose_raise]].
  destruct (existsb _ understood); cbn [negb];
    [|apply raises_cose_unless_bind; [done|intros; by apply raises_cose_weaken, raises_cose_raise]].
  apply IH. intros E. apply HC. cbn [forallb]. rewrite E. apply andb_false_r.
Qed.

(** A refusal is a [CoseError], unless a label is too long an integer. *)
Lemma check_critical_headers_raises protected understood :
  raises_cose_unless (ints_small (VDict false protected) = false) (_check_critical_headers protected understood).
Proof.
  unfold _check_critical_headers. destruct (dict_get protected HDR_CRIT) as [[| | | | |t [|l ls]| | |]|] eqn:Hc;
    try (by apply raises_cose_weaken; cose_errors).
  apply check_crit_labels_raises. intros Hl. destruct (ints_small (VDict false protected)) eqn:E; [|done]. exfalso.
  pose proof (all_leaves_get _ _ _ _ E Hc) as Hs. cbn [all_leaves] in Hs. revert Hs Hl.
  generalize (l :: ls) as labels. induction labels as [|x labels IH]; [done|]. cbn [forallb].
  intros [Hx Hs]%andb_prop [Hl|Hl]%andb_false_iff; [|by apply IH].
  destruct x; try done. change (int_leaf (VInt z) = true) in Hx. congruence.
Qed.

Lemma check_critical_headers_cose protected understood :
  ints_small (VDict false protected) = true → raises_cose (_check_critical_headers protected understood).
Proof. intros Hs. eapply raises_cose_never; [apply check_critical_headers_raises|congruence]. Qed.

(** Critical-header processing accepts exactly the protected headers whose
    [crit], if there is one, is a non-empty array of integer or text labels
    that are all present in the protected header and all understood; a header
    marked critical is never ignored, and every refusal is a [CoseError]
    when the integers in the header are in CBOR's 64-bit range. *)
Theorem check_critical_headers_exactly (protected : dict) (understood : list pyval) :
  match _check_critical_headers protected understood with
  | Ok _ => crit_satisfied protected understood
  | Raise e => ¬ crit_satisfied protected understood ∧
      (ints_small (VDict false protected) = true → ∃ m, e = CoseError m)
  end.
Proof.
  destruct (_check_critical_headers protected understood) as [[]|e] eqn:E.
  - by apply check_critical_headers_ok.
  - split; [rewrite <- check_critical_headers_ok; congruence|]. intros Hs. by eapply check_critical_headers_cose.
Qed.

Section verify.
Context `{Cbor} `{Crypto}.

(** ** Acceptance *)

(** [key] accepts [signature] over [tbs] for the algorithm [alg]: the key is
    of the one class and curve the algorithm fixes. *)
Definition signature_valid (key : public_key) (alg : Z) (signature tbs : bytes) : Prop :=
  (alg = COSE_ALG_EDDSA ∧ public_class key = Ed25519Key ∧ ed25519_verify key signature tbs = Ok ()) ∨
  (∃ c digest width, _ECDSA alg = Some (c, digest, width) ∧ public_class key = EllipticCurveKey c ∧
     length signature = (2 * width)%nat ∧
     ecdsa_verify key digest
       (encode_dss_signature (from_bytes (take width signature)) (from_bytes (drop width signature))) tbs = Ok ()).

Lemma check_signature_ok pem alg signature tbs :
  check_signature pem alg signature tbs = Ok () ↔
  ∃ key, load_public pem = Ok key ∧ signature_valid key alg signature tbs.
Proof.
  unfold check_signature, rethrow, signature_valid. destruct (load_public pem) as [key|e]; cbn [mbind outcome_bind];
    [|split; [done|by intros (? & [=] & _)]].
  assert (∀ m : result unit, catch m (fun exc => match exc with InvalidSignature => Raise (cose "signature verification FAILED (InvalidSignature)" []) | _ => Raise exc end) = Ok () ↔ m = Ok ()) as Hcatch.
  { intros [[]|[]]; cbn; by split. }
  rewrite Hcatch. split.
  - intros Hv. exists key. split; [done|]. destruct (Z.eqb_spec alg COSE_ALG_EDDSA) as [->|Hne].
    + left. case_bool_decide as Hk; [done|]. split_and!; [done|by destruct (decide (public_class key = Ed25519Key))|done].
    + right. destruct (_ECDSA alg) as [[[c digest] width]|] eqn:He; [|by destruct (int_text alg)]. exists c, digest, width.
      destruct (public_class key) as [|c'|] eqn:Hk; try done. case_bool_decide as Hc; [done|].
      assert (c' = c) as -> by (by destruct (decide (c' = c))).
      destruct (Z.eqb_spec (zlen signature) (2 * Z.of_nat width)) as [Hl|]; [|done].
      split_and!; [done|done|unfold zlen in Hl; lia|done].
  - intros (k & [= <-] & [(-> & Hk & Hv)|(c & digest & width & He & Hk & Hl & Hv)]).
    + cbn [Z.eqb]. rewrite Z.eqb_refl. by rewrite bool_decide_eq_false_2 by (by intros []).
    + assert (alg ≠ COSE_ALG_EDDSA) as Hne by (intros ->; done).
      replace (alg =? COSE_ALG_EDDSA) with false by lia. rewrite He, Hk.
      rewrite bool_decide_eq_false_2 by (by intros []).
      replace (zlen signature =? 2 * Z.of_nat width) with true by (unfold zlen; lia). done.
Qed.

Lemma decode_protected_labels b protected :
  decode_protected b = Ok protected → Forall (fun kv => is_label kv.1 = true) protected.
Proof.
  unfold decode_protected. destruct b; [intros [= <-]; constructor|].
  intros (v & _ & Hv)%bind_ok. destruct (_plain v) as [| | | | | |[] d| |]; try done.
  destruct (existsb _ d) eqn:E; [done|]. injection Hv as <-. apply Forall_forall. intros kv Hkv.
  destruct (is_label kv.1) eqn:Hl; [done|]. assert (existsb (fun kv => negb (is_label kv.1)) d = true) as Ht; [|congruence].
  apply existsb_exists. exists kv. split; [by apply list_elem_of_In|by rewrite Hl].
Qed.

(** C8: a message is accepted only if it strictly decodes to a tag-18 array of
    four, its protected header is a map of integer and text labels with an
    integer algorithm, every critical header is understood, and a key of
    exactly the class and curve that algorithm fixes accepts the signature
    over the Sig_structure of the protected octets and the payload returned,
    which is the attached one, or the caller's when the slot is nil. *)
Theorem verify_sign1_accepts msg pem detached understood r :
  verify_sign1 msg pem detached understood = Ok r →
  ∃ protected_bstr unprotected slot signature alg key tbs,
    _decode_envelope msg = Ok (VBytes protected_bstr, unprotected, slot, VBytes signature) ∧
    decode_protected protected_bstr = Ok (sign1_protected r) ∧
    Forall (fun kv => is_label kv.1 = true) (sign1_protected r) ∧
    dict_get (sign1_protected r) HDR_ALG = Some (VInt alg) ∧
    crit_satisfied (sign1_protected r) understood ∧
    (slot = VBytes (sign1_payload r) ∨ slot = VNone ∧ detached = Some (sign1_payload r)) ∧
    _sig_structure protected_bstr (sign1_payload r) = Ok tbs ∧
    load_public pem = Ok key ∧ signature_valid key alg signature tbs.
Proof.
  unfold verify_sign1. intros ([[[pb un] slot] sg] & Henv & Hv)%bind_ok.
  destruct pb as [| | |pb| | | | |]; try done. apply bind_ok in Hv as (protected & Hp & Hv).
  apply bind_ok in Hv as (unprotected & _ & Hv). apply bind_ok in Hv as (payload & Hpay & Hv).
  destruct sg as [| | |sg| | | | |]; try done. destruct (dict_get protected HDR_ALG) as [[alg| | | | | | | |]|] eqn:Halg; try done.
  apply bind_ok in Hv as ([] & Hcrit & Hv). apply bind_ok in Hv as (tbs & Htbs & Hv).
  apply bind_ok in Hv as ([] & (key & Hkey & Hsig)%check_signature_ok & [= <-]).
  apply check_critical_headers_ok in Hcrit as Hc.
  exists pb, un, slot, sg, alg, key, tbs. cbn. split_and!; try done; [by eapply decode_protected_labels|].
  destruct slot; try done; [right|left; by injection Hpay as ->].
  destruct detached; [|done]. by injection Hpay as ->.
Qed.

(** ** The errors of the module *)

Lemma strict_decode_item_cose raw what : raises_cose (_strict_decode_item raw what).
Proof. unfold _strict_decode_item. cose_errors. Qed.

Lemma strict_decode_cose data : raises_cose (strict_decode data).
Proof. unfold strict_decode. cose_errors; apply strict_decode_item_cose. Qed.

Lemma decode_envelope_cose msg : raises_cose (_decode_envelope msg).
Proof. unfold _decode_envelope. cose_errors. apply strict_decode_cose. Qed.

Lemma decode_protected_cose b : raises_cose (decode_protected b).
Proof. unfold decode_protected. cose_errors. Qed.

(** A refused signature is a [CoseError], unless the algorithm named is too
    long an integer. *)
Lemma check_signature_raises `{!VerifyLaws _} (C : Prop) pem alg signature tbs :
  (int_leaf (VInt alg) = false → C) → raises_cose_unless C (check_signature pem alg signature tbs).
Proof.
  intros HC. unfold check_signature. apply raises_cose_unless_bind; [apply raises_cose_weaken, raises_cose_rethrow; intros; by eexists|].
  intros key _ e.
  assert (∀ m : result unit, (∀ e', m = Raise e' → e' = InvalidSignature ∨ (∃ x, e' = CoseError x) ∨ (e' = digits_error ∧ C)) →
    raises_cose_unless C (catch m (fun exc => match exc with InvalidSignature => Raise (cose "signature verification FAILED (InvalidSignature)" []) | _ => Raise exc end))) as Hcatch.
  { intros [[]|e'] Hm e''; cbn; [done|]. destruct (Hm e' eq_refl) as [->|[[x ->]|[-> Hc]]]; intros [= <-]; [left; by eexists..|by right]. }
  apply Hcatch. intros e'.
  destruct (_ =? _); [case_bool_decide; [intros [= <-]; right; left; by eexists|intros Hr; left; by eapply ed25519_verify_raises]|].
  destruct (_ECDSA alg) as [[[c h] w]|].
  2: { intros He. right. revert e' He. apply raises_cose_unless_bind; [by apply int_text_raises|].
       intros. apply raises_cose_weaken, raises_cose_raise. }
  destruct (public_class key) as [|c'|]; try (intros [= <-]; right; left; by eexists).
  case_bool_decide; [intros [= <-]; right; left; by eexists|].
  destruct (negb _); [intros [= <-]; right; left; by eexists|intros Hr; left; by eapply ecdsa_verify_raises].
Qed.

(** The message carries a protected header with an integer that is out of
    CBOR's 64-bit range. *)
Definition oversized (msg : bytes) : Prop :=
  ∃ protected_bstr unprotected slot signature protected,
    _decode_envelope msg = Ok (VBytes protected_bstr, unprotected, slot, signature) ∧
    decode_protected protected_bstr = Ok protected ∧ ints_small (VDict false protected) = false.

Lemma verify_sign1_raises `{!CborLaws _} `{!VerifyLaws _} msg pem detached understood :
  raises_cose_unless (oversized msg) (verify_sign1 msg pem detached understood).
Proof.
  unfold verify_sign1.
  apply raises_cose_unless_bind; [apply raises_cose_weaken, decode_envelope_cose|]. intros [[[pb un] slot] sg] He. cbv beta iota.
  destruct pb as [| | |pb| | | | |]; try apply raises_cose_weaken, raises_cose_raise.
  apply raises_cose_unless_bind; [apply raises_cose_weaken, decode_protected_cose|intros protected Hp].
  assert (ints_small (VDict false protected) = false → oversized msg) as HC by (intros; by exists pb, un, slot, sg, protected).
  apply raises_cose_unless_bind; [apply raises_cose_weaken; cose_errors|intros unprotected _].
  apply raises_cose_unless_bind; [apply raises_cose_weaken; cose_errors|intros payload _].
  destruct sg; try apply raises_cose_weaken, raises_cose_raise.
  destruct (dict_get protected HDR_ALG) as [[]|] eqn:Halg; try apply raises_cose_weaken, raises_cose_raise.
  apply raises_cose_unless_bind; [|intros [] _].
  { intros e Hr. destruct (check_critical_headers_raises _ _ e Hr) as [?|[? ?]]; [by left|right; auto]. }
  apply raises_cose_unless_bind.
  { apply raises_cose_weaken. unfold _sig_structure. edestruct dumps_strings as [t ->]; [|apply raises_cose_ok]. by repeat constructor. }
  intros tbs _. apply raises_cose_unless_bind; [|intros [] _; apply raises_cose_weaken, raises_cose_ok].
  apply check_signature_raises. intros Hz. apply HC. destruct (ints_small (VDict false protected)) eqn:E; [|done].
  pose proof (all_leaves_get _ _ _ _ E Halg) as Hs. change (int_leaf (VInt z) = true) in Hs. congruence.
Qed.

(** The algorithm of an accepted message has a name. *)
Lemma verify_sign1_named msg pem detached understood r :
  verify_sign1 msg pem detached understood = Ok r →
  ∃ alg name, dict_get (sign1_protected r) HDR_ALG = Some (VInt alg) ∧ ALG_CODE_TO_NAME alg = Some name.
Proof.
  unfold verify_sign1. intros ([[[pb un] slot] sg] & _ & Hv)%bind_ok. cbv beta iota in Hv. destruct pb; try done.
  apply bind_ok in Hv as (protected & _ & Hv). apply bind_ok in Hv as (? & _ & Hv). apply bind_ok in Hv as (? & _ & Hv).
  destruct sg; try done. destruct (dict_get protected HDR_ALG) as [[alg| | | | | | | |]|] eqn:Halg; try done.
  apply bind_ok in Hv as ([] & _ & Hv). apply bind_ok in Hv as (tbs & _ & Hv).
  apply bind_ok in Hv as ([] & (key & _ & Hs)%check_signature_ok & [= <-]). cbn. exists alg.
  destruct Hs as [(-> & _)|(c & d & w & He & _)]; [by eexists|]. unfold _ECDSA in He. unfold ALG_CODE_TO_NAME.
  destruct (alg =? COSE_ALG_EDDSA); [by eexists|].
  destruct (alg =? COSE_ALG_ES256); [by eexists|]. destruct (alg =? COSE_ALG_ES384); [by eexists|done].
Qed.

(** The failure contract: whatever the message and the key, a refusal is a
    [CoseError], or, when an integer of the protected header that is out of
    CBOR's 64-bit range cannot be written into the message of one, the
    [ValueError] of that; no parser, key-loading or index error escapes, given
    that [cbor2] can dump an array of strings and that a refused signature is
    reported as [InvalidSignature]. *)
Theorem verify_sign1_cose_error `{!CborLaws _} `{!VerifyLaws _} msg pem detached understood e :
  verify_sign1 msg pem detached understood = Raise e → (∃ m, e = CoseError m) ∨ (e = digits_error ∧ oversized msg).
Proof. apply verify_sign1_raises. Qed.
End verify.
