(* ===== verification/CoseRoundTrip.v ===== *)
(** * Signing and verifying agree

    What [sign_sign1] emits, [strict_decode] and [verify_sign1] read back,
    from the laws of [cbor2] and [cryptography]. *)

From S2P Require Import Prelude PyRuntime EncodingRule EncodingRuleProof Cbor Crypto CoseSign1 CoseSign1Proof.

(** ** Plain values *)

Definition thaw_dict (d : dict) : dict := map (fun kv => (thaw kv.1, thaw kv.2)) d.
Definition dict_of (l : list (item * item)) : dict := map (fun kv => (value_of kv.1, value_of kv.2)) l.

Lemma key_eq_thaw k label : key_eq (thaw k) label = key_eq k label.
Proof. by destruct k, label. Qed.

Lemma dict_get_thaw d label : dict_get (thaw_dict d) label = thaw <$> dict_get d label.
Proof.
  induction d as [|[k v] d IH]; [done|]. cbn. rewrite key_eq_thaw. by destruct (key_eq k label).
Qed.

Lemma key_eq_refl label : is_label label = true → key_eq label label = true.
Proof. destruct label; try done; intros _; cbn; by apply bool_decide_eq_true_2. Qed.

Lemma dict_get_set d label v : is_label label = true → dict_get (dict_set d label v) label = Some v.
Proof.
  intros Hl. induction d as [|[k v'] d IH]; cbn; [by rewrite key_eq_refl|].
  destruct (key_eq k label) eqn:E; cbn; by rewrite E.
Qed.

Lemma dict_set_nonempty d label v : dict_set d label v ≠ [].
Proof. destruct d as [|[k v'] d]; cbn; [done|]. by destruct (key_eq k label). Qed.

Lemma value_of_dict l : value_of (Map l) = VDict false (dict_of l).
Proof. done. Qed.

Lemma key_is_label i : is_key i → is_label (value_of i) = true.
Proof. by destruct i. Qed.

(** Below the outer tag an item has no tag, so [_plain] undoes every frozen
    container. *)
Lemma plain_represents room v i : admitted room false i → represents v i → _plain v = value_of i.
Proof.
  unfold represents. revert v i. induction room as [|room IH]; intros v i Hi Hv; [done|].
  assert (∀ k, is_key k → ∀ w, thaw w = value_of k → w = value_of k) as Hkey.
  { intros [] Hk w; try done; by destruct w. }
  destruct i as [n|n|b|b|l|l|t i|s]; destruct v as [z|b'| |b'|s'|t' l'|f d|t' v|n' id]; cbn in Hv |- *; try done;
    try (by repeat case_match).
  - f_equal. injection Hv as Hv. destruct Hi as [_ Hl]. revert l' Hv.
    induction Hl as [|i l Hi _ IHl]; intros [|v l'] Hv; try done. cbn in *. injection Hv as Hv1 Hv2.
    f_equal; [by apply IH|by apply IHl].
  - f_equal. injection Hv as Hv. destruct Hi as (_ & _ & Hl). revert d Hv.
    induction Hl as [|[k i] l (Hk & _ & Hi) _ IHl]; intros [|[k' v] d] Hv; try done. cbn in *.
    injection Hv as Hv1 Hv2 Hv3. f_equal; [|by apply IHl]. f_equal; [by apply Hkey|by apply IH].
  - by destruct Hi.
Qed.

Lemma value_of_represents room ot i : admitted room ot i → represents (value_of i) i.
Proof.
  unfold represents. revert ot i. induction room as [|room IH]; intros ot i Hi; [done|].
  destruct i as [n|n|b|b|l|l|t i|s]; try done; cbn [value_of thaw].
  - apply admitted_Array in Hi as [_ Hl]. f_equal. rewrite map_map.
    induction Hl as [|i l Hi _ IHl]; [done|]. cbn [map]. rewrite (IH _ _ Hi). by f_equal.
  - apply admitted_Map in Hi as (_ & _ & Hl). f_equal. rewrite map_map.
    induction Hl as [|[k i] l (_ & Hk & Hi) _ IHl]; [done|].
    cbn [map fst snd] in *. rewrite (IH _ _ Hk), (IH _ _ Hi). by f_equal.
  - apply admitted_Tag in Hi as (_ & _ & _ & Hi). by rewrite (IH _ _ Hi).
  - by repeat case_match.
Qed.

Section roundtrip.
Context `{!Cbor} `{!CborLaws _}.
#[local] Set Default Proof Using "All".

(** ** Strict decoding *)

Lemma strict_decode_item_encode room ot i what :
  (room ≤ 17)%nat → admitted room ot i → ∃ v, _strict_decode_item (encode i) what = Ok v ∧ represents v i.
Proof.
  intros Hroom Hi. destruct (decode_item room ot i Hroom Hi) as (v & Hv & Hr).
  destruct (canonical_item room ot v i Hroom Hi Hr) as (b & Hb & Hl). exists v. split; [|done].
  unfold _strict_decode_item. rewrite Hv. cbn [rethrow mbind outcome_bind]. rewrite Hb. cbn [rethrow mbind outcome_bind].
  assert (zlen b = zlen (encode i)) as E by (unfold zlen; lia). rewrite E.
  replace (zlen (encode i) <? zlen (encode i)) with false by lia. by rewrite Z.eqb_refl.
Qed.

(** The items of a COSE_Sign1 message. *)
Definition message_item (protected_bstr : bytes) (unprotected : list (item * item)) (payload : option bytes)
    (signature : bytes) : item :=
  Tag COSE_SIGN1_TAG (Array [Octets protected_bstr; Map unprotected;
    match payload with Some p => Octets p | None => Simple 22 end; Octets signature]).

Definition slot_of (payload : option bytes) : pyval := match payload with Some p => VBytes p | None => VNone end.

Lemma represents_message v pb ul payload signature :
  represents v (message_item pb ul payload signature) →
  ∃ tuple b c, v = VTag COSE_SIGN1_TAG (VList tuple [VBytes pb; b; c; VBytes signature]) ∧
    represents b (Map ul) ∧ _plain c = slot_of payload.
Proof.
  unfold represents. intros Hr. destruct v as [| | | | | | |t v|]; try done.
  injection Hr as -> Hr. destruct v as [| | | | |tp vs| | |]; try done. injection Hr as Hr.
  destruct vs as [|a [|b [|c [|d [|]]]]]; try done. injection Hr as Ha Hb Hc Hd.
  destruct a; try done. injection Ha as ->. destruct d; try done. injection Hd as ->.
  exists tp, b, c. split_and!; [done|done|]. by destruct payload, c; try done; injection Hc as ->.
Qed.

Lemma encode_nonempty room ot i : admitted room ot i → encode i ≠ [].
Proof. intros Hi E. destruct (encode_initial _ _ _ Hi) as (? & ? & ? & _). congruence. Qed.

(** An admitted message with an admitted protected header is decoded. *)
Lemma strict_decode_message pi ul payload signature :
  admitted 17 true (message_item (encode pi) ul payload signature) → admitted 17 false pi →
  zlen (encode (message_item (encode pi) ul payload signature)) ≤ MAX_MESSAGE_BYTES →
  ∃ tuple b, strict_decode (encode (message_item (encode pi) ul payload signature)) =
      Ok (COSE_SIGN1_TAG, VList tuple [VBytes (encode pi); b; slot_of payload; VBytes signature]) ∧
    represents b (Map ul).
Proof.
  intros Hm Hpi Hsize. unfold strict_decode.
  destruct (strict_decode_item_encode 17 true _ "the COSE_Sign1 message" (le_n _) Hm) as (v & -> & Hr).
  apply represents_message in Hr as (tp & b & c & -> & Hb & Hc).
  destruct (strict_decode_item_encode 17 false pi "the protected header" (le_n _) Hpi) as (w & Hw & _).
  pose proof (encode_nonempty _ _ _ Hpi) as Hne. exists tp, b.
  assert (c = slot_of payload) as -> by (by destruct payload, c).
  generalize dependent (encode (message_item (encode pi) ul payload signature)). intros raw Hsize.
  replace (zlen raw >? MAX_MESSAGE_BYTES) with false by lia. cbn [mbind outcome_bind].
  destruct (encode pi) as [|o os]; [done|]. by rewrite Hw.
Qed.

(** The four elements of an admitted message as [_decode_envelope] returns them. *)
Lemma decode_envelope_message room pi ul payload signature :
  admitted 17 true (message_item (encode pi) ul payload signature) → admitted 17 false pi →
  admitted room false (Map ul) →
  zlen (encode (message_item (encode pi) ul payload signature)) ≤ MAX_MESSAGE_BYTES →
  _decode_envelope (encode (message_item (encode pi) ul payload signature)) =
    Ok (VBytes (encode pi), VDict false (dict_of ul), slot_of payload, VBytes signature).
Proof.
  intros Hm Hpi Hul Hsize. destruct (strict_decode_message _ _ _ _ Hm Hpi Hsize) as (tp & b & Hd & Hb).
  unfold _decode_envelope. rewrite Hd. cbn [mbind outcome_bind]. rewrite Z.eqb_refl. cbn [negb _plain map].
  rewrite (plain_represents room _ _ Hul Hb). by destruct payload.
Qed.

Lemma decode_protected_map ml :
  admitted 17 false (Map ml) → decode_protected (encode (Map ml)) = Ok (dict_of ml).
Proof.
  intros Hm. destruct (loads_item 17 false (Map ml) (le_n _) Hm) as (v & Hv & Hr).
  apply (plain_represents 17) in Hr as Hp; [|done]. unfold decode_protected.
  destruct (encode (Map ml)) as [|o os] eqn:E.
  { destruct (encode_initial _ _ _ Hm) as (? & ? & ? & _). congruence. }
  rewrite Hv. cbn [rethrow mbind outcome_bind]. rewrite Hp, value_of_dict.
  assert (existsb (fun kv => negb (is_label kv.1)) (dict_of ml) = false) as ->; [|done].
  apply not_true_is_false. intros (kv & Hin & Hb)%existsb_exists.
  apply in_map_iff in Hin as ((k & i) & <- & Hin). apply admitted_Map in Hm as (_ & _ & Hl).
  rewrite Forall_forall in Hl. destruct (Hl (k, i)) as (Hk & _); [by apply list_elem_of_In|].
  cbn in Hb. by rewrite key_is_label in Hb.
Qed.

(** ** The Sig_structure *)

Definition sig_item (protected_bstr payload : bytes) : item :=
  Array [Text (of_string "Signature1"); Octets protected_bstr; Octets []; Octets payload].

Lemma sig_text room ot : admitted (S room) ot (Text (of_string "Signature1")).
Proof.
  apply admitted_Text. split; [vm_compute; reflexivity|]. apply utf8_text. vm_compute. reflexivity.
Qed.

Lemma sig_item_admitted room p q :
  zlen p < 2 ^ 64 → zlen q < 2 ^ 64 → admitted (S (S room)) false (sig_item p q).
Proof.
  intros Hp Hq. apply admitted_Array. split; [unfold zlen; cbn [length]; lia|].
  apply Forall_cons. split; [apply sig_text|]. rewrite !Forall_cons, !admitted_Octets.
  split_and!; [done|done|done|constructor].
Qed.

Lemma sig_structure_item p q :
  zlen p < 2 ^ 64 → zlen q < 2 ^ 64 → _sig_structure p q = Ok (encode (sig_item p q)).
Proof. intros Hp Hq. apply (dumps_item 17 false); [done|by apply sig_item_admitted|done]. Qed.

(** The octets that are signed determine what is signed: two to-be-signed
    strings are equal only for the same protected header octets and the same
    payload, so no octet can move from one into the other. *)
Theorem sig_structure_binds p q p' q' tbs :
  zlen p < 2 ^ 64 → zlen q < 2 ^ 64 → zlen p' < 2 ^ 64 → zlen q' < 2 ^ 64 →
  _sig_structure p q = Ok tbs → _sig_structure p' q' = Ok tbs → p = p' ∧ q = q'.
Proof.
  intros Hp Hq Hp' Hq'. rewrite !sig_structure_item by done. intros H1 H2.
  assert (encode (sig_item p q) = encode (sig_item p' q')) as E by congruence.
  pose proof (encode_inj _ _ _ _ _ _ (sig_item_admitted 0 p q Hp Hq) (sig_item_admitted 0 p' q' Hp' Hq') [] []) as Hi.
  rewrite E in Hi. destruct (Hi eq_refl) as [Hs _]. by injection Hs.
Qed.
End roundtrip.

(** ** Signing *)

Section sign.
Context `{!Cbor} `{!CborLaws _} `{!Crypto} `{!SignLaws _}.
#[local] Set Default Proof Using "All".

(** The key class an algorithm signs with. *)
Definition alg_class (code : Z) : option key_class :=
  if code =? COSE_ALG_EDDSA then Some Ed25519Key
  else match _ECDSA code with Some (c, _, _) => Some (EllipticCurveKey c) | None => None end.

(** The signature expression of [sign_sign1]. *)
Definition make_signature (alg : string) (code : Z) (key : private_key) (tbs : bytes) : result bytes :=
  if bool_decide (alg = "EdDSA") then
    if bool_decide (private_class key ≠ Ed25519Key)
    then Raise (cose "alg EdDSA requires an Ed25519 private key" [])
    else Ok (ed25519_sign key tbs)
  else
    match _ECDSA code with
    | None => Raise KeyError
    | Some (curve, digest, width) =>
        if bool_decide (private_class key ≠ EllipticCurveKey curve)
        then Raise (cose "alg {alg} requires an EC ({_CURVE_NAME[curve]}) private key" [AStr alg; AStr (_CURVE_NAME curve)])
        else
          '(r, s) ← decode_dss_signature (ecdsa_sign key digest tbs);
          r ← to_bytes width r;
          s ← to_bytes width s;
          Ok (r ++ s)
    end.

Lemma make_signature_ok alg code key tbs pk_pem :
  ALG_NAME_TO_CODE alg = Some code → alg_class code = Some (private_class key) →
  load_public pk_pem = Ok (public_of key) →
  ∃ sig, make_signature alg code key tbs = Ok sig ∧ (length sig ≤ 96)%nat ∧ check_signature pk_pem code sig tbs = Ok ().
Proof.
  intros Halg Hclass Hload.
  assert (∀ c h w, (c = SECP256R1 ∨ c = SECP384R1) → _ECDSA code = Some (c, h, w) → code ≠ COSE_ALG_EDDSA →
    private_class key = EllipticCurveKey c → w = coordinate_width c → alg ≠ "EdDSA" →
    ∃ sig, make_signature alg code key tbs = Ok sig ∧ (length sig ≤ 96)%nat ∧ check_signature pk_pem code sig tbs = Ok ()) as Hec.
  { intros c h w Hc He Hne Hk -> Hnalg. destruct (ecdsa_sign_verify key c h tbs Hk Hc) as (r & s & Hdss & Hr & Hs & Hv).
    unfold make_signature. rewrite bool_decide_eq_false_2, He by done.
    rewrite bool_decide_eq_false_2 by (by intros []). rewrite Hdss. cbn [mbind outcome_bind]. unfold to_bytes.
    rewrite !(proj2 (andb_true_iff _ _)) by (split; [apply Z.leb_le|apply Z.ltb_lt]; lia). cbn [mbind outcome_bind].
    eexists. split; [done|]. rewrite length_app, !length_be_bytes. split; [destruct Hc as [-> | ->]; cbn; lia|].
    apply check_signature_ok. exists (public_of key). split; [done|]. right. exists c, h, (coordinate_width c).
    rewrite public_of_class, length_app, !length_be_bytes. split_and!; [done|done|lia|].
    rewrite take_app_length', drop_app_length', !from_be_bytes by (done || by rewrite length_be_bytes). done. }
  unfold ALG_NAME_TO_CODE in Halg.
  case_bool_decide as Hed; [|case_bool_decide as H2; [|case_bool_decide as H3; [|done]]]; injection Halg as <-;
    cbn in Hclass; injection Hclass as Hclass.
  - exists (ed25519_sign key tbs). unfold make_signature. rewrite bool_decide_eq_true_2 by done.
    rewrite bool_decide_eq_false_2 by (by intros []). rewrite ed25519_sign_length. split_and!; [done|lia|].
    apply check_signature_ok. exists (public_of key). split; [done|]. left.
    rewrite public_of_class. split_and!; [done|done|by apply ed25519_sign_verify].
  - by apply (Hec SECP256R1 SHA256 32%nat); auto.
  - by apply (Hec SECP384R1 SHA384 48%nat); auto.
Qed.

Lemma message_admitted pb ul payload signature :
  zlen pb < 2 ^ 64 → admitted 15 false (Map ul) →
  match payload with Some p => zlen p < 2 ^ 64 | None => True end → zlen signature < 2 ^ 64 →
  admitted 17 true (message_item pb ul payload signature).
Proof.
  intros Hpb Hul Hp Hs. apply admitted_Tag. split_and!; [done..|]. apply admitted_Array.
  split; [unfold zlen; cbn [length]; lia|]. rewrite !Forall_cons, !admitted_Octets. split_and!; try done.
  destruct payload; [by apply admitted_Octets|]. apply admitted_Simple. right; right; left.
Qed.

(** What [sign_sign1] emits with a key of the algorithm's class: the encoding
    of the message with a signature the matching public key accepts. *)
Lemma sign_sign1_message payload alg code sk_pem pk_pem key protected unprotected pl ul (detached : bool) :
  ALG_NAME_TO_CODE alg = Some code →
  load_private sk_pem = Ok key → load_public pk_pem = Ok (public_of key) →
  alg_class code = Some (private_class key) →
  represents (VDict false (dict_set (or_empty protected) HDR_ALG (VInt code))) (Map pl) → admitted 17 false (Map pl) →
  represents (VDict false (or_empty unprotected)) (Map ul) → admitted 15 false (Map ul) →
  zlen (encode (Map pl)) < 2 ^ 64 → zlen payload < 2 ^ 64 →
  ∃ sig, let m := message_item (encode (Map pl)) ul (if detached then None else Some payload) sig in
    sign_sign1 payload alg sk_pem protected unprotected detached = Ok (encode m) ∧ admitted 17 true m ∧
    check_signature pk_pem code sig (encode (sig_item (encode (Map pl)) payload)) = Ok () ∧
    dict_get (dict_of pl) HDR_ALG = Some (VInt code) ∧ (length sig ≤ 96)%nat.
Proof.
  intros Halg Hsk Hpk Hclass Hpr Hpl Hur Hul Hlp Hlq. set (tbs := encode (sig_item (encode (Map pl)) payload)).
  destruct (make_signature_ok alg code key tbs pk_pem Halg Hclass Hpk) as (sig & Hsig & Hlen & Hcheck).
  exists sig. cbv zeta. set (slot := if detached then None else Some payload).
  assert (admitted 17 true (message_item (encode (Map pl)) ul slot sig)) as Hm.
  { apply message_admitted; [done|done|by subst slot; destruct detached|unfold zlen; lia]. }
  split_and!; [|done|done| |done].
  - unfold sign_sign1. rewrite Halg.
    assert (match dict_set (or_empty protected) HDR_ALG (VInt code) with
            | [] => Ok [] | _ => cbor_dumps (VDict false (dict_set (or_empty protected) HDR_ALG (VInt code))) end
            = Ok (encode (Map pl))) as ->.
    { rewrite <- (dumps_item _ _ _ _ (le_n _) Hpl Hpr).
      pose proof (dict_set_nonempty (or_empty protected) HDR_ALG (VInt code)). by destruct (dict_set _ _ _). }
    cbn [mbind outcome_bind]. rewrite sig_structure_item by done. cbn [mbind outcome_bind]. rewrite Hsk.
    cbn [mbind outcome_bind]. fold tbs. fold (make_signature alg code key tbs). rewrite Hsig. cbn [mbind outcome_bind].
    apply (dumps_item _ _ _ _ (le_n _) Hm). unfold represents in *. cbn [thaw value_of message_item map] in *.
    rewrite Hur. by subst slot; destruct detached.
  - unfold represents in Hpr. cbn [thaw] in Hpr. rewrite value_of_dict in Hpr. injection Hpr as Hpr.
    rewrite <- Hpr. fold (thaw_dict (dict_set (or_empty protected) HDR_ALG (VInt code))).
    by rewrite dict_get_thaw, dict_get_set.
Qed.

(** A message whose signature checks out is accepted. *)
Lemma verify_sign1_message pl ul slot sig code payload pk_pem supplied understood :
  admitted 17 true (message_item (encode (Map pl)) ul slot sig) → admitted 17 false (Map pl) → admitted 15 false (Map ul) →
  zlen (encode (message_item (encode (Map pl)) ul slot sig)) ≤ MAX_MESSAGE_BYTES →
  zlen (encode (Map pl)) < 2 ^ 64 → zlen payload < 2 ^ 64 →
  match slot with Some p => p = payload | None => supplied = Some payload end →
  dict_get (dict_of pl) HDR_ALG = Some (VInt code) → _check_critical_headers (dict_of pl) understood = Ok () →
  check_signature pk_pem code sig (encode (sig_item (encode (Map pl)) payload)) = Ok () →
  verify_sign1 (encode (message_item (encode (Map pl)) ul slot sig)) pk_pem supplied understood =
    Ok {| sign1_protected := dict_of pl; sign1_unprotected := dict_of ul; sign1_payload := payload |}.
Proof.
  intros Hm Hpl Hul Hsize Hlp Hlq Hslot Halg Hcrit Hcheck.
  unfold verify_sign1. rewrite (decode_envelope_message 15) by done. cbn [mbind outcome_bind].
  rewrite decode_protected_map by done. cbn [mbind outcome_bind].
  assert (match slot_of slot with
          | VNone => match supplied with
                     | None => Raise (cose "payload is detached (nil); supply detached_payload to verify" [])
                     | Some payload => Ok payload end
          | VBytes payload => Ok payload
          | _ => Raise (cose "attached payload must be a byte string" []) end = Ok payload) as ->.
  { destruct slot as [p|]; cbn; [by rewrite Hslot|by rewrite Hslot]. }
  cbn [mbind outcome_bind]. rewrite Halg, Hcrit. cbn [mbind outcome_bind]. rewrite sig_structure_item by done.
  cbn [mbind outcome_bind]. by rewrite Hcheck.
Qed.

(** C28: what [sign_sign1] emits with a key of the algorithm's class,
    [verify_sign1] accepts with the matching public key, and it returns the
    signed protected header, algorithm included, the unprotected header and
    the payload, attached or detached; provided both headers are within the
    encoding rule, every critical header is one the caller understands, a
    detached payload is supplied again, and the message is within 10 MiB. *)
Theorem sign_verify_sign1 payload alg code sk_pem pk_pem key protected unprotected pl ul (detached : bool) supplied understood :
  ALG_NAME_TO_CODE alg = Some code →
  load_private sk_pem = Ok key → load_public pk_pem = Ok (public_of key) →
  alg_class code = Some (private_class key) →
  represents (VDict false (dict_set (or_empty protected) HDR_ALG (VInt code))) (Map pl) → admitted 17 false (Map pl) →
  represents (VDict false (or_empty unprotected)) (Map ul) → admitted 15 false (Map ul) →
  zlen (encode (Map pl)) < 2 ^ 64 → zlen payload < 2 ^ 64 →
  _check_critical_headers (dict_of pl) understood = Ok () →
  (detached = true → supplied = Some payload) →
  ∃ msg, sign_sign1 payload alg sk_pem protected unprotected detached = Ok msg ∧
    (zlen msg ≤ MAX_MESSAGE_BYTES →
     verify_sign1 msg pk_pem supplied understood =
       Ok {| sign1_protected := dict_of pl; sign1_unprotected := dict_of ul; sign1_payload := payload |}).
Proof.
  intros Halg Hsk Hpk Hclass Hpr Hpl Hur Hul Hlp Hlq Hcrit Hsupp.
  destruct (sign_sign1_message payload alg code sk_pem pk_pem key protected unprotected pl ul detached)
    as (sig & Hsign & Hm & Hcheck & Hget & _); try done.
  eexists. split; [exact Hsign|]. intros Hsize. apply (verify_sign1_message pl ul _ sig code); try done.
  by destruct detached; [apply Hsupp|].
Qed.
End sign.
