(* ===== verification/CborInstance.v ===== *)
(** * A concrete CBOR codec and signature scheme

    Executable implementations of the interfaces [Cbor] and [Crypto] that
    satisfy their laws: the laws are consistent, and theorems that assume them
    can be applied to concrete messages. *)

From S2P Require Import Prelude PyRuntime Utf8 EncodingRule EncodingRuleProof Sha256 Cbor Crypto CoseRoundTrip.

(** ** A parser for the grammar of the encoding rule *)

Section repeat.
Context {A : Type} (p : bytes → option (A * bytes)).

(** [n] consecutive [A]s. *)
Fixpoint parse_n (n : nat) (b : bytes) : option (list A * bytes) :=
  match n with
  | O => Some ([], b)
  | S n' =>
      match p b with
      | Some (a, b') => match parse_n n' b' with Some (l, r) => Some (a :: l, r) | None => None end
      | None => None
      end
  end.
End repeat.

Definition parse_pair (p : bytes → option (item * bytes)) (b : bytes) : option ((item * item) * bytes) :=
  match p b with
  | Some (k, b') => match p b' with Some (v, r) => Some ((k, v), r) | None => None end
  | None => None
  end.

Fixpoint parse (room : nat) (b : bytes) : option (item * bytes) :=
  match room with
  | O => None
  | S room' =>
      match _head b 0 "" with
      | Ok (m, a, p) =>
          let rest := drop (Z.to_nat p) b in
          if m =? 0 then Some (Uint a, rest)
          else if m =? 1 then Some (Nint a, rest)
          else if m =? 2 then Some (Octets (take (Z.to_nat a) rest), drop (Z.to_nat a) rest)
          else if m =? 3 then Some (Text (take (Z.to_nat a) rest), drop (Z.to_nat a) rest)
          else if m =? 4 then
            match parse_n (parse room') (Z.to_nat a) rest with Some (l, r) => Some (Array l, r) | None => None end
          else if m =? 5 then
            match parse_n (parse_pair (parse room')) (Z.to_nat a) rest with Some (l, r) => Some (Map l, r) | None => None end
          else if m =? 6 then match parse room' rest with Some (i, r) => Some (Tag a i, r) | None => None end
          else Some (Simple a, rest)
      | Raise _ => None
      end
  end.

Lemma parse_n_ok {A} (p : bytes → option (A * bytes)) (f : A → bytes) (P : A → Prop) l rest :
  (∀ a r, P a → p (f a ++ r) = Some (a, r)) → Forall P l →
  parse_n p (length l) (concat (map f l) ++ rest) = Some (l, rest).
Proof.
  intros Hp Hl. induction Hl as [|a l Ha _ IH]; [done|]. cbn. by rewrite <- app_assoc, Hp, IH.
Qed.

Lemma parse_encode room ot i rest : admitted room ot i → parse room (encode i ++ rest) = Some (i, rest).
Proof.
  revert ot i rest. induction room as [|room IH]; intros ot i rest Hi; [done|].
  assert (∀ m a s, encode i = head m a ++ s → 0 ≤ m < 8 → 0 ≤ a < 2 ^ 64 →
    ∃ p, _head (encode i ++ rest) 0 "" = Ok (m, a, p) ∧ drop (Z.to_nat p) (encode i ++ rest) = s ++ rest) as Hhead.
  { intros m a s E Hm Ha. exists (zlen (head m a)). split.
    - apply head_complete; [done|done|]. exists [], (s ++ rest). rewrite E, <- app_assoc. done.
    - rewrite E, <- app_assoc. unfold zlen. rewrite Nat2Z.id. apply drop_app_length. }
  pose proof (@zlen_nonneg byte). pose proof (@zlen_nonneg item). pose proof (@zlen_nonneg (item * item)).
  cbn [parse]. destruct i as [n|n|b|b|l|l|t i|s]; cbn [admitted] in Hi; destruct_and?.
  - destruct (Hhead 0 n []) as (p & -> & ->); [by rewrite app_nil_r|lia..|done].
  - destruct (Hhead 1 n []) as (p & -> & ->); [by rewrite app_nil_r|lia..|done].
  - destruct (Hhead 2 (zlen b) b) as (p & -> & ->); [done|lia|auto|]. cbn.
    unfold zlen. by rewrite Nat2Z.id, take_app_length, drop_app_length.
  - destruct (Hhead 3 (zlen b) b) as (p & -> & ->); [done|lia|auto|]. cbn.
    unfold zlen. by rewrite Nat2Z.id, take_app_length, drop_app_length.
  - destruct (Hhead 4 (zlen l) (concat (map encode l))) as (p & -> & ->); [done|lia|auto|]. cbn.
    unfold zlen. rewrite Nat2Z.id. erewrite (parse_n_ok _ encode (admitted room false)); [done| |done].
    intros a r Ha. by eapply IH.
  - destruct (Hhead 5 (zlen l) (concat (map (fun kv => encode kv.1 ++ encode kv.2) l))) as (p & -> & ->); [done|lia|auto|].
    cbn. unfold zlen. rewrite Nat2Z.id.
    erewrite (parse_n_ok _ (fun kv => encode kv.1 ++ encode kv.2)
      (fun kv => is_key kv.1 ∧ admitted room false kv.1 ∧ admitted room false kv.2)); [done| |done].
    intros [k v] r (_ & Hk & Hv). unfold parse_pair. cbn in *. rewrite <- app_assoc.
    rewrite (IH _ _ _ Hk). by rewrite (IH _ _ _ Hv).
  - subst t. destruct (Hhead 6 18 (encode i)) as (p & -> & ->); [done|lia|lia|].
    cbn [Z.eqb Pos.eqb]. by erewrite IH by done.
  - assert (0 ≤ s < 24) as Hr by set_solver by lia.
    destruct (Hhead 7 s []) as (p & -> & ->); [by rewrite app_nil_r|lia..|done].
Qed.

(** ** Values to items *)

Fixpoint mapM_option {A B} (f : A → option B) (l : list A) : option (list B) :=
  match l with
  | [] => Some []
  | x :: l' => match f x, mapM_option f l' with Some y, Some r => Some (y :: r) | _, _ => None end
  end.

Fixpoint item_of (v : pyval) : option item :=
  match v with
  | VInt z => Some (if 0 <=? z then Uint z else Nint (-1 - z))
  | VBool b => Some (Simple (if b then 21 else 20))
  | VNone => Some (Simple 22)
  | VBytes b => Some (Octets b)
  | VStr s => Some (Text (of_string s))
  | VList _ l => option_map Array (mapM_option item_of l)
  | VDict _ d => option_map Map (mapM_option (fun kv =>
      match item_of kv.1, item_of kv.2 with Some k, Some v => Some (k, v) | _, _ => None end) d)
  | VTag t v => option_map (Tag t) (item_of v)
  | VOther _ _ => None
  end.

Lemma of_to_string b : of_string (to_string b) = b.
Proof. apply String.list_byte_of_string_of_list_byte. Qed.

Lemma to_of_string s : to_string (of_string s) = s.
Proof. apply String.string_of_list_byte_of_string. Qed.

Lemma mapM_option_ok {A B} (f : A → option B) l k : Forall2 (fun x y => f x = Some y) l k → mapM_option f l = Some k.
Proof. induction 1 as [|x y l k Hx _ IH]; [done|]. cbn. by rewrite Hx, IH. Qed.

Lemma item_of_represents room ot v i : admitted room ot i → represents v i → item_of v = Some i.
Proof.
  unfold represents. revert ot v i. induction room as [|room IH]; intros ot v i Hi Hv; [done|].
  destruct i as [n|n|b|b|l|l|t i|s]; destruct v as [z|b'| |b'|s'|t' l'|f d|t' v|n' id]; cbn in Hv; try done.
  all: try (by repeat case_match).
  - injection Hv as ->. cbn in Hi |- *. by replace (0 <=? n) with true by lia.
  - injection Hv as ->. cbn in Hi |- *. replace (0 <=? -1 - n) with false by lia. do 2 f_equal. lia.
  - by injection Hv as ->.
  - injection Hv as ->. cbn. by rewrite of_to_string.
  - injection Hv as Hv. apply admitted_Array in Hi as [_ Hl]. cbn [item_of].
    rewrite (mapM_option_ok _ l' l); [done|]. revert l' Hv.
    induction Hl as [|i l Hi _ IHl]; intros [|v l'] Hv; try done; constructor; injection Hv as Hv1 Hv2;
      [by eapply IH|by apply IHl].
  - injection Hv as Hv. apply admitted_Map in Hi as (_ & _ & Hl). cbn [item_of].
    rewrite (mapM_option_ok _ d l); [done|]. revert d Hv.
    induction Hl as [|[k i] l (_ & Hk & Hi) _ IHl]; intros [|[k' v] d] Hv; try done; constructor;
      injection Hv as Hv1 Hv2 Hv3; [|by apply IHl]. cbn in *. by rewrite (IH _ _ _ Hk Hv1), (IH _ _ _ Hi Hv2).
  - injection Hv as -> Hv. apply admitted_Tag in Hi as (_ & _ & _ & Hi). cbn [item_of]. by rewrite (IH _ _ _ Hi Hv).
  - cbn in Hi. destruct b'; cbn; repeat case_match; try done; do 2 f_equal; lia.
  - cbn in Hi. destruct (Z.eqb_spec s 20); [done|]. destruct (Z.eqb_spec s 21); [done|]. cbn. do 2 f_equal. set_solver.
Qed.

Definition decode_error : exn := ThirdParty "CBORDecodeError" (Msg "" []).
Definition encode_error : exn := ThirdParty "CBOREncodeError" (Msg "" []).

Definition ref_dumps (v : pyval) : result bytes :=
  match item_of v with Some i => Ok (encode i) | None => Raise encode_error end.
Definition ref_loads (b : bytes) : result pyval :=
  match parse 17 b with
  | Some (i, _) => if texts_ok (value_of i) then Ok (value_of i) else Raise decode_error
  | None => Raise decode_error
  end.

Definition ref_cbor : Cbor := {|
  cbor_dumps := ref_dumps;
  cbor_dumps_canonical := ref_dumps;
  cbor_loads := ref_loads;
  cbor_decode b := v ← ref_loads b; Ok (v, []);
  other_truthy _ := true
|}.

Lemma admitted_more room room' ot i : (room ≤ room')%nat → admitted room false i → admitted room' ot i.
Proof.
  revert room' ot i. induction room as [|room IH]; intros [|room'] ot i Hle Hi; [done|done|lia|].
  assert (room ≤ room')%nat as Hle' by lia. destruct i; try done.
  - apply admitted_Array in Hi as [? Hl]. apply admitted_Array. split; [done|].
    eapply Forall_impl; [exact Hl|]. intros i. by apply IH.
  - apply admitted_Map in Hi as (? & ? & Hl). apply admitted_Map. split_and!; [done..|].
    eapply Forall_impl; [exact Hl|]. intros kv (? & ? & ?). split_and!; [done|by apply IH..].
  - by apply admitted_Tag in Hi as (? & _).
Qed.

(** The laws hold of items within the rule's seventeen levels. *)
Lemma ref_loads_item room ot i : (room ≤ 17)%nat → admitted room ot i → ref_loads (encode i) = Ok (value_of i).
Proof.
  intros Hroom Hi. unfold ref_loads. assert (∃ ot', admitted 17 ot' i) as [ot' H17].
  { destruct ot; [|exists false; by apply (admitted_more room)].
    destruct i as [n|n|b|b|l|l|t i|s]; try (exists false; apply (admitted_more room); [done|by destruct room]).
    destruct room as [|room]; [done|]. apply admitted_Tag in Hi as Hi'. destruct Hi' as (_ & -> & _). by exists true. }
  pose proof (parse_encode 17 ot' i [] H17) as Hp. rewrite app_nil_r in Hp. rewrite Hp. by rewrite (admitted_texts _ _ _ H17).
Qed.

Lemma ref_laws : CborLaws ref_cbor.
Proof.
  split.
  - intros l Hl. cbn. unfold ref_dumps. cbn [item_of].
    destruct (mapM_option item_of l) as [is_|] eqn:E; [by eexists|]. exfalso. revert E.
    induction Hl as [|v l Hv _ IH]; [done|]. cbn. destruct v; try done; cbn; destruct (mapM_option item_of l); done || auto.
  - intros b v. cbn. unfold ref_loads. destruct (parse 17 b) as [[i r]|]; [|done].
    destruct (texts_ok (value_of i)) eqn:E; [by intros [= <-]|done].
  - intros room ot v i _ Hi Hr. cbn. unfold ref_dumps. by rewrite (item_of_represents _ _ _ _ Hi Hr).
  - intros room ot v i _ Hi Hr. cbn. unfold ref_dumps. rewrite (item_of_represents _ _ _ _ Hi Hr). eauto.
  - intros room ot i Hroom Hi. exists (value_of i). split; [by apply (ref_loads_item room ot)|by eapply value_of_represents].
  - intros room ot i Hroom Hi. exists (value_of i). cbn. rewrite (ref_loads_item room ot) by done.
    split; [done|by eapply value_of_represents].
Qed.

(** ** A keyed checksum in place of the signature schemes *)

Definition toy_class (b : bytes) : key_class :=
  match b with
  | x01 :: _ => EllipticCurveKey SECP256R1
  | x02 :: _ => EllipticCurveKey SECP384R1
  | x03 :: _ => OtherKey
  | _ => Ed25519Key
  end.

Definition toy_mac (key tbs : bytes) : bytes := Toy.digest (key ++ tbs).
Definition toy_der (r s : Z) : bytes := be_bytes 48 r ++ be_bytes 48 s.

Definition toy_crypto : Crypto := {|
  private_key := bytes; public_key := bytes;
  private_class := toy_class; public_class := toy_class;
  load_pem_private_key b := Ok b; load_pem_public_key b := Ok b;
  ed25519_sign k tbs := toy_mac k tbs ++ toy_mac k tbs;
  ed25519_verify k sig tbs := if bool_decide (sig = toy_mac k tbs ++ toy_mac k tbs) then Ok () else Raise InvalidSignature;
  ecdsa_sign k _ tbs := toy_der (from_bytes (toy_mac k tbs)) (from_bytes (toy_mac k tbs));
  ecdsa_verify k _ der tbs :=
    if bool_decide (der = toy_der (from_bytes (toy_mac k tbs)) (from_bytes (toy_mac k tbs)))
    then Ok () else Raise InvalidSignature;
  decode_dss_signature der := Ok (from_bytes (take 48 der), from_bytes (drop 48 der));
  encode_dss_signature := toy_der
|}.

Lemma toy_verify_laws : VerifyLaws toy_crypto.
Proof.
  split.
  - intros k sig tbs e. cbv [ed25519_verify toy_crypto]. case_bool_decide; by intros [= <-].
  - intros k h sig tbs e. cbv [ecdsa_verify toy_crypto]. case_bool_decide; by intros [= <-].
Qed.

Lemma toy_mac_range k tbs w : (32 ≤ w)%nat → 0 ≤ from_bytes (toy_mac k tbs) < 256 ^ Z.of_nat w.
Proof.
  intros Hw. pose proof (from_bytes_range (toy_mac k tbs)) as Hr. unfold toy_mac in *. unfold zlen in Hr.
  rewrite Toy.toy_digest_length in Hr. split; [lia|]. eapply Z.lt_le_trans; [apply Hr|]. apply Z.pow_le_mono_r; lia.
Qed.

Definition toy_sign_laws : SignLaws toy_crypto.
Proof.
  refine {| public_of := fun k : @private_key toy_crypto => k : @public_key toy_crypto |}.
  - intros k tbs. cbv [ed25519_sign toy_crypto]. unfold toy_mac. by rewrite length_app, !Toy.toy_digest_length.
  - done.
  - intros k tbs _. cbv [ed25519_sign ed25519_verify toy_crypto]. by rewrite bool_decide_eq_true_2.
  - intros k c h tbs _ Hc.
    cbv [ecdsa_sign ecdsa_verify decode_dss_signature encode_dss_signature toy_crypto]. unfold toy_der.
    rewrite take_app_length', drop_app_length', !from_be_bytes by first [by rewrite length_be_bytes | apply toy_mac_range; lia].
    eexists _, _. split; [done|].
    assert (32 ≤ coordinate_width c)%nat by (destruct Hc as [-> | ->]; cbn; lia).
    split; [by apply toy_mac_range|]. split; [by apply toy_mac_range|]. by rewrite bool_decide_eq_true_2.
Defined.
