(* ===== verification/JsonProof.v ===== *)
(** * Canonical JSON is unambiguous

    Two values with the same canonical text are equal up to the order of
    object members: text is escaped with a prefix code, numbers and names are
    maximal runs of octets that are not delimiters, and containers nest. *)

From S2P Require Import Prelude PyRuntime Utf8 EncodingRuleProof Cbor CborInstance Json.

(** ** Text *)

Lemma utf8_codes_encode c b : scalar_value c → utf8_codes (utf8_encode c ++ b) = c :: utf8_codes b.
Proof.
  intros Hc. unfold utf8_encode, scalar_value in *.
  repeat case_if; cbn [app utf8_codes]; rewrite !byte_val_of; rewrite ?Z.mod_small by byte_arith.
  - rewrite (proj2 (Z.ltb_lt _ _)) by byte_arith. done.
  - rewrite (proj2 (Z.ltb_ge _ 128)), (proj2 (Z.ltb_lt _ 224)) by byte_arith. f_equal. byte_arith.
  - rewrite (proj2 (Z.ltb_ge _ 128)), (proj2 (Z.ltb_ge _ 224)), (proj2 (Z.ltb_lt _ 240)) by byte_arith.
    f_equal. byte_arith.
  - rewrite (proj2 (Z.ltb_ge _ 128)), (proj2 (Z.ltb_ge _ 224)), (proj2 (Z.ltb_ge _ 240)) by byte_arith.
    f_equal. byte_arith.
Qed.

(** Valid text is determined by its code points. *)
Lemma utf8_codes_valid b :
  utf8_valid b = true → Forall scalar_value (utf8_codes b) ∧ b = concat (utf8_encode <$> utf8_codes b).
Proof.
  intros (cs & Hcs & ->)%utf8_valid_iff.
  assert (utf8_codes (concat (utf8_encode <$> cs)) = cs) as E; [|by rewrite E].
  induction Hcs as [|c cs Hc _ IH]; [done|]. cbn [fmap list_fmap concat]. by rewrite utf8_codes_encode, IH.
Qed.

Definition hex_octet_val (b : byte) : Z := let v := byte_val b in if v <? 58 then v - 48 else v - 87.

Lemma hex_octet_val_of z : 0 ≤ z < 16 → hex_octet_val (hex_octet z) = z.
Proof.
  intros Hz. unfold hex_octet_val, hex_octet. cbv zeta.
  destruct (Z.ltb_spec z 10); rewrite byte_val_of, Z.mod_small by lia; case_if; lia.
Qed.

Definition unit_val (a b c d : byte) : Z :=
  hex_octet_val a * 4096 + hex_octet_val b * 256 + hex_octet_val c * 16 + hex_octet_val d.

Lemma unit_val_escape n :
  0 ≤ n < 65536 →
  unit_val (hex_octet (n / 4096)) (hex_octet (n / 256 mod 16)) (hex_octet (n / 16 mod 16)) (hex_octet (n mod 16)) = n.
Proof.
  intros Hn. unfold unit_val. rewrite !hex_octet_val_of by (Z.to_euclidean_division_equations; lia).
  Z.to_euclidean_division_equations. lia.
Qed.

(** The code point at the front of escaped text. *)
Definition unescape (b : bytes) : option (Z * bytes) :=
  match b with
  | x5c :: x22 :: r => Some (34, r)
  | x5c :: x5c :: r => Some (92, r)
  | x5c :: x6e :: r => Some (10, r)
  | x5c :: x72 :: r => Some (13, r)
  | x5c :: x74 :: r => Some (9, r)
  | x5c :: x66 :: r => Some (12, r)
  | x5c :: x62 :: r => Some (8, r)
  | x5c :: x75 :: a :: b :: c :: d :: r =>
      let n := unit_val a b c d in
      if (55296 <=? n) && (n <? 56320) then
        match r with
        | _ :: _ :: a :: b :: c :: d :: r => Some (65536 + (n - 55296) * 1024 + (unit_val a b c d - 56320), r)
        | _ => None
        end
      else Some (n, r)
  | x :: r => Some (byte_val x, r)
  | [] => None
  end.

Lemma unescape_plain c r : 32 ≤ c ≤ 126 → c ≠ 92 → unescape (byte_of c :: r) = Some (c, r).
Proof.
  intros Hc Hne. assert (byte_of c ≠ x5c) as Hb.
  { intros E. apply (f_equal byte_val) in E. rewrite byte_val_of, Z.mod_small in E by lia. vm_compute in E. lia. }
  assert (byte_val (byte_of c) = c) as Hv by (apply byte_val_of_small; lia).
  unfold unescape. destruct (byte_of c); try congruence; by rewrite Hv.
Qed.

Lemma unescape_escape c r : scalar_value c → unescape (escape c ++ r) = Some (c, r).
Proof.
  intros Hc. unfold escape.
  destruct (Z.eqb_spec c 34) as [->|]; [done|]. destruct (Z.eqb_spec c 92) as [->|]; [done|].
  destruct (Z.eqb_spec c 10) as [->|]; [done|]. destruct (Z.eqb_spec c 13) as [->|]; [done|].
  destruct (Z.eqb_spec c 9) as [->|]; [done|]. destruct (Z.eqb_spec c 12) as [->|]; [done|].
  destruct (Z.eqb_spec c 8) as [->|]; [done|]. unfold scalar_value in Hc.
  destruct (_ && _) eqn:Hp; [apply unescape_plain; lia|]. destruct (c <? 65536) eqn:H16.
  - unfold escape_unit. cbn [app unescape]. rewrite unit_val_escape by lia.
    by replace ((55296 <=? c) && (c <? 56320)) with false by lia.
  - rewrite <- app_assoc. unfold escape_unit. cbn [app unescape].
    rewrite !unit_val_escape by (Z.to_euclidean_division_equations; lia).
    replace ((55296 <=? _) && (_ <? 56320)) with true by (Z.to_euclidean_division_equations; lia).
    do 2 f_equal. Z.to_euclidean_division_equations. lia.
Qed.

Lemma escape_head c : scalar_value c → ∃ o r, escape c = o :: r ∧ o ≠ x22.
Proof.
  intros Hc. unfold escape, escape_unit. repeat case_if; try (eexists _, _; by split).
  exists (byte_of c), []. split; [done|]. intros E. apply (f_equal byte_val) in E.
  rewrite byte_val_of, Z.mod_small in E by lia. vm_compute in E. lia.
Qed.

Lemma escaped_inj cs cs' x y :
  Forall scalar_value cs → Forall scalar_value cs' →
  concat (map escape cs) ++ x22 :: x = concat (map escape cs') ++ x22 :: y → cs = cs' ∧ x = y.
Proof.
  intros Hcs. revert cs'. induction Hcs as [|c cs Hc _ IH]; intros cs' Hcs' E; destruct Hcs' as [|c' cs' Hc' Hcs']; cbn in E.
  - by injection E.
  - destruct (escape_head c' Hc') as (o & r & Eo & Ho). rewrite Eo in E. cbn in E. congruence.
  - destruct (escape_head c Hc) as (o & r & Eo & Ho). rewrite Eo in E. cbn in E. congruence.
  - rewrite <- !app_assoc in E. apply (f_equal unescape) in E. rewrite !unescape_escape in E by done.
    injection E as -> E. apply IH in E as [-> ->]; done.
Qed.

(** Text of the model is valid UTF-8. *)
Definition text_ok (s : string) : Prop := utf8_valid (of_string s) = true.

Lemma json_string_inj s s' x y : text_ok s → text_ok s' → json_string s ++ x = json_string s' ++ y → s = s' ∧ x = y.
Proof.
  intros Hs Hs'. unfold json_string. cbn [app]. rewrite <- !app_assoc. intros [= E].
  apply utf8_codes_valid in Hs as [Hc Es], Hs' as [Hc' Es'].
  apply escaped_inj in E as [E ->]; [|done..]. split; [|done].
  rewrite <- (to_of_string s), <- (to_of_string s'), Es, Es'. by rewrite E.
Qed.

(** ** Numbers and names *)

(** Octets that do not delimit. *)
Definition bare (o : byte) : Prop := o ∉ [x22; x2c; x3a; x5b; x5d; x7b; x7d].
#[export] Instance bare_dec o : Decision (bare o).
Proof. unfold bare. apply _. Defined.

(** What may follow a value. *)
Definition delimited (x : bytes) : Prop := match x with [] => True | o :: _ => ¬ bare o end.

Lemma token_inj t t' x y :
  Forall bare t → Forall bare t' → delimited x → delimited y → t ++ x = t' ++ y → t = t' ∧ x = y.
Proof.
  intros Ht Ht' Hx Hy. revert t' Ht'. induction Ht as [|o t Ho _ IH]; intros t' Ht' E; destruct Ht' as [|o' t' Ho' Ht']; cbn in E.
  - done.
  - subst x. by destruct (Hx Ho').
  - subst y. by destruct (Hy Ho).
  - injection E as -> E. by destruct (IH t' Ht' E) as [-> ->].
Qed.

Definition digit_val (o : byte) : Z := byte_val o - 48.
Definition is_digit (o : byte) : Prop := 48 ≤ byte_val o ≤ 57.

(** A literal octet that is no digit. *)
Ltac not_digit H := exfalso; vm_compute in H; let H1 := fresh in let H2 := fresh in destruct H as [H1 H2]; first [by apply H1 | by apply H2].

Lemma digit_is_digit n : 0 ≤ n < 10 → is_digit (digit n) ∧ digit_val (digit n) = n.
Proof. intros Hn. unfold is_digit, digit_val, digit. rewrite byte_val_of, Z.mod_small; lia. Qed.

Lemma digit_bare o : is_digit o → bare o.
Proof.
  unfold is_digit, bare. intros Ho Hin. rewrite !elem_of_cons, elem_of_nil in Hin.
  destruct Hin as [-> |[-> |[-> |[-> |[-> |[-> |[-> |[]]]]]]]]; not_digit Ho.
Qed.

(** The number a run of digits denotes. *)
Definition digits_val (b : bytes) : Z := fold_left (fun n o => n * 10 + digit_val o) b 0.

Lemma digits_val_snoc b o : digits_val (b ++ [o]) = digits_val b * 10 + digit_val o.
Proof. unfold digits_val. by rewrite fold_left_app. Qed.

Lemma dec_fuel_digits f n :
  0 ≤ n < 2 ^ Z.of_nat f → dec_fuel f n ≠ [] ∧ Forall is_digit (dec_fuel f n) ∧ digits_val (dec_fuel f n) = n.
Proof.
  revert n. induction f as [|f IH]; intros n Hn; cbn [dec_fuel].
  - assert (n = 0) as -> by (cbn in Hn; lia). split_and!; [done|apply Forall_singleton; vm_compute; split; discriminate|done].
  - destruct (Z.ltb_spec n 10) as [Hs|Hs].
    + destruct (digit_is_digit n ltac:(lia)) as [Hd Hv]. split_and!; [done|by apply Forall_singleton|].
      unfold digits_val. cbn. by rewrite Hv.
    + destruct (digit_is_digit (n mod 10) ltac:(apply Z.mod_pos_bound; lia)) as [Hd Hv].
      destruct (IH (n / 10)) as (_ & Hf & Hq).
      { rewrite Nat2Z.inj_succ, Z.pow_succ_r in Hn by lia. Z.to_euclidean_division_equations. lia. }
      split_and!; [by destruct (dec_fuel f (n / 10))|by apply Forall_app_2; [|apply Forall_singleton]|].
      rewrite digits_val_snoc, Hq, Hv. Z.to_euclidean_division_equations. lia.
Qed.

Lemma nbits_fits n : 0 ≤ n → n < 2 ^ Z.of_nat (nbits n).
Proof.
  intros Hn. unfold nbits. destruct (Z.eq_dec n 0) as [->|]; [by vm_compute|].
  pose proof (Z.log2_spec n ltac:(lia)). pose proof (Z.log2_nonneg n). rewrite Z2Nat.id by lia.
  replace (Z.log2 n + 1) with (Z.succ (Z.log2 n)) by lia. lia.
Qed.

(** The two forms of a decimal numeral. *)
Lemma dec_form n :
  (0 ≤ n ∧ dec n ≠ [] ∧ Forall is_digit (dec n) ∧ digits_val (dec n) = n) ∨
  (n < 0 ∧ ∃ d, dec n = x2d :: d ∧ Forall is_digit d ∧ digits_val d = - n).
Proof.
  unfold dec. destruct (Z.ltb_spec n 0).
  - right. destruct (dec_fuel_digits (nbits (- n)) (- n)) as (_ & Hd & Hv); [split; [lia|apply nbits_fits; lia]|].
    split; [done|]. by eexists.
  - left. destruct (dec_fuel_digits (nbits n) n); [split; [lia|by apply nbits_fits]|]. by split_and.
Qed.

Lemma dec_inj n m : dec n = dec m → n = m.
Proof.
  intros E. destruct (dec_form n) as [(Hn & _ & Hdn & Hvn)|(Hn & d & En & _ & Hvn)],
    (dec_form m) as [(Hm & _ & Hdm & Hvm)|(Hm & d' & Em & _ & Hvm)].
  - congruence.
  - rewrite E, Em in Hdn. inversion Hdn as [|? ? Hc]; subst. not_digit Hc.
  - rewrite <- E, En in Hdm. inversion Hdm as [|? ? Hc]; subst. not_digit Hc.
  - rewrite En, Em in E. injection E as ->. lia.
Qed.

Lemma dec_bare n : dec n ≠ [] ∧ Forall bare (dec n).
Proof.
  destruct (dec_form n) as [(_ & Hne & Hd & _)|(_ & d & -> & Hd & _)].
  - split; [done|]. eapply Forall_impl; [exact Hd|apply digit_bare].
  - split; [done|]. constructor; [by apply (bool_decide_unpack _)|]. eapply Forall_impl; [exact Hd|apply digit_bare].
Qed.

(** The text of a float: a token that no other scalar has. *)
Definition float_text (s : string) : Prop :=
  of_string s ≠ [] ∧ Forall bare (of_string s) ∧ s ≠ "null" ∧ s ≠ "true" ∧ s ≠ "false" ∧
  ∀ n, of_string s ≠ dec n.

(** [Forall], by recursion on the list. *)
Definition all_of {A} (P : A → Prop) : list A → Prop :=
  fix go l := match l with [] => True | x :: l => P x ∧ go l end.

Lemma all_of_Forall {A} (P : A → Prop) l : all_of P l ↔ Forall P l.
Proof. induction l as [|x l IH]; cbn; [done|]. by rewrite Forall_cons, IH. Qed.

(** A value whose text and floats are well-formed. *)
Fixpoint json_ok (v : json) : Prop :=
  match v with
  | JFloat s => float_text s
  | JStr s => text_ok s
  | JArr l => all_of json_ok l
  | JObj d => all_of (fun kv => text_ok kv.1 ∧ json_ok kv.2) d
  | _ => True
  end.

(** The text of a value that is not text and not a container. *)
Definition scalar (v : json) : option bytes :=
  match v with
  | JNull => Some (of_string "null")
  | JBool b => Some (of_string (if b then "true" else "false"))
  | JInt z => Some (dec z)
  | JFloat s => Some (of_string s)
  | _ => None
  end.

Lemma of_string_inj s s' : of_string s = of_string s' → s = s'.
Proof. intros E. rewrite <- (to_of_string s), <- (to_of_string s'). by rewrite E. Qed.

Lemma scalar_bare v t : json_ok v → scalar v = Some t → t ≠ [] ∧ Forall bare t.
Proof.
  destruct v as [|[]|z|s| | |]; try done; intros Hv [= <-].
  1-3: split; [done|]; by apply (bool_decide_unpack _).
  - apply dec_bare.
  - by destruct Hv as (? & ? & _).
Qed.

Lemma scalar_inj v w t : json_ok v → json_ok w → scalar v = Some t → scalar w = Some t → v = w.
Proof.
  assert (∀ z s, dec z = of_string s → s = "null" ∨ s = "true" ∨ s = "false" → False) as Hnum.
  { intros z s E Hs. destruct (dec_form z) as [(_ & _ & Hd & _)|(_ & d & Ed & _)].
    - rewrite E in Hd. destruct Hs as [-> |[-> | ->]]; inversion Hd as [|? ? Hc]; subst; not_digit Hc.
    - rewrite Ed in E. by destruct Hs as [-> |[-> | ->]]. }
  intros Hv Hw Ev Ew. destruct v as [|b|z|s| | |]; try done; destruct w as [|b'|z'|s'| | |]; try done;
    rewrite <- Ev in Ew; clear t Ev; cbn [scalar] in Ew; apply (inj Some) in Ew;
    try (apply of_string_inj in Ew); try done.
  all: try (by destruct b; congruence). all: try (by destruct b'; congruence).
  all: try (by destruct b, b').
  all: try (by destruct Hv as (_ & _ & ? & ? & ? & _); try destruct b'; congruence).
  all: try (by destruct Hw as (_ & _ & ? & ? & ? & _); try destruct b; congruence).
  - exfalso. apply (Hnum z' "null"); auto.
  - exfalso. apply (Hnum z' (if b then "true" else "false")%string); [done|]. destruct b; auto.
  - exfalso. apply (Hnum z "null"); auto.
  - exfalso. apply (Hnum z (if b' then "true" else "false")%string); [done|]. destruct b'; auto.
  - f_equal. by apply dec_inj.
  - destruct Hw as (_ & _ & _ & _ & _ & Hn). by destruct (Hn z).
  - destruct Hv as (_ & _ & _ & _ & _ & Hn). by destruct (Hn z').
Qed.

(** ** Containers *)

Section json_ind.
Context (P : json → Prop).
Context (Pnull : P JNull) (Pbool : ∀ b, P (JBool b)) (Pint : ∀ z, P (JInt z)) (Pfloat : ∀ s, P (JFloat s))
  (Pstr : ∀ s, P (JStr s)) (Parr : ∀ l, Forall P l → P (JArr l)) (Pobj : ∀ d, Forall (fun kv => P kv.2) d → P (JObj d)).

Fixpoint json_induction (v : json) : P v :=
  match v with
  | JNull => Pnull
  | JBool b => Pbool b
  | JInt z => Pint z
  | JFloat s => Pfloat s
  | JStr s => Pstr s
  | JArr l => Parr l ((fix go l : Forall P l :=
      match l with [] => Forall_nil_2 _ | v :: l => Forall_cons_2 _ _ _ (json_induction v) (go l) end) l)
  | JObj d => Pobj d ((fix go d : Forall (fun kv => P kv.2) d :=
      match d with [] => Forall_nil_2 _ | kv :: d => Forall_cons_2 _ _ _ (json_induction kv.2) (go d) end) d)
  end.
End json_ind.

(** [json.dumps] without [sort_keys]. *)
Fixpoint render (v : json) : bytes :=
  match v with
  | JStr s => json_string s
  | JArr l => x5b :: join x2c (map render l) ++ [x5d]
  | JObj d => x7b :: join x2c (map (fun kv => json_member (kv.1, render kv.2)) d) ++ [x7d]
  | _ => match scalar v with Some t => t | None => [] end
  end.

Lemma insert_item_map {A B} (f : A → B) k a l :
  insert_item k (f a) (map (fun kv => (kv.1, f kv.2)) l) = map (fun kv => (kv.1, f kv.2)) (insert_item k a l).
Proof. induction l as [|[k' a'] l IH]; cbn; [done|]. destruct (String.ltb k' k); cbn; [by rewrite IH|done]. Qed.

Lemma sort_items_map {A B} (f : A → B) l :
  sort_items (map (fun kv => (kv.1, f kv.2)) l) = map (fun kv => (kv.1, f kv.2)) (sort_items l).
Proof. induction l as [|[k a] l IH]; cbn; [done|]. by rewrite IH, insert_item_map. Qed.

Lemma map_Forall_ext {A B} (f g : A → B) l : Forall (fun x => f x = g x) l → map f l = map g l.
Proof. induction 1 as [|x l Hx _ IH]; cbn; [done|]. by rewrite Hx, IH. Qed.

Lemma render_normal v : render (normal v) = json_dumps v.
Proof.
  induction v as [| | | | |l IH|d IH] using json_induction; try done; cbn [normal render json_dumps].
  - rewrite map_map. by rewrite (map_Forall_ext _ json_dumps l IH).
  - rewrite <- (map_map (fun kv => (kv.1, render kv.2)) json_member), <- sort_items_map, map_map.
    do 5 f_equal. apply map_Forall_ext. eapply Forall_impl; [exact IH|]. intros kv Hkv. cbn. by rewrite Hkv.
Qed.

Lemma insert_item_elem {A} k (a : A) l kv : kv ∈ insert_item k a l ↔ kv = (k, a) ∨ kv ∈ l.
Proof.
  induction l as [|[k' a'] l IH]; cbn; [set_solver|]. destruct (String.ltb k' k); [|set_solver].
  rewrite !elem_of_cons, IH. naive_solver.
Qed.

Lemma sort_items_elem {A} (l : list (string * A)) kv : kv ∈ sort_items l ↔ kv ∈ l.
Proof. induction l as [|[k a] l IH]; cbn; [done|]. by rewrite insert_item_elem, elem_of_cons, IH. Qed.

Lemma normal_ok v : json_ok v → json_ok (normal v).
Proof.
  induction v as [| | | | |l IH|d IH] using json_induction; try done; cbn [normal json_ok]; rewrite !all_of_Forall.
  - intros Hl. apply Forall_map. rewrite Forall_forall in *. auto.
  - rewrite !Forall_forall in *. intros Hd kv Hkv. rewrite sort_items_elem in Hkv.
    apply list_elem_of_In, in_map_iff in Hkv as (kv' & <- & Hin). apply list_elem_of_In in Hin. cbn.
    destruct (Hd _ Hin). auto.
Qed.

(** The first octet of a value's text is neither a separator nor a closing
    bracket. *)
Lemma render_head v : json_ok v → ∃ o r, render v = o :: r ∧ o ∉ [x2c; x3a; x5d; x7d].
Proof.
  intros Hv. destruct (scalar v) as [t|] eqn:Es.
  - destruct (scalar_bare v t Hv Es) as [Hne Ht]. assert (render v = t) as ->.
    { by destruct v; try done; cbn in Es; cbn [render scalar]; injection Es. }
    destruct t as [|o t]; [done|]. exists o, t. split; [done|].
    inversion Ht as [|? ? Ho _]; subst. unfold bare in Ho. set_solver.
  - destruct v; try done; eexists _, _; (split; [reflexivity|]); by apply (bool_decide_unpack _).
Qed.

Section join.
#[local] Set Default Proof Using "All".
Context {A : Type} (f : A → bytes) (P : A → Prop) (close : byte).
Context (Hclose : ¬ bare close) (Hcomma : close ≠ x2c).
Context (Hhead : ∀ a, P a → ∃ o r, f a = o :: r ∧ o ≠ close).

(** Elements after the first. *)
Let rest (l : list A) (x : bytes) : bytes := concat (map (fun a => x2c :: f a) l) ++ close :: x.

Lemma join_rest a l x : join x2c (map f (a :: l)) ++ close :: x = f a ++ rest l x.
Proof.
  unfold rest. revert a. induction l as [|b l IH]; intros a; [done|]. cbn [map join] in *.
  rewrite <- app_assoc. cbn [app]. rewrite IH. cbn. by rewrite <- !app_assoc.
Qed.

Lemma rest_delimited l x : delimited (rest l x).
Proof. destruct l; cbn; [exact Hclose|]. by apply (bool_decide_unpack _). Qed.

Lemma join_inj l l' x y :
  Forall (fun a => P a ∧ ∀ b x y, P b → delimited x → delimited y → f a ++ x = f b ++ y → a = b ∧ x = y) l →
  Forall P l' → join x2c (map f l) ++ close :: x = join x2c (map f l') ++ close :: y → l = l' ∧ x = y.
Proof.
  intros Hl Hl' E.
  assert (∀ l l', Forall (fun a => P a ∧ ∀ b x y, P b → delimited x → delimited y → f a ++ x = f b ++ y → a = b ∧ x = y) l →
    Forall P l' → rest l x = rest l' y → l = l' ∧ x = y) as Hrest.
  { clear l l' Hl Hl' E. intros l l' Hl. revert l'. induction Hl as [|a l (_ & Ha) _ IH]; intros l' Hl' E;
      destruct Hl' as [|b l' Hb Hl']; cbn in E.
    - by injection E.
    - congruence.
    - congruence.
    - injection E as E. rewrite <- !app_assoc in E. apply Ha in E as [-> E]; [|done|apply rest_delimited..].
      by destruct (IH l' Hl' E) as [-> ->]. }
  destruct Hl as [|a l (Pa & Ha) Hl], Hl' as [|b l' Hb Hl'].
  - cbn in E. by injection E.
  - rewrite join_rest in E. destruct (Hhead b Hb) as (o & r & Eo & Ho). rewrite Eo in E. cbn in E. congruence.
  - rewrite join_rest in E. destruct (Hhead a Pa) as (o & r & Eo & Ho). rewrite Eo in E. cbn in E. congruence.
  - rewrite !join_rest in E. apply Ha in E as [-> E]; [|done|apply rest_delimited..].
    by destruct (Hrest l l' Hl Hl' E) as [-> ->].
Qed.
End join.

Lemma render_scalar v t : scalar v = Some t → render v = t.
Proof. by destruct v; try done; cbn [render scalar]; intros [= ->]. Qed.

(** The first octet tells containers, text and scalars apart. *)
Lemma render_kind v o r :
  json_ok v → render v = o :: r →
  match v with JStr _ => o = x22 | JArr _ => o = x5b | JObj _ => o = x7b | _ => bare o end.
Proof.
  intros Hv E. destruct (scalar v) as [t|] eqn:Es.
  - rewrite (render_scalar v t Es) in E. destruct (scalar_bare v t Hv Es) as [_ Ht]. subst t.
    inversion Ht; subst. by destruct v.
  - destruct v; try done; by injection E.
Qed.

Lemma member_inj k v k' v' x y :
  text_ok k → text_ok k' → delimited x → delimited y →
  (∀ x y, delimited x → delimited y → render v ++ x = render v' ++ y → v = v' ∧ x = y) →
  json_member (k, render v) ++ x = json_member (k', render v') ++ y → (k, v) = (k', v') ∧ x = y.
Proof.
  intros Hk Hk' Hx Hy IH. unfold json_member. cbn [fst snd]. rewrite <- !app_assoc.
  intros [-> [= E]]%json_string_inj; [|done..]. by destruct (IH x y Hx Hy E) as [-> ->].
Qed.

(** Values with equal text so far are of one kind. *)
Lemma render_first v w x y :
  json_ok v → json_ok w → render v ++ x = render w ++ y → ∃ o r r', render v = o :: r ∧ render w = o :: r'.
Proof.
  intros Hv Hw E. destruct (render_head v Hv) as (o & r & Eo & _), (render_head w Hw) as (o' & r' & Eo' & _).
  rewrite Eo, Eo' in E. injection E as <- _. by exists o, r, r'.
Qed.

Lemma render_scalar_inj v w t x y :
  json_ok v → json_ok w → delimited x → delimited y → scalar v = Some t →
  render v ++ x = render w ++ y → v = w ∧ x = y.
Proof.
  intros Hv Hw Hx Hy Es E. destruct (render_first v w x y Hv Hw E) as (o & r & r' & Eo & Eo').
  pose proof (render_kind w o r' Hw Eo') as Ko'. assert (bare o) as Ko.
  { pose proof (render_kind v o r Hv Eo) as K. by destruct v. }
  assert (∃ t', scalar w = Some t') as [t' Es'].
  { destruct w; try (by eexists); subst o; exfalso; revert Ko; by apply (bool_decide_unpack (¬ _)). }
  rewrite (render_scalar _ t Es), (render_scalar w t' Es') in E.
  destruct (scalar_bare _ t Hv Es) as [_ Ht], (scalar_bare w t' Hw Es') as [_ Ht'].
  destruct (token_inj t t' x y Ht Ht' Hx Hy E) as [<- ->]. split; [by eapply scalar_inj|done].
Qed.

Lemma render_inj v w x y :
  json_ok v → json_ok w → delimited x → delimited y → render v ++ x = render w ++ y → v = w ∧ x = y.
Proof.
  revert w x y. induction v as [|b|z|s|s|l IH|d IH] using json_induction; intros w x y Hv Hw Hx Hy E;
    try (by eapply render_scalar_inj); destruct (render_first _ _ _ _ Hv Hw E) as (o & r & r' & Eo & Eo');
    pose proof (render_kind _ o r Hv Eo) as Ko; pose proof (render_kind w o r' Hw Eo') as Ko'; clear Eo Eo'.
  - destruct w as [| | | |s'| |]; try (exfalso; cbn in Ko, Ko'; subst o; revert Ko'; by apply (bool_decide_unpack (¬ _))); try (cbn in Ko, Ko'; congruence).
    cbn in Hv, Hw. by destruct (json_string_inj s s' x y Hv Hw E) as [-> ->].
  - destruct w as [| | | | |l'|]; try (exfalso; cbn in Ko, Ko'; subst o; revert Ko'; by apply (bool_decide_unpack (¬ _))); try (cbn in Ko, Ko'; congruence).
    cbn in Hv, Hw, E. rewrite all_of_Forall in Hv, Hw. injection E as E. rewrite <- !app_assoc in E. cbn in E.
    destruct (join_inj render json_ok x5d ltac:(by apply (bool_decide_unpack (¬ _))) ltac:(done)) with (l := l) (l' := l') (x := x) (y := y) as [-> ->]; try done.
    + intros a Ha. destruct (render_head a Ha) as (o' & q & Eq & Ho). exists o', q. split; [done|set_solver].
    + rewrite Forall_forall in *. intros a Ha. split; [by apply Hv|]. intros b x' y' Hb. by apply IH; [|apply Hv|].
  - destruct w as [| | | | | |d']; try (exfalso; cbn in Ko, Ko'; subst o; revert Ko'; by apply (bool_decide_unpack (¬ _))); try (cbn in Ko, Ko'; congruence).
    cbn in Hv, Hw, E. rewrite all_of_Forall in Hv, Hw. injection E as E. rewrite <- !app_assoc in E. cbn in E.
    destruct (join_inj (fun kv : string * json => json_member (kv.1, render kv.2)) (fun kv => text_ok kv.1 ∧ json_ok kv.2) x7d
      ltac:(by apply (bool_decide_unpack (¬ _))) ltac:(done)) with (l := d) (l' := d') (x := x) (y := y) as [-> ->]; try done.
    + intros a _. eexists _, _. split; [reflexivity|done].
    + rewrite Forall_forall in *. intros [k a] Ha. split; [by apply (Hv (k, a))|]. intros [k' b] x' y' [Hk' Hb] Hx' Hy' E'.
      destruct (Hv _ Ha) as [Hk Ha']. apply (member_inj k a k' b x' y' Hk Hk' Hx' Hy'); [|exact E'].
      intros x0 y0 Hx0 Hy0. by apply (IH (k, a)).
Qed.

(** Canonical JSON is unambiguous: two values whose texts and floats are
    well formed have the same canonical text only if they are equal up to the
    order of the members of their objects. *)
Lemma json_dumps_inj v w :
  json_ok v → json_ok w → json_dumps v = json_dumps w → normal v = normal w.
Proof.
  intros Hv Hw. rewrite <- !render_normal. intros E.
  by apply (render_inj _ _ [] []); [by apply normal_ok..| | |rewrite E].
Qed.
