(* ===== verification/JsonLoadsProof.v ===== *)
(** * [json.loads] terminates and reads canonical JSON back *)

From S2P Require Import Prelude PyRuntime Utf8 EncodingRuleProof Cbor CborInstance Json JsonProof PyJson JsonLoads.

(** ** The fuel is enough

    Every scanner consumes something, so loops bounded by the length of the
    text never run out. *)

Definition progress {A} (n : nat) (m : scanned (A * bytes)) : Prop :=
  match m with Ok (_, r) => (length r < n)%nat | Raise Exhausted => False | Raise (Scan _) => True end.

Lemma progress_bind {A B} n k (m : scanned (A * bytes)) (f : A * bytes → scanned (B * bytes)) :
  progress n m → (∀ a r, (length r < n)%nat → progress k (f (a, r))) → progress k (m ≫= f).
Proof. destruct m as [[a r]|[|e]]; cbn; auto. Qed.

Lemma progress_mono {A} n k (m : scanned (A * bytes)) : (n ≤ k)%nat → progress n m → progress k m.
Proof. destruct m as [[a r]|[|e]]; cbn; [lia|done|done]. Qed.

Lemma text_before_progress n k front m : (n ≤ k)%nat → progress n m → progress k (text_before front m).
Proof. intros Hk Hm. apply (progress_bind n); [done|]. intros s r Hr. cbn. lia. Qed.

Lemma skip_space_length b : (length (skip_json_space b) ≤ length b)%nat.
Proof. induction b as [|o b IH]; cbn; [done|]. destruct (is_json_space o); cbn; lia. Qed.

Lemma scan_string_progress b : progress (length b) (scan_string b).
Proof.
  induction b as [b IH] using (induction_ltof1 _ (@length byte)). unfold ltof in IH.
  assert (∀ front r, (length r < length b)%nat → progress (length b) (text_before front (scan_string r))) as Hmore.
  { intros front r Hr. apply (text_before_progress (length r)); [lia|auto]. }
  destruct b as [|o r]; [done|]. cbn [scan_string]. case_bool_decide; [cbn; lia|].
  destruct (byte_val o <? 32); [done|]. destruct (negb _); [apply Hmore; cbn; lia|].
  destruct r as [|e r]; [done|]. destruct (negb _).
  { destruct (unescaped e); [apply Hmore; cbn; lia|done]. }
  destruct r as [|h1 [|h2 [|h3 [|h4 [|s r]]]]]; try done. destruct (hex_unit h1 h2 h3 h4); [|done].
  cbv zeta. destruct r as [|u [|g1 [|g2 [|g3 [|g4 [|t r]]]]]]; try (apply Hmore; cbn; lia).
  destruct (_ && _); [|apply Hmore; cbn; lia]. destruct (hex_unit g1 g2 g3 g4); [|done].
  destruct (low_surrogate _); apply Hmore; cbn; lia.
Qed.

Lemma after_literal_length l b r : l ≠ [] → after_literal l b = Some r → (length r < length b)%nat.
Proof.
  intros Hl. assert (∀ l b r, after_literal l b = Some r → length b = (length l + length r)%nat) as Heq.
  { clear. induction l as [|o l IH]; intros b r; cbn; [intros [= ->]; lia|].
    destruct b as [|o' b]; [done|]. case_bool_decide; [|done]. intros E%IH. cbn. lia. }
  intros E%Heq. destruct l; [done|]. cbn in E. lia.
Qed.

Lemma span_digits_length b d r : span_digits b = (d, r) → length b = (length d + length r)%nat.
Proof.
  revert d r. induction b as [|o b IH]; intros d r; cbn; [by intros [= <- <-]|].
  destruct (isdigit o); [|intros [= <- <-]; cbn; lia].
  destruct (span_digits b) as [d' r'] eqn:E. intros [= <- <-]. cbn. by rewrite (IH d' r').
Qed.

Lemma span_fraction_length b d r : span_fraction b = (d, r) → (length r ≤ length b)%nat.
Proof.
  unfold span_fraction. destruct b as [|o b]; [by intros [= <- <-]|]. case_bool_decide; [|by intros [= <- <-]].
  destruct (span_digits b) as [[|x d'] r'] eqn:E; [by intros [= <- <-]|]. apply span_digits_length in E.
  intros [= <- <-]. cbn in *. lia.
Qed.

Lemma span_exponent_length b d r : span_exponent b = (d, r) → (length r ≤ length b)%nat.
Proof.
  unfold span_exponent. destruct b as [|o b]; [by intros [= <- <-]|]. case_bool_decide; [|by intros [= <- <-]].
  assert (∀ sign r0, (length r0 ≤ length b)%nat →
    match span_digits r0 with ([], _) => ([], o :: b) | (d, r) => (o :: sign ++ d, r) end = (d, r) →
    (length r ≤ length (o :: b))%nat) as Hk.
  { intros sign r0 Hr0. destruct (span_digits r0) as [[|x d'] r'] eqn:E; [by intros [= <- <-]|].
    apply span_digits_length in E. intros [= <- <-]. cbn in *. lia. }
  destruct b as [|s b]; [by apply Hk|]. destruct (bool_decide _); apply Hk; cbn; lia.
Qed.

Lemma span_integer_length b d r : span_integer b = Some (d, r) → (length r < length b)%nat.
Proof.
  unfold span_integer.
  assert (∀ sign b', (length b' ≤ length b)%nat →
    match b' with
    | o :: r => if bool_decide (o = x30) then Some (sign ++ [o], r)
                else if isdigit o then let '(d, r) := span_digits r in Some (sign ++ o :: d, r) else None
    | [] => None end = Some (d, r) → (length r < length b)%nat) as Hk.
  { intros sign [|o b'] Hb; [done|]. cbn in Hb. case_bool_decide; [intros [= _ <-]; lia|].
    destruct (isdigit o); [|done]. destruct (span_digits b') as [d' r'] eqn:E. apply span_digits_length in E.
    intros [= _ <-]. lia. }
  destruct b as [|o b]; [done|]. case_bool_decide; [apply (Hk [o] b)|apply (Hk [] (o :: b))]; cbn; lia.
Qed.

Section progress.
Context `{PyObjects}.

Lemma match_number_progress b : progress (length b) (match_number b).
Proof.
  unfold match_number. destruct (span_integer b) as [[n r]|] eqn:En; [|done]. apply span_integer_length in En.
  destruct (span_fraction r) as [f r1] eqn:Ef. apply span_fraction_length in Ef.
  destruct (span_exponent r1) as [e r2] eqn:Ee. apply span_exponent_length in Ee.
  destruct (f ++ e); [|cbn; lia]. destruct (int_of_text _); cbn; [lia|done].
Qed.

Lemma scan_scalar_progress b : progress (length b) (scan_scalar b).
Proof.
  unfold scan_scalar.
  repeat match goal with |- context [after_literal ?l b] =>
    destruct (after_literal l b) eqn:?; [cbn; eapply after_literal_length; [|eassumption]; done|] end.
  apply match_number_progress.
Qed.

Section scan.
Context (scan : bytes → scanned (json * bytes)) (Hscan : ∀ b, progress (length b) (scan b)).
#[local] Set Default Proof Using "All".

Lemma scan_elements_progress fuel b : (length b ≤ fuel)%nat → progress (length b) (scan_elements scan fuel b).
Proof.
  revert b. induction fuel as [|fuel IH]; intros b Hb; cbn [scan_elements];
    (apply (progress_bind (length b)); [apply Hscan|]; intros v r Hr; cbv beta iota;
     pose proof (skip_space_length r) as Hs; destruct (skip_json_space r) as [|o r']; [done|]; cbn in Hs;
     destruct o; try done; try (cbn; lia)).
  pose proof (skip_space_length r') as Hs'. apply (progress_bind (length (skip_json_space r'))); [apply IH; lia|].
  intros vs r'' Hr''. cbn. lia.
Qed.

Lemma scan_member_progress b : progress (length b) (scan_member scan b).
Proof.
  destruct b as [|o b]; [done|]. cbn [scan_member]. destruct o; try done.
  apply (progress_bind (length b)); [apply scan_string_progress|]. intros key r Hr. cbv beta iota.
  pose proof (skip_space_length r) as Hs. destruct (skip_json_space r) as [|o r']; [done|]. cbn in Hs. destruct o; try done.
  pose proof (skip_space_length r') as Hs'. apply (progress_bind (length (skip_json_space r'))); [apply Hscan|].
  intros v r'' Hr''. cbn. lia.
Qed.

Lemma scan_members_progress fuel b : (length b ≤ fuel)%nat → progress (length b) (scan_members scan fuel b).
Proof.
  revert b. induction fuel as [|fuel IH]; intros b Hb; cbn [scan_members];
    (apply (progress_bind (length b)); [apply scan_member_progress|]; intros kv r Hr; cbv beta iota;
     pose proof (skip_space_length r) as Hs; destruct (skip_json_space r) as [|o r']; [done|]; cbn in Hs;
     destruct o; try done; try (cbn; lia)).
  pose proof (skip_space_length r') as Hs'. apply (progress_bind (length (skip_json_space r'))); [apply IH; lia|].
  intros vs r'' Hr''. cbn. lia.
Qed.

Lemma scan_array_progress b : progress (S (length b)) (scan_array scan b).
Proof.
  unfold scan_array. pose proof (skip_space_length b) as Hs.
  assert (∀ b', (length b' ≤ length b)%nat →
    progress (S (length b)) ('(vs, r) ← scan_elements scan (length b') b'; Ok (JArr vs, r))) as Hk.
  { intros b' Hb'. apply (progress_bind (length b')); [by apply scan_elements_progress|]. intros vs r Hr. cbn. lia. }
  destruct (skip_json_space b) as [|o r]; [by apply Hk|]. destruct o; try by apply Hk. cbn in Hs |- *. lia.
Qed.

Lemma scan_object_progress b : progress (S (length b)) (scan_object scan b).
Proof.
  unfold scan_object. pose proof (skip_space_length b) as Hs.
  assert (∀ b', (length b' ≤ length b)%nat →
    progress (S (length b)) ('(kvs, r) ← scan_members scan (length b') b'; Ok (JObj (object_of kvs), r))) as Hk.
  { intros b' Hb'. apply (progress_bind (length b')); [by apply scan_members_progress|]. intros vs r Hr. cbn. lia. }
  destruct (skip_json_space b) as [|o r]; [by apply Hk|]. destruct o; try by apply Hk. cbn in Hs |- *. lia.
Qed.
End scan.

Lemma scan_once_progress room b : progress (length b) (scan_once room b).
Proof.
  revert b. induction room as [|room IH]; intros b; destruct b as [|o b]; try done; cbn [scan_once];
    destruct o; try apply scan_scalar_progress; try done;
    try (apply (progress_bind (length b)); [apply scan_string_progress|]; intros s r Hr; cbn; lia).
  - by apply scan_array_progress.
  - by apply scan_object_progress.
Qed.

(** [json.loads] never runs out of fuel: it returns a value or raises one of
    the exceptions of the language. *)
Lemma scan_document_total b : scan_document b ≠ Raise Exhausted.
Proof.
  unfold scan_document. destruct (after_literal _ _); [done|]. pose proof (scan_once_progress recursion_room (skip_json_space b)) as Hp.
  destruct (scan_once _ _) as [[v r]|[|e]]; [|done|done]. cbn. by destruct (skip_json_space r).
Qed.
End progress.

(** ** Canonical text is read back *)

Lemma hex_octet_value_of z : 0 ≤ z < 16 → hex_octet_value (hex_octet z) = Some z.
Proof.
  intros Hz. assert (z ∈ seqZ 0 16) as Hin by (apply elem_of_seqZ; lia). clear Hz. revert z Hin. apply Forall_forall.
  apply (bool_decide_unpack _). vm_compute. exact I.
Qed.

Lemma hex_unit_escape n :
  0 ≤ n < 65536 →
  hex_unit (hex_octet (n / 4096)) (hex_octet (n / 256 mod 16)) (hex_octet (n / 16 mod 16)) (hex_octet (n mod 16)) = Some n.
Proof.
  intros Hn. unfold hex_unit. rewrite !hex_octet_value_of by (Z.to_euclidean_division_equations; lia). cbn. f_equal.
  Z.to_euclidean_division_equations. lia.
Qed.

Lemma scan_string_plain c r :
  32 ≤ c ≤ 126 → c ≠ 34 → c ≠ 92 → scan_string (byte_of c :: r) = text_before [byte_of c] (scan_string r).
Proof.
  intros Hc Hq Hb. assert (∀ o, byte_val o ≠ c → byte_of c ≠ o) as Hne.
  { intros o Ho E. apply Ho. rewrite <- E. apply byte_val_of_small. lia. }
  cbn [scan_string]. rewrite bool_decide_eq_false_2 by (apply Hne; vm_compute; congruence).
  rewrite byte_val_of_small by lia. replace (c <? 32) with false by lia.
  by rewrite bool_decide_eq_false_2 by (apply Hne; vm_compute; congruence).
Qed.

(** An escaped character is read back whatever follows it. *)
Lemma scan_string_escape c r :
  scalar_value c → r ≠ [] → scan_string (escape c ++ r) = text_before (utf8_encode c) (scan_string r).
Proof.
  intros Hc Hr. unfold escape.
  destruct (Z.eqb_spec c 34) as [->|]; [done|]. destruct (Z.eqb_spec c 92) as [->|]; [done|].
  destruct (Z.eqb_spec c 10) as [->|]; [done|]. destruct (Z.eqb_spec c 13) as [->|]; [done|].
  destruct (Z.eqb_spec c 9) as [->|]; [done|]. destruct (Z.eqb_spec c 12) as [->|]; [done|].
  destruct (Z.eqb_spec c 8) as [->|]; [done|]. unfold scalar_value in Hc.
  destruct (_ && _) eqn:Hp.
  { cbn [app]. rewrite scan_string_plain by lia. unfold utf8_encode. by replace (c <? 128) with true by lia. }
  destruct r as [|o r]; [done|]. destruct (c <? 65536) eqn:H16.
  - unfold escape_unit. cbn -[hex_unit text_before utf8_encode high_surrogate scan_string]. cbn [scan_string].
    rewrite !bool_decide_eq_false_2 by done. cbn [negb]. rewrite bool_decide_eq_true_2 by done. cbn [negb].
    rewrite bool_decide_eq_true_2 by done. cbn [negb]. replace (byte_val x5c <? 32) with false by done.
    rewrite hex_unit_escape by lia. assert (high_surrogate c = false) as -> by (unfold high_surrogate; lia). cbn [andb].
    by destruct r as [|? [|? [|? [|? [|? [|? ?]]]]]].
  - rewrite <- app_assoc. unfold escape_unit. cbn [app]. cbn [scan_string].
    rewrite !bool_decide_eq_false_2 by done. cbn [negb]. rewrite !bool_decide_eq_true_2 by done. cbn [negb].
    replace (byte_val x5c <? 32) with false by done.
    rewrite !hex_unit_escape by (Z.to_euclidean_division_equations; lia).
    assert (high_surrogate (55296 + (c - 65536) / 1024) = true) as ->
      by (unfold high_surrogate; Z.to_euclidean_division_equations; lia).
    assert (low_surrogate (56320 + (c - 65536) mod 1024) = true) as ->
      by (unfold low_surrogate; Z.to_euclidean_division_equations; lia).
    cbn [andb]. do 2 f_equal. Z.to_euclidean_division_equations. lia.
Qed.

Lemma scan_string_escaped cs x :
  Forall scalar_value cs → scan_string (concat (map escape cs) ++ x22 :: x) = Ok (concat (utf8_encode <$> cs), x).
Proof.
  induction 1 as [|c cs Hc _ IH]; [done|]. cbn [map concat fmap list_fmap]. rewrite <- app_assoc.
  rewrite scan_string_escape by (try done; by destruct (concat (map escape cs))). rewrite IH. done.
Qed.

Lemma scan_json_string s x : text_ok s → scan_string (concat (map escape (utf8_codes (of_string s))) ++ x22 :: x) = Ok (of_string s, x).
Proof.
  intros Hs. apply utf8_codes_valid in Hs as [Hc Hs]. rewrite scan_string_escaped by done. by rewrite <- Hs.
Qed.

(** *** Numbers *)

Lemma isdigit_iff o : isdigit o = true ↔ is_digit o.
Proof. unfold isdigit, is_digit. rewrite andb_true_iff, !Z.leb_le. done. Qed.

(** What may follow a value: a delimiter, white space or nothing. *)
Definition ends (x : bytes) : Prop :=
  match x with [] => True | o :: _ => ¬ bare o ∨ is_json_space o = true end.

Lemma space_elem o : is_json_space o = true → o ∈ [x20; x09; x0a; x0d].
Proof. apply bool_decide_eq_true_1. Qed.

Lemma span_digits_app d x : Forall is_digit d → ends x → span_digits (d ++ x) = (d, x).
Proof.
  intros Hd Hx. induction Hd as [|o d Ho _ IH]; cbn.
  - destruct x as [|o x]; [done|]. cbn in Hx |- *. destruct (isdigit o) eqn:E; [|done].
    apply isdigit_iff in E. destruct Hx as [Hx|Hx%space_elem]; [by apply digit_bare in E|].
    rewrite !elem_of_cons, elem_of_nil in Hx. destruct Hx as [-> |[-> |[-> |[-> |[]]]]]; not_digit E.
  - apply isdigit_iff in Ho. by rewrite Ho, IH.
Qed.

Lemma dec_fuel_head f n : 0 < n < 2 ^ Z.of_nat f → ∃ o d, dec_fuel f n = o :: d ∧ is_digit o ∧ o ≠ x30.
Proof.
  revert n. induction f as [|f IH]; intros n Hn; [cbn in Hn; lia|]. cbn [dec_fuel]. destruct (Z.ltb_spec n 10).
  - exists (digit n), []. destruct (digit_is_digit n ltac:(lia)) as [Hd Hv]. split_and!; [done|done|].
    intros E. rewrite E in Hv. vm_compute in Hv. lia.
  - destruct (IH (n / 10)) as (o & d & -> & Ho & Hne).
    { rewrite Nat2Z.inj_succ, Z.pow_succ_r in Hn by lia. Z.to_euclidean_division_equations. lia. }
    by exists o, (d ++ [digit (n mod 10)]).
Qed.

(** A numeral: its sign, its first digit, which is zero for zero only, and the
    other digits. *)
Lemma dec_shape z :
  ∃ sign o d, dec z = sign ++ o :: d ∧ (sign = [] ∧ 0 ≤ z ∨ sign = [x2d] ∧ z < 0) ∧ is_digit o ∧ Forall is_digit d ∧
    (o = x30 → d = []) ∧ digits_val (o :: d) = Z.abs z.
Proof.
  destruct (Z.eq_dec z 0) as [->|Hz]; [by exists [], x30, []; split_and!; [|left| | | |]|].
  assert (∀ n, 0 < n → ∃ o d, dec_fuel (nbits n) n = o :: d ∧ is_digit o ∧ Forall is_digit d ∧ (o = x30 → d = []) ∧
    digits_val (o :: d) = n) as Hpos.
  { intros n Hn. pose proof (nbits_fits n ltac:(lia)) as Hb. destruct (dec_fuel_head (nbits n) n) as (o & d & E & Ho & Hne); [lia|].
    destruct (dec_fuel_digits (nbits n) n) as (_ & Hd & Hv); [lia|]. rewrite E in *. exists o, d. inversion Hd; subst. by split_and!. }
  unfold dec. destruct (Z.ltb_spec z 0).
  - destruct (Hpos (- z) ltac:(lia)) as (o & d & -> & ? & ? & ? & ?). exists [x2d], o, d. split_and!; try done; [auto|lia].
  - destruct (Hpos z ltac:(lia)) as (o & d & -> & ? & ? & ? & ?). exists [], o, d. split_and!; try done; [auto|lia].
Qed.

Lemma span_integer_dec z x : ends x → span_integer (dec z ++ x) = Some (dec z, x).
Proof.
  intros Hx. destruct (dec_shape z) as (sign & o & d & -> & Hs & Ho & Hd & Hz & _).
  assert (o ≠ x2d) as Hne by (intros ->; not_digit Ho).
  unfold span_integer. rewrite <- app_assoc. destruct Hs as [[-> _]|[-> _]]; cbn [app].
  - rewrite (bool_decide_eq_false_2 (o = x2d)) by done. case_bool_decide as E; [rewrite (Hz E); by subst|].
    rewrite (proj2 (isdigit_iff o) Ho), span_digits_app by done. done.
  - rewrite (bool_decide_eq_true_2 (x2d = x2d)) by done. case_bool_decide as E; [rewrite (Hz E); by subst|].
    rewrite (proj2 (isdigit_iff o) Ho), span_digits_app by done. done.
Qed.

Lemma ends_no_tail x : ends x → span_fraction x = ([], x) ∧ span_exponent x = ([], x).
Proof.
  destruct x as [|o x]; [done|]. cbn. intros Hx.
  assert (o ∈ [x22; x2c; x3a; x5b; x5d; x7b; x7d] ++ [x20; x09; x0a; x0d]) as Ho.
  { apply elem_of_app. destruct Hx as [Hx|Hx%space_elem]; [left; unfold bare in Hx; by apply dec_stable in Hx|by right]. }
  cbn [app] in Ho. repeat (apply elem_of_cons in Ho as [->|Ho]; [done|]). by apply elem_of_nil in Ho.
Qed.

Section numbers.
Context `{PyObjects}.

Lemma int_digits_all d acc n after :
  Forall is_digit d → (after = true ∨ d ≠ []) →
  int_digits d acc n after = Some (fold_left (fun a o => a * 10 + digit_val o) d acc, n + zlen d, []).
Proof.
  intros Hd. revert acc n after. induction Hd as [|o d Ho _ IH]; intros acc n after Ha; cbn [int_digits fold_left].
  - destruct Ha as [-> |]; [|done]. by rewrite zlen_nil, Z.add_0_r.
  - apply isdigit_iff in Ho. unfold isdigit in Ho. rewrite Ho, IH by auto. unfold digit_val. rewrite zlen_cons. do 3 f_equal. lia.
Qed.

Lemma digits_ascii d : Forall is_digit d → forallb (fun o => byte_val o <? 128) d = true.
Proof.
  intros Hd. apply forallb_forall. intros o Ho%list_elem_of_In. rewrite Forall_forall in Hd.
  specialize (Hd o Ho). unfold is_digit in Hd. lia.
Qed.

Lemma int_of_dec z : zlen (dec (Z.abs z)) ≤ 4300 → int_of_text (to_string (dec z)) = Ok z.
Proof.
  intros Hlen. destruct (dec_shape z) as (sign & o & d & E & Hs & Ho & Hd & _ & Hv).
  assert (Forall is_digit (o :: d)) as Hod by by constructor.
  assert (zlen (o :: d) ≤ 4300) as Hl.
  { revert Hlen. destruct Hs as [[-> Hz]|[-> Hz]]; [rewrite Z.abs_eq, E by lia; done|].
    revert E. unfold dec. replace (z <? 0) with true by lia. replace (Z.abs z <? 0) with false by lia.
    rewrite Z.abs_neq by lia. by intros [= ->]. }
  assert (int_digits (o :: d) 0 0 false = Some (Z.abs z, zlen (o :: d), [])) as Hi.
  { rewrite int_digits_all by auto. by rewrite <- Hv. }
  assert (skip_space (o :: d) = o :: d) as Hskip.
  { cbn. unfold is_space_octet, is_digit in *. by replace (_ || _) with false by lia. }
  unfold int_of_text. rewrite of_to_string, E. destruct Hs as [[-> Hz]|[-> Hz]]; cbn [app].
  - rewrite digits_ascii, Hskip by done. cbn [negb].
    assert (sign_of (o :: d) = (1, o :: d)) as Hm by (destruct o; try done; not_digit Ho).
    rewrite Hm, Hi. cbn [skip_space]. rewrite bool_decide_eq_false_2 by (by intros []). cbn [orb].
    replace (zlen (o :: d) >? 4300) with false by lia. f_equal. lia.
  - assert (forallb (fun o => byte_val o <? 128) (x2d :: o :: d) = true) as -> by exact (digits_ascii (o :: d) Hod).
    cbn [negb]. change (sign_of (skip_space (x2d :: o :: d))) with (-1, o :: d).
    cbv beta iota. rewrite Hi. cbn [skip_space].
    rewrite bool_decide_eq_false_2 by (by intros []). cbn [orb].
    replace (zlen (o :: d) >? 4300) with false by lia. f_equal. lia.
Qed.

Lemma after_literal_head l o b : match l with [] => False | o' :: _ => o' ≠ o end → after_literal l (o :: b) = None.
Proof. destruct l as [|o' l]; [done|]. cbn. intros Hne. by rewrite bool_decide_eq_false_2. Qed.

(** A numeral is read back. *)
Lemma scan_dec z x : zlen (dec (Z.abs z)) ≤ 4300 → ends x → scan_scalar (dec z ++ x) = Ok (JInt z, x).
Proof.
  intros Hz Hx. assert (match_number (dec z ++ x) = Ok (JInt z, x)) as Hm.
  { unfold match_number. rewrite span_integer_dec by done. destruct (ends_no_tail x Hx) as [-> ->].
    cbn. by rewrite int_of_dec. }
  rewrite <- Hm. clear Hm. destruct (dec_shape z) as (sign & o & d & -> & Hs & Ho & _). rewrite <- app_assoc.
  assert (∀ c, ¬ is_digit c → c ≠ o) as Hc by (by intros c Hc ->).
  assert (∀ l b, match l with [] => False | c :: _ => ¬ is_digit c end → after_literal l (o :: b) = None) as Hl.
  { intros [|c l] b Hcl; [done|]. apply after_literal_head. auto. }
  unfold scan_scalar. destruct Hs as [[-> _]|[-> _]]; cbn [app].
  - rewrite !Hl; [done|..]; (intros Hd; not_digit Hd).
  - assert (after_literal (of_string "-Infinity") (x2d :: o :: d ++ x) = None) as ->.
    { apply (Hl (of_string "Infinity")). intros Hd. not_digit Hd. }
    rewrite !after_literal_head by done. done.
Qed.
End numbers.

(** *** Containers *)

Lemma join_cons {A} (f : A → bytes) a l : join x2c (map f (a :: l)) = f a ++ concat (map (fun a => x2c :: f a) l).
Proof.
  revert a. induction l as [|b l IH]; intros a; [cbn; by rewrite app_nil_r|].
  change (join x2c (map f (a :: b :: l))) with (f a ++ x2c :: join x2c (map f (b :: l))). by rewrite IH.
Qed.

Lemma jset_fresh d k v : k ∉ d.*1 → jset d k v = d ++ [(k, v)].
Proof.
  induction d as [|[k' v'] d IH]; [done|]. cbn. rewrite not_elem_of_cons. intros [Hne Hk].
  rewrite bool_decide_eq_false_2 by congruence. by rewrite IH.
Qed.

(** Members with distinct names keep their order. *)
Lemma object_of_distinct d : NoDup d.*1 → object_of d = d.
Proof.
  unfold object_of. assert (∀ acc, NoDup (acc ++ d).*1 → fold_left (fun d kv => jset d kv.1 kv.2) d acc = acc ++ d) as Hf.
  { induction d as [|[k v] d IH]; intros acc Hnd; cbn; [by rewrite app_nil_r|].
    rewrite jset_fresh, IH; [by rewrite <- app_assoc| |].
    - by rewrite <- app_assoc.
    - rewrite fmap_app in Hnd. apply NoDup_app in Hnd as (_ & Hnd & _). intros Hk. apply (Hnd k Hk). by left. }
  intros Hnd. by apply (Hf []).
Qed.

(** A value that [json.loads] reads back: text is valid, integers are not too
    long, names are distinct, the nesting fits, and a float's text is what the
    language prints for it. *)
Fixpoint readable `{PyObjects} (room : nat) (v : json) {struct v} : Prop :=
  match v with
  | JInt z => zlen (dec (Z.abs z)) ≤ 4300
  | JFloat s => float_text s ∧ Forall (fun o => 32 < byte_val o < 128) (of_string s) ∧
      ∀ x, ends x → scan_scalar (of_string s ++ x) = Ok (JFloat s, x)
  | JStr s => text_ok s
  | JArr l => match room with O => False | S room => all_of (readable room) l end
  | JObj d => match room with O => False | S room => NoDup d.*1 ∧ all_of (fun kv => text_ok kv.1 ∧ readable room kv.2) d end
  | _ => True
  end.

Section round_trip.
Context `{PyObjects}.

Lemma readable_ok room v : readable room v → json_ok v.
Proof.
  revert room. induction v as [|b|z|s|s|l IH|d IH] using json_induction; intros room; try (by intros); cbn.
  - by intros [? _].
  - destruct room; [done|]. rewrite !all_of_Forall. rewrite !Forall_forall in *. eauto.
  - destruct room; [done|]. intros [_ Hd]. rewrite all_of_Forall in *. rewrite !Forall_forall in *.
    intros kv Hkv. destruct (Hd kv Hkv). eauto.
Qed.

Lemma visible_not_space o : 32 < byte_val o < 128 → is_json_space o = false ∧ o ≠ xef.
Proof.
  intros Ho. assert (byte_val o ≠ 239) as Hef by lia. split; [|by intros ->]. unfold is_json_space. apply bool_decide_eq_false_2.
  rewrite !elem_of_cons, elem_of_nil. intros [-> |[-> |[-> |[-> |[]]]]]; by destruct Ho.
Qed.

(** ** Layouts

    White space between the tokens is all that [json.dumps] may vary. *)
Definition white (b : bytes) : Prop := Forall (fun o => is_json_space o = true) b.

Definition white_layout (lay : layout) : Prop :=
  (∀ n, white (after_open lay n)) ∧ (∀ n, white (after_comma lay n)) ∧ (∀ n, white (before_close lay n)) ∧ white (after_colon lay).

Lemma skip_white w x : white w → skip_json_space (w ++ x) = skip_json_space x.
Proof. induction 1 as [|o w Ho _ IH]; [done|]. cbn. by rewrite Ho. Qed.

Lemma white_ends w x : white w → ends x → ends (w ++ x).
Proof. intros Hw Hx. destruct Hw; [done|]. by right. Qed.

Lemma not_bare_ends o x : ¬ bare o → ends (o :: x).
Proof. by left. Qed.

Lemma new_line_white n : white (new_line n).
Proof. constructor; [done|]. cbn. generalize (n + (n + 0))%nat. intros k. induction k; by constructor. Qed.

Lemma indent_2_white : white_layout indent_2.
Proof. repeat split; try (intros n; apply new_line_white). by repeat constructor. Qed.

Lemma compact_white : white_layout compact.
Proof. repeat split; intros; constructor. Qed.

(** Text is written in ASCII. *)
Definition is_ascii (b : bytes) : Prop := Forall (fun o => byte_val o < 128) b.

Lemma byte_of_ascii n : 0 ≤ n < 128 → byte_val (byte_of n) < 128.
Proof. intros Hn. rewrite byte_val_of_small; lia. Qed.

Lemma escape_unit_ascii n : 0 ≤ n < 65536 → is_ascii (escape_unit n).
Proof.
  intros Hn. assert (∀ z, 0 ≤ z < 16 → byte_val (hex_octet z) < 128) as Hh.
  { intros z Hz. unfold hex_octet. destruct (Z.ltb_spec z 10); apply byte_of_ascii; lia. }
  unfold escape_unit. repeat constructor; apply Hh; Z.to_euclidean_division_equations; lia.
Qed.

Lemma escape_ascii c : scalar_value c → is_ascii (escape c).
Proof.
  unfold scalar_value, escape. intros Hc. repeat case_if; try (by repeat constructor).
  - constructor; [|constructor]. apply byte_of_ascii. lia.
  - apply escape_unit_ascii. lia.
  - apply Forall_app. split; apply escape_unit_ascii; Z.to_euclidean_division_equations; lia.
Qed.

Lemma json_string_ascii s : text_ok s → is_ascii (json_string s).
Proof.
  intros [Hc _]%utf8_codes_valid. unfold json_string. constructor; [done|]. apply Forall_app. split; [|by repeat constructor].
  apply Forall_concat, Forall_map. eapply Forall_impl; [exact Hc|]. intros c. apply escape_ascii.
Qed.

Lemma white_ascii w : white w → is_ascii w.
Proof.
  intros Hw. eapply Forall_impl; [exact Hw|]. cbv beta. intros o Ho%space_elem.
  rewrite !elem_of_cons, elem_of_nil in Ho. by destruct Ho as [-> |[-> |[-> |[-> |[]]]]].
Qed.

Section layout.
Context (lay : layout) (Hlay : white_layout lay).
#[local] Set Default Proof Using "All".

Abbreviation written := (json_text lay json_string).

(** A value starts with a visible ASCII character that closes nothing. *)
Lemma written_visible room depth v :
  readable room v → ∃ o r, written depth v = o :: r ∧ 32 < byte_val o < 128 ∧ o ≠ x5d.
Proof.
  assert (∀ o r, 32 < byte_val o < 128 ∧ o ≠ x5d → ∃ o' r', o :: r = o' :: r' ∧ 32 < byte_val o' < 128 ∧ o' ≠ x5d) as Hv0 by eauto.
  destruct v as [|[]|z|s|s|l|d]; intros Hv; try (apply Hv0; by vm_compute).
  - destruct (dec_shape z) as (sign & o & d & E & Hs & Ho & _). cbn [json_text json_dumps]. unfold is_digit in Ho.
    rewrite E. destruct Hs as [[-> _]|[-> _]]; apply Hv0; [|by vm_compute]. split; [lia|]. intros ->. by destruct Ho.
  - destruct Hv as ((Hne & Hb & _) & Hs & _). cbn [json_text json_dumps]. destruct (of_string s) as [|o r]; [done|].
    inversion Hs; subst. inversion Hb; subst. apply Hv0. split; [done|]. intros ->. revert select (bare _). by apply (bool_decide_unpack (¬ _)).
Qed.

Lemma skip_written room depth v x : readable room v → skip_json_space (written depth v ++ x) = written depth v ++ x.
Proof.
  intros Hv. destruct (written_visible room depth v Hv) as (o & r & -> & Ho & _). cbn. by destruct (visible_not_space o Ho) as [-> _].
Qed.

Lemma members_ascii depth l : Forall is_ascii l → is_ascii (members_text lay depth l).
Proof.
  destruct Hlay as (Ho & Hc & Hb & _). intros Hl. destruct Hl as [|a l Ha Hl]; [constructor|]. unfold members_text.
  repeat (apply Forall_app; split); [by apply white_ascii|exact Ha| |by apply white_ascii].
  apply Forall_concat, Forall_map. eapply Forall_impl; [exact Hl|]. intros b Hab.
  constructor; [done|]. apply Forall_app. split; [by apply white_ascii|exact Hab].
Qed.

Lemma written_ascii room depth v : readable room v → is_ascii (written depth v).
Proof.
  revert room depth. induction v as [|[]|z|s|s|l IH|d IH] using json_induction; intros room depth Hv; try (by repeat constructor).
  - destruct (dec_shape z) as (sign & o & d & E & Hs & Ho & Hd & _). cbn [json_text json_dumps]. rewrite E.
    apply Forall_app. split; [destruct Hs as [[-> _]|[-> _]]; by repeat constructor|].
    constructor; [|eapply Forall_impl; [exact Hd|]; intros c Hc]; unfold is_digit in *; lia.
  - destruct Hv as (_ & Hs & _). eapply Forall_impl; [exact Hs|]. cbv beta. lia.
  - by apply json_string_ascii.
  - destruct room as [|room]; [done|]. cbn in Hv. rewrite all_of_Forall in Hv. cbn [json_text]. constructor; [done|].
    apply Forall_app. split; [|by repeat constructor]. apply members_ascii, Forall_map. rewrite Forall_forall in *. eauto.
  - destruct room as [|room]; [done|]. destruct Hv as [_ Hv]. rewrite all_of_Forall in Hv. cbn [json_text]. constructor; [done|].
    apply Forall_app. split; [|by repeat constructor]. apply members_ascii, Forall_map. rewrite Forall_forall in *.
    intros kv Hkv. destruct (Hv kv Hkv) as [Hk Hr]. destruct Hlay as (_ & _ & _ & Hcolon).
    apply Forall_app. split; [by apply json_string_ascii|]. constructor; [done|].
    apply Forall_app. split; [by apply white_ascii|by eapply IH].
Qed.

(** What reads a value reads it from a longer text. *)
Definition reads (scan : bytes → scanned (json * bytes)) (depth : nat) (v : json) : Prop :=
  ∀ x, ends x → scan (written depth v ++ x) = Ok (v, x).

Lemma skip_delimiter o r : ¬ bare o → skip_json_space (o :: r) = o :: r.
Proof.
  intros Ho. cbn. unfold bare in Ho. apply dec_stable in Ho. destruct (is_json_space o) eqn:E; [|done].
  unfold is_json_space in E. apply bool_decide_eq_true_1 in E. exfalso.
  rewrite !elem_of_cons, elem_of_nil in E. destruct E as [-> |[-> |[-> |[-> |[]]]]]; revert Ho; by apply (bool_decide_unpack (¬ _)).
Qed.

(** The members after the first one, and the closing bracket. *)
Definition tail_text {A} (f : A → bytes) (depth : nat) (l : list A) (close : byte) (x : bytes) : bytes :=
  concat (map (fun a => x2c :: after_comma lay (S depth) ++ f a) l) ++ before_close lay depth ++ close :: x.

Lemma tail_ends {A} (f : A → bytes) depth l close x : ¬ bare close → ends (tail_text f depth l close x).
Proof.
  intros Hc. destruct Hlay as (_ & _ & Hb & _). destruct l; unfold tail_text; cbn.
  - by apply white_ends, not_bare_ends.
  - by apply not_bare_ends, (bool_decide_unpack (¬ bare x2c)).
Qed.

Lemma skip_tail_nil {A} (f : A → bytes) depth close x :
  ¬ bare close → skip_json_space (tail_text f depth [] close x) = close :: x.
Proof. intros Hc. destruct Hlay as (_ & _ & Hb & _). unfold tail_text. cbn. by rewrite skip_white, skip_delimiter. Qed.

Lemma tail_cons {A} (f : A → bytes) depth a l close x :
  tail_text f depth (a :: l) close x = x2c :: after_comma lay (S depth) ++ f a ++ tail_text f depth l close x.
Proof. unfold tail_text. cbn. by rewrite <- !app_assoc. Qed.

Lemma members_cons {A} (f : A → bytes) depth a l close x :
  members_text lay depth (map f (a :: l)) ++ close :: x = after_open lay (S depth) ++ f a ++ tail_text f depth l close x.
Proof. unfold members_text, tail_text. cbn. by rewrite map_map, <- !app_assoc. Qed.

Lemma tail_length {A} (f : A → bytes) depth l close x : (length l ≤ length (tail_text f depth l close x))%nat.
Proof. unfold tail_text. rewrite length_app. induction l as [|a l IH]; cbn; [lia|]. rewrite !length_app in *. lia. Qed.

Lemma scan_elements_written room scan depth l a x fuel :
  reads scan (S depth) a → Forall (fun v => reads scan (S depth) v ∧ readable room v) l → (length l ≤ fuel)%nat →
  scan_elements scan fuel (written (S depth) a ++ tail_text (written (S depth)) depth l x5d x) = Ok (a :: l, x).
Proof.
  intros Ha Hl. assert (¬ bare x5d) as Hc by by apply (bool_decide_unpack (¬ bare x5d)).
  revert a Ha fuel. induction Hl as [|b l [Hb Hrb] _ IH]; intros a Ha fuel Hf.
  - destruct fuel; cbn [scan_elements]; (rewrite Ha by by apply tail_ends);
      cbn [mbind outcome_bind]; by rewrite skip_tail_nil.
  - destruct fuel as [|fuel]; [cbn in Hf; lia|]. cbn [scan_elements]. rewrite Ha by by apply tail_ends.
    cbn [mbind outcome_bind]. rewrite tail_cons, skip_delimiter by by apply (bool_decide_unpack (¬ bare x2c)).
    destruct Hlay as (_ & Hcomma & _). rewrite skip_white, (skip_written room), IH by (try done; cbn in Hf; lia). done.
Qed.

(** The text of a member. *)
Definition member_text (depth : nat) (kv : string * json) : bytes :=
  json_string kv.1 ++ x3a :: after_colon lay ++ written depth kv.2.

Lemma scan_member_written room scan depth kv x :
  text_ok kv.1 → readable room kv.2 → reads scan depth kv.2 → ends x → scan_member scan (member_text depth kv ++ x) = Ok (kv, x).
Proof.
  destruct kv as [k v]. cbn [fst snd]. intros Hk Hr Hv Hx. unfold member_text, json_string. cbn [fst snd].
  rewrite <- !app_assoc. cbn [app]. rewrite <- !app_assoc. cbn [scan_member app].
  rewrite scan_json_string by done. cbn [mbind outcome_bind].
  rewrite skip_delimiter by by apply (bool_decide_unpack (¬ bare x3a)). destruct Hlay as (_ & _ & _ & Hcolon).
  rewrite skip_white, (skip_written room), Hv by done. cbn. by rewrite to_of_string.
Qed.

Lemma scan_members_written room scan depth d kv x fuel :
  text_ok kv.1 → readable room kv.2 → reads scan (S depth) kv.2 →
  Forall (fun kv => text_ok kv.1 ∧ readable room kv.2 ∧ reads scan (S depth) kv.2) d → (length d ≤ fuel)%nat →
  scan_members scan fuel (member_text (S depth) kv ++ tail_text (member_text (S depth)) depth d x7d x) = Ok (kv :: d, x).
Proof.
  intros Hk Hr Hv Hd. assert (¬ bare x7d) as Hc by by apply (bool_decide_unpack (¬ bare x7d)).
  revert kv Hk Hr Hv fuel. induction Hd as [|kv' d (Hk' & Hr' & Hv') _ IH]; intros kv Hk Hr Hv fuel Hf.
  - destruct fuel; cbn [scan_members]; rewrite (scan_member_written room) by (try done; by apply tail_ends);
      cbn [mbind outcome_bind]; by rewrite skip_tail_nil.
  - destruct fuel as [|fuel]; [cbn in Hf; lia|]. cbn [scan_members].
    rewrite (scan_member_written room) by (try done; by apply tail_ends).
    cbn [mbind outcome_bind]. rewrite tail_cons, skip_delimiter by by apply (bool_decide_unpack (¬ bare x2c)).
    destruct Hlay as (_ & Hcomma & _). rewrite skip_white by done.
    change (skip_json_space (member_text (S depth) kv' ++ ?y)) with (member_text (S depth) kv' ++ y).
    rewrite IH by (try done; cbn in Hf; lia). done.
Qed.

Lemma scan_array_written room scan depth l x :
  Forall (fun v => reads scan (S depth) v ∧ readable room v) l →
  scan_array scan (members_text lay depth (map (written (S depth)) l) ++ x5d :: x) = Ok (JArr l, x).
Proof.
  intros Hl. unfold scan_array. destruct Hl as [|a l [Ha Hra] Hl]; [done|]. destruct Hlay as (Hopen & _).
  rewrite members_cons, skip_white, (skip_written room) by done. set (b := written (S depth) a ++ _).
  assert (scan_elements scan (length b) b = Ok (a :: l, x)) as E.
  { apply (scan_elements_written room); try done. unfold b. rewrite length_app.
    pose proof (tail_length (written (S depth)) depth l x5d x). lia. }
  destruct (written_visible room (S depth) a Hra) as (o & r & Eo & _ & Hne).
  assert (∃ r', b = o :: r') as [r' Er] by (unfold b; rewrite Eo; by eexists). rewrite Er in *.
  destruct o; try done; by rewrite E.
Qed.

Lemma scan_object_written room scan depth d x :
  NoDup d.*1 → Forall (fun kv => text_ok kv.1 ∧ readable room kv.2 ∧ reads scan (S depth) kv.2) d →
  scan_object scan (members_text lay depth (map (member_text (S depth)) d) ++ x7d :: x) = Ok (JObj d, x).
Proof.
  intros Hnd Hd. unfold scan_object. destruct Hd as [|kv d (Hk & Hr & Hv) Hd]; [done|]. destruct Hlay as (Hopen & _).
  rewrite members_cons, skip_white by done. set (b := member_text (S depth) kv ++ _).
  assert (scan_members scan (length b) b = Ok (kv :: d, x)) as E.
  { apply (scan_members_written room); try done. unfold b. rewrite length_app.
    pose proof (tail_length (member_text (S depth)) depth d x7d x). lia. }
  assert (∃ r, b = x22 :: r) as [r Er] by (by eexists). rewrite Er in *.
  trans ('(kvs, r) ← scan_members scan (length (x22 :: r)) (x22 :: r); Ok (JObj (object_of kvs), r)); [done|].
  rewrite E. cbn [mbind outcome_bind]. by rewrite object_of_distinct.
Qed.

Lemma scan_once_scalar room o r :
  bare o → scan_once room (o :: r) = scan_scalar (o :: r).
Proof. intros Ho. destruct room, o; try done; exfalso; revert Ho; by apply (bool_decide_unpack (¬ _)). Qed.

(** [scan_once] reads a value back from its text. *)
Lemma scan_once_written room depth v : readable room v → reads (scan_once room) depth v.
Proof.
  revert room depth. induction v as [|b|z|s|s|l IH|d IH] using json_induction; intros room depth Hv x Hx.
  - by destruct room.
  - by destruct room, b.
  - pose proof (scan_dec z x Hv Hx) as E. destruct (dec_bare z) as [Hne Hb]. cbn [json_text json_dumps].
    destruct (dec z) as [|o r]; [done|]. inversion Hb; subst. cbn [app] in *. by rewrite scan_once_scalar.
  - destruct Hv as ((Hne & Hb & _) & _ & Hs). specialize (Hs x Hx). cbn [json_text json_dumps].
    destruct (of_string s) as [|o r]; [done|]. inversion Hb; subst. cbn [app] in *. by rewrite scan_once_scalar.
  - assert (scan_once room (written depth (JStr s) ++ x) = '(s, r) ← scan_string (concat (map escape (utf8_codes (of_string s))) ++ x22 :: x); Ok (JStr (to_string s), r)) as ->.
    { cbn [json_text]. unfold json_string. cbn [app]. rewrite <- app_assoc. by destruct room. }
    rewrite scan_json_string by done. cbn. by rewrite to_of_string.
  - destruct room as [|room]; [done|]. cbn in Hv. rewrite all_of_Forall in Hv.
    assert (scan_once (S room) (written depth (JArr l) ++ x) =
      scan_array (scan_once room) (members_text lay depth (map (written (S depth)) l) ++ x5d :: x)) as ->.
    { cbn [json_text app]. by rewrite <- app_assoc. }
    apply (scan_array_written room). rewrite Forall_forall in *. auto.
  - destruct room as [|room]; [done|]. destruct Hv as [Hnd Hv]. rewrite all_of_Forall in Hv.
    assert (scan_once (S room) (written depth (JObj d) ++ x) =
      scan_object (scan_once room) (members_text lay depth (map (member_text (S depth)) d) ++ x7d :: x)) as ->.
    { cbn [json_text app]. by rewrite <- app_assoc. }
    apply (scan_object_written room); [done|]. rewrite Forall_forall in *. intros kv Hkv. destruct (Hv kv Hkv). auto.
Qed.

(** The text of a value in any layout, with white space after it, is read
    back. *)
Lemma json_loads_written v x :
  readable recursion_room v → white x → json_loads (to_string (written 0 v ++ x)) = Ok v.
Proof.
  intros Hv Hx. unfold json_loads, scan_document. rewrite of_to_string.
  assert (after_literal [xef; xbb; xbf] (written 0 v ++ x) = None) as ->.
  { destruct (written_visible _ 0 v Hv) as (o & r & -> & Ho & _). apply after_literal_head.
    destruct (visible_not_space o Ho). congruence. }
  rewrite (skip_written recursion_room), (scan_once_written recursion_room) by (try done; by destruct Hx; [|right]).
  cbn [mbind outcome_bind]. rewrite <- (app_nil_r x), skip_white by done. done.
Qed.

(** And the octets of a file are text. *)
Lemma written_valid room v x : readable room v → white x → utf8_valid (written 0 v ++ x) = true.
Proof. intros Hv Hx. apply ascii_valid, Forall_app. split; [by eapply written_ascii|by apply white_ascii]. Qed.
End layout.

(** Sorting keeps the members. *)
Lemma insert_item_perm {A} k (a : A) l : insert_item k a l ≡ₚ (k, a) :: l.
Proof. induction l as [|[k' a'] l IH]; cbn; [done|]. destruct (String.ltb k' k); [|done]. rewrite IH. apply perm_swap. Qed.

Lemma sort_items_perm {A} (l : list (string * A)) : sort_items l ≡ₚ l.
Proof. induction l as [|[k a] l IH]; cbn; [done|]. by rewrite insert_item_perm, IH. Qed.

Lemma normal_readable room v : readable room v → readable room (normal v).
Proof.
  revert room. induction v as [|b|z|s|s|l IH|d IH] using json_induction; intros room; try (by intros); cbn [normal readable].
  - destruct room; [done|]. rewrite !all_of_Forall. intros Hl. apply Forall_map. rewrite !Forall_forall in *. auto.
  - destruct room as [|room]; [done|]. rewrite !all_of_Forall. intros [Hnd Hd].
    assert (sort_items (map (fun kv => (kv.1, normal kv.2)) d) ≡ₚ map (fun kv => (kv.1, normal kv.2)) d) as Hp by apply sort_items_perm.
    rewrite Hp. split.
    + assert ((map (fun kv => (kv.1, normal kv.2)) d).*1 = d.*1) as -> by (clear; induction d; cbn; congruence). done.
    + apply Forall_map. rewrite !Forall_forall in *. intros kv Hkv. cbn. destruct (Hd kv Hkv). auto.
Qed.

Lemma render_text v depth : render v = json_text compact json_string depth v.
Proof.
  assert (∀ {A} (f : A → bytes) l, join x2c (map f l) = members_text compact depth (map f l)) as Hjoin.
  { intros A f [|a l]; [done|]. rewrite join_cons. unfold members_text. cbn. by rewrite map_map, app_nil_r. }
  revert depth Hjoin. induction v as [| | | | |l IH|d IH] using json_induction; intros depth Hjoin; try done; cbn [render json_text].
  - rewrite Hjoin. do 3 f_equal. apply map_Forall_ext. eapply Forall_impl; [exact IH|]. intros v Hv. by apply Hv.
  - rewrite Hjoin. do 3 f_equal. apply map_Forall_ext. eapply Forall_impl; [exact IH|]. intros kv Hkv. unfold json_member.
    cbn. by rewrite (Hkv (S depth)).
Qed.

(** Canonical JSON is read back as the value it was made of, with the members
    of every object in key order. *)
Lemma json_loads_dumps v : readable recursion_room v → json_loads (to_string (json_dumps v)) = Ok (normal v).
Proof.
  intros Hv%normal_readable. rewrite <- render_normal, (render_text _ 0), <- (app_nil_r (json_text _ _ _ _)).
  by apply json_loads_written; [apply compact_white|..|constructor].
Qed.
End round_trip.
