(* ===== verification/ReleaseProof.v ===== *)
(** * What the release helper promises

    Versions only go up, a bump rewrites one line, and a tag passes the check
    exactly when it names the manifest's version on the main branch. *)

From S2P Require Import Prelude PyRuntime Utf8 EncodingRuleProof Cbor CborInstance Json JsonProof PyJson JsonLoads JsonLoadsProof PyText PyIo Release.

(** ** Reading and writing *)

(** The file holds text that is read as [b]. *)
Definition reads_as (s : store) (file : str) (b : bytes) : Prop :=
  ∃ stored, s !! file = Some stored ∧ utf8_valid stored = true ∧ universal_newlines stored = b.

Lemma reads_as_det s file b b' : reads_as s file b → reads_as s file b' → b = b'.
Proof. intros (x & Hx & _ & <-) (y & Hy & _ & <-). congruence. Qed.

Lemma read_text_ok p s s' b : read_text p s = (s', Ok b) ↔ s' = s ∧ reads_as s (path_str p) b.
Proof.
  unfold read_text, reads_as. destruct (s !! path_str p) as [x|].
  - destruct (utf8_valid x) eqn:Hv; split.
    + intros [= -> <-]. by split; [|exists x].
    + intros [-> (y & [= <-] & _ & <-)]. done.
    + done.
    + intros [_ (y & [= <-] & ? & _)]. congruence.
  - split; [done|]. by intros [_ (y & ? & _)].
Qed.

(** What translation does: nothing to octets without a CR, and no CR is left. *)
Lemma universal_newlines_id b : x0d ∉ b → universal_newlines b = b.
Proof.
  induction b as [|o b IH]; [done|]. rewrite not_elem_of_cons. intros [Hne Hb]. cbn.
  rewrite bool_decide_eq_false_2 by congruence. by rewrite IH.
Qed.

Lemma universal_newlines_app a b : x0d ∉ a → universal_newlines (a ++ b) = a ++ universal_newlines b.
Proof.
  induction a as [|o a IH]; [done|]. rewrite not_elem_of_cons. intros [Hne Ha]. cbn.
  rewrite bool_decide_eq_false_2 by congruence. by rewrite IH.
Qed.

Lemma universal_newlines_valid b : utf8_valid b = true → utf8_valid (universal_newlines b) = true.
Proof.
  remember (length b) as n eqn:Hn. revert b Hn. induction (lt_wf n) as [n _ IH]. intros b -> Hv.
  destruct (decide (x0d ∈ b)) as [Hin|Hno]; [|by rewrite universal_newlines_id].
  apply list_elem_of_split_l in Hin as (a & r & -> & Ha). rewrite universal_newlines_app by done.
  rewrite utf8_valid_cut in Hv by done. apply andb_prop in Hv as [Hva Hvr].
  assert (∃ r', universal_newlines (x0d :: r) = x0a :: universal_newlines r' ∧ (length r' ≤ length r)%nat ∧ utf8_valid r' = true)
    as (r' & -> & Hlen & Hvr').
  { cbn. rewrite (bool_decide_eq_true_2 (x0d = x0d)) by done. destruct r as [|o r]; [by exists []|]. case_bool_decide as Ho; [rewrite Ho in Hvr|by exists (o :: r)].
    exists r. split_and!; [done|cbn; lia|exact Hvr]. }
  rewrite utf8_valid_cut by done. rewrite Hva. apply (IH (length r')); [|done|done].
  rewrite length_app. cbn. lia.
Qed.

Lemma write_text_ok p b s s' x : write_text p b s = (s', Ok x) → s' = <[path_str p := b]> s.
Proof. unfold write_text. destruct (utf8_valid b); [by intros [= -> _]|done]. Qed.

(** A step that leaves the store alone. *)
Lemma read_text_raise p s s' e : read_text p s = (s', Raise e) → s' = s.
Proof. unfold read_text. by intros [= -> _]. Qed.
Lemma write_text_raise p b s s' e : utf8_valid b = true → write_text p b s ≠ (s', Raise e).
Proof. unfold write_text. by intros ->. Qed.

(** Split every step of a run that ends well. *)
Ltac io_inv :=
  repeat match goal with
  | H : (_ ≫= _) _ = (_, Ok _) |- _ =>
      let s := fresh "s" in let a := fresh "a" in let Ha := fresh "Ha" in
      apply prog_bind_ok in H as (s & a & Ha & H)
  | H : lift _ _ = (_, Ok _) |- _ => apply lift_ok in H as [-> H]
  | H : read_text _ _ = (_, Ok _) |- _ => apply read_text_ok in H as [-> H]
  | H : mret _ _ = (_, Ok _) |- _ => injection H as <- H
  end.

(** ** Numbers and versions *)

Definition stops (x : bytes) : Prop := match x with o :: _ => isdigit o = false | [] => True end.

Lemma after_literal_app l r : after_literal l (l ++ r) = Some r.
Proof. induction l as [|o l IH]; cbn; [done|]. by rewrite bool_decide_eq_true_2. Qed.

Lemma after_one o r : after_literal [o] (o :: r) = Some r.
Proof. apply (after_literal_app [o]). Qed.

Lemma after_literal_Some l b r : after_literal l b = Some r → b = l ++ r.
Proof.
  revert b. induction l as [|o l IH]; intros [|o' b]; cbn; try done; [by intros [= <-]|by intros [= <-]|].
  case_bool_decide; [subst|done]. by intros ->%IH.
Qed.

Lemma span_digits_stop d x : Forall is_digit d → stops x → span_digits (d ++ x) = (d, x).
Proof.
  intros Hd Hx. induction Hd as [|o d Ho _ IH]; cbn.
  - destruct x as [|o x]; [done|]. cbn in Hx |- *. by rewrite Hx.
  - apply isdigit_iff in Ho. by rewrite Ho, IH.
Qed.

Lemma span_number_dec z x : 0 ≤ z → stops x → span_number (dec z ++ x) = Some (dec z, x).
Proof.
  intros Hz Hx. destruct (dec_shape z) as (sign & o & d & -> & [[-> _]|[_ ?]] & Ho & Hd & H0 & _); [|lia].
  cbn [app span_number]. case_bool_decide as E; [by rewrite (H0 E)|].
  by rewrite (proj2 (isdigit_iff o) Ho), span_digits_stop.
Qed.

Lemma span_digits_split b d r : span_digits b = (d, r) → b = d ++ r ∧ Forall is_digit d.
Proof.
  revert d r. induction b as [|o b IH]; intros d r; cbn; [by intros [= <- <-]|].
  destruct (isdigit o) eqn:Ho; [|by intros [= <- <-]].
  destruct (span_digits b) as [d' r'] eqn:E. intros [= <- <-]. destruct (IH d' r' eq_refl) as [-> Hd].
  split; [done|]. constructor; [by apply isdigit_iff|done].
Qed.

Lemma span_number_split b d r : span_number b = Some (d, r) → b = d ++ r ∧ d ≠ [] ∧ Forall is_digit d.
Proof.
  destruct b as [|o b]; cbn; [done|]. case_bool_decide as E; [subst|destruct (isdigit o) eqn:Ho; [|done]].
  - intros [= <- <-]. split_and!; [done..|]. apply Forall_singleton. by vm_compute.
  - destruct (span_digits b) as [d' r'] eqn:E'. intros [= <- <-]. apply span_digits_split in E' as [-> Hd].
    split_and!; [done..|]. constructor; [by apply isdigit_iff|done].
Qed.

Lemma digits_val_nonneg d : Forall is_digit d → 0 ≤ digits_val d.
Proof.
  intros Hd. unfold digits_val. assert (∀ n, 0 ≤ n → 0 ≤ fold_left (λ n o, n * 10 + digit_val o) d n) as Hf; [|by apply Hf].
  induction Hd as [|o d Ho _ IH]; intros n Hn; cbn; [done|]. apply IH. unfold digit_val, is_digit in *. lia.
Qed.

Lemma digits_val_dec z : 0 ≤ z → digits_val (dec z) = z.
Proof. intros Hz. by destruct (dec_form z) as [(_ & _ & _ & ?)|[? _]]; [|lia]. Qed.

Section numbers.
Context `{PyObjects}.

Lemma int_part_digits d :
  d ≠ [] → Forall is_digit d → int_part d = if zlen d >? 4300 then Raise int_error else Ok (digits_val d).
Proof.
  intros Hne Hd. destruct d as [|o d]; [done|]. inversion Hd as [|? ? Ho Hd']; subst.
  unfold int_part, int_of_text. rewrite of_to_string, digits_ascii by done. cbn [negb].
  assert (skip_space (o :: d) = o :: d) as ->.
  { cbn. unfold is_space_octet, is_digit in *. by replace (_ || _) with false by lia. }
  assert (sign_of (o :: d) = (1, o :: d)) as -> by (destruct o; try done; not_digit Ho).
  rewrite int_digits_all by auto. cbn [skip_space]. rewrite bool_decide_eq_false_2 by (by intros []). cbn [orb].
  rewrite Z.add_0_l. case_if; [done|]. f_equal. unfold digits_val. lia.
Qed.

(** The three numbers of a release version of a kind. *)
Definition numbers (tail : bytes → bool) (v : bytes) : option (Z * Z * Z) :=
  '(major, minor, patch) ← fullmatch tail v; Some (digits_val major, digits_val minor, digits_val patch).

Definition below (v w : Z * Z * Z) : Prop :=
  let '(a, b, c) := v in let '(a', b', c') := w in a < a' ∨ a = a' ∧ (b < b' ∨ b = b' ∧ c < c').

(** What each choice makes of three numbers. *)
Definition raised (bump : string) (v : Z * Z * Z) : option (Z * Z * Z) :=
  let '(a, b, c) := v in
  if bool_decide (bump = "major") then Some (a + 1, 0, 0)
  else if bool_decide (bump = "minor") then Some (a, b + 1, 0)
  else if bool_decide (bump = "patch") then Some (a, b, c + 1) else None.

Lemma VERSION_tail kind tail : VERSION kind = Ok tail → tail [] = true.
Proof.
  unfold VERSION, lookup_kind. destruct kind; try done. cbn. repeat (case_decide; [by intros [= <-]|cbn]). done.
Qed.

Lemma span_core_dec a b c x :
  0 ≤ a → 0 ≤ b → 0 ≤ c → stops x →
  span_core (dec a ++ x2e :: dec b ++ x2e :: dec c ++ x) = Some (dec a, dec b, dec c, x).
Proof.
  intros Ha Hb Hc Hx. unfold span_core. rewrite span_number_dec by done. cbn [mbind option_bind].
  rewrite after_one. cbn [mbind option_bind]. rewrite span_number_dec by done. cbn [mbind option_bind].
  rewrite after_one. cbn [mbind option_bind]. by rewrite span_number_dec.
Qed.

Lemma fullmatch_numbers tail v M m p :
  fullmatch tail v = Some (M, m, p) →
  (M ≠ [] ∧ Forall is_digit M) ∧ (m ≠ [] ∧ Forall is_digit m) ∧ (p ≠ [] ∧ Forall is_digit p).
Proof.
  unfold fullmatch. destruct (span_core v) as [[[[M' m'] p'] r]|] eqn:E; [|done]. case_if; [|done]. intros [= -> -> ->].
  unfold span_core in E.
  destruct (span_number v) as [[? v1]|] eqn:E1; [cbn [mbind option_bind] in E|done].
  destruct (after_literal [x2e] v1) as [v2|]; [cbn [mbind option_bind] in E|done].
  destruct (span_number v2) as [[? v3]|] eqn:E2; [cbn [mbind option_bind] in E|done].
  destruct (after_literal [x2e] v3) as [v4|]; [cbn [mbind option_bind] in E|done].
  destruct (span_number v4) as [[? v5]|] eqn:E3; [|done]. injection E as -> -> -> ->.
  apply span_number_split in E1, E2, E3. tauto.
Qed.

Lemma format_version_ok a b c new : format_version a b c = Ok new → new = dec a ++ x2e :: dec b ++ x2e :: dec c.
Proof.
  assert (∀ n r, format_int n = Ok r → r = dec n) as Hi by (intros n r; unfold format_int; case_if; congruence).
  unfold format_version. intros Hf. ok_inv. f_equal; [by apply Hi|]. do 2 f_equal; [by apply Hi|]. f_equal. by apply Hi.
Qed.

Lemma dec_ascii n : Forall (λ o, byte_val o < 128) (dec n).
Proof.
  assert (∀ d, Forall is_digit d → Forall (λ o, byte_val o < 128) d) as Hd.
  { intros d Hd. eapply Forall_impl; [exact Hd|]. unfold is_digit. lia. }
  destruct (dec_form n) as [(_ & _ & ? & _)|(_ & d & -> & ? & _)]; [by apply Hd|]. constructor; [done|by apply Hd].
Qed.

Lemma format_version_ascii a b c new : format_version a b c = Ok new → utf8_valid new = true.
Proof.
  intros ->%format_version_ok. apply ascii_valid.
  apply Forall_app_2; [apply dec_ascii|]. constructor; [done|].
  apply Forall_app_2; [apply dec_ascii|]. constructor; [done|apply dec_ascii].
Qed.

Lemma numbers_format tail kind a b c :
  VERSION kind = Ok tail → 0 ≤ a → 0 ≤ b → 0 ≤ c →
  numbers tail (dec a ++ x2e :: dec b ++ x2e :: dec c) = Some (a, b, c).
Proof.
  intros Hv Ha Hb Hc. unfold numbers, fullmatch. rewrite <- (app_nil_r (dec c)) at 1.
  rewrite span_core_dec, (VERSION_tail _ _ Hv) by done. cbn. by rewrite !digits_val_dec.
Qed.
End numbers.

(** ** [next_version] *)

Lemma digits_val_bound d : Forall is_digit d → digits_val d < 10 ^ zlen d.
Proof.
  induction d as [|o d IH] using rev_ind; intros Hd; [by vm_compute|].
  apply Forall_app in Hd as [Hd Ho]. specialize (IH Hd). apply Forall_cons in Ho as [Ho _].
  rewrite digits_val_snoc, zlen_app, zlen_one_elem, Z.pow_add_r by (try lia; apply zlen_nonneg).
  unfold digit_val, is_digit in *. rewrite Z.pow_1_r. lia.
Qed.

Lemma digits_val_cons o d : digits_val (o :: d) = digit_val o * 10 ^ zlen d + digits_val d.
Proof.
  induction d as [|x d IH] using rev_ind; [unfold digits_val, zlen; cbn; lia|].
  rewrite app_comm_cons, !digits_val_snoc, IH, zlen_app, zlen_one_elem, Z.pow_add_r by (try lia; apply zlen_nonneg).
  rewrite Z.pow_1_r. lia.
Qed.

(** A number below [10 ^ k] has at most [k] digits. *)
Lemma dec_length n k : 0 ≤ n < 10 ^ k → 1 ≤ k → zlen (dec n) ≤ k.
Proof.
  intros Hn Hk. destruct (dec_shape n) as (sign & o & d & -> & [[-> _]|[_ ?]] & Ho & Hd & H0 & Hv); [|lia].
  cbn [app]. rewrite zlen_cons. destruct (decide (o = x30)) as [E|E]; [rewrite (H0 E), zlen_nil; lia|].
  destruct (Z.le_gt_cases (zlen d + 1) k) as [|Hlt]; [done|exfalso].
  rewrite digits_val_cons, Z.abs_eq in Hv by lia. pose proof (digits_val_nonneg d Hd).
  assert (10 ^ k ≤ 10 ^ zlen d) by (apply Z.pow_le_mono_r; lia).
  assert (1 ≤ digit_val o); [|nia].
  assert (byte_val o ≠ 48) by (intros Hb; apply E, byte_val_inj; by rewrite Hb). unfold digit_val, is_digit in *. lia.
Qed.

Section next.
Context `{PyObjects}.

Lemma int_part_ok d n : d ≠ [] → Forall is_digit d → int_part d = Ok n → n = digits_val d ∧ 0 ≤ n.
Proof.
  intros Hne Hd Hn. rewrite int_part_digits in Hn by done. case_if_in Hn; [done|]. injection Hn as <-.
  split; [done|by apply digits_val_nonneg].
Qed.

Lemma next_version_raises kind current bump new :
  next_version kind current bump = Ok new →
  ∃ tail v w, VERSION kind = Ok tail ∧ numbers tail current = Some v ∧ raised bump v = Some w ∧
    numbers tail new = Some w ∧ below v w.
Proof.
  unfold next_version. intros Hn. ok_inv. rename a into tail.
  destruct (fullmatch tail current) as [[[M m] p]|] eqn:Hf; [|done]. ok_inv. rename a into z, a0 into y, a1 into x.
  pose proof (fullmatch_numbers _ _ _ _ _ Hf) as ([? ?] & [? ?] & [? ?]).
  apply int_part_ok in Ha0 as [-> ?], Ha1 as [-> ?], Ha2 as [-> ?]; [|done..].
  exists tail, (digits_val M, digits_val m, digits_val p).
  assert (numbers tail current = Some (digits_val M, digits_val m, digits_val p)) as -> by (unfold numbers; by rewrite Hf).
  revert Hn. unfold raised. repeat case_bool_decide; try done; intros ->%format_version_ok;
    (eexists; split_and!; [done..|eapply numbers_format; [done|lia..]|cbn; lia]).
Qed.

Lemma next_version_ascii kind current bump new : next_version kind current bump = Ok new → utf8_valid new = true.
Proof.
  unfold next_version. intros Hn. ok_inv. destruct (fullmatch a current) as [[[M m] p]|]; [|done]. ok_inv.
  revert Hn. repeat case_bool_decide; try done; by intros ?%format_version_ascii.
Qed.

Lemma format_int_ok n k : 0 ≤ n < 10 ^ k → 1 ≤ k ≤ 4300 → is_ok (format_int n) = true.
Proof. intros Hn Hk. unfold format_int. apply dec_length in Hn; [|lia]. by replace (_ >? _) with false by lia. Qed.

(** A part the code can read and the part one above it can be written. *)
Lemma format_part d :
  d ≠ [] → Forall is_digit d → zlen d < 4300 →
  is_ok (format_int (digits_val d)) = true ∧ is_ok (format_int (digits_val d + 1)) = true.
Proof.
  intros Hne Hd Hlen. pose proof (digits_val_bound d Hd). pose proof (digits_val_nonneg d Hd).
  assert (1 ≤ zlen d) by (destruct d; [done|rewrite zlen_cons; pose proof (zlen_nonneg d); lia]).
  split; [apply (format_int_ok _ (zlen d)); lia|apply (format_int_ok _ (zlen d + 1)); [|lia]].
  rewrite Z.pow_add_r, Z.pow_1_r by lia. lia.
Qed.

Lemma format_version_is_ok a b c :
  is_ok (format_int a) = true → is_ok (format_int b) = true → is_ok (format_int c) = true → is_ok (format_version a b c) = true.
Proof. unfold format_version. by destruct (format_int a), (format_int b), (format_int c). Qed.

Lemma next_version_total kind tail current M m p bump :
  VERSION kind = Ok tail → fullmatch tail current = Some (M, m, p) → zlen M < 4300 → zlen m < 4300 → zlen p < 4300 →
  bump ∈ ["major"; "minor"; "patch"] → is_ok (next_version kind current bump) = true.
Proof.
  intros Hv Hf HM Hm Hp Hb. pose proof (fullmatch_numbers _ _ _ _ _ Hf) as ([? ?] & [? ?] & [? ?]).
  unfold next_version. rewrite Hv. cbn. rewrite Hf, !int_part_digits by done.
  replace (zlen M >? 4300) with false by lia. replace (zlen m >? 4300) with false by lia.
  replace (zlen p >? 4300) with false by lia. cbn [mbind outcome_bind].
  destruct (format_part M) as [? ?]; [done..|]. destruct (format_part m) as [? ?]; [done..|].
  destruct (format_part p) as [? ?]; [done..|]. assert (is_ok (format_int 0) = true) by done.
  repeat case_bool_decide; try by apply format_version_is_ok.
  do 3 (apply elem_of_cons in Hb as [Hb|Hb]; [congruence|]). by apply elem_of_nil in Hb.
Qed.
End next.

(** ** [replace_toml_version] *)

(** A position in a text starts a line. *)
Definition starts_line (before : bytes) : Prop := match last before with Some o => o = x0a | None => True end.

Lemma starts_line_cons o p : starts_line (o :: p) ↔ match p with [] => o = x0a | _ => starts_line p end.
Proof. destruct p; done. Qed.

Section search.
Context {A : Type} (f : bytes → option A).

Definition starts_from (start : bool) (before : bytes) : Prop :=
  match last before with Some o => o = x0a | None => start = true end.

Lemma starts_from_cons start o p : starts_from start (o :: p) ↔ starts_from (bool_decide (o = x0a)) p.
Proof.
  unfold starts_from. destruct p as [|o' p] using rev_ind; [cbn; by rewrite bool_decide_eq_true|].
  by rewrite app_comm_cons, !last_snoc.
Qed.

Lemma search_line_Some start b before a :
  search_line f start b = Some (before, a) → ∃ r, b = before ++ r ∧ f r = Some a ∧ starts_from start before.
Proof.
  revert start before a. induction b as [|o b IH]; intros start before a; cbn [search_line].
  - destruct start; [|done]. destruct (f []) eqn:Hf; [|done]. intros [= <- <-]. by exists [].
  - destruct (if start then f (o :: b) else None) as [a'|] eqn:Hf.
    + destruct start; [|done]. intros [= <- <-]. by exists (o :: b).
    + destruct (search_line f _ b) as [[before' a']|] eqn:Hs; [|done]. cbn. intros [= <- <-].
      destruct (IH _ _ _ Hs) as (r & -> & ? & ?). exists r. split_and!; [done..|]. by apply starts_from_cons.
Qed.

(** Nothing is found before what is found first, or anywhere. *)
Lemma search_line_first start b p r :
  b = p ++ r → starts_from start p →
  match search_line f start b with Some (before, _) => (length p < length before)%nat → f r = None | None => f r = None end.
Proof.
  revert start p. induction b as [|o b IH]; intros start p E Hp; cbn [search_line].
  - symmetry in E. apply app_nil in E as [-> ->]. cbn in Hp. subst start. destruct (f []); cbn; [lia|done].
  - destruct (if start then f (o :: b) else None) as [a'|] eqn:Hf; [cbn; lia|].
    destruct p as [|o' p]; cbn in E.
    + subst r. cbn in Hp. subst start. rewrite Hf. by destruct (search_line f _ b) as [[? ?]|].
    + injection E as <- E. apply starts_from_cons in Hp. specialize (IH _ _ E Hp).
      destruct (search_line f _ b) as [[before a]|]; cbn; [|done]. intros ?. apply IH. lia.
Qed.
End search.

Lemma skip_tabs_split b : ∃ t, b = t ++ skip_tabs b ∧ Forall (λ o, is_tab o = true) t.
Proof.
  induction b as [|o b IH]; cbn; [by exists []|]. destruct (is_tab o) eqn:Ho; [|by exists []].
  destruct IH as (t & E & Ht). exists (o :: t). split; [cbn; by rewrite <- E|by constructor].
Qed.

Lemma take_front {A} (front rest : list A) : take (length (front ++ rest) - length rest) (front ++ rest) = front.
Proof. rewrite length_app. replace (_ - _)%nat with (length front) by lia. apply take_app_length. Qed.

(** A table header: the line [[table]], blanks allowed after it. *)
Definition header_line (table header : bytes) : Prop :=
  ∃ t, header = x5b :: table ++ [x5d] ++ t ∧ Forall (λ o, is_tab o = true) t.
(** The start of a version line, up to the text of the version. *)
Definition version_lead (lead : bytes) : Prop :=
  ∃ t t', lead = of_string "version" ++ t ++ x3d :: t' ++ [quote] ∧
    Forall (λ o, is_tab o = true) t ∧ Forall (λ o, is_tab o = true) t'.
(** No line of a section opens another table. *)
Definition one_table (section : bytes) : Prop :=
  ∀ p r, section = p ++ x5b :: r → ¬ starts_from true p.

(** A line of [b] from its start on: it is the header of [table], or gives the
    version [old]. *)
Definition opens (table b : bytes) : Prop := ∃ header rest, b = header ++ x0a :: rest ∧ header_line table header.
Definition gives (old b : bytes) : Prop := ∃ lead rest, b = lead ++ old ++ quote :: rest ∧ version_lead lead.

Lemma skip_tabs_app t o r : Forall (λ o, is_tab o = true) t → is_tab o = false → skip_tabs (t ++ o :: r) = o :: r.
Proof. intros Ht Ho. induction Ht as [|o' t Ho' _ IH]; cbn; [by rewrite Ho|by rewrite Ho']. Qed.

Lemma header_at_opens table b : opens table b → header_at table b ≠ None.
Proof.
  intros (header & rest & -> & t & -> & Ht). unfold header_at.
  replace ((x5b :: table ++ [x5d] ++ t) ++ x0a :: rest) with ((x5b :: table ++ [x5d]) ++ t ++ x0a :: rest)
    by (cbn; by rewrite <- !app_assoc).
  rewrite after_literal_app. cbn [mbind option_bind]. rewrite skip_tabs_app by done. by rewrite bool_decide_eq_true_2.
Qed.

Lemma version_at_line_gives old b r : gives old b → version_at_line old (b ++ r) ≠ None.
Proof.
  intros (lead & rest & -> & t & t' & -> & Ht & Ht'). unfold version_at_line.
  replace (((of_string "version" ++ t ++ x3d :: t' ++ [quote]) ++ old ++ quote :: rest) ++ r)
    with (of_string "version" ++ t ++ x3d :: t' ++ quote :: (old ++ [quote]) ++ rest ++ r)
    by (rewrite <- !app_assoc; cbn [app]; rewrite <- !app_assoc; cbn [app]; by rewrite <- ?app_assoc).
  rewrite after_literal_app. cbn [mbind option_bind]. rewrite skip_tabs_app by done.
  rewrite after_one. cbn [mbind option_bind]. rewrite skip_tabs_app by done.
  rewrite after_one. cbn [mbind option_bind]. by rewrite after_literal_app.
Qed.

Lemma header_at_Some table b header rest :
  header_at table b = Some (header, rest) →
  b = header ++ rest ∧ header_line table header ∧ match rest with [] => True | o :: _ => o = x0a end.
Proof.
  unfold header_at. set (name := x5b :: table ++ [x5d]). destruct (after_literal name b) as [r|] eqn:Hl; [|done].
  apply after_literal_Some in Hl as ->. cbn [mbind option_bind].
  destruct (skip_tabs_split r) as (t & E & Ht). destruct (skip_tabs r) as [|o x] eqn:Hs.
  - intros [= <- <-]. rewrite !app_nil_r in *. split_and!; [done| |done]. exists r. subst r. split; [|done].
    by subst name; rewrite <- app_comm_cons, <- app_assoc.
  - case_bool_decide; [|done]. replace (name ++ r) with ((name ++ t) ++ o :: x) by by rewrite E, <- app_assoc.
    rewrite take_front. intros [= <- <-]. split_and!; [done| |done].
    exists t. split; [|done]. by subst name; rewrite <- app_comm_cons, <- app_assoc.
Qed.

Lemma version_at_line_Some old b lead rest :
  version_at_line old b = Some (lead, rest) → b = lead ++ old ++ quote :: rest ∧ version_lead lead.
Proof.
  unfold version_at_line. destruct (after_literal _ b) as [r1|] eqn:H1; [|done].
  apply after_literal_Some in H1 as ->. cbn [mbind option_bind]. destruct (skip_tabs_split r1) as (t & E1 & Ht).
  destruct (after_literal [x3d] _) as [r2|] eqn:H2; [|done].
  apply after_literal_Some in H2. rewrite H2 in E1. cbn [mbind option_bind]. destruct (skip_tabs_split r2) as (t' & E2 & Ht').
  destruct (after_literal [quote] _) as [r3|] eqn:H3; [|done].
  apply after_literal_Some in H3. rewrite H3 in E2. cbn [mbind option_bind].
  destruct (after_literal (old ++ [quote]) r3) as [r4|] eqn:H4; [|done].
  apply after_literal_Some in H4. cbn [mbind option_bind]. rewrite E1, E2.
  replace (of_string "version" ++ t ++ [x3d] ++ t' ++ [quote] ++ r3)
    with ((of_string "version" ++ t ++ x3d :: t' ++ [quote]) ++ r3) by (rewrite <- !app_assoc, <- app_comm_cons, <- app_assoc; reflexivity).
  rewrite take_front. intros [= <- <-]. split; [by rewrite H4, <- (app_assoc old)|by exists t, t'].
Qed.

(** What [replace_toml_version] changes: in the first table of that name, the
    first line that gives [old] literally; all else is kept. *)
Lemma replace_toml_version_ok text table old new text' :
  replace_toml_version text table old new = Ok text' →
  ∃ before header front lead back,
    text = before ++ header ++ front ++ lead ++ old ++ quote :: back ∧
    text' = before ++ header ++ front ++ lead ++ new ++ quote :: back ∧
    starts_from true before ∧ header_line table header ∧ (∀ p q, before = p ++ q → starts_from true p → ¬ opens table q) ∧
    starts_from true front ∧ version_lead lead ∧ (∀ p q, front = p ++ q → starts_from true p → ¬ gives old q) ∧
    one_table (front ++ lead).
Proof.
  unfold replace_toml_version. destruct (search_line (header_at table) true text) as [[before [header rest]]|] eqn:Hh; [|done].
  assert (∀ p q, before = p ++ q → starts_from true p → ¬ opens table q) as Hno.
  { intros p q -> Hp (h & x & -> & Hline). pose proof (search_line_Some _ _ _ _ _ Hh) as (r & E & _).
    pose proof (search_line_first (header_at table) true text p ((h ++ x0a :: x) ++ r) ltac:(by rewrite E, <- app_assoc) Hp) as Hf.
    rewrite Hh in Hf. apply (header_at_opens table ((h ++ x0a :: x) ++ r)); [exists h, (x ++ r); by rewrite <- app_assoc|].
    apply Hf. rewrite !length_app. cbn. lia. }
  apply search_line_Some in Hh as (r & -> & (-> & Hheader & Hrest)%header_at_Some & Hbefore).
  assert (∃ section tail, rest = section ++ tail ∧ one_table section ∧
    match search_line table_at true rest with Some (b, _) => b | None => rest end = section) as (section & tail & -> & Hone & ->).
  { destruct (search_line table_at true rest) as [[b x]|] eqn:Hs.
    - pose proof (search_line_Some _ _ _ _ _ Hs) as (r & -> & _). exists b, r. split_and!; [done| |done].
      intros p q -> Hp. pose proof (search_line_first table_at true ((p ++ x5b :: q) ++ r) p (x5b :: q ++ r) ltac:(by rewrite <- app_assoc) Hp) as Hf.
      rewrite Hs in Hf. unfold table_at in Hf. rewrite after_one in Hf. rewrite length_app in Hf. cbn in Hf.
      cbn in Hf. assert (Some () = None) by (apply Hf; lia). done.
    - exists rest, []. rewrite app_nil_r. split_and!; [done| |done].
      intros p q -> Hp. pose proof (search_line_first table_at true _ p (x5b :: q) eq_refl Hp) as Hf.
      rewrite Hs in Hf. unfold table_at in Hf. rewrite after_one in Hf. discriminate Hf. }
  destruct (search_line (version_at_line old) true section) as [[front [lead after]]|] eqn:Hv; [|done].
  assert (∀ p q, front = p ++ q → starts_from true p → ¬ gives old q) as Hnov.
  { intros p q -> Hp Hg. pose proof (search_line_Some _ _ _ _ _ Hv) as (r & E & _).
    pose proof (search_line_first (version_at_line old) true section p (q ++ r) ltac:(by rewrite E, <- app_assoc) Hp) as Hf.
    rewrite Hv in Hf. apply (version_at_line_gives old q r Hg), Hf. rewrite length_app.
    destruct Hg as (l & x & -> & ? & ? & -> & _). cbn. lia. }
  apply search_line_Some in Hv as (r & -> & (-> & Hlead)%version_at_line_Some & Hfront). intros [= <-].
  rewrite drop_app_length. exists before, header, front, lead, (after ++ tail). split_and!; try done.
  - rewrite <- !app_assoc. cbn. by rewrite <- ?app_assoc.
  - rewrite <- !app_assoc. cbn. by rewrite <- ?app_assoc.
  - intros p q E Hp. eapply (Hone p (q ++ old ++ quote :: after)); [|done].
    by rewrite app_assoc, E, <- app_assoc.
Qed.

(** ** The commands *)

Section commands.
Context `{PyObjects} (toml_loads : bytes → result json) (git : list string → result completed).

Lemma as_path_ok v p : as_path v = Ok p ↔ ∃ s, v = JStr s ∧ p = u s.
Proof. destruct v; split; try done; try (by intros (? & ? & _)); [intros [= <-]; eauto|by intros (? & [= ->] & ->)]. Qed.
Lemma as_text_ok v b : as_text v = Ok b ↔ ∃ s, v = JStr s ∧ b = of_string s.
Proof. destruct v; split; try done; try (by intros (? & ? & _)); [intros [= <-]; eauto|by intros (? & [= ->] & ->)]. Qed.

(** Split the steps of a command, the text and the paths it takes from the
    configuration. *)
Ltac step_inv :=
  io_inv; ok_inv;
  repeat match goal with
  | H : as_text _ = Ok _ |- _ => let t := fresh "t" in apply as_text_ok in H as (t & -> & ->)
  | H : as_path _ = Ok _ |- _ => let t := fresh "t" in apply as_path_ok in H as (t & -> & ->)
  end.

(** Replacing a version in a text that can be encoded gives such a text. *)
Lemma replaced_valid front lead old new back :
  version_lead lead → utf8_valid new = true → utf8_valid (front ++ lead ++ old ++ quote :: back) = true →
  utf8_valid (front ++ lead ++ new ++ quote :: back) = true.
Proof.
  intros (t & t' & -> & _) Hn Hv.
  assert (∀ v, front ++ (of_string "version" ++ t ++ x3d :: t' ++ [quote]) ++ v ++ quote :: back =
    (front ++ of_string "version" ++ t ++ x3d :: t') ++ quote :: (v ++ quote :: back)) as E.
  { intros v. rewrite <- !app_assoc. f_equal. f_equal. f_equal. cbn [app]. f_equal. by rewrite <- app_assoc. }
  rewrite E in Hv |- *. rewrite !utf8_valid_cut in * by done. rewrite Hn. cbn [andb].
  by apply andb_prop in Hv as [-> [_ ->]%andb_prop].
Qed.

Lemma bump_python_ok repo entry kind_bump name config s s' new :
  py_index entry "kind" = Ok (JStr "python") →
  bump toml_loads repo entry kind_bump name config s = (s', Ok new) →
  ∃ manifest text text' current,
    py_index entry "manifest" = Ok (JStr manifest) ∧ reads_as s (path_str (joinpath repo (u manifest))) text ∧
    read_version toml_loads (JStr "python") text = Ok current ∧ next_version (JStr "python") current kind_bump = Ok new ∧
    replace_toml_version text (of_string "project") current new = Ok text' ∧
    s' = <[path_str (joinpath repo (u manifest)) := text']> s.
Proof.
  intros Hkind Hb. unfold bump in Hb. io_inv. rewrite Hkind in Ha. injection Ha as <-. ok_inv.
  apply as_path_ok in Ha0 as (manifest & -> & ->).
  change (is_npm (JStr "python")) with false in Hb. change (is_cargo (JStr "python")) with false in Hb. cbv iota in Hb.
  io_inv. subst. rewrite <- (reads_as_det _ _ _ _ Ha1 Ha0) in *. apply write_text_ok in Ha5 as ->.
  exists manifest, a1, a0, a2. by split_and!.
Qed.

(** A run that fails: at its first step, or after it. *)
Ltac fail_step H Hok :=
  apply prog_bind_raise in H as [H|(? & ? & Hok & H)]; [by first [apply lift_raise in H|apply read_text_raise in H]|];
  lazymatch type of Hok with
  | lift _ _ = _ => apply lift_ok in Hok as [-> Hok]
  | _ => apply read_text_ok in Hok as [-> Hok]
  end.

Lemma bump_python_raise repo entry kind_bump name config s s' e :
  py_index entry "kind" = Ok (JStr "python") →
  bump toml_loads repo entry kind_bump name config s = (s', Raise e) → s' = s.
Proof.
  intros Hkind Hb. unfold bump in Hb. fail_step Hb Hk. rewrite Hkind in Hk. injection Hk as <-.
  fail_step Hb Hmanifest. fail_step Hb Htext. fail_step Hb Hread. fail_step Hb Hn.
  change (is_npm (JStr "python")) with false in Hb. change (is_cargo (JStr "python")) with false in Hb. cbv iota in Hb.
  fail_step Hb Hagain. rewrite <- (reads_as_det _ _ _ _ Htext Hagain) in *. fail_step Hb Hr.
  apply (replace_toml_version_ok _ (of_string "project")) in Hr as (before & header & front & lead & back & -> & -> & _ & _ & _ & _ & Hlead & _).
  apply prog_bind_raise in Hb as [Hw|(? & ? & _ & [=])]. exfalso. revert Hw. apply write_text_raise.
  apply next_version_ascii in Hn. destruct Htext as (stored & _ & Hvalid & Heq). apply universal_newlines_valid in Hvalid.
  rewrite Heq in Hvalid. rename Hvalid into Htext. rewrite (app_assoc header), (app_assoc before) in Htext |- *.
  by eapply replaced_valid.
Qed.

(** C40: a bump of a Python package raises the version and rewrites one line:
    the new version is the current one of the manifest with the chosen number
    raised by one and zeros after it, so it is above it, and is a release
    version again; in the checkout nothing changes but the manifest,
    which gets back the text that was read from it but for the version, in the
    first line of the first [project] table that gives it literally: so
    nothing else changes when its lines end in LF, and every CRLF or lone CR
    becomes LF otherwise; and a bump that fails changes nothing at all. *)
Theorem release_bump repo entry kind_bump name config s s' r :
  py_index entry "kind" = Ok (JStr "python") →
  bump toml_loads repo entry kind_bump name config s = (s', r) →
  match r with
  | Ok new =>
      ∃ manifest stored before header front lead current back v w,
        let file := path_str (joinpath repo (u manifest)) in
        let text version := before ++ header ++ front ++ lead ++ version ++ quote :: back in
        py_index entry "manifest" = Ok (JStr manifest) ∧
        s !! file = Some stored ∧ universal_newlines stored = text current ∧ (x0d ∉ stored → stored = text current) ∧
        s' = <[file := text new]> s ∧
        read_version toml_loads (JStr "python") (text current) = Ok current ∧
        starts_from true before ∧ header_line (of_string "project") header ∧
        (∀ p q, before = p ++ q → starts_from true p → ¬ opens (of_string "project") q) ∧
        starts_from true front ∧ version_lead lead ∧ one_table (front ++ lead) ∧
        (∀ p q, front = p ++ q → starts_from true p → ¬ gives current q) ∧
        numbers python_tail current = Some v ∧ raised kind_bump v = Some w ∧ numbers python_tail new = Some w ∧ below v w
  | Raise _ => s' = s
  end.
Proof.
  intros Hkind Hb. destruct r as [new|e]; [|by eapply bump_python_raise].
  apply bump_python_ok in Hb as (manifest & text & text' & current & Hm & (stored & Hs & _ & Htext) & Hread & Hn & Hr & ->); [|done].
  apply replace_toml_version_ok in Hr as (before & header & front & lead & back & -> & -> & ? & ? & ? & ? & ? & ? & ?).
  apply next_version_raises in Hn as (tail & v & w & [= <-] & ? & ? & ? & ?).
  exists manifest, stored, before, header, front, lead, current, back, v, w. split_and!; try done.
  intros Hcr. by rewrite <- Htext, universal_newlines_id.
Qed.

(** The tag gate: [check] accepts a tag exactly when it is the prefix of the
    package followed by the version its manifest gives, that version is a
    release version of its kind, and git says that the commit is an ancestor
    of the main branch; git failing is never acceptance, and the checkout is
    not touched. *)
Lemma check_ok repo entry tag commit main s s' :
  check toml_loads git repo entry tag commit main s = (s', Ok ()) ↔
  s' = s ∧ ∃ kind prefix manifest text version tail r,
    py_index entry "kind" = Ok kind ∧ py_index entry "tag_prefix" = Ok (JStr prefix) ∧
    py_index entry "manifest" = Ok (JStr manifest) ∧ reads_as s (path_str (joinpath repo (u manifest))) text ∧
    read_version toml_loads kind text = Ok version ∧ VERSION kind = Ok tail ∧ is_Some (fullmatch tail version) ∧
    tag = of_string prefix ++ version ∧
    git ["merge-base"; "--is-ancestor"; commit; main] = Ok r ∧ returncode r = 0.
Proof.
  split.
  - intros Hc. unfold check in Hc. step_inv.
    match goal with H : match after_literal ?p tag with _ => _ end = _ |- _ => rename H into Hrel; destruct (after_literal p tag) as [version|] eqn:Htag end;
      [|by injection Hrel as <-].
    ok_inv. apply after_literal_Some in Htag as ->. case_bool_decide as Hf; cbn [negb] in Hc; [|done].
    step_inv. case_bool_decide as Ht; [done|].
    apply app_inv_head in Ht as ->. step_inv. case_if_in Hc; [done|]. case_bool_decide as Hr; [done|].
    injection Hc as <-. split; [done|]. eauto 20.
  - intros [-> (kind & prefix & manifest & text & version & tail & r & Hk & Hp & Hm & Hs & Hv & HV & Hf & -> & Hg & Hr)].
    destruct Hs as (stored & Hs & Hvalid & <-). unfold check, mbind, prog_bind, lift, read_text, mret, prog_ret. rewrite Hk, Hp. cbn. rewrite after_literal_app, HV. cbn.
    rewrite bool_decide_eq_true_2 by done. cbn. rewrite Hm. cbn. rewrite Hs, Hvalid, Hv.
    rewrite bool_decide_eq_false_2 by (intros []; done). rewrite Hg, Hr. done.
Qed.

Lemma released_row_ok previous before after name entry r :
  released_row toml_loads git previous before after name entry = Ok (Some r) ↔
  ∃ old_entry old prefix, row_package r = name ∧
    version_at toml_loads git entry after = Ok (Some (row_version r)) ∧ py_get previous name entry = Ok old_entry ∧
    version_at toml_loads git old_entry before = Ok old ∧ old ≠ Some (row_version r) ∧
    py_index entry "tag_prefix" = Ok (JStr prefix) ∧ row_tag r = of_string prefix ++ row_version r ∧
    py_index entry "workflow" = Ok (row_workflow r).
Proof.
  unfold released_row. split.
  - intros Hr. ok_inv. destruct a as [new|]; [|done]. ok_inv. case_bool_decide as Hne; [done|]. step_inv.
    cbn. eauto 20.
  - intros (old_entry & old & prefix & <- & Hn & Hp & Ho & Hne & Ht & Htag & Hw). rewrite Hn. cbn [mbind outcome_bind].
    rewrite Hp. cbn [mbind outcome_bind]. rewrite Ho. cbn [mbind outcome_bind]. rewrite bool_decide_eq_false_2 by congruence.
    rewrite Ht. cbn. rewrite Hw. cbn. destruct r. cbn in *. by subst.
Qed.

Lemma released_rows_ok previous before after config rows r :
  released_rows toml_loads git previous before after config = Ok rows →
  r ∈ rows ↔ ∃ name entry, (name, entry) ∈ config ∧
    released_row toml_loads git previous before after name entry = Ok (Some r).
Proof.
  revert rows. induction config as [|[name entry] config IH]; intros rows Hr; cbn [released_rows] in Hr; ok_inv.
  - split; [intros ?%elem_of_nil; done|intros (? & ? & ?%elem_of_nil & _); done].
  - rename a into here, a0 into more. specialize (IH more Ha0). split.
    + intros Hin. assert (here = Some r ∨ r ∈ more) as [->|(n & e & ? & ?)%IH].
      { destruct here; [|by right]. apply elem_of_cons in Hin as [->|?]; auto. }
      * exists name, entry. split; [left|done].
      * exists n, e. split; [by right|done].
    + intros (n & e & [[= -> ->]|Hin]%elem_of_cons & He).
      * rewrite He in Ha. injection Ha as <-. left.
      * assert (r ∈ more) by (apply IH; eauto). destruct here; [by right|done].
Qed.

Lemma jget_NoDup d k v : NoDup d.*1 → (k, v) ∈ d → jget d k = Some v.
Proof.
  induction d as [|[k' v'] d IH]; [by intros _ ?%elem_of_nil|]. cbn. rewrite NoDup_cons.
  intros [Hn Hd] [[= -> ->]|Hin]%elem_of_cons; [by rewrite bool_decide_eq_true_2|].
  rewrite bool_decide_eq_false_2; [by apply IH|]. intros ->. apply Hn, list_elem_of_fmap. by exists (k, v).
Qed.

(** The checkout holds what git shows of a commit, up to line ends. *)
Definition checked_out (repo : path) (commit : string) (s : store) : Prop :=
  ∀ file text, shown_at git commit file = Ok (Some text) → reads_as s (path_str (joinpath repo (u file))) text.

Lemma version_at_shown entry commit version manifest kind :
  version_at toml_loads git entry commit = Ok (Some version) → py_index entry "manifest" = Ok (JStr manifest) →
  py_index entry "kind" = Ok kind →
  ∃ text, shown_at git commit manifest = Ok (Some text) ∧ read_version toml_loads kind text = Ok version.
Proof.
  unfold version_at. intros Hv Hm Hk. rewrite Hm in Hv. cbn in Hv. destruct (shown_at git commit manifest) as [[text|]|] eqn:Hs;
    cbn in Hv; [|done..]. rewrite Hk in Hv. cbn in Hv. exists text. split; [done|]. by destruct (read_version _ _ _); cbn in *; congruence.
Qed.

(** The release pipeline holds together: [changed] reports exactly the
    packages whose manifest exists at the later commit with a version that
    differs from the one read at the earlier commit, where the configuration
    of that time put the manifest; and in a checkout of the later commit
    [check] accepts the tag printed for a package exactly when the version is
    a release version of its kind and git answers that the commit is on the
    main branch, a git that fails being a refusal. *)
Theorem release_changed_exact config before after rows :
  NoDup config.*1 → changed toml_loads git config before after = Ok rows →
  ∃ previous, config_at git before = Ok previous ∧
  (∀ row, row ∈ rows ↔ ∃ entry old_entry old prefix, (row_package row, entry) ∈ config ∧
    version_at toml_loads git entry after = Ok (Some (row_version row)) ∧
    py_get previous (row_package row) entry = Ok old_entry ∧
    version_at toml_loads git old_entry before = Ok old ∧ old ≠ Some (row_version row) ∧
    py_index entry "tag_prefix" = Ok (JStr prefix) ∧ row_tag row = of_string prefix ++ row_version row ∧
    py_index entry "workflow" = Ok (row_workflow row)) ∧
  (∀ row, row ∈ rows → ∃ entry, package config (row_package row) = Ok entry ∧
    ∀ repo s manifest kind main, checked_out repo after s →
      py_index entry "manifest" = Ok (JStr manifest) → py_index entry "kind" = Ok kind →
      check toml_loads git repo entry (row_tag row) after main s = (s, Ok ()) ↔
        (∃ tail, VERSION kind = Ok tail ∧ is_Some (fullmatch tail (row_version row))) ∧
        ∃ r, git ["merge-base"; "--is-ancestor"; after; main] = Ok r ∧ returncode r = 0).
Proof.
  intros Hnd Hc. unfold changed in Hc. ok_inv. rename a1 into previous. exists previous. split; [done|].
  assert (Hrows : ∀ row, row ∈ rows ↔ _) by (intros row; exact (released_rows_ok _ _ _ _ _ row Hc)). split.
  - intros row. rewrite Hrows. split.
    + intros (name & entry & Hin & (old_entry & old & prefix & <- & ?)%released_row_ok). by exists entry, old_entry, old, prefix.
    + intros (entry & old_entry & old & prefix & Hin & ?). exists (row_package row), entry. split; [done|].
      apply released_row_ok. by exists old_entry, old, prefix.
  - intros row (name & entry & Hin & (old_entry & old & prefix & <- & Hv & _ & _ & _ & Hp & -> & _)%released_row_ok)%Hrows.
    exists entry. unfold package. rewrite (jget_NoDup _ _ _ Hnd Hin). split; [done|].
    intros repo s manifest kind main Hout Hm Hk.
    destruct (version_at_shown _ _ _ _ _ Hv Hm Hk) as (text & Hs & Hread). rewrite check_ok. split.
    + intros (_ & kind' & prefix' & manifest' & text' & version & tail & r & Hk' & Hp' & Hm' & Hs' & Hread' & HV & Hf & _ & Hg & Hr).
      apply Hout in Hs. rewrite Hm in Hm'. injection Hm' as <-. assert (kind' = kind) as -> by congruence.
      pose proof (reads_as_det _ _ _ _ Hs' Hs) as ->. assert (version = row_version row) as -> by congruence.
      split; [by exists tail|by exists r].
    + intros [(tail & HV & Hf) (r & Hg & Hr)]. split; [done|].
      exists kind, prefix, manifest, text, (row_version row), tail, r. split_and!; try done. by apply Hout.
Qed.
End commands.
