(* ===== verification/ReleaseWitness.v ===== *)
(** * The release helper at a concrete repository

    A checkout with one Python package, a git of two commits between which its
    version moved, and a TOML reader for the files at hand. *)

From S2P Require Import Prelude PyRuntime Utf8 Cbor Json PyJson JsonLoads PyText PyIo Release ReleaseProof.

#[local] Instance witness_objects : PyObjects := plain_objects.

Definition line (s : string) : bytes := of_string s ++ [x0a].
Definition assigned (key value : string) : bytes := of_string key ++ of_string " = " ++ quote :: of_string value ++ [quote; x0a].
Definition manifest_text (version : string) : bytes :=
  line "[build-system]" ++ assigned "version" "9.9.9" ++ line "[project] " ++ assigned "name" "scitt-cose"
  ++ assigned "version" version ++ line "[tool.x]" ++ assigned "version" "1.2.3rc1".

(** Reads the version of the [project] table of such a text. *)
Definition value_at (b : bytes) : option bytes :=
  r ← after_literal (of_string "version = ") b; r ← after_literal [quote] r;
  Some ((fix upto (r : bytes) := match r with o :: r => if bool_decide (o = quote) then [] else o :: upto r | [] => [] end) r).
Definition toml (b : bytes) : result json :=
  match search_line (header_at (of_string "project")) true b with
  | Some (_, (_, rest)) =>
      match search_line value_at true rest with
      | Some (_, version) => Ok (JObj [("project", JObj [("version", JStr (to_string version))])])
      | None => Raise (message "no version")
      end
  | None => Raise (message "no table")
  end.

Definition repo : path := Path (u ".").
Definition entry : json := JObj [("kind", JStr "python"); ("manifest", JStr "pyproject.toml"); ("tag_prefix", JStr "v"); ("workflow", JStr "release.yml")].
Definition config : object := [("python", entry)].
Definition checkout (version : string) : store := {[ u "pyproject.toml" := manifest_text version ]}.

(** Commit [a] has 1.2.3rc1 and [b] 1.2.4; neither holds a configuration; [b]
    is on [origin/main]. *)
Definition answer (code : Z) (out : bytes) : result completed := Ok {| returncode := code; git_stdout := out; git_stderr := [] |}.
Definition git (args : list string) : result completed :=
  match args with
  | ["cat-file"; "-e"; what] => answer (if bool_decide (what ∈ ["a^{commit}"; "b^{commit}"; "a:pyproject.toml"; "b:pyproject.toml"]) then 0 else 128) []
  | ["show"; what] =>
      if bool_decide (what = "a:pyproject.toml") then answer 0 (manifest_text "1.2.3rc1")
      else if bool_decide (what = "b:pyproject.toml") then answer 0 (manifest_text "1.2.4") else answer 128 []
  | ["merge-base"; "--is-ancestor"; commit; _] => answer (if bool_decide (commit = "b") then 0 else 1) []
  | _ => answer 129 []
  end.

Definition bumped : store * result bytes := bump toml repo entry "patch" "python" config (checkout "1.2.3rc1").

Lemma release_bump_witness :
  bumped.2 = Ok (of_string "1.2.4") ∧
  ∃ manifest stored before header front lead current back v w,
    let file := path_str (joinpath repo (u manifest)) in
    let text version := before ++ header ++ front ++ lead ++ version ++ quote :: back in
    py_index entry "manifest" = Ok (JStr manifest) ∧
    checkout "1.2.3rc1" !! file = Some stored ∧ universal_newlines stored = text current ∧ (x0d ∉ stored → stored = text current) ∧
    bumped.1 = <[file := text (of_string "1.2.4")]> (checkout "1.2.3rc1") ∧
    read_version toml (JStr "python") (text current) = Ok current ∧
    starts_from true before ∧ header_line (of_string "project") header ∧
    (∀ p q, before = p ++ q → starts_from true p → ¬ opens (of_string "project") q) ∧
    starts_from true front ∧ version_lead lead ∧ one_table (front ++ lead) ∧
    (∀ p q, front = p ++ q → starts_from true p → ¬ gives current q) ∧
    numbers python_tail current = Some v ∧ raised "patch" v = Some w ∧
    numbers python_tail (of_string "1.2.4") = Some w ∧ below v w.
Proof.
  assert (Hok : bumped.2 = Ok (of_string "1.2.4")) by by vm_compute. split; [exact Hok|].
  apply (release_bump toml repo entry "patch" "python" config (checkout "1.2.3rc1") bumped.1 (Ok (of_string "1.2.4"))); [done|].
  rewrite <- Hok. apply surjective_pairing.
Defined.

(** A manifest with CRLF line ends comes out with LF line ends. *)
Definition crlf (b : bytes) : bytes := concat ((λ o, if bool_decide (o = x0a) then [x0d; x0a] else [o]) <$> b).
Example bump_crlf :
  bump toml repo entry "patch" "python" config {[ u "pyproject.toml" := crlf (manifest_text "1.2.3rc1") ]} =
    ({[ u "pyproject.toml" := manifest_text "1.2.4" ]}, Ok (of_string "1.2.4")).
Proof. by vm_compute. Qed.

Lemma release_changed_exact_witness :
  changed toml git config "a" "b" =
    Ok [{| row_package := "python"; row_version := of_string "1.2.4"; row_tag := of_string "v1.2.4"; row_workflow := JStr "release.yml" |}] ∧
  ∃ e, package config "python" = Ok e ∧
    check toml git repo e (of_string "v1.2.4") "b" "origin/main" (checkout "1.2.4") = (checkout "1.2.4", Ok ()).
Proof.
  assert (Hc : changed toml git config "a" "b" =
    Ok [{| row_package := "python"; row_version := of_string "1.2.4"; row_tag := of_string "v1.2.4"; row_workflow := JStr "release.yml" |}])
    by by vm_compute.
  split; [exact Hc|].
  destruct (release_changed_exact toml git config "a" "b" _ (NoDup_singleton _) Hc) as (previous & _ & _ & Hpass).
  destruct (Hpass _ ltac:(left)) as (e & He & Hcheck). exists e. split; [exact He|]. injection He as <-.
  apply (Hcheck repo (checkout "1.2.4") "pyproject.toml" (JStr "python") "origin/main");
    [|done|done|split; [by exists python_tail; split; [|eexists]|by eexists]].
  intros file text. unfold shown_at, git. cbn [mbind outcome_bind].
  destruct (decide (file = "pyproject.toml")) as [->|Hne]; [intros [= <-]; eexists; split_and!; by vm_compute|].
  destruct (bool_decide (_ ∈ _)) eqn:E; [exfalso|done]. apply bool_decide_eq_true in E.
  repeat (apply elem_of_cons in E as [E|E]; [try discriminate E; by injection E|]). by apply elem_of_nil in E.
Defined.

(** A bump of a crate writes the manifest before it finds that the lockfile has
    no such entry: the run fails and the new version stays. *)
Example bump_half_done :
  let manifest v := line "[package]" ++ assigned "version" v in
  let crate := JObj [("kind", JStr "cargo"); ("manifest", JStr "Cargo.toml"); ("lockfile", JStr "Cargo.lock")] in
  let toml b := Ok (JObj [("package", JObj [("name", JStr "demo"); ("version", JStr "0.2.3")])]) in
  let s : store := <[u "Cargo.toml" := manifest "0.2.3"]> {[ u "Cargo.lock" := [] ]} in
  let run := bump toml repo crate "minor" "demo" [("demo", crate)] s in
  run.1 !! u "Cargo.toml" = Some (manifest "0.3.0") ∧ is_ok run.2 = false.
Proof. by vm_compute. Qed.
