(* ===== verification/MachineMandate.v ===== *)
(** * The MachineMandate profile: [hosted_profiles/machine_mandate.py]

    Detection of a payload and the parsers that arrange its fields in groups
    for display.  A missing field is [None], the JSON null.  The adapter to
    the capsule graph is in [Profiles], after the graph itself. *)

From S2P Require Import Prelude PyRuntime Sha256 Utf8 Cbor CborInstance Json PyJson JsonProof.

Definition MM_VCT : string := "https://vocab.tyche.institute/vct/machine-mandate".

Definition _MM_PINNED_CANONICAL_DIGESTS : list string :=
  ["63bc7577d7929da79db0d6b045dd1cbdd2e9fb0a708618e3a5093869b8c2bdce";
   "8cd9e0588b83416891ff1c4480767daeeaa2d82324dc01bda4114f6c2e98c2b3";
   "4ac69f7b8524a7084be503196d3b0a3aaedac99b42422ae6fe5be198ffb3b2a2"].

Record MMFieldGroup := { label : string; fields : list (string * json) }.

Record MachineMandate := {
  profile_label : string; source_commit : string; source_repo : string;
  field_groups : list MMFieldGroup; raw : object; parse_note : string }.

(** [d.get(key)] *)
Definition get (d : object) (key : string) : json := get_or d key JNull.

(** Pairs [(key, d.get(key))] *)
Definition rows (d : object) (keys : list string) : list (string * json) := (fun key => (key, get d key)) <$> keys.
Arguments rows : simpl never.

Definition mandate (profile_label : string) (groups : list MMFieldGroup) (raw : object) (note : string) : MachineMandate :=
  {| profile_label := profile_label; source_commit := "524e6a3129b7f1ab850dd9471967458d3cb6f4cd";
     source_repo := "tyche-institute/machine-mandate"; field_groups := groups; raw := raw; parse_note := note |}.

(** The group "Scope" of a scope object. *)
Definition scope_group (scope : json) : list MMFieldGroup :=
  match scope with
  | JObj scope => [{| label := "Scope"; fields := rows scope ["allowed_actions"; "max_spend"; "action_commitments"] |}]
  | _ => []
  end.

Section mandate.
Context `{PyObjects} `{Sha256}.

(** The hex digest of the canonical JSON. *)
Definition canonical_digest (v : json) : string := hex (sha256 (json_dumps v)).

Definition is_machine_mandate (data : json) : bool :=
  match data with
  | JObj d =>
      if is_text (get_or d "vct" (JStr "")) MM_VCT then true
      else if (match get d "credential_claims" with JObj cred => is_text (get_or cred "vct" (JStr "")) MM_VCT | _ => false end) then true
      else bool_decide (canonical_digest data ∈ _MM_PINNED_CANONICAL_DIGESTS)
  | _ => false
  end.

Definition _parse_aep (data : object) : MachineMandate :=
  mandate "MachineMandate AEP"
    [{| label := "Token identity";
        fields := [("eat_profile", get data "eat_profile"); ("iss", get data "iss"); ("sub", get data "sub");
                   ("iat", py_or (get data "iat_iso") (get data "iat")); ("nonce", get data "nonce")] |};
     {| label := "Action"; fields := rows data ["action_id"; "status"; "swname"; "oemid"] |};
     {| label := "Binding"; fields := rows data ["receipt_hash"; "_output_binding_note"] |}] data "".

(** One turn of the loop of [_parse_ear]. *)
Definition submodule_group (submod_name : string) (submod : json) : result MMFieldGroup :=
  match submod with
  | JObj s =>
      let tv := get_or s "ear.trustworthiness-vector" (JObj []) in
      let ae := get_or s "ear.veraison.annotated-evidence" (JObj []) in
      Ok {| label := ("Submodule: " +:+ submod_name)%string;
            fields := rows s ["ear.status"; "ear.appraisal-policy-id"]
              ++ (match tv with JObj _ => [("ear.trustworthiness-vector", tv)] | _ => [] end)
              ++ (match ae with JObj _ => [("ear.veraison.annotated-evidence", ae)] | _ => [] end) |}
  | _ => Raise AttributeError
  end.

Definition _parse_ear (data : object) : result MachineMandate :=
  let submods := match get_or data "submods" (JObj []) with JObj submods => submods | _ => [] end in
  groups ← mapM (fun kv => submodule_group kv.1 kv.2) submods;
  Ok (mandate "MachineMandate EAR (Veraison)"
    ({| label := "EAR header"; fields := rows data ["eat_profile"; "iat"; "eat_nonce"; "ear.verifier-id"] |} :: groups) data "").

Definition _parse_run_credential (data : object) : MachineMandate :=
  mandate "MachineMandate Run Credential"
    ([{| label := "Credential identity";
         fields := [("vct", get data "vct"); ("jti", get data "jti");
                    ("iss", py_or (get data "iss") (get data "issuer_jwk_thumbprint"));
                    ("sub_agent_id", get data "sub_agent_id");
                    ("iat", py_or (get data "iat_utc") (get data "iat"));
                    ("exp", py_or (get data "exp_utc") (get data "exp"))] |};
      {| label := "Action seal"; fields := rows data ["action_hash"] |}]
     ++ scope_group (get_or data "scope" (JObj []))) data "".

(** One gate case of [_parse_mint_record]. *)
Definition case_group (c : json) : result MMFieldGroup :=
  match c with
  | JObj c =>
      Ok {| label := ("Gate case: " +:+ py_str (get_or c "case_id" (JStr "?")))%string;
            fields := rows c ["verdict"; "expected_verdict"; "match"; "L1_crypto"; "L2_attested"; "L3_endorser_role";
                              "L4_in_scope"; "reasons"] |}
  | _ => Raise AttributeError
  end.

Definition _parse_mint_record (data : object) : result MachineMandate :=
  let claims :=
    match get_or data "credential_claims" (JObj []) with
    | JObj cred =>
        {| label := "Credential claims"; fields := rows cred ["vct"; "jti"; "sub_agent_id"; "action_hash"; "iat_utc"; "exp_utc"] |}
        :: scope_group (get_or cred "scope" (JObj []))
    | _ => []
    end in
  let preimage :=
    match get_or data "credential_preimage" (JObj []) with
    | JObj preimage =>
        [{| label := "Preimage commitment";
            fields := rows preimage ["digest"; "digest_alg"; "preimage_length_bytes"; "invariant_across_presentations"] |}]
    | _ => []
    end in
  self_check ← (
    match get_or data "self_check" (JObj []) with
    | JObj self_check =>
        let cases := match get_or self_check "cases" (JArr []) with JArr cases => cases | _ => [] end in
        groups ← mapM case_group cases;
        Ok ({| label := "Self-check"; fields := rows self_check ["all_verdicts_as_expected"] |} :: groups)
    | _ => Ok []
    end);
  Ok (mandate "MachineMandate Mint Record"
    ({| label := "Record identity"; fields := rows data ["artifact"; "minted_at_utc"; "status"; "boundary"] |}
     :: claims ++ preimage ++ self_check) data "").

Definition parse_machine_mandate (data : json) : result MachineMandate :=
  match data with
  | JObj d =>
      let has_profile sub := match get_or d "eat_profile" (JStr "") with JStr eat => contains sub eat | _ => false end in
      if has_profile "eatf.eu/aep" then Ok (_parse_aep d)
      else if has_profile "veraison/ear" then _parse_ear d
      else if jmem d "credential_claims" && jmem d "credential_preimage" then _parse_mint_record d
      else if is_text (get_or d "vct" (JStr "")) MM_VCT then Ok (_parse_run_credential d)
      else if (match get_or d "action_hash" (JStr "") with JStr ah => String.prefix "sha256:" ah | _ => false end)
      then Ok (_parse_run_credential d)
      else Ok (mandate "MachineMandate" [] d "unrecognised MachineMandate sub-type; rendering raw fields")
  | _ => Ok (mandate "MachineMandate" [] [] "not a JSON object")
  end.

Definition detect_machine_mandate (data : json) : string :=
  if is_machine_mandate data then "machine-mandate" else "unknown".
End mandate.
