(* ===== verification/MandateProof.v ===== *)
(** * The MachineMandate parsers only arrange what the payload holds

    Every value they render occurs in the payload, and detection attributes a
    payload only by the owner's URI or by the exact pinned files. *)

From S2P Require Import Prelude PyRuntime Sha256 Utf8 Cbor CborInstance Json PyJson JsonProof MachineMandate.

(** [v] occurs in the value. *)
Inductive occurs (v : json) : json → Prop :=
| occurs_here : occurs v v
| occurs_member d k w : (k, w) ∈ d → occurs v w → occurs v (JObj d)
| occurs_element l w : w ∈ l → occurs v w → occurs v (JArr l).

(** A rendered value: one of the payload, or the default of an absent field. *)
Definition from_data (data : json) (v : json) : Prop := v = JNull ∨ v = JObj [] ∨ occurs v data.

Definition group_from (data : json) (g : MMFieldGroup) : Prop := Forall (fun kv => from_data data kv.2) (fields g).

Create HintDb mandate.

Lemma occurs_trans u v w : occurs u v → occurs v w → occurs u w.
Proof. intros Hu. induction 1; eauto using occurs. Qed.

Lemma jget_elem d k v : jget d k = Some v → (k, v) ∈ d.
Proof.
  induction d as [|[k' v'] d IH]; cbn; [done|]. case_bool_decide as E; [intros [= ->]; subst; left|right; auto].
Qed.

Lemma get_or_occurs d k v : get_or d k v = v ∨ occurs (get_or d k v) (JObj d).
Proof.
  unfold get_or. destruct (jget d k) as [w|] eqn:E; [right|by left].
  apply jget_elem in E. exact (occurs_member _ _ _ _ E (occurs_here _)).
Qed.

Lemma get_from d k : from_data (JObj d) (get d k).
Proof. unfold get, from_data. destruct (get_or_occurs d k JNull); auto. Qed.

Lemma object_from d k : from_data (JObj d) (get_or d k (JObj [])).
Proof. unfold from_data. destruct (get_or_occurs d k (JObj [])); auto. Qed.

Lemma from_up data v w : from_data v w → occurs v data → from_data data w.
Proof. intros [->|[->|Hw]] Hv; [by left|by right; left|right; right]. exact (occurs_trans _ _ _ Hw Hv). Qed.

Lemma group_up data v g : group_from v g → occurs v data → group_from data g.
Proof. intros Hg Hv. eapply Forall_impl; [exact Hg|]. intros kv Hkv. exact (from_up data v _ Hkv Hv). Qed.

Lemma rows_from d keys : Forall (fun kv => from_data (JObj d) kv.2) (rows d keys).
Proof. unfold rows. apply Forall_fmap, Forall_true. intros k. exact (get_from d k). Qed.

(** The groups of an object that occurs in the payload, or of an absent one. *)
Lemma groups_up d k v gs :
  get_or d k (JObj []) = JObj v → Forall (group_from (JObj v)) gs → (v = [] → Forall (group_from (JObj d)) gs) →
  Forall (group_from (JObj d)) gs.
Proof.
  intros E Hgs Hnil. destruct (get_or_occurs d k (JObj [])) as [Hd|Ho]; rewrite E in *; [injection Hd as ->; auto|].
  eapply Forall_impl; [exact Hgs|]. intros g Hg. exact (group_up _ _ _ Hg Ho).
Qed.

Lemma rows_absent data keys : Forall (fun kv => from_data data kv.2) (rows [] keys).
Proof. unfold rows. apply Forall_fmap, Forall_true. intros k. by left. Qed.

#[export] Hint Resolve get_from object_from rows_from rows_absent occurs_here : mandate.
#[export] Hint Constructors Forall : mandate.

Lemma rows_group d k v lbl keys :
  get_or d k (JObj []) = JObj v → group_from (JObj d) {| label := lbl; fields := rows v keys |}.
Proof.
  intros E. apply (Forall_singleton (group_from (JObj d))).
  apply (groups_up _ _ _ _ E); [|intros ->]; apply Forall_singleton; unfold group_from; cbn [fields]; auto with mandate.
Qed.

Lemma scope_from d : Forall (group_from (JObj d)) (scope_group (get_or d "scope" (JObj []))).
Proof.
  unfold scope_group. destruct (get_or d "scope" (JObj [])) as [| | | | | |scope] eqn:E; auto with mandate.
  apply Forall_singleton. by eapply rows_group.
Qed.

Lemma ok_eq {A} (x y : A) : @Ok exn _ x = Ok y → x = y.
Proof. by intros [= ->]. Qed.

Lemma mapM_nil_ok {A B} (f : A → result B) k : mapM f [] = Ok k → k = [].
Proof. intros Hk%mapM_ok. by inversion Hk. Qed.

Lemma mapM_groups {A} (f : A → result MMFieldGroup) (P : MMFieldGroup → Prop) l k :
  (∀ x g, x ∈ l → f x = Ok g → P g) → mapM f l = Ok k → Forall P k.
Proof.
  intros Hf Hm%mapM_ok. induction Hm as [|x g l k Hx _ IH]; constructor; [eapply Hf; [left|exact Hx]|].
  apply IH. intros y g' Hy. apply Hf. by right.
Qed.

Section mandate.
Context `{PyObjects} `{Sha256}.

Lemma or_from data v w : from_data data v → from_data data w → from_data data (py_or v w).
Proof. intros Hv Hw. unfold py_or. by destruct (json_truthy v). Qed.
#[local] Hint Resolve or_from : mandate.

(** Groups and rows one by one. *)
Ltac fields_from :=
  unfold group_from; cbn [fields]; first [apply rows_from | apply rows_absent | solve [repeat apply Forall_cons_2; cbn [snd]; auto with mandate]].

Lemma aep_from d : Forall (group_from (JObj d)) (field_groups (_parse_aep d)).
Proof. cbn [field_groups mandate _parse_aep]. repeat apply Forall_cons_2; fields_from. Qed.

Lemma run_credential_from d : Forall (group_from (JObj d)) (field_groups (_parse_run_credential d)).
Proof.
  cbn [field_groups mandate _parse_run_credential]. apply Forall_app_2; [|apply scope_from].
  repeat apply Forall_cons_2; fields_from.
Qed.

Lemma submodule_from name s g : submodule_group name s = Ok g → group_from s g.
Proof.
  unfold submodule_group. destruct s as [| | | | | |s]; try done. intros [= <-]. unfold group_from. cbn [fields].
  do 2 (apply Forall_cons_2; [apply get_from|]). apply Forall_app_2.
  all: pose proof (object_from s "ear.trustworthiness-vector"); pose proof (object_from s "ear.veraison.annotated-evidence").
  all: match goal with |- context [match ?v with _ => _ end] => destruct v end;
    first [apply Forall_nil_2 | by apply Forall_singleton].
Qed.

Lemma ear_from d m : _parse_ear d = Ok m → Forall (group_from (JObj d)) (field_groups m).
Proof.
  unfold _parse_ear. intros (groups & Hg & [= <-])%bind_ok. cbn [field_groups mandate].
  apply Forall_cons_2; [fields_from|].
  destruct (get_or d "submods" (JObj [])) as [| | | | | |s] eqn:E; try (apply mapM_nil_ok in Hg as ->; constructor).
  apply (groups_up _ _ _ _ E); [|intros ->; apply mapM_nil_ok in Hg as ->; constructor].
  revert Hg. apply mapM_groups. intros [name sub] g Hin Hs%submodule_from. eapply group_up; [exact Hs|].
  exact (occurs_member _ _ _ _ Hin (occurs_here _)).
Qed.

Lemma case_from c g : case_group c = Ok g → group_from c g.
Proof. unfold case_group. destruct c; try done. intros [= <-]. fields_from. Qed.

Lemma cases_from d groups :
  mapM case_group (match get_or d "cases" (JArr []) with JArr cases => cases | _ => [] end) = Ok groups →
  Forall (group_from (JObj d)) groups.
Proof.
  intros Hg. destruct (get_or_occurs d "cases" (JArr [])) as [E|Ho];
    destruct (get_or d "cases" (JArr [])) as [| | | | |l|]; try (apply mapM_nil_ok in Hg as ->; constructor); try done.
  - injection E as ->. apply mapM_nil_ok in Hg as ->. constructor.
  - revert Hg. apply mapM_groups. intros c g Hin Hc%case_from. eapply group_up; [exact Hc|].
    eapply occurs_trans; [|exact Ho]. exact (occurs_element _ _ _ Hin (occurs_here _)).
Qed.

Lemma claims_from d lbl keys :
  Forall (group_from (JObj d)) (match get_or d "credential_claims" (JObj []) with
    | JObj cred => {| label := lbl; fields := rows cred keys |} :: scope_group (get_or cred "scope" (JObj []))
    | _ => [] end).
Proof.
  destruct (get_or d "credential_claims" (JObj [])) as [| | | | | |cred] eqn:E; try constructor.
  - by eapply rows_group.
  - apply (groups_up _ _ _ _ E); [apply scope_from|intros ->]. apply Forall_singleton. fields_from.
Qed.

Lemma mint_record_from d m : _parse_mint_record d = Ok m → Forall (group_from (JObj d)) (field_groups m).
Proof.
  unfold _parse_mint_record. intros (groups & Hg & [= <-])%bind_ok. cbn [field_groups mandate].
  apply Forall_cons_2; [fields_from|]. repeat apply Forall_app_2.
  - apply claims_from.
  - destruct (get_or d "credential_preimage" (JObj [])) as [| | | | | |p] eqn:E; try constructor; [|constructor].
    by eapply rows_group.
  - destruct (get_or d "self_check" (JObj [])) as [| | | | | |sc] eqn:E; try (injection Hg as <-; constructor).
    apply bind_ok in Hg as (cases & Hc & [= <-]).
    apply (groups_up _ _ _ _ E); [apply Forall_cons_2; [fields_from|by apply cases_from]|].
    intros ->. apply mapM_nil_ok in Hc as ->. apply Forall_singleton. fields_from.
Qed.

(** The MachineMandate parsers only arrange what the payload holds: every
    value in every field group is a value that occurs in the payload, or the
    null or empty object that stands for an absent field, whichever of the
    payload shapes was recognised. *)
Theorem mandate_renders_payload data m :
  parse_machine_mandate data = Ok m → Forall (fun g => Forall (fun kv => from_data data kv.2) (fields g)) (field_groups m).
Proof.
  change (parse_machine_mandate data = Ok m → Forall (group_from data) (field_groups m)).
  destruct data as [| | | | | |d]; try (intros [= <-]; constructor). cbn [parse_machine_mandate].
  repeat match goal with |- (if ?b then _ else _) = _ → _ => destruct b end;
    first [apply ear_from | apply mint_record_from
          | intros <-%ok_eq; first [apply aep_from | apply run_credential_from | constructor]].
Qed.

(** A payload is attributed to the profile exactly when the owner's URI is
    its [vct], or the [vct] of its [credential_claims], or its canonical JSON
    has one of the three pinned digests; and the payload of a pinned digest is
    determined up to the order of members, or SHA-256 collides. *)
Theorem mandate_detection_exact d :
  (is_machine_mandate (JObj d) = true ↔
     jget d "vct" = Some (JStr MM_VCT) ∨
     (∃ cred, jget d "credential_claims" = Some (JObj cred) ∧ jget cred "vct" = Some (JStr MM_VCT)) ∨
     canonical_digest (JObj d) ∈ _MM_PINNED_CANONICAL_DIGESTS) ∧
  ∀ w, json_ok (JObj d) → json_ok w → canonical_digest (JObj d) = canonical_digest w →
    normal (JObj d) = normal w ∨ collision [json_dumps (JObj d); json_dumps w].
Proof.
  split.
  - assert (∀ x, is_text (get_or x "vct" (JStr "")) MM_VCT = true ↔ jget x "vct" = Some (JStr MM_VCT)) as Hvct.
    { intros x. unfold get_or. destruct (jget x "vct") as [[| | | |s| |]|]; cbn; try (by split; [|intros [=]]).
      rewrite bool_decide_eq_true. split; [by intros ->|by intros [= ->]]. }
    unfold is_machine_mandate. destruct (is_text _ _) eqn:Hv; [apply Hvct in Hv; by split; [left|]|].
    assert (jget d "vct" ≠ Some (JStr MM_VCT)) as Hn by (intros E; apply Hvct in E; congruence).
    unfold get at 1, get_or at 1. destruct (jget d "credential_claims") as [[| | | | | |cred]|] eqn:Hc; cbn.
    all: try (rewrite bool_decide_eq_true; split; [auto|intros [?|[(? & [=] & _)|?]]; [done|done]]).
    destruct (is_text (get_or cred "vct" (JStr "")) MM_VCT) eqn:Hi; [apply Hvct in Hi; split; [|done]; intros _; right; left; by exists cred|].
    rewrite bool_decide_eq_true. split; [auto|]. intros [?|[(? & [= <-] & E)|?]]; [done| |done]. apply Hvct in E. congruence.
  - unfold canonical_digest. intros w Hd Hw E%hex_inj.
    apply (sha256_eq [json_dumps (JObj d); json_dumps w]) in E as [E|]; [left; by apply json_dumps_inj|by right|set_solver..].
Qed.
End mandate.

Lemma mandate_renders_payload_witness : ∃ m,
  parse_machine_mandate (H := plain_objects) (JObj [("eat_profile", JStr "https://eatf.eu/aep/v1"); ("iss", JStr "a")]) = Ok m ∧
  Forall (fun g => Forall (fun kv => from_data (JObj [("eat_profile", JStr "https://eatf.eu/aep/v1"); ("iss", JStr "a")]) kv.2) (fields g))
    (field_groups m).
Proof.
  eexists. split; [vm_compute; reflexivity|].
  apply (mandate_renders_payload (H := plain_objects)). vm_compute. reflexivity.
Defined.

Lemma mandate_detection_exact_witness :
  normal (JObj [("vct", JStr MM_VCT)]) = normal (JObj [("vct", JStr MM_VCT)]) ∨
  collision (H := Toy.instance) [json_dumps (JObj [("vct", JStr MM_VCT)]); json_dumps (JObj [("vct", JStr MM_VCT)])].
Proof.
  apply (mandate_detection_exact (H0 := Toy.instance) [("vct", JStr MM_VCT)]); [vm_compute; auto|vm_compute; auto|reflexivity].
Defined.
