(* ===== verification/Aac.v ===== *)
(** * Capsule parsing and the digest graph: [hosted_profiles/aac.py]

    A capsule, or a bilateral binding of two, becomes a graph of digests with
    a privilege log.  The view is the object the parsers append to; it is
    passed along here as a record with the set [seen] of [_extract_refs]
    beside it. *)

From stdpp Require Import gmap strings.
From S2P Require Import Prelude PyRuntime Sha256 Utf8 Cbor Json PyJson MachineMandate.

Definition _KNOWN_TYPES : list string :=
  ["capsule"; "offer_terms"; "wicket_manifest"; "response"; "gate_checks"; "subject"; "bilateral_subject";
   "compute_attestation"; "agent_input"; "agent_output"].

Fixpoint all_hex (s : string) : bool :=
  match s with
  | EmptyString => true
  | String c s => (match hex_val c with Some _ => true | None => false end) && all_hex s
  end.

(** Text of 64 hexadecimal digits, in either case. *)
Definition _is_hex64 (s : json) : bool :=
  match s with JStr s => (String.length s =? 64)%nat && all_hex s | _ => false end.

(** The digest a value is, when it is one. *)
Definition hex64 (v : json) : option string :=
  match v with JStr s => if _is_hex64 v then Some s else None | _ => None end.

(** [digest[:8] + "…" + digest[-4:]] of a digest, which is ASCII. *)
Definition _short (digest : string) : string :=
  (String.substring 0 8 digest +:+ "…" +:+ String.substring (String.length digest - 4) 4 digest)%string.

Definition _unwrap (cap : json) : json :=
  match cap with
  | JObj d => match get d "capsule" with JObj inner => JObj inner | _ => cap end
  | _ => cap
  end.

(** ** Data model *)

(** A payload a node shows: the disclosed value, or a profile's rendering. *)
Inductive payload : Type := Revealed (v : json) | Rendered (m : MachineMandate).

Module GraphNode.
Record t := {
  id : string; node_type : string; digest : string; label : string; is_known_type : bool; is_withheld : bool;
  revealed_payload : option payload }.
End GraphNode.

Module GraphEdge.
Record t := { from_id : string; to_id : string; label : string; edge_type : string }.
End GraphEdge.

Module PrivilegeLogEntry.
Record t := {
  artifact_id : string; artifact_type : string; digest : string; is_withheld : bool; is_known_type : bool;
  match_ok : option bool; context : string }.
End PrivilegeLogEntry.

Module GraphView.
Record t := {
  profile : string; is_binding : bool; nodes : list GraphNode.t; edges : list GraphEdge.t;
  privilege_log : list PrivilegeLogEntry.t; raw_capsules : list json; unknown_types : list string;
  parse_error : option string }.
End GraphView.

(** [GraphView(profile, is_binding)] with its raw capsules and parse error. *)
Definition empty_view (profile : string) (is_binding : bool) (raw_capsules : list json) (parse_error : option string) : GraphView.t :=
  GraphView.Build_t profile is_binding [] [] [] raw_capsules [] parse_error.

(** [view.nodes.append(node)] and its like *)
Definition add_node (n : GraphNode.t) (v : GraphView.t) : GraphView.t :=
  let '(GraphView.Build_t profile b nodes edges log raw unknown error) := v in
  GraphView.Build_t profile b (nodes ++ [n]) edges log raw unknown error.
Definition add_edge (e : GraphEdge.t) (v : GraphView.t) : GraphView.t :=
  let '(GraphView.Build_t profile b nodes edges log raw unknown error) := v in
  GraphView.Build_t profile b nodes (edges ++ [e]) log raw unknown error.
Definition add_entry (e : PrivilegeLogEntry.t) (v : GraphView.t) : GraphView.t :=
  let '(GraphView.Build_t profile b nodes edges log raw unknown error) := v in
  GraphView.Build_t profile b nodes edges (log ++ [e]) raw unknown error.
Definition add_unknown (ty : string) (v : GraphView.t) : GraphView.t :=
  let '(GraphView.Build_t profile b nodes edges log raw unknown error) := v in
  GraphView.Build_t profile b nodes edges log raw (unknown ++ [ty]) error.

(** A node of a capsule: digest only, known type. *)
Definition capsule_node (digest label : string) : GraphNode.t :=
  GraphNode.Build_t digest "capsule" digest (label +:+ " " +:+ _short digest)%string true true None.

Definition edge (from_id to_id ty : string) : GraphEdge.t := GraphEdge.Build_t from_id to_id ty ty.

(** ** References of one capsule *)

Record refs := { view : GraphView.t; seen : gset string }.

Definition node_ids (v : GraphView.t) : list string := GraphNode.id <$> GraphView.nodes v.

(** [_add]: whether the digest was new, and the state after. *)
Definition _add (digest node_type label context : string) (st : refs) : bool * refs :=
  if bool_decide (digest ∈ seen st) then (false, st)
  else
    let is_known := bool_decide (node_type ∈ _KNOWN_TYPES) in
    let v := view st in
    let v := if negb is_known && negb (bool_decide (node_type ∈ GraphView.unknown_types v)) then add_unknown node_type v else v in
    let v := add_node (GraphNode.Build_t digest node_type digest (label +:+ " " +:+ _short digest)%string is_known true None) v in
    let v := add_entry (PrivilegeLogEntry.Build_t label node_type digest true is_known None context) v in
    (true, {| view := v; seen := {[ digest ]} ∪ seen st |}).

(** [if _is_hex64(d): if _add(...): view.edges.append(...)] *)
Definition add_reference (capsule_id : string) (d : json) (node_type label context edge_type : string) (st : refs) : refs :=
  match hex64 d with
  | None => st
  | Some d =>
      let '(new, st) := _add d node_type label context st in
      if new then {| view := add_edge (edge capsule_id d edge_type) (view st); seen := seen st |} else st
  end.

Section parser.
Context `{PyObjects} `{Sha256}.

(** Text is hashed as it is, any other value by its canonical JSON. *)
Definition preimage (v : json) : result bytes := match v with JStr s => py_encode s | _ => Ok (json_dumps v) end.

(** [v is not None] *)
Definition not_none (v : json) : bool := match v with JNull => false | _ => true end.

(** A value on which [get] is called: only a dict has it. *)
Definition as_dict (v : json) : result object := match v with JObj d => Ok d | _ => Raise AttributeError end.
(** [v or {}] *)
Definition object_or_empty (v : json) : result object := as_dict (py_or v (JObj [])).

(** The prior capsule. *)
Definition extract_chain (cap : object) (capsule_id : string) (st : refs) : result refs :=
  chain ← object_or_empty (get cap "chain");
  Ok (match hex64 (get_or chain "parent_capsule_id" (JStr "")) with
      | Some prior_id =>
          if bool_decide (prior_id ∈ seen st) then st
          else {| view := add_edge (edge capsule_id prior_id "chains_to") (add_node (capsule_node prior_id "prior capsule") (view st));
                  seen := {[ prior_id ]} ∪ seen st |}
      | None => st
      end).

(** One turn of the loop over the agent's input and output. *)
Definition extract_agent (ca disclosures : object) (capsule_id pfx : string) (st : refs) (field : string * string * string) : result refs :=
  let '(key, ty, lbl) := field in
  match hex64 (get_or ca key (JStr "")) with
  | None => Ok st
  | Some digest =>
      if bool_decide (digest ∈ seen st) then Ok st
      else
        let pre := get disclosures ty in
        let revealed := not_none pre in
        matched ← (if revealed then b ← preimage pre; Ok (Some (bool_decide (hex (sha256 b) = digest))) else Ok None);
        let ctx := (if revealed then "payload carried in fragment; recomputed against committed digest"
                    else pfx +:+ "compute_attestation — payload not carried in the record")%string in
        let v := add_node (GraphNode.Build_t digest ty digest (lbl +:+ " " +:+ _short digest)%string true (negb revealed)
                             (if revealed then Some (Revealed pre) else None)) (view st) in
        let v := add_entry (PrivilegeLogEntry.Build_t lbl ty digest (negb revealed) true matched ctx) v in
        Ok {| view := add_edge (edge capsule_id digest "attests_over") v; seen := {[ digest ]} ∪ seen st |}
  end.

(** The loop over the constraints. *)
Fixpoint extract_constraints (capsule_id pfx : string) (constraints : list json) (st : refs) : result refs :=
  match constraints with
  | [] => Ok st
  | c :: constraints =>
      ev ← py_get c "evidence_digest" (JStr "");
      cid ← py_get c "id" (JStr "constraint");
      extract_constraints capsule_id pfx constraints
        (add_reference capsule_id ev "wicket_manifest" ("manifest [" +:+ py_str cid +:+ "]")
           (pfx +:+ "constraints[" +:+ py_str cid +:+ "].evidence_digest") "commits_to" st)
  end.

Definition _extract_refs (v : GraphView.t) (cap : object) (capsule_id prefix : string) (disclosures : option object) :
    result GraphView.t :=
  let disclosures := match disclosures with Some d => d | None => [] end in
  let pfx := (if bool_decide (prefix = "") then "" else prefix +:+ ".")%string in
  let st := {| view := v; seen := list_to_set (node_ids v) |} in
  st ← extract_chain cap capsule_id st;
  ma ← object_or_empty (get cap "model_attestation");
  ca ← object_or_empty (get ma "compute_attestation");
  let st := add_reference capsule_id (get_or ca "subject_digest" (JStr "")) "subject" "subject"
              (pfx +:+ "compute_attestation.subject_digest")%string "attests_over" st in
  st ← extract_agent ca disclosures capsule_id pfx st ("agent_input_digest", "agent_input", "agent input");
  st ← extract_agent ca disclosures capsule_id pfx st ("agent_output_digest", "agent_output", "agent output");
  effect ← object_or_empty (get cap "effect");
  let st := add_reference capsule_id (get_or effect "response_digest" (JStr "")) "response" "response"
              (pfx +:+ "effect.response_digest")%string "effect_response" st in
  constraints ← py_tuple (py_or (get cap "constraints") (JArr []));
  st ← extract_constraints capsule_id pfx constraints st;
  Ok (view st).

(** ** Capsules and bindings *)

Definition _parse_single (cap : object) (disclosures : option object) : result GraphView.t :=
  match hex64 (get_or cap "capsule_id" (JStr "")) with
  | None =>
      Ok (empty_view "aac" false [JObj cap]
            (Some ("capsule_id is not a 64-hex digest: " +:+ json_repr (get_or cap "capsule_id" (JStr "")))%string))
  | Some capsule_id =>
      _extract_refs (add_node (capsule_node capsule_id "capsule") (empty_view "aac" false [JObj cap] None)) cap capsule_id "" disclosures
  end.

(** The sealed terms of a binding. *)
Definition add_terms (buyer_id seller_id : option string) (sealed_hash : string) (terms : json) (v : GraphView.t) : GraphView.t :=
  let revealed := not_none terms in
  let match_ok := if revealed then Some (bool_decide (canonical_digest terms = sealed_hash)) else None in
  let v := add_node (GraphNode.Build_t sealed_hash "offer_terms" sealed_hash ("offer terms " +:+ _short sealed_hash)%string
                       true (negb revealed) (if revealed then Some (Revealed terms) else None)) v in
  let v := add_entry (PrivilegeLogEntry.Build_t "sealed_terms_hash" "offer_terms" sealed_hash (negb revealed) true match_ok
                        "binding.sealed_terms_hash") v in
  let v := match buyer_id with Some buyer_id => add_edge (edge buyer_id sealed_hash "attests_over") v | None => v end in
  match seller_id with Some seller_id => add_edge (edge seller_id sealed_hash "attests_over") v | None => v end.

(** [x if isinstance(x, dict) else None] *)
Definition dict_or_none (v : json) : option object := match v with JObj d => Some d | _ => None end.

Definition _parse_binding (data : object) : result GraphView.t :=
  let buyer := py_or (get data "buyer_capsule") (JObj []) in
  let seller := py_or (get data "seller_capsule") (JObj []) in
  buyer_cap ← as_dict buyer;
  seller_cap ← as_dict seller;
  let v := empty_view "aac" true (filter (fun c => json_truthy c = true) [buyer; seller]) None in
  let buyer_id := hex64 (get_or buyer_cap "capsule_id" (JStr "")) in
  let seller_id := hex64 (get_or seller_cap "capsule_id" (JStr "")) in
  let v := match buyer_id with Some id => add_node (capsule_node id "buyer capsule") v | None => v end in
  let v := match seller_id with Some id => add_node (capsule_node id "seller capsule") v | None => v end in
  let v := match hex64 (get_or data "sealed_terms_hash" (JStr "")) with
           | Some sealed_hash => add_terms buyer_id seller_id sealed_hash (get data "terms") v
           | None => v
           end in
  let v := match buyer_id, seller_id with
           | Some buyer_id, Some seller_id => add_edge (edge seller_id buyer_id "chains_to") v
           | _, _ => v
           end in
  let envelope_disclosures := match get data "disclosures" with JObj d => d | _ => [] end in
  v ← (match buyer_id with
       | Some id => _extract_refs v buyer_cap id "buyer" (dict_or_none (get envelope_disclosures "buyer"))
       | None => Ok v
       end);
  match seller_id with
  | Some id => _extract_refs v seller_cap id "seller" (dict_or_none (get envelope_disclosures "seller"))
  | None => Ok v
  end.

Definition parse_capsule (data : json) : result GraphView.t :=
  match data with
  | JObj d =>
      if jmem d "buyer_capsule" && jmem d "seller_capsule" then _parse_binding d
      else
        match get d "capsule" with
        | JObj cap => _parse_single cap (dict_or_none (get d "disclosures"))
        | _ =>
            if jmem d "capsule_id" then _parse_single d None
            else Ok (empty_view "aac" false [] (Some "not an AAC capsule or binding"%string))
        end
  | _ => Ok (empty_view "aac" false [] (Some "not a JSON object"%string))
  end.
End parser.
