(* ===== verification/AacProof.v ===== *)
(** * The capsule graph is well formed

    What every view the capsule parser returns satisfies, by an invariant that
    each append of the parsers preserves, and what a matching disclosure says
    about the payload. *)

From stdpp Require Import gmap strings.
From S2P Require Import Prelude PyRuntime Sha256 Utf8 Cbor CborInstance Json PyJson JsonProof MachineMandate Aac.

(** A capsule digest: 64 hexadecimal digits. *)
Definition is_digest (d : string) : Prop := _is_hex64 (JStr d) = true.

Lemma hex64_Some v d : hex64 v = Some d → v = JStr d ∧ is_digest d.
Proof. unfold hex64. destruct v; try done. case_match eqn:E; [|done]. by intros [= <-]. Qed.

#[export] Instance is_text_dec v : Decision (∃ s, v = JStr s).
Proof. destruct v; first [left; by eexists | right; by intros [? ?]]. Defined.

Section invariant.
Context `{PyObjects} `{Sha256}.

(** The octets an entry's digest commits to: sealed terms by their canonical
    JSON even when they are text. *)
Definition committed (e : PrivilegeLogEntry.t) (x : json) : bytes :=
  if bool_decide (PrivilegeLogEntry.artifact_type e = "offer_terms") then json_dumps x
  else match x with JStr s => of_string s | _ => json_dumps x end.

(** The verdict on a revealed payload. *)
Definition verdict (e : PrivilegeLogEntry.t) (x : json) : bool :=
  bool_decide (hex (sha256 (committed e x)) = PrivilegeLogEntry.digest e).

Definition node_ok (n : GraphNode.t) : Prop :=
  is_digest (GraphNode.id n) ∧ GraphNode.digest n = GraphNode.id n ∧
  (GraphNode.is_withheld n = true ↔ GraphNode.revealed_payload n = None).

(** The entry's node is there; it is withheld and unjudged, or revealed and
    judged by its own digest. *)
Definition entry_ok (nodes : list GraphNode.t) (e : PrivilegeLogEntry.t) : Prop :=
  (PrivilegeLogEntry.is_withheld e = true ∧ PrivilegeLogEntry.match_ok e = None ∧
   PrivilegeLogEntry.digest e ∈ GraphNode.id <$> nodes) ∨
  (PrivilegeLogEntry.is_withheld e = false ∧ ∃ n x, n ∈ nodes ∧ GraphNode.id n = PrivilegeLogEntry.digest e ∧
   GraphNode.revealed_payload n = Some (Revealed x) ∧ PrivilegeLogEntry.match_ok e = Some (verdict e x)).

Definition edge_ok (nodes : list GraphNode.t) (e : GraphEdge.t) : Prop :=
  GraphEdge.from_id e ∈ GraphNode.id <$> nodes ∧ GraphEdge.to_id e ∈ GraphNode.id <$> nodes.

(** A payload is shown only together with the verdict on it. *)
Definition judged (log : list PrivilegeLogEntry.t) (n : GraphNode.t) : Prop :=
  ∀ x, GraphNode.revealed_payload n = Some x →
    ∃ e y, x = Revealed y ∧ e ∈ log ∧ PrivilegeLogEntry.digest e = GraphNode.id n ∧ PrivilegeLogEntry.match_ok e = Some (verdict e y).

Record well_formed (v : GraphView.t) : Prop := {
  wf_nodes : Forall node_ok (GraphView.nodes v);
  wf_edges : Forall (edge_ok (GraphView.nodes v)) (GraphView.edges v);
  wf_log : Forall (entry_ok (GraphView.nodes v)) (GraphView.privilege_log v);
  wf_judged : Forall (judged (GraphView.privilege_log v)) (GraphView.nodes v) }.

Lemma entry_ok_mono nodes nodes' e : nodes ⊆ nodes' → entry_ok nodes e → entry_ok nodes' e.
Proof.
  intros Hs [(? & ? & Hin)|(? & n & x & Hn & ?)]; [left|right].
  - split_and!; [done|done|]. apply list_elem_of_fmap in Hin as (n & -> & Hn). apply list_elem_of_fmap_2. auto.
  - split; [done|]. exists n, x. auto.
Qed.

Lemma edge_ok_mono nodes nodes' e : nodes ⊆ nodes' → edge_ok nodes e → edge_ok nodes' e.
Proof.
  intros Hs [(n & E & Hn)%list_elem_of_fmap (m & F & Hm)%list_elem_of_fmap]. unfold edge_ok. rewrite E, F.
  split; apply list_elem_of_fmap_2; auto.
Qed.

Lemma judged_mono log log' n : log ⊆ log' → judged log n → judged log' n.
Proof. intros Hs Hj x Hx. destruct (Hj x Hx) as (e & y & ? & ? & ?). exists e, y. auto. Qed.

Lemma wf_empty profile b raw err : well_formed (empty_view profile b raw err).
Proof. split; constructor. Qed.

Lemma sub_app_l {A} (l k : list A) : l ⊆ l ++ k.
Proof. intros x. rewrite elem_of_app. auto. Qed.
#[local] Hint Resolve sub_app_l : core.

(** ** Appends *)

Lemma wf_add_edge v a b ty : well_formed v → a ∈ node_ids v → b ∈ node_ids v → well_formed (add_edge (edge a b ty) v).
Proof.
  destruct v. intros [Hn He Hl Hj] Ha Hb. split; cbn in *; [done| |done|done].
  apply Forall_app. split; [done|]. by apply Forall_singleton.
Qed.

(** A withheld node without an entry. *)
Lemma wf_add_node v n : well_formed v → node_ok n → GraphNode.revealed_payload n = None → well_formed (add_node n v).
Proof.
  destruct v. intros [Hn He Hl Hj] Hok Hr. split; cbn in *.
  - apply Forall_app. split; [done|]. by apply Forall_singleton.
  - eapply Forall_impl; [exact He|]. intros e. apply edge_ok_mono; auto.
  - eapply Forall_impl; [exact Hl|]. intros e. apply entry_ok_mono; auto.
  - apply Forall_app. split; [done|]. apply Forall_singleton. intros x Hx. congruence.
Qed.

Lemma wf_add_unknown v ty : well_formed v → well_formed (add_unknown ty v).
Proof. destruct v. intros [Hn He Hl Hj]. by split. Qed.

(** A node and its entry. *)
Lemma wf_add_logged v n e :
  well_formed v → node_ok n → PrivilegeLogEntry.digest e = GraphNode.id n →
  (GraphNode.revealed_payload n = None ∧ PrivilegeLogEntry.is_withheld e = true ∧ PrivilegeLogEntry.match_ok e = None ∨
   ∃ x, GraphNode.revealed_payload n = Some (Revealed x) ∧ PrivilegeLogEntry.is_withheld e = false ∧
        PrivilegeLogEntry.match_ok e = Some (verdict e x)) →
  well_formed (add_entry e (add_node n v)).
Proof.
  destruct v as [? ? ns es log ? ? ?]. intros [Hn He Hl Hj] Hok Hd Hcase. cbn in *.
  assert (n ∈ ns ++ [n]) as Hin by (apply elem_of_app; right; by apply list_elem_of_singleton).
  assert (e ∈ log ++ [e]) as Hle by (apply elem_of_app; right; by apply list_elem_of_singleton).
  split; cbn.
  - apply Forall_app. split; [done|]. by apply Forall_singleton.
  - eapply Forall_impl; [exact He|]. intros x. apply edge_ok_mono; auto.
  - apply Forall_app. split; [eapply Forall_impl; [exact Hl|]; intros x; apply entry_ok_mono; auto|].
    apply Forall_singleton. destruct Hcase as [(Hp & Hw & Hm)|(x & Hp & Hw & Hm)]; [left|right].
    + split_and!; [done|done|]. rewrite Hd. by apply list_elem_of_fmap_2.
    + split; [done|]. by exists n, x.
  - apply Forall_app. split; [eapply Forall_impl; [exact Hj|]; intros x; apply judged_mono; auto|].
    apply Forall_singleton. intros y Hy. destruct Hcase as [(Hp & _)|(x & Hp & Hw & Hm)]; [congruence|].
    rewrite Hp in Hy. injection Hy as <-. by exists e, x.
Qed.

Lemma node_ids_add_node n v : node_ids (add_node n v) = node_ids v ++ [GraphNode.id n].
Proof. destruct v. unfold node_ids. cbn. by rewrite fmap_app. Qed.
Lemma node_ids_add_edge e v : node_ids (add_edge e v) = node_ids v.
Proof. by destruct v. Qed.
Lemma node_ids_add_entry e v : node_ids (add_entry e v) = node_ids v.
Proof. by destruct v. Qed.
Lemma node_ids_add_unknown ty v : node_ids (add_unknown ty v) = node_ids v.
Proof. by destruct v. Qed.

(** ** The extraction of references *)

(** The state of [_extract_refs]: [seen] is the set of node ids, the nodes
    [base] that were there are kept, and no id comes twice if none did. *)
Record refs_ok (base : list string) (unique : Prop) (st : refs) : Prop := {
  refs_wf : well_formed (view st);
  refs_base : base ⊆ node_ids (view st);
  refs_seen : ∀ d, d ∈ seen st ↔ d ∈ node_ids (view st);
  refs_unique : unique → NoDup (node_ids (view st)) }.

Lemma refs_append base unique st v d :
  refs_ok base unique st → well_formed v → node_ids v = node_ids (view st) ++ [d] → d ∉ seen st →
  refs_ok base unique {| view := v; seen := {[ d ]} ∪ seen st |}.
Proof.
  intros [Hwf Hb Hs Hu] Hv Hids Hd. split; cbn; [done| | |]; rewrite Hids.
  - intros x Hx. apply elem_of_app. auto.
  - intros x. rewrite elem_of_union, elem_of_singleton, elem_of_app, list_elem_of_singleton, Hs. tauto.
  - intros Hun. apply NoDup_app. split_and!; [auto| |apply NoDup_singleton].
    intros x Hx ->%list_elem_of_singleton. apply Hd, Hs, Hx.
Qed.

Lemma refs_edge base unique st a b ty :
  refs_ok base unique st → a ∈ base → b ∈ node_ids (view st) →
  refs_ok base unique {| view := add_edge (edge a b ty) (view st); seen := seen st |}.
Proof.
  intros [Hwf Hb Hs Hu] Ha Hbn. split; cbn; rewrite ?node_ids_add_edge; [|done..].
  apply wf_add_edge; auto.
Qed.

Lemma capsule_node_ok d lbl : is_digest d → node_ok (capsule_node d lbl).
Proof. intros Hd. by split_and!. Qed.

Lemma extract_chain_ok base unique cap cid st st' :
  cid ∈ base → refs_ok base unique st → extract_chain cap cid st = Ok st' → refs_ok base unique st'.
Proof.
  intros Hc Hst. unfold extract_chain. intros (chain & _ & [= <-])%bind_ok.
  destruct (hex64 _) as [d|] eqn:E; [|done]. apply hex64_Some in E as [_ Hd]. case_bool_decide as Hin; [done|].
  pose proof Hst as [Hwf Hb _ _].
  assert (refs_ok base unique {| view := add_node (capsule_node d "prior capsule") (view st); seen := {[ d ]} ∪ seen st |}) as Hst'.
  { apply (refs_append base unique st); [done| |by rewrite node_ids_add_node|done].
    apply wf_add_node; [done|by apply capsule_node_ok|done]. }
  apply (refs_edge _ _ _ cid d "chains_to" Hst' Hc). cbn. rewrite node_ids_add_node. apply elem_of_app. right.
  by apply list_elem_of_singleton.
Qed.

Lemma add_ok base unique st d ty lbl ctx :
  refs_ok base unique st → is_digest d →
  refs_ok base unique (_add d ty lbl ctx st).2 ∧ ((_add d ty lbl ctx st).1 = true → d ∈ node_ids (view (_add d ty lbl ctx st).2)).
Proof.
  intros Hst Hd. unfold _add. case_bool_decide as Hin; [done|]. cbn [fst snd view]. 
  match goal with |- context [if ?b then add_unknown ty ?w else ?w] => set (v := if b then add_unknown ty w else w) end.
  pose proof Hst as [Hwf _ _ _].
  assert (well_formed v ∧ node_ids v = node_ids (view st)) as [Hv Hids].
  { unfold v. case_match; [|done]. split; [by apply wf_add_unknown|apply node_ids_add_unknown]. }
  split; [|intros _; rewrite node_ids_add_entry, node_ids_add_node; apply elem_of_app; right; by apply list_elem_of_singleton].
  apply (refs_append base unique st); [done| |by rewrite node_ids_add_entry, node_ids_add_node, Hids|done].
  apply wf_add_logged; [done|by split_and!|done|by left].
Qed.

Lemma add_reference_ok base unique st cid d ty lbl ctx ety :
  cid ∈ base → refs_ok base unique st → refs_ok base unique (add_reference cid d ty lbl ctx ety st).
Proof.
  intros Hc Hst. unfold add_reference. destruct (hex64 d) as [x|] eqn:E; [|done]. apply hex64_Some in E as [_ Hx].
  destruct (add_ok base unique st x ty lbl ctx Hst Hx) as [Hst' Hin]. destruct (_add x ty lbl ctx st) as [[] st']; [|done].
  apply refs_edge; auto.
Qed.

Lemma preimage_committed e x b :
  PrivilegeLogEntry.artifact_type e ≠ "offer_terms" → preimage x = Ok b → b = committed e x.
Proof.
  intros He. unfold preimage, committed, py_encode. rewrite bool_decide_eq_false_2 by done.
  destruct x; try (by intros [= <-]). by destruct (utf8_valid _); [intros [= <-]|].
Qed.

Lemma extract_agent_ok base unique ca disclosures cid pfx st field st' :
  cid ∈ base → field.1.2 ≠ "offer_terms" → refs_ok base unique st →
  extract_agent ca disclosures cid pfx st field = Ok st' → refs_ok base unique st'.
Proof.
  destruct field as [[key ty] lbl]. intros Hc Hty Hst. unfold extract_agent.
  destruct (hex64 _) as [d|] eqn:E; [|by intros [= <-]]. apply hex64_Some in E as [_ Hd].
  case_bool_decide as Hin; [by intros [= <-]|]. cbv zeta. intros (matched & Hm & Hr)%bind_ok. injection Hr as <-.
  set (v := add_entry _ _). pose proof Hst as [Hwf _ _ _].
  assert (well_formed v) as Hv.
  { apply wf_add_logged; [done| | |].
    - split_and!; [done|done|]. cbn. by destruct (not_none _).
    - done.
    - cbn. destruct (not_none _); [right|left; by injection Hm as <-]. exists (get disclosures ty). split_and!; [done..|].
      apply bind_ok in Hm as (b & Hb & [= <-]). unfold verdict. cbn. do 2 f_equal.
      by rewrite (preimage_committed (PrivilegeLogEntry.Build_t lbl ty d false true None "") _ _ Hty Hb). }
  assert (node_ids v = node_ids (view st) ++ [d]) as Hids by (unfold v; by rewrite node_ids_add_entry, node_ids_add_node).
  pose proof (refs_append base unique st v d Hst Hv Hids Hin) as Hst'.
  apply (refs_edge _ _ _ cid d "attests_over" Hst' Hc). cbn. rewrite Hids. apply elem_of_app. right. by apply list_elem_of_singleton.
Qed.

Lemma extract_constraints_ok base unique cid pfx l st st' :
  cid ∈ base → refs_ok base unique st → extract_constraints cid pfx l st = Ok st' → refs_ok base unique st'.
Proof.
  intros Hc. revert st. induction l as [|c l IH]; intros st Hst; cbn [extract_constraints]; [by intros [= <-]|].
  intros (ev & _ & (i & _ & Hr)%bind_ok)%bind_ok. eapply IH; [|exact Hr]. by apply add_reference_ok.
Qed.

(** [_extract_refs] keeps a view well formed and the nodes it had. *)
Lemma extract_refs_ok v cap cid prefix disclosures v' :
  well_formed v → cid ∈ node_ids v → _extract_refs v cap cid prefix disclosures = Ok v' →
  well_formed v' ∧ node_ids v ⊆ node_ids v' ∧ (NoDup (node_ids v) → NoDup (node_ids v')).
Proof.
  intros Hwf Hc. unfold _extract_refs. cbv zeta. set (st0 := {| view := v; seen := _ |}).
  assert (refs_ok (node_ids v) (NoDup (node_ids v)) st0) as H0'.
  { split; cbn; [done|done| |done]. intros d. apply elem_of_list_to_set. }
  intros (st1 & H1 & Hr)%bind_ok. apply (extract_chain_ok _ _ _ _ _ _ Hc H0') in H1.
  apply bind_ok in Hr as (ma & _ & Hr). apply bind_ok in Hr as (ca & _ & Hr).
  apply bind_ok in Hr as (sta & Ha & Hr). apply bind_ok in Hr as (stb & Hb & Hr). apply bind_ok in Hr as (effect & _ & Hr).
  apply bind_ok in Hr as (constraints & _ & Hr). apply bind_ok in Hr as (st2 & H2 & [= <-]).
  apply extract_constraints_ok with (base := node_ids v) (unique := NoDup (node_ids v)) in H2 as [? ? _ ?]; [done|done|].
  apply add_reference_ok; [done|]. eapply extract_agent_ok; [done| | |exact Hb]; [done|].
  eapply extract_agent_ok; [done| | |exact Ha]; [done|]. by apply add_reference_ok.
Qed.

(** ** Capsules and bindings *)

Lemma wf_capsule v d lbl : well_formed v → is_digest d → well_formed (add_node (capsule_node d lbl) v).
Proof. intros Hv Hd. apply wf_add_node; [done|by apply capsule_node_ok|done]. Qed.

Lemma add_terms_ok buyer seller d terms v :
  well_formed v → is_digest d → (∀ b, buyer = Some b → b ∈ node_ids v) → (∀ s, seller = Some s → s ∈ node_ids v) →
  well_formed (add_terms buyer seller d terms v) ∧ node_ids v ⊆ node_ids (add_terms buyer seller d terms v).
Proof.
  intros Hv Hd Hb Hs. unfold add_terms. set (v1 := add_entry _ _).
  assert (well_formed v1) as H1.
  { apply wf_add_logged; [done| |done|].
    - split_and!; [done|done|]. cbn. by destruct (not_none terms).
    - cbn. destruct (not_none terms); [right|by left]. exists terms. by split_and!. }
  assert (node_ids v1 = node_ids v ++ [d]) as Hids by (unfold v1; by rewrite node_ids_add_entry, node_ids_add_node).
  assert (∀ x, x ∈ node_ids v ++ [d] → x ∈ node_ids v1) as Hin by (by rewrite Hids).
  cbv zeta. destruct buyer as [b|], seller as [s|]; rewrite ?node_ids_add_edge, ?Hids; (split; [|auto]);
    repeat (apply wf_add_edge; rewrite ?node_ids_add_edge); try done; apply Hin, elem_of_app;
    first [left; by eauto | right; by apply list_elem_of_singleton].
Qed.

Lemma sub_trans {A} (l k m : list A) : l ⊆ k → k ⊆ m → l ⊆ m.
Proof. intros Hlk Hkm x Hx. auto. Qed.

Lemma parse_single_ok cap disclosures v :
  _parse_single cap disclosures = Ok v → well_formed v ∧ (GraphView.parse_error v = None → node_ids v ≠ []) ∧ NoDup (node_ids v).
Proof.
  unfold _parse_single. destruct (hex64 _) as [d|] eqn:E; [|intros [= <-]; split_and!; [apply wf_empty|done|constructor]].
  apply hex64_Some in E as [_ Hd]. intros Hv. apply extract_refs_ok in Hv as (Hwf & Hsub & Hu).
  - split_and!; [done| |apply Hu, NoDup_singleton]. intros _ Hn. rewrite Hn in Hsub. by destruct (not_elem_of_nil d (Hsub d (proj2 (list_elem_of_singleton d d) eq_refl))).
  - apply wf_capsule; [apply wf_empty|done].
  - by apply list_elem_of_singleton.
Qed.

(** The nodes a binding starts from. *)
Lemma party_ok v party lbl v' :
  v' = (match party with Some d => add_node (capsule_node d lbl) v | None => v end) →
  well_formed v → (∀ d, party = Some d → is_digest d) →
  well_formed v' ∧ node_ids v ⊆ node_ids v' ∧ ∀ d, party = Some d → d ∈ node_ids v'.
Proof.
  intros -> Hv Hd. destruct party as [d|]; [|by split_and!]. rewrite node_ids_add_node.
  split_and!; [by apply wf_capsule; auto|auto|]. intros x [= <-]. apply elem_of_app. right. by apply list_elem_of_singleton.
Qed.

Lemma parse_binding_ok data v : _parse_binding data = Ok v → well_formed v.
Proof.
  unfold _parse_binding. intros (bc & _ & Hr)%bind_ok. apply bind_ok in Hr as (sc & _ & Hr).
  set (buyer := hex64 (get_or bc _ _)) in Hr. set (seller := hex64 (get_or sc _ _)) in Hr.
  assert (∀ d, buyer = Some d → is_digest d) as Hb by (by intros d [_ ?]%hex64_Some).
  assert (∀ d, seller = Some d → is_digest d) as Hs by (by intros d [_ ?]%hex64_Some).
  clearbody buyer seller. cbv zeta in Hr. set (v0 := empty_view _ _ _ _) in Hr.
  match type of Hr with context [match seller with Some id => add_node (capsule_node id "seller capsule") ?w | None => ?w end] =>
    set (v1 := w) in Hr end.
  destruct (party_ok v0 buyer "buyer capsule" v1 eq_refl ltac:(apply wf_empty) Hb) as (W1 & _ & B1).
  set (v2 := match seller with Some id => add_node (capsule_node id "seller capsule") v1 | None => v1 end) in Hr.
  destruct (party_ok v1 seller "seller capsule" v2 eq_refl W1 Hs) as (W2 & S2 & A2). clearbody v1 v2.
  assert (∀ d, buyer = Some d → d ∈ node_ids v2) as B2 by auto.
  apply bind_ok in Hr as (v5 & H5 & H6).
  match type of H5 with context [add_edge _ ?w] => set (v3 := w) in H5 end.
  assert (well_formed v3 ∧ node_ids v2 ⊆ node_ids v3) as [W3 S3].
  { unfold v3. destruct (hex64 _) as [d|] eqn:E; [|by split_and!]. apply hex64_Some in E as [_ Hd]. by apply add_terms_ok. }
  match type of H5 with context [_extract_refs ?w] => set (v4 := w) in H5 end.
  assert (well_formed v4 ∧ node_ids v4 = node_ids v3) as [W4 S4].
  { unfold v4. destruct buyer as [b|], seller as [s|]; try (by split_and!). rewrite node_ids_add_edge. split; [|done]. apply wf_add_edge; auto. }
  assert (well_formed v5 ∧ node_ids v4 ⊆ node_ids v5) as [W5 S5].
  { destruct buyer as [b|]; [|injection H5 as <-; by split_and!]. apply extract_refs_ok in H5 as (? & ? & _); [done|done|].
    rewrite S4. auto. }
  destruct seller as [s|]; [|by injection H6 as <-]. apply extract_refs_ok in H6 as (? & _); [done|done|].
  apply S5. rewrite S4. auto.
Qed.

(** A binding of two capsules. *)
Definition is_pair (data : json) : bool :=
  match data with JObj d => jmem d "buyer_capsule" && jmem d "seller_capsule" | _ => false end.

(** C19: every view the capsule parser returns is well formed: node ids are
    64-digit digests, edges join nodes that are there, each entry of the
    privilege log has its node, a withheld entry carries no verdict, and a
    payload is shown only with a logged verdict that is exactly whether its
    digest, recomputed, is the committed one; unless it is a binding of two
    capsules, no digest has two nodes. *)
Theorem parse_capsule_well_formed data v :
  parse_capsule data = Ok v → well_formed v ∧ (is_pair data = false → NoDup (node_ids v)).
Proof.
  destruct data as [| | | | | |d]; try (intros [= <-]; split; [apply wf_empty|intros _; constructor]).
  cbn [parse_capsule is_pair]. destruct (_ && _); [intros ?%parse_binding_ok; by split|].
  assert (∀ cap ds, _parse_single cap ds = Ok v → well_formed v ∧ (false = false → NoDup (node_ids v))) as Hsingle.
  { intros cap ds (? & _ & ?)%parse_single_ok. done. }
  destruct (get d "capsule"); try apply Hsingle.
  all: destruct (jmem d "capsule_id"); [apply Hsingle|intros [= <-]; split; [apply wf_empty|intros _; constructor]].
Qed.

Lemma preimage_text s b : preimage (JStr s) = Ok b ↔ text_ok s ∧ b = of_string s.
Proof.
  cbn. unfold py_encode, text_ok. destruct (utf8_valid _); [|by split; [|intros []]].
  split; [by intros [= <-]|by intros [_ ->]].
Qed.

Lemma preimage_inj x y b :
  json_ok x → json_ok y → (∃ s, x = JStr s) ↔ (∃ s, y = JStr s) → preimage x = Ok b → preimage y = Ok b → normal x = normal y.
Proof.
  intros Hx Hy Hk Ex Ey. destruct (decide (∃ s, x = JStr s)) as [[s ->]|Hn].
  - destruct (proj1 Hk (ex_intro _ s eq_refl)) as [s' ->]. apply preimage_text in Ex as [_ ->], Ey as [_ E].
    by apply of_string_inj in E as ->.
  - assert (∀ v, (¬ ∃ s, v = JStr s) → preimage v = Ok (json_dumps v)) as Hp by (intros [] Hv; try done; destruct Hv; eauto).
    rewrite Hp in Ex by done. rewrite Hp in Ey by (by rewrite <- Hk). apply json_dumps_inj; [done..|congruence].
Qed.

(** What a matching disclosure fixes: two disclosed values that are both
    text, or both not, and have the same committed digest are equal up to the
    order of members, or SHA-256 collides; text is not told apart from the
    value whose canonical JSON it spells: both are hashed alike. *)
Theorem disclosure_digest_binds x y a b :
  json_ok x → json_ok y → (∃ s, x = JStr s) ↔ (∃ s, y = JStr s) →
  preimage x = Ok a → preimage y = Ok b → hex (sha256 a) = hex (sha256 b) →
  (normal x = normal y ∨ collision [a; b]) ∧
  ((∀ s, x ≠ JStr s) → text_ok (to_string (json_dumps x)) → preimage (JStr (to_string (json_dumps x))) = preimage x).
Proof.
  intros Hx Hy Hk Ea Eb Hd%hex_inj. split.
  - apply (sha256_eq [a; b]) in Hd as [->|]; [left; by eapply preimage_inj|by right|set_solver..].
  - intros Hn Ht. assert (preimage x = Ok (json_dumps x)) as -> by (destruct x; try done; by destruct (Hn s)).
    apply preimage_text. split; [done|]. by rewrite of_to_string.
Qed.
End invariant.

#[export] Hint Rewrite @node_ids_add_node @node_ids_add_edge @node_ids_add_entry @node_ids_add_unknown : scitt.
