(* ===== verification/Profiles.v ===== *)
(** * Profiles: the adapter of [machine_mandate.py] and the detection of [aac.py]

    A payload is attributed to a profile and parsed by the parser registered
    under it. *)

From S2P Require Import Prelude PyRuntime Sha256 Utf8 Cbor Json PyJson MachineMandate Aac.

Section profiles.
Context `{PyObjects} `{Sha256}.

Definition parse_as_graph_view (data : json) : result GraphView.t :=
  mm ← parse_machine_mandate data;
  let digest := canonical_digest data in
  Ok (add_node
    (GraphNode.Build_t digest "machine-mandate" digest (profile_label mm +:+ " " +:+ _short digest)%string true false
       (Some (Rendered mm)))
    (empty_view "machine-mandate" false [data]
       (if bool_decide (parse_note mm = "") then None else Some (parse_note mm)))).

Definition parser_entry (data : json) : result GraphView.t := parse_as_graph_view data.

(** The table after [_register_machine_mandate]. *)
Definition PROFILE_PARSERS : list (string * (json → result GraphView.t)) :=
  [("aac"%string, parse_capsule); ("machine-mandate"%string, parser_entry)].

Definition detect_profile (data : json) : string :=
  match data with
  | JObj d =>
      if jmem d "capsule_id" || jmem d "buyer_capsule" || (match get d "capsule" with JObj _ => true | _ => false end)
      then "aac"
      else if is_machine_mandate data then "machine-mandate" else "unknown"
  | _ => "unknown"
  end.
End profiles.
