(* ===== verification/Statement.v ===== *)
(** * Signed and Transparent Statements: the operations of [scitt_cose/statement.py]

    Definitions only; [StatementProof] proves what they promise. *)

From S2P Require Import Prelude PyRuntime Utf8 EncodingRule Cbor Crypto CoseSign1.

Definition HDR_CONTENT_TYPE : pyval := VInt 3.
Definition HDR_KID : pyval := VInt 4.
Definition HDR_CWT_CLAIMS : pyval := VInt 15.
Definition HDR_RECEIPTS : pyval := VInt 394.
Definition CWT_ISS : pyval := VInt 1.
Definition CWT_SUB : pyval := VInt 2.

Definition type_name_key_error (key : pyval) : exn :=
  cose "extra_cwt_claims key must be int or str, got {type(key).__name__}" [AVal key].

(** [_merge_extra_claims]: the claims after the loop over [extra.items()]. *)
Fixpoint merge_items (claims : dict) (extra : dict) : result dict :=
  match extra with
  | [] => Ok claims
  | (key, value) :: extra =>
      match key with
      | VInt _ | VBool _ | VStr _ => merge_items (dict_set claims key value) extra
      | _ => Raise (type_name_key_error key)
      end
  end.
Definition _merge_extra_claims (claims : dict) (extra : option dict) : result dict := merge_items claims (or_empty extra).

(** [_decode_text] *)
Definition _decode_text (value : option pyval) : option string :=
  match value with
  | Some (VBytes b) => if utf8_valid b then Some (to_string b) else None
  | Some (VStr s) => Some s
  | _ => None
  end.

Definition _STMT_UNDERSTOOD : list pyval := [HDR_ALG; HDR_CRIT; HDR_CONTENT_TYPE; HDR_KID; HDR_CWT_CLAIMS].

(** The dict of [_extract_fields]; [None] is Python's. *)
Record fields := {
  issuer : option string; subject : option string; content_type : option string;
  alg : option pyval; claims : dict; payload : option bytes }.

Definition _extract_fields (protected : dict) (payload : option bytes) : fields :=
  let claims := match dict_get protected HDR_CWT_CLAIMS with Some (VDict false claims) => claims | _ => [] end in
  let alg :=
    match dict_get protected HDR_ALG with
    | Some (VInt code) => Some (match ALG_CODE_TO_NAME code with Some name => VStr name | None => VInt code end)
    | alg_code => alg_code
    end in
  {| issuer := _decode_text (dict_get claims CWT_ISS);
     subject := _decode_text (dict_get claims CWT_SUB);
     content_type := _decode_text (dict_get protected HDR_CONTENT_TYPE);
     alg := alg; claims := claims; payload := payload |}.

(** [authed], the fields of an unauthenticated result. *)
Definition authed : fields :=
  {| issuer := None; subject := None; content_type := None; alg := None; claims := []; payload := None |}.

(** The dict of [parse_signed_statement]; the fenced fields come with
    [payload_len]. *)
Record parsed := {
  signature_verified : option bool;
  authenticated : fields;
  unverified : option (fields * option Z) }.

Section statement.
Context `{Cbor} `{Crypto}.

(** [bool(v)] *)
Definition truthy (v : pyval) : bool :=
  match v with
  | VInt z => negb (z =? 0)
  | VBool b => b
  | VNone => false
  | VBytes b => negb (bool_decide (b = []))
  | VStr s => negb (bool_decide (s = ""))
  | VList _ l => match l with [] => false | _ => true end
  | VDict _ d => match d with [] => false | _ => true end
  | VTag _ _ => true
  | VOther _ id => other_truthy id
  end.

Definition build_signed_statement (payload : bytes) (alg : string) (private_key_pem : PemLike)
    (issuer subject content_type : string) (extra_cwt_claims : option dict) (kid : option bytes) : result bytes :=
  claims ← _merge_extra_claims [(CWT_ISS, VStr issuer); (CWT_SUB, VStr subject)] extra_cwt_claims;
  let protected := [(HDR_CONTENT_TYPE, VStr content_type); (HDR_CWT_CLAIMS, VDict false claims)] in
  let protected := match kid with Some kid => dict_set protected HDR_KID (VBytes kid) | None => protected end in
  sign_sign1 payload alg private_key_pem (Some protected) (Some []) false.

(** The four elements of a COSE_Sign1 message, not normalised. *)
Definition open_message (msg : bytes) : result (Z * (pyval * pyval * pyval * pyval)) :=
  '(tag, value) ← strict_decode msg;
  match value with
  | VList _ [a; b; c; d] =>
      if negb (tag =? COSE_SIGN1_TAG) then Raise (cose "not a COSE_Sign1 message" []) else Ok (tag, (a, b, c, d))
  | _ => Raise (cose "not a COSE_Sign1 message" [])
  end.

(** [cbor2.loads(protected_bstr)] of whatever the first element is. *)
Definition loads_any (v : pyval) : result pyval :=
  match v with VBytes b => cbor_loads b | _ => Raise TypeError end.

Definition _structural_parse (msg : bytes) : result (dict * option bytes) :=
  '(_, (protected_bstr, _, payload_slot, _)) ← open_message msg;
  protected ← (
    if truthy protected_bstr then
      v ← rethrow (loads_any protected_bstr)
        (fun exc => cose "protected header is not valid CBOR: {exc}" [AMsg (exn_msg exc)]);
      Ok (_plain v)
    else Ok (VDict false []));
  let protected := match protected with VDict false protected => protected | _ => [] end in
  let payload := match payload_slot with VBytes payload => Some payload | _ => None end in
  Ok (protected, payload).

(** [try: ... except CoseError: h] *)
Definition catch_cose {A} (m : result A) (h : result A) : result A :=
  match m with Raise (CoseError _) => h | _ => m end.

Definition _safe_structural_fields (msg : bytes) : result (option (fields * option Z)) :=
  catch_cose (
    '(protected, payload) ← _structural_parse msg;
    Ok (Some (_extract_fields protected None, option_map zlen payload)))
    (Ok None).

Definition parse_signed_statement (msg : bytes) (public_key_pem : option PemLike) : result parsed :=
  match public_key_pem with
  | Some public_key_pem =>
      match verify_sign1 msg public_key_pem None _STMT_UNDERSTOOD with
      | Ok sign1 =>
          Ok {| signature_verified := Some true;
                authenticated := _extract_fields (sign1_protected sign1) (Some (sign1_payload sign1));
                unverified := None |}
      | Raise (CoseError _) =>
          unverified ← _safe_structural_fields msg;
          Ok {| signature_verified := Some false; authenticated := authed; unverified := unverified |}
      | Raise e => Raise e
      end
  | None =>
      unverified ← _safe_structural_fields msg;
      Ok {| signature_verified := None; authenticated := authed; unverified := unverified |}
  end.

Definition attach_receipts (statement : bytes) (receipts : list bytes) : result bytes :=
  '(tag, (protected_bstr, unprotected, payload_slot, signature)) ← open_message statement;
  let unprotected := match _plain unprotected with VDict false unprotected => unprotected | _ => [] end in
  let existing := match dict_get unprotected HDR_RECEIPTS with Some (VList _ existing) => existing | _ => [] end in
  let unprotected := dict_set unprotected HDR_RECEIPTS (VList false (existing ++ (VBytes <$> receipts))) in
  cbor_dumps (VTag tag (VList false [protected_bstr; VDict false unprotected; payload_slot; signature])).

(** The loop of [extract_receipts]. *)
Fixpoint receipt_octets (receipts : list pyval) : result (list bytes) :=
  match receipts with
  | [] => Ok []
  | VBytes r :: receipts => out ← receipt_octets receipts; Ok (r :: out)
  | _ :: _ => Raise (cose "attached receipt element is not a byte string" [])
  end.

Definition extract_receipts (transparent : bytes) : result (list bytes) :=
  '(_, (_, unprotected, _, _)) ← open_message transparent;
  match _plain unprotected with
  | VDict false unprotected =>
      match dict_get unprotected HDR_RECEIPTS with
      | Some (VList _ receipts) => receipt_octets receipts
      | _ => Ok []
      end
  | _ => Ok []
  end.
End statement.
