(* ===== verification/StatementProof.v ===== *)
(** * What the statement layer promises *)

From S2P Require Import Prelude PyRuntime Utf8 EncodingRule EncodingRuleProof Cbor Crypto CoseSign1 CoseSign1Proof CoseRoundTrip Statement.

Section parse.
Context `{Cbor} `{Crypto}.

(** C10: identity is surfaced only after verification: the issuer, subject,
    claims and payload of the result are populated only when a key was given
    and [verify_sign1] accepted the message under it, and are then the fields
    of the signed header it returned; in every other case they are empty and
    anything decoded is fenced off under [unverified]. *)
Theorem parse_authenticated_fields msg pem p :
  parse_signed_statement msg pem = Ok p →
  match signature_verified p with
  | Some true => ∃ key s, pem = Some key ∧ verify_sign1 msg key None _STMT_UNDERSTOOD = Ok s ∧
      authenticated p = _extract_fields (sign1_protected s) (Some (sign1_payload s)) ∧ unverified p = None
  | Some false => authenticated p = authed ∧
      ∃ key m, pem = Some key ∧ verify_sign1 msg key None _STMT_UNDERSTOOD = Raise (CoseError m)
  | None => pem = None ∧ authenticated p = authed
  end.
Proof.
  unfold parse_signed_statement. destruct pem as [key|].
  - destruct (verify_sign1 msg key None _STMT_UNDERSTOOD) as [s|e] eqn:Hv.
    + intros [= <-]. cbn. by exists key, s.
    + destruct e as [| | | | | | | | |m| | |]; try done. intros (u & _ & [= <-])%bind_ok. cbn. eauto.
  - intros (u & _ & [= <-])%bind_ok. done.
Qed.

Lemma open_message_cose msg : raises_cose (open_message msg).
Proof. unfold open_message. cose_errors. apply strict_decode_cose. Qed.

Lemma structural_parse_cose msg : raises_cose (_structural_parse msg).
Proof.
  unfold _structural_parse. apply raises_cose_bind; [apply open_message_cose|].
  intros [tag [[[a b] c] d]] _. cbv beta iota. apply raises_cose_bind; [|intros; apply raises_cose_ok].
  destruct (truthy a); [|apply raises_cose_ok].
  apply raises_cose_bind; [apply raises_cose_rethrow; intros; by eexists|intros; apply raises_cose_ok].
Qed.

Lemma safe_structural_total msg : ∃ u, _safe_structural_fields msg = Ok u.
Proof.
  unfold _safe_structural_fields. pose proof (structural_parse_cose msg) as Hc.
  destruct (_structural_parse msg) as [[protected pl]|e]; cbn; [by eexists|].
  destruct (Hc e eq_refl) as [m ->]. cbn. by eexists.
Qed.

(** The statement parser returns a result for every octet string, with or
    without a key, given that [cbor2] dumps arrays of strings and that a
    refused signature is reported as [InvalidSignature]; but for one case, a
    key and a message whose protected header holds an integer of more than
    4300 digits where the text of an error would name it. *)
Theorem parse_signed_statement_total `{!CborLaws _} `{!VerifyLaws _} msg pem :
  (∃ p, parse_signed_statement msg pem = Ok p) ∨
  (∃ key, pem = Some key ∧ oversized msg ∧ verify_sign1 msg key None _STMT_UNDERSTOOD = Raise digits_error ∧
     parse_signed_statement msg pem = Raise digits_error).
Proof.
  destruct (safe_structural_total msg) as [u Hu]. unfold parse_signed_statement. destruct pem as [key|].
  - destruct (verify_sign1 msg key None _STMT_UNDERSTOOD) as [s|e] eqn:Hv; [left; by eexists|].
    apply verify_sign1_raises in Hv as Hc. destruct Hc as [[m ->]|[-> Hsize]].
    + left. rewrite Hu. by eexists.
    + right. exists key. split_and!; (done || by rewrite Hv).
  - left. rewrite Hu. by eexists.
Qed.
End parse.

(** ** Attaching receipts *)

(** [d[k] = v] on the items of a map. *)
Fixpoint set_entry (l : list (item * item)) (k v : item) : list (item * item) :=
  match l with
  | [] => [(k, v)]
  | (k', v') :: l => if key_eq (value_of k') (value_of k) then (k', v) :: l else (k', v') :: set_entry l k v
  end.

Lemma dict_of_set_entry l k v : dict_of (set_entry l k v) = dict_set (dict_of l) (value_of k) (value_of v).
Proof.
  induction l as [|[k' v'] l IH]; [done|]. cbn. destruct (key_eq _ _); [done|]. cbn. by f_equal.
Qed.

Lemma set_entry_admitted room l k v :
  is_key k → admitted room false k → admitted room false v → zlen l + 1 < 2 ^ 64 →
  admitted (S room) false (Map l) → admitted (S room) false (Map (set_entry l k v)).
Proof.
  rewrite !admitted_Map. intros Hk Hka Hva Hlen (_ & Hnd & Hl).
  assert (zlen (set_entry l k v) ≤ zlen l + 1 ∧ (∀ x, x ∈ (set_entry l k v).*1 → x ∈ l.*1 ∨ x = k) ∧
    NoDup (set_entry l k v).*1 ∧
    Forall (fun kv => is_key kv.1 ∧ admitted room false kv.1 ∧ admitted room false kv.2) (set_entry l k v))
    as (Hn & _ & ? & ?); [|split_and!; [lia|done..]].
  clear Hlen. induction l as [|[k' v'] l IH]; cbn [set_entry].
  - rewrite zlen_cons. split_and!; [lia|intros x; cbn; set_solver| |by repeat constructor].
    apply NoDup_cons. split; [apply not_elem_of_nil|constructor].
  - inversion Hnd as [|? ? Hnin Hnd']; subst. inversion Hl as [|? ? Hkv Hl']; subst.
    destruct (IH Hnd' Hl') as (Hn & Hin & Hd & Hf). cbn in Hkv. destruct (key_eq _ _) eqn:E.
    + rewrite !zlen_cons. split_and!; [lia|by intros x Hx; left|done|by constructor; [|exact Hl']; cbn; intuition].
    + rewrite !zlen_cons. split_and!; [lia| | |by constructor].
      * intros x [->|Hx]%elem_of_cons; [left; by left|]. destruct (Hin _ Hx); [left; by right|by right].
      * cbn. apply NoDup_cons. split; [|done]. intros [Hx| ->]%Hin; [done|].
        rewrite key_eq_refl in E; [done|by apply key_is_label].
Qed.

Section attach.
Context `{!Cbor} `{!CborLaws _} `{!Crypto}.
#[local] Set Default Proof Using "All".

Lemma empty_map_admitted room : admitted (S room) false (Map []).
Proof. apply admitted_Map. split_and!; [done|constructor|constructor]. Qed.

(** The octets of a message with the protected header [pi]. *)
Definition message (pi : item) (ul : list (item * item)) (payload : option bytes) (signature : bytes) : bytes :=
  encode (message_item (encode pi) ul payload signature).

Lemma open_message_item room pi ul payload signature :
  admitted 17 true (message_item (encode pi) ul payload signature) → admitted 17 false pi →
  admitted room false (Map ul) → zlen (message pi ul payload signature) ≤ MAX_MESSAGE_BYTES →
  ∃ b, open_message (message pi ul payload signature) =
      Ok (COSE_SIGN1_TAG, (VBytes (encode pi), b, slot_of payload, VBytes signature)) ∧
    _plain b = VDict false (dict_of ul).
Proof.
  unfold message. intros Hm Hpi Hul Hsize. destruct (strict_decode_message _ _ _ _ Hm Hpi Hsize) as (tp & b & Hd & Hb).
  exists b. unfold open_message. rewrite Hd. cbn [mbind outcome_bind]. rewrite Z.eqb_refl. split; [done|].
  exact (plain_represents room _ _ Hul Hb).
Qed.

(** The receipts already in an unprotected header. *)
Definition attached (unprotected : dict) (receipts : list bytes) : Prop :=
  match dict_get unprotected HDR_RECEIPTS with
  | Some v => v = VList false (VBytes <$> receipts)
  | None => receipts = []
  end.

Lemma receipt_octets_bytes l : receipt_octets (VBytes <$> l) = Ok l.
Proof. induction l as [|b l IH]; [done|]. cbn. by rewrite IH. Qed.

Lemma value_of_octets l : value_of (Array (Octets <$> l)) = VList false (VBytes <$> l).
Proof. cbn. f_equal. rewrite map_map. by apply list_fmap_ext. Qed.

Lemma thaw_value room i : admitted room false i → thaw (value_of i) = value_of i.
Proof. apply value_of_represents. Qed.

(** The unprotected header after attaching. *)
Definition with_receipts (ul : list (item * item)) (receipts : list bytes) : list (item * item) :=
  set_entry ul (Uint 394) (Array (Octets <$> receipts)).

Lemma with_receipts_get ul receipts :
  dict_get (dict_of (with_receipts ul receipts)) HDR_RECEIPTS = Some (VList false (VBytes <$> receipts)).
Proof.
  unfold with_receipts. rewrite dict_of_set_entry, value_of_octets. by apply (dict_get_set _ (VInt 394)).
Qed.

Lemma with_receipts_admitted ul receipts :
  admitted 15 false (Map ul) → zlen ul + 1 < 2 ^ 64 → zlen receipts < 2 ^ 64 →
  Forall (fun r => zlen r < 2 ^ 64) receipts → admitted 15 false (Map (with_receipts ul receipts)).
Proof.
  intros Hul Hn Hr Hrs. apply set_entry_admitted; try done. apply admitted_Array.
  rewrite zlen_fmap. split; [done|]. apply Forall_fmap. eapply Forall_impl; [exact Hrs|].
  intros r Hlen. by apply admitted_Octets.
Qed.

Lemma verify_message pi ul ul' payload signature pem supplied understood :
  admitted 17 true (message_item (encode pi) ul payload signature) → admitted 17 false pi →
  admitted 15 false (Map ul) → zlen (message pi ul payload signature) ≤ MAX_MESSAGE_BYTES →
  admitted 17 true (message_item (encode pi) ul' payload signature) →
  admitted 15 false (Map ul') → zlen (message pi ul' payload signature) ≤ MAX_MESSAGE_BYTES →
  verify_sign1 (message pi ul' payload signature) pem supplied understood =
    (fun s => {| sign1_protected := sign1_protected s; sign1_unprotected := dict_of ul';
                 sign1_payload := sign1_payload s |})
      <$> verify_sign1 (message pi ul payload signature) pem supplied understood.
Proof.
  intros Hm Hpi Hul Hz Hm' Hul' Hz'. unfold message in *. unfold verify_sign1.
  rewrite !(decode_envelope_message 15) by done. cbn [mbind outcome_bind].
  destruct (decode_protected _); [|done]. cbn [mbind outcome_bind].

  destruct (match slot_of payload with VNone => _ | _ => _ end); [|done]. cbn [mbind outcome_bind].
  destruct (dict_get _ _) as [[]|]; try done.
  destruct (_check_critical_headers _ _); [|done]. cbn [mbind outcome_bind].
  destruct (_sig_structure _ _); [|done]. cbn [mbind outcome_bind].
  by destruct (check_signature _ _ _ _).
Qed.

Lemma message_replace pb ul ul' payload signature :
  admitted 17 true (message_item pb ul payload signature) → admitted 15 false (Map ul') →
  admitted 17 true (message_item pb ul' payload signature).
Proof.
  unfold message_item. rewrite !admitted_Tag, !admitted_Array, !Forall_cons.
  intros (? & ? & ? & _ & ? & _ & ? & ? & ?) Hul'. split_and!; try done.
Qed.

(** Attaching receipts to a signed statement appends them to the ones it
    carries, [extract_receipts] reads exactly the concatenation back in order,
    and the signature is untouched: [verify_sign1] gives the same verdict on
    the transparent statement as on the original, with the same protected
    header and payload, only the unprotected header being the new one. *)
Theorem attach_extract_receipts pi ul payload signature old new :
  admitted 17 false pi → admitted 15 false (Map ul) → zlen (message pi ul payload signature) ≤ MAX_MESSAGE_BYTES →
  admitted 17 true (message_item (encode pi) ul payload signature) →
  attached (dict_of ul) old → zlen ul + 1 < 2 ^ 64 → zlen (old ++ new) < 2 ^ 64 →
  Forall (fun r => zlen r < 2 ^ 64) (old ++ new) →
  ∃ transparent, attach_receipts (message pi ul payload signature) new = Ok transparent ∧
    (zlen transparent ≤ MAX_MESSAGE_BYTES →
     extract_receipts transparent = Ok (old ++ new) ∧
     ∀ pem supplied understood,
       verify_sign1 transparent pem supplied understood =
         (fun s => {| sign1_protected := sign1_protected s;
                      sign1_unprotected := dict_set (dict_of ul) HDR_RECEIPTS (VList false (VBytes <$> (old ++ new)));
                      sign1_payload := sign1_payload s |})
           <$> verify_sign1 (message pi ul payload signature) pem supplied understood).
Proof.
  intros Hpi Hul Hz Hm Hold Hn Hlen Hall.
  destruct (open_message_item 15 _ _ _ _ Hm Hpi Hul Hz) as (b & Hopen & Hb).
  set (ul' := with_receipts ul (old ++ new)).
  assert (admitted 15 false (Map ul')) as Hul' by by apply with_receipts_admitted.
  pose proof (message_replace _ _ ul' _ _ Hm Hul') as Hm'.
  assert (dict_of ul' = dict_set (dict_of ul) HDR_RECEIPTS (VList false (VBytes <$> (old ++ new)))) as Hd.
  { unfold ul', with_receipts. by rewrite dict_of_set_entry, value_of_octets. }
  exists (message pi ul' payload signature). split.
  - unfold attach_receipts. rewrite Hopen. cbn [mbind outcome_bind]. rewrite Hb.
    assert (match dict_get (dict_of ul) HDR_RECEIPTS with Some (VList _ existing) => existing | _ => [] end
            = VBytes <$> old) as ->.
    { unfold attached in Hold. by destruct (dict_get _ _); subst. }
    rewrite <- fmap_app, <- Hd. apply (dumps_item _ _ _ _ (le_n _) Hm'). unfold represents.
    pose proof (thaw_value 15 (Map ul') Hul') as Ht. rewrite value_of_dict in Ht. cbn [thaw] in Ht.
    cbn [thaw value_of message_item map]. fold (dict_of ul'). rewrite Ht. by destruct payload.
  - intros Hz'. split.
    + unfold extract_receipts. destruct (open_message_item 15 _ _ _ _ Hm' Hpi Hul' Hz') as (b' & -> & Hb').
      cbn [mbind outcome_bind]. rewrite Hb'. unfold ul'. rewrite with_receipts_get. apply receipt_octets_bytes.
    + intros pem supplied understood. rewrite <- Hd. by apply verify_message.
Qed.
End attach.

(** ** Building and parsing *)

Section build.
Context `{!Cbor} `{!CborLaws _} `{!Crypto} `{!SignLaws _}.
#[local] Set Default Proof Using "All".

Lemma key_eq_trans k label label' :
  is_label label' = true ∨ is_label label = true → key_eq k label = true → key_eq label label' = key_eq k label'.
Proof.
  unfold key_eq. intros Hl. destruct (num_of label) as [z|] eqn:E.
  - intros Hk%bool_decide_eq_true_1. rewrite Hk. destruct (num_of label'); [done|].
    by destruct label, label', k.
  - destruct label; try done. destruct k; try done. by intros ->%bool_decide_eq_true_1.
Qed.

Lemma dict_get_set_ne d label label' v :
  is_label label' = true → key_eq label label' = false → dict_get (dict_set d label v) label' = dict_get d label'.
Proof.
  intros Hl Hne. induction d as [|[k v'] d IH]; cbn; [by rewrite Hne|].
  destruct (key_eq k label) eqn:E; cbn; [|by rewrite IH].
  by rewrite <- (key_eq_trans k label label'), Hne by auto.
Qed.

(** Two keys equal to the same label are equal. *)
Lemma key_eq_joined k k' label :
  is_label label = true → key_eq k label = true → key_eq k' label = true → key_eq k k' = true.
Proof.
  unfold key_eq. intros Hl. destruct label; try done; cbn [num_of].
  - intros ->%bool_decide_eq_true_1 ->%bool_decide_eq_true_1. by apply bool_decide_eq_true_2.
  - destruct k; try done. destruct k'; try done. intros ->%bool_decide_eq_true_1 <-%bool_decide_eq_true_1.
    by apply bool_decide_eq_true_2.
Qed.

Lemma dict_get_set_key d key label v :
  is_label label = true → key_eq key label = true → dict_get (dict_set d key v) label = Some v.
Proof.
  intros Hl Hk. induction d as [|[k v'] d IH]; cbn; [by rewrite Hk|].
  destruct (key_eq k key) eqn:E; cbn.
  - by rewrite <- (key_eq_trans k key label), Hk by auto.
  - destruct (key_eq k label) eqn:E'; [|done]. by rewrite (key_eq_joined _ _ _ Hl E' Hk) in E.
Qed.

Lemma dict_get_app d d' label :
  dict_get (d ++ d') label = match dict_get d label with Some v => Some v | None => dict_get d' label end.
Proof. induction d as [|[k v] d IH]; [done|]. cbn. by destruct (key_eq k label). Qed.

(** The extra claims win: a label they hold gets their (last) value. *)
Lemma merge_items_get claims extra merged label :
  is_label label = true → merge_items claims extra = Ok merged →
  dict_get merged label =
    match dict_get (reverse extra) label with Some v => Some v | None => dict_get claims label end.
Proof.
  intros Hl. revert claims. induction extra as [|[k v] extra IH]; intros claims; [by intros [= ->]|].
  intros Hm. assert (merge_items (dict_set claims k v) extra = Ok merged) as Hm' by by destruct k.
  rewrite (IH _ Hm'), reverse_cons, dict_get_app. cbn [dict_get].
  destruct (dict_get (reverse extra) label); [done|]. destruct (key_eq k label) eqn:E; [by apply dict_get_set_key|].
  by apply dict_get_set_ne.
Qed.

(** The text surfaced for a claim whose value was given as an argument: that
    value, unless the extra claims hold the label too, in which case what they
    hold, read as text. *)
Definition surfaced (extra : option dict) (label : pyval) (given : string) : option string :=
  match dict_get (reverse (or_empty extra)) label with
  | Some value => _decode_text (Some value)
  | None => Some given
  end.

Lemma decode_thawed v : _decode_text (Some (thaw v)) = _decode_text (Some v).
Proof. by destruct v. Qed.

Lemma merged_surfaced iss sub extra merged :
  _merge_extra_claims [(CWT_ISS, VStr iss); (CWT_SUB, VStr sub)] extra = Ok merged →
  _decode_text (dict_get (thaw_dict merged) CWT_ISS) = surfaced extra CWT_ISS iss ∧
  _decode_text (dict_get (thaw_dict merged) CWT_SUB) = surfaced extra CWT_SUB sub.
Proof.
  unfold _merge_extra_claims, surfaced. intros Hm. rewrite !dict_get_thaw.
  split; erewrite merge_items_get by done;
    (destruct (dict_get (reverse _) _) as [v|]; [apply decode_thawed|done]).
Qed.

(** The protected header that is signed. *)
Definition signed_header (content_type : string) (claims : dict) (kid : option bytes) (code : Z) : dict :=
  [(HDR_CONTENT_TYPE, VStr content_type); (HDR_CWT_CLAIMS, VDict false claims)]
    ++ match kid with Some kid => [(HDR_KID, VBytes kid)] | None => [] end ++ [(HDR_ALG, VInt code)].

(** What [build_signed_statement] emits. *)
Lemma build_statement_message payload alg_name code sk_pem pk_pem key iss sub ct extra kid merged pl :
  ALG_NAME_TO_CODE alg_name = Some code →
  load_private sk_pem = Ok key → load_public pk_pem = Ok (public_of key) →
  alg_class code = Some (private_class key) →
  _merge_extra_claims [(CWT_ISS, VStr iss); (CWT_SUB, VStr sub)] extra = Ok merged →
  represents (VDict false (signed_header ct merged kid code)) (Map pl) → admitted 17 false (Map pl) →
  zlen (encode (Map pl)) < 2 ^ 64 → zlen payload < 2 ^ 64 →
  ∃ sig, build_signed_statement payload alg_name sk_pem iss sub ct extra kid = Ok (message (Map pl) [] (Some payload) sig) ∧
    admitted 17 true (message_item (encode (Map pl)) [] (Some payload) sig) ∧
    check_signature pk_pem code sig (encode (sig_item (encode (Map pl)) payload)) = Ok () ∧
    dict_get (dict_of pl) HDR_ALG = Some (VInt code) ∧ (length sig ≤ 96)%nat.
Proof.
  intros Halg Hsk Hpk Hclass Hmerge Hpr Hpl Hlp Hlq.
  set (header := [(HDR_CONTENT_TYPE, VStr ct); (HDR_CWT_CLAIMS, VDict false merged)]
    ++ match kid with Some kid => [(HDR_KID, VBytes kid)] | None => [] end).
  assert (dict_set header HDR_ALG (VInt code) = signed_header ct merged kid code) as Hset by by destruct kid.
  destruct (sign_sign1_message payload alg_name code sk_pem pk_pem key (Some header) (Some []) pl [] false)
    as (sig & Hsign & ?); try done.
  { cbn [or_empty]. by rewrite Hset. }
  { by apply (empty_map_admitted 14). }
  exists sig. split; [|done]. unfold build_signed_statement, message. rewrite Hmerge. cbn [mbind outcome_bind].
  rewrite <- Hsign. by destruct kid.
Qed.

Lemma signed_header_dict ct merged kid code pl :
  represents (VDict false (signed_header ct merged kid code)) (Map pl) →
  dict_of pl = thaw_dict (signed_header ct merged kid code).
Proof. unfold represents. rewrite value_of_dict. cbn [thaw]. by intros [= <-]. Qed.

(** The fields of a signed header. *)
Lemma extract_signed_header alg_name code iss sub ct extra kid merged pl payload :
  ALG_NAME_TO_CODE alg_name = Some code →
  _merge_extra_claims [(CWT_ISS, VStr iss); (CWT_SUB, VStr sub)] extra = Ok merged →
  dict_of pl = thaw_dict (signed_header ct merged kid code) →
  _extract_fields (dict_of pl) payload =
    {| issuer := surfaced extra CWT_ISS iss; subject := surfaced extra CWT_SUB sub; content_type := Some ct;
       alg := Some (VStr alg_name); claims := thaw_dict merged; payload := payload |}.
Proof.
  intros Halg Hmerge Hdict. unfold _extract_fields. rewrite Hdict, !dict_get_thaw.
  change (dict_get (signed_header ct merged kid code) HDR_CWT_CLAIMS) with (Some (VDict false merged)).
  change (dict_get (signed_header ct merged kid code) HDR_CONTENT_TYPE) with (Some (VStr ct)).
  assert (dict_get (signed_header ct merged kid code) HDR_ALG = Some (VInt code)) as -> by by destruct kid.
  cbn [fmap option_fmap option_map thaw]. fold (thaw_dict merged).
  destruct (merged_surfaced _ _ _ _ Hmerge) as [-> ->].
  assert (ALG_CODE_TO_NAME code = Some alg_name) as ->; [|done].
  unfold ALG_NAME_TO_CODE in Halg. by repeat case_bool_decide; subst; try injection Halg as <-.
Qed.

Lemma signed_header_crit ct merged kid code pl :
  dict_of pl = thaw_dict (signed_header ct merged kid code) → _check_critical_headers (dict_of pl) _STMT_UNDERSTOOD = Ok ().
Proof. intros Hdict. unfold _check_critical_headers. rewrite Hdict, dict_get_thaw. by destruct kid. Qed.

(** A signed statement parses under a key that accepts its signature. *)
Lemma parse_statement_message payload alg_name code pk_pem iss sub ct extra kid merged pl sig :
  ALG_NAME_TO_CODE alg_name = Some code →
  _merge_extra_claims [(CWT_ISS, VStr iss); (CWT_SUB, VStr sub)] extra = Ok merged →
  dict_of pl = thaw_dict (signed_header ct merged kid code) → admitted 17 false (Map pl) →
  admitted 17 true (message_item (encode (Map pl)) [] (Some payload) sig) →
  zlen (encode (Map pl)) < 2 ^ 64 → zlen payload < 2 ^ 64 → zlen (message (Map pl) [] (Some payload) sig) ≤ MAX_MESSAGE_BYTES →
  dict_get (dict_of pl) HDR_ALG = Some (VInt code) →
  check_signature pk_pem code sig (encode (sig_item (encode (Map pl)) payload)) = Ok () →
  parse_signed_statement (message (Map pl) [] (Some payload) sig) (Some pk_pem) =
    Ok {| signature_verified := Some true;
          authenticated := {| issuer := surfaced extra CWT_ISS iss; subject := surfaced extra CWT_SUB sub; content_type := Some ct;
                              alg := Some (VStr alg_name); claims := thaw_dict merged; payload := Some payload |};
          unverified := None |}.
Proof.
  intros Halg Hmerge Hdict Hpl Hm Hlp Hlq Hz Hget Hcheck. unfold parse_signed_statement, message.
  rewrite (verify_sign1_message pl [] _ sig code payload); try done;
    [|by apply (empty_map_admitted 14)|by eapply signed_header_crit].
  cbn [sign1_protected sign1_payload]. by rewrite (extract_signed_header alg_name code iss sub ct extra kid merged).
Qed.

(** C30: a statement built with a key verifies and parses back under the
    matching public key, all as authenticated fields, to the content type and
    algorithm given, the payload, the claims with the extra ones merged in,
    and the issuer and subject given, except that extra claims holding label
    [1] or [2] silently replace the issuer or the subject: what comes back is
    then the extra claim, or nothing when it is not text; provided the signed
    header is within the encoding rule and the message within 10 MiB. *)
Theorem build_parse_statement payload alg_name code sk_pem pk_pem key iss sub ct extra kid merged pl :
  ALG_NAME_TO_CODE alg_name = Some code →
  load_private sk_pem = Ok key → load_public pk_pem = Ok (public_of key) →
  alg_class code = Some (private_class key) →
  _merge_extra_claims [(CWT_ISS, VStr iss); (CWT_SUB, VStr sub)] extra = Ok merged →
  represents (VDict false (signed_header ct merged kid code)) (Map pl) → admitted 17 false (Map pl) →
  zlen (encode (Map pl)) < 2 ^ 64 → zlen payload < 2 ^ 64 →
  ∃ msg, build_signed_statement payload alg_name sk_pem iss sub ct extra kid = Ok msg ∧
    (zlen msg ≤ MAX_MESSAGE_BYTES →
     parse_signed_statement msg (Some pk_pem) =
       Ok {| signature_verified := Some true;
             authenticated := {| issuer := surfaced extra CWT_ISS iss; subject := surfaced extra CWT_SUB sub; content_type := Some ct;
                                 alg := Some (VStr alg_name); claims := thaw_dict merged; payload := Some payload |};
             unverified := None |}).
Proof.
  intros Halg Hsk Hpk Hclass Hmerge Hpr Hpl Hlp Hlq.
  destruct (build_statement_message payload alg_name code sk_pem pk_pem key iss sub ct extra kid merged pl)
    as (sig & Hb & Hm & Hcheck & Hget & _); try done.
  eexists. split; [exact Hb|]. intros Hz. eapply parse_statement_message; try done. by apply signed_header_dict.
Qed.
End build.
