(* ===== verification/Ritual.v ===== *)
(** * The ritual over a bundle: [hosted_profiles/aac.py]

    The four stages Integrity, Sequence, Authenticity and Witness over an
    ordered bundle of capsules and their parsed views, and the note of each
    record.  Definitions only; [RitualProof] proves what they promise. *)

From stdpp Require Import gmap strings.
From S2P Require Import Prelude PyRuntime Sha256 Utf8 Cbor Json PyJson Base64 Crypto CoseSign1 Statement MachineMandate Aac.

Module ChainGap.
Record t := { before_index : Z; after_index : Z; missing_parent : string }.
End ChainGap.

Module RitualStage.
Record t := { name : string; status : string; detail : string }.
End RitualStage.

Module Finding.
Record t := { code : string; stage : string; label : string; text : string; meta : string }.
End Finding.

Module RitualSummary.
Record t := { stages : list RitualStage.t; finding : option Finding.t }.
End RitualSummary.

Module RecordNote.
Record t := { index : Z; note : string; is_altered : bool; cites_altered : bool }.
End RecordNote.

(** [bytes(v)] of a JSON value that is neither text nor null; an integer asks
    for that many zero octets. *)
Definition py_bytes (v : json) : result bytes :=
  match v with
  | JInt n =>
      if n <? 0 then Raise (ValueError (Msg "negative count" [])) else if n >=? 2 ^ 63 then Raise OverflowError
      else Ok (repeat x00 (Z.to_nat n))
  | JBool b => Ok (repeat x00 (Z.to_nat (Z.b2z b)))
  | JArr l =>
      mapM (fun v => match int_of v with
                     | Some n => if (0 <=? n) && (n <? 256) then Ok (byte_of n) else Raise (ValueError (Msg "bytes must be in range(0, 256)" []))
                     | None => Raise TypeError
                     end) l
  | JObj [] => Ok []
  | JObj _ | JFloat _ | JStr _ | JNull => Raise TypeError
  end.

(** [pub.encode() if isinstance(pub, str) else pub], as a key argument *)
Definition key_of (pub : json) : result (option PemLike) :=
  match pub with
  | JNull => Ok None
  | JStr s => b ← py_encode s; Ok (Some (PemBytes b))
  | v => Ok (Some (PemObject (py_bytes v)))
  end.

Definition AUTHENTICITY_SELF_ASSERTED_DETAIL : string :=
  "signature verifies against a key supplied with the record — this shows the bytes are unaltered since signing, not who signed them".

Definition _RECEIPT_GRADE_WORDS (grade : json) : option string :=
  if is_text grade "mmr-verified" then Some "consistency-verified"%string
  else if is_text grade "observed-only" then Some "existence-and-time"%string
  else if is_text grade "countersigned-observed" then Some "existence-and-time"%string
  else None.

Section ritual.
Context `{PyObjects} `{Sha256} `{Cbor} `{Crypto}.

(** ** Sequence *)

(** [c.get("capsule_id", "")] *)
Definition capsule_id_of (cap : json) : result json := py_get cap "capsule_id" (JStr "").

(** [(cap.get("chain") or {}).get("parent_capsule_id", "")] *)
Definition parent_of (cap : json) : result json :=
  d ← as_dict cap;
  chain ← object_or_empty (get d "chain");
  Ok (get_or chain "parent_capsule_id" (JStr "")).

(** The capsule ids of the bundle. *)
Definition bundle_ids (caps : list json) : result (gset string) :=
  l ← mapM capsule_id_of caps; Ok (list_to_set (omap hex64 l)).

(** The loop of [find_chain_gaps], from record [i] on. *)
Fixpoint gaps_from (ids : gset string) (i : Z) (caps : list json) : result (list ChainGap.t) :=
  match caps with
  | [] => Ok []
  | cap :: caps =>
      if i =? 0 then gaps_from ids (i + 1) caps
      else
        parent ← parent_of cap;
        gaps ← gaps_from ids (i + 1) caps;
        Ok (match hex64 parent with
            | Some p => if bool_decide (p ∈ ids) then gaps else ChainGap.Build_t (i - 1) i p :: gaps
            | None => gaps
            end)
  end.

Definition find_chain_gaps (capsules : list json) : result (list ChainGap.t) :=
  let caps := _unwrap <$> capsules in
  ids ← bundle_ids caps;
  gaps_from ids 0 caps.

(** ** Authenticity *)

(** The body of the loop: whether the sidecar's statement verifies; every
    exception of it counts as a failure. *)
Definition sidecar_verifies (sc : json) : bool :=
  let checked :=
    b64 ← py_get sc "statement_b64" (JStr "");
    stmt_bytes ← (match b64 with JStr s => b64decode (utf8_codes (of_string s)) | _ => Raise TypeError end);
    pub ← py_get sc "pubkey_pem" (JStr "");
    pub_bytes ← key_of pub;
    parsed ← parse_signed_statement stmt_bytes pub_bytes;
    Ok (bool_decide (signature_verified parsed = Some true)) in
  match checked with Ok verified => verified | Raise _ => false end.

Definition _check_authenticity (capsules : list json) : result RitualStage.t :=
  found ← mapM (fun c => py_get c "signed_statement" JNull) capsules;
  let sidecars := filter (fun sc => json_truthy sc = true) found in
  Ok (match sidecars with
      | [] => RitualStage.Build_t "Authenticity" "skip" "not checked — no signed statement provided for this bundle"
      | _ =>
          if forallb sidecar_verifies sidecars
          then RitualStage.Build_t "Authenticity" "skip" AUTHENTICITY_SELF_ASSERTED_DETAIL
          else RitualStage.Build_t "Authenticity" "fail" "at least one signature did not verify"
      end).

(** ** Witness *)

(** [f"{word} ({host})"] of one witness *)
Definition grade_part (item : string * json) : result string :=
  let '(ts_url, grade) := item in
  _ ← py_hash grade;
  let word := match _RECEIPT_GRADE_WORDS grade with Some w => w | None => "ungraded"%string end in
  hostname ← url_hostname ts_url;
  let host := match hostname with Some h => if bool_decide (h = "") then ts_url else h | None => ts_url end in
  Ok (word +:+ " (" +:+ host +:+ ")")%string.

(** A truthy value that is no dict cannot be indexed by its own elements. *)
Definition _witness_grade_words (receipt_grades : json) : result string :=
  if negb (json_truthy receipt_grades) then Ok ""%string
  else
    match receipt_grades with
    | JObj d => parts ← mapM grade_part (sort_items d); Ok (": " +:+ String.concat ", " parts)%string
    | _ => Raise TypeError
    end.

Definition _check_witness (witness : option object) : result RitualStage.t :=
  match witness with
  | None => Ok (RitualStage.Build_t "Witness" "skip" "no witness data provided")
  | Some w =>
      match get w "verified", get w "reachable" with
      | JBool false, _ => Ok (RitualStage.Build_t "Witness" "fail" "inclusion proof did not verify")
      | _, JBool false =>
          Ok (RitualStage.Build_t "Witness" "skip"
            "independent-witness check skipped (unreachable) — everything else verified; reconnect any time to complete it")
      | _, _ =>
          let held := get_or w "held" (JInt 0) in
          let configured := py_or (py_or (get w "configured") held) (JInt 1) in
          grade_words ← _witness_grade_words (get w "receipt_grades");
          short ← py_lt held configured;
          let count := ("witnessed " +:+ py_str held +:+ " of " +:+ py_str configured)%string in
          Ok (if (short : bool)
              then RitualStage.Build_t "Witness" "skip" (count +:+ " · retrying — rung held" +:+ grade_words)%string
              else RitualStage.Build_t "Witness" "pass" (count +:+ grade_words)%string)
      end
  end.

(** ** The summary *)

(** [e.match_ok is False] *)
Definition mismatched (e : PrivilegeLogEntry.t) : bool :=
  match PrivilegeLogEntry.match_ok e with Some false => true | _ => false end.

Definition mismatches (views : list GraphView.t) : list PrivilegeLogEntry.t :=
  filter (fun e => mismatched e = true) (concat (GraphView.privilege_log <$> views)).

Definition integrity (views : list GraphView.t) : RitualStage.t * option Finding.t :=
  match mismatches views with
  | e :: _ =>
      let context := PrivilegeLogEntry.context e in
      (RitualStage.Build_t "Integrity" "fail"
         ("record fails at stage digest_mismatch — " +:+ context +:+ " no longer matches its fingerprint")%string,
       Some (Finding.Build_t "digest_mismatch" "Integrity" "The finding"
         (PrivilegeLogEntry.artifact_id e +:+ " (" +:+ context +:+ ") is not the value that was sealed.")%string
         ("failed stage: digest_mismatch · field group: " +:+ context +:+ " · digest "
            +:+ String.substring 0 8 (PrivilegeLogEntry.digest e) +:+ "…")%string))
  | [] => (RitualStage.Build_t "Integrity" "pass" "every record matches its fingerprint", None)
  end.

(** [_unwrap(capsules[i]).get("capsule_id", "")] *)
Definition id_at (capsules : list json) (i : Z) : result json :=
  match capsules !! Z.to_nat i with Some c => capsule_id_of (_unwrap c) | None => Raise (IndexError (Msg "list index out of range" [])) end.

Definition sequence (capsules : list json) (finding : option Finding.t) : result (RitualStage.t * option Finding.t) :=
  gaps ← find_chain_gaps capsules;
  match gaps with
  | g :: _ =>
      let before := int_str (ChainGap.before_index g + 1) in
      let after := int_str (ChainGap.after_index g + 1) in
      before_id ← id_at capsules (ChainGap.before_index g);
      after_id ← id_at capsules (ChainGap.after_index g);
      let stage := RitualStage.Build_t "Sequence" "fail"
        ("gap between record " +:+ before +:+ " and record " +:+ after +:+ " — record " +:+ after +:+ " names a parent that is not here")%string in
      match finding with
      | Some _ => Ok (stage, finding)
      | None =>
          before_text ← py_prefix 8 before_id;
          after_text ← py_prefix 8 after_id;
          Ok (stage, Some (Finding.Build_t "chain_gap" "Sequence" "The finding"
            ("Whatever sits between record " +:+ before +:+ " and record " +:+ after +:+ " is not in this bundle. That is information, not just an error: the gap has a location and two edges you can browse from.")%string
            ("failed stage: chain_gap · window: " +:+ before_text +:+ "…→" +:+ after_text +:+ "… · missing parent "
              +:+ String.substring 0 8 (ChainGap.missing_parent g) +:+ "…")%string))
      end
  | [] => Ok (RitualStage.Build_t "Sequence" "pass" "unbroken — every record names the one before it", finding)
  end.

Definition evaluate_ritual (capsules : list json) (views : list GraphView.t) (witness : option object) : result RitualSummary.t :=
  let '(integrity, finding) := integrity views in
  '(sequence, finding) ← sequence capsules finding;
  authenticity ← _check_authenticity capsules;
  witness ← _check_witness witness;
  Ok (RitualSummary.Build_t [integrity; sequence; authenticity; witness] finding).

(** ** Annotation *)

(** The ids of the records whose own view has a mismatch. *)
Fixpoint altered_from (caps : list json) (i : Z) (views : list GraphView.t) : result (gset string) :=
  match views with
  | [] => Ok ∅
  | v :: views =>
      here ← (
        if existsb mismatched (GraphView.privilege_log v) then
          match caps !! Z.to_nat i with
          | Some cap => id ← capsule_id_of cap; Ok (match hex64 id with Some d => {[ d ]} | None => ∅ end)
          | None => Raise (IndexError (Msg "list index out of range" []))
          end
        else Ok ∅);
      rest ← altered_from caps (i + 1) views;
      Ok ((here : gset string) ∪ rest)
  end.

(** [{c.get("capsule_id", ""): c for c in caps if ...}]: a later capsule with
    the same id replaces an earlier one. *)
Fixpoint by_id_of (caps : list json) (by_id : gmap string json) : result (gmap string json) :=
  match caps with
  | [] => Ok by_id
  | cap :: caps =>
      id ← capsule_id_of cap;
      by_id_of caps (match hex64 id with Some d => <[ d := cap ]> by_id | None => by_id end)
  end.

(** The loop [while True], for at most [turns] turns: whether the chain from
    [cur] reaches an altered record; [None] when the walk is still going after
    that many turns. *)
Fixpoint cites (turns : nat) (altered_ids : gset string) (by_id : gmap string json) (cur : json) (seen : gset string) :
    result (option bool) :=
  match turns with
  | O => Ok None
  | S turns =>
      parent ← parent_of cur;
      match hex64 parent with
      | None => Ok (Some false)
      | Some p =>
          if bool_decide (p ∈ seen) then Ok (Some false)
          else if bool_decide (p ∈ altered_ids) then Ok (Some true)
          else
            match by_id !! p with
            | None => Ok (Some false)
            | Some cur => cites turns altered_ids by_id cur ({[ p ]} ∪ seen)
            end
      end
  end.

(** One record, with at most [turns] turns of its walk; [None] when the walk
    has not ended by then. *)
Definition annotate_one (turns : nat) (altered_ids : gset string) (by_id : gmap string json) (i : Z) (cap : json) :
    result (option RecordNote.t) :=
  cid ← capsule_id_of cap;
  _ ← py_hash cid;
  if match cid with JStr d => bool_decide (d ∈ altered_ids) | _ => false end
  then Ok (Some (RecordNote.Build_t i "digest_mismatch" true false))
  else
    c ← cites turns altered_ids by_id cap ∅;
    Ok (option_map (fun c : bool =>
          RecordNote.Build_t i (if c then "cites an altered record" else "verifies") false c) c).

(** The loop over the records: it goes no further than a walk that does not
    end. *)
Fixpoint annotate_from (turns : nat) (altered_ids : gset string) (by_id : gmap string json) (i : Z) (caps : list json) :
    result (option (list RecordNote.t)) :=
  match caps with
  | [] => Ok (Some [])
  | cap :: caps =>
      note ← annotate_one turns altered_ids by_id i cap;
      match note with
      | None => Ok None
      | Some note =>
          notes ← annotate_from turns altered_ids by_id (i + 1) caps;
          Ok (option_map (cons note) notes)
      end
  end.

(** [annotate_records], every walk watched for [turns] turns: [Ok None] says
    that some walk was still going. *)
Definition annotate_records (turns : nat) (capsules : list json) (views : list GraphView.t) :
    result (option (list RecordNote.t)) :=
  let caps := _unwrap <$> capsules in
  altered_ids ← altered_from caps 0 views;
  by_id ← by_id_of caps ∅;
  annotate_from turns altered_ids by_id 0 caps.
End ritual.
