(* ===== verification/RitualProof.v ===== *)
(** * What the ritual reports

    The gaps it finds are exactly the parents that are not in the bundle, its
    stages say pass and fail exactly for the reasons named, and the walk that
    flags records citing an altered one terminates and is exact. *)

From stdpp Require Import gmap strings.
From S2P Require Import Prelude PyRuntime Sha256 Utf8 Cbor CborInstance Json PyJson JsonProof Base64 Crypto CoseSign1 Statement MachineMandate MandateProof Aac AacProof Ritual.

Section ritual.
Context `{PyObjects}.

(** Record [cap] names the digest [p] as its parent. *)
Definition names_parent (cap : json) (p : string) : Prop := parent_of cap = Ok (JStr p) ∧ is_digest p.

Lemma hex64_digest d : is_digest d → hex64 (JStr d) = Some d.
Proof. unfold is_digest, hex64. by intros ->. Qed.

Lemma hex64_iff v d : hex64 v = Some d ↔ v = JStr d ∧ is_digest d.
Proof. split; [apply hex64_Some|]. intros [-> Hd]. by apply hex64_digest. Qed.

Lemma names_parent_det cap p q : names_parent cap p → names_parent cap q → p = q.
Proof. intros [Hp _] [Hq _]. congruence. Qed.

(** ** Gaps *)

Lemma bundle_ids_spec caps ids d :
  bundle_ids caps = Ok ids → d ∈ ids ↔ (is_digest d ∧ ∃ c, c ∈ caps ∧ capsule_id_of c = Ok (JStr d)).
Proof.
  intros (l & Hl & [= <-])%bind_ok. rewrite elem_of_list_to_set, list_elem_of_omap. apply mapM_ok in Hl. split.
  - intros (v & Hv & [-> Hd]%hex64_iff). split; [done|].
    apply list_elem_of_lookup in Hv as [i Hi]. destruct (Forall2_lookup_r _ _ _ _ _ Hl Hi) as (c & Hc & E).
    exists c. split; [by eapply list_elem_of_lookup_2|done].
  - intros (Hd & c & Hc & E). apply list_elem_of_lookup in Hc as [i Hi].
    destruct (Forall2_lookup_l _ _ _ _ _ Hl Hi) as (v & Hv & E'). rewrite E in E'. injection E' as <-.
    exists (JStr d). split; [by eapply list_elem_of_lookup_2|by apply hex64_digest].
Qed.

Lemma gaps_from_spec ids i caps gaps g :
  0 < i → gaps_from ids i caps = Ok gaps →
  g ∈ gaps ↔ (∃ k cap p, caps !! k = Some cap ∧ names_parent cap p ∧ p ∉ ids ∧
    g = ChainGap.Build_t (i + Z.of_nat k - 1) (i + Z.of_nat k) p).
Proof.
  revert i gaps. induction caps as [|cap caps IH]; intros i gaps Hi; cbn [gaps_from].
  - intros [= <-]. rewrite elem_of_nil. by split; [|intros ([] & ? & ? & [=] & _)].
  - replace (i =? 0) with false by lia. intros (parent & Hp & (rest & Hr & [= <-])%bind_ok)%bind_ok.
    specialize (IH (i + 1) rest ltac:(lia) Hr).
    assert (g ∈ rest ↔ ∃ k c p, (cap :: caps) !! S k = Some c ∧ names_parent c p ∧ p ∉ ids ∧
      g = ChainGap.Build_t (i + Z.of_nat (S k) - 1) (i + Z.of_nat (S k)) p) as IH'.
    { rewrite IH. do 6 f_equiv; cbn [lookup list_lookup]; try done. 
      replace (i + 1 + Z.of_nat _ - 1) with (i + Z.of_nat (S a) - 1) by lia.
      by replace (i + 1 + Z.of_nat a) with (i + Z.of_nat (S a)) by lia. }
    destruct (hex64 parent) as [p|] eqn:Eh; [apply hex64_iff in Eh as [-> Hd]; case_bool_decide as Hin|].
    + rewrite IH'. split; [intros (k & ?); by exists (S k)|]. intros ([|k] & c & q & Hc & Hq & Hn & Hg); [|by exists k, c, q].
      cbn in Hc. injection Hc as <-. destruct (Hn). by rewrite (names_parent_det cap q p Hq).
    + rewrite elem_of_cons, IH'. split.
      * intros [-> |(k & ?)]; [|by exists (S k)]. exists 0%nat, cap, p. split_and!; [done|done|done|]. f_equal; lia.
      * intros ([|k] & c & q & Hc & Hq & Hn & Hg); [left|right; by exists k, c, q].
        cbn in Hc. injection Hc as <-. rewrite (names_parent_det cap q p Hq) in Hg by done. rewrite Hg. f_equal; lia.
    + rewrite IH'. split; [intros (k & ?); by exists (S k)|]. intros ([|k] & c & q & Hc & Hq & Hn & Hg); [|by exists k, c, q].
      cbn in Hc. injection Hc as <-. destruct Hq as [Hq Hd]. rewrite Hp in Hq. injection Hq as ->.
      by rewrite hex64_digest in Eh.
Qed.

(** Chain-gap detection is exact: there is a gap before record [i]
    exactly when it is not the first record, names a 64-digit parent, and no
    record of the bundle has that capsule id. *)
Theorem find_chain_gaps_exact capsules gaps g :
  find_chain_gaps capsules = Ok gaps →
  g ∈ gaps ↔ ∃ k cap p, (_unwrap <$> capsules) !! S k = Some cap ∧ names_parent cap p ∧
    (∀ c, c ∈ _unwrap <$> capsules → capsule_id_of c ≠ Ok (JStr p)) ∧
    g = ChainGap.Build_t (Z.of_nat k) (Z.of_nat k + 1) p.
Proof.
  unfold find_chain_gaps. intros (ids & Hids & Hg)%bind_ok.
  destruct (_unwrap <$> capsules) as [|c0 caps]; [injection Hg as <-; rewrite elem_of_nil; split; [done|by intros (? & ? & ? & [=] & _)]|].
  cbn [gaps_from] in Hg. change (0 =? 0) with true in Hg. cbn [gaps_from] in Hg.
  apply (gaps_from_spec ids 1 caps gaps g) in Hg; [|lia]. rewrite Hg. cbn [lookup list_lookup].
  split; intros (k & cap & p & Hc & Hp & Hn & ->); exists k, cap, p; (split_and!; [done|done| |f_equal; lia]).
  - intros c Hin Hid. apply Hn, (bundle_ids_spec _ _ p Hids). split; [apply Hp|by exists c].
  - intros Hin. apply (bundle_ids_spec _ _ p Hids) in Hin as (_ & c & Hin & Hid). by apply (Hn c Hin).
Qed.

(** ** Citing an altered record *)

(** The chain of parents from [cap] within the bundle meets an altered id. *)
Inductive reaches (altered : gset string) (by_id : gmap string json) (cap : json) : Prop :=
| reaches_now p : names_parent cap p → p ∈ altered → reaches altered by_id cap
| reaches_next p cap' : names_parent cap p → by_id !! p = Some cap' → reaches altered by_id cap' → reaches altered by_id cap.

(** The visited ids: none is altered, and the chain from each leads to the
    current record or to another visited id. *)
Definition visited (altered : gset string) (by_id : gmap string json) (cur : json) (seen : gset string) : Prop :=
  ∀ s, s ∈ seen → s ∉ altered ∧ ∃ c, by_id !! s = Some c ∧ (c = cur ∨ ∃ p, names_parent c p ∧ p ∈ seen).

Lemma closed_unreached altered by_id (seen : gset string) cap p :
  (∀ s, s ∈ seen → s ∉ altered ∧ ∃ c, by_id !! s = Some c ∧ ∃ p, names_parent c p ∧ p ∈ seen) →
  names_parent cap p → p ∈ seen → ¬ reaches altered by_id cap.
Proof.
  intros Hc Hp Hs Hr. revert p Hp Hs. induction Hr as [cap q Hq Ha|cap q cap' Hq Hb _ IH]; intros p Hp Hs.
  - rewrite (names_parent_det cap q p Hq Hp) in Ha. by destruct (Hc p Hs).
  - rewrite (names_parent_det cap q p Hq Hp) in Hb. destruct (Hc p Hs) as (_ & c & E & p' & Hp' & Hs').
    rewrite Hb in E. injection E as <-. by apply (IH p').
Qed.

Lemma visited_step altered by_id cur seen p cap' :
  visited altered by_id cur seen → names_parent cur p → p ∉ altered → by_id !! p = Some cap' →
  visited altered by_id cap' ({[ p ]} ∪ seen).
Proof.
  intros Hv Hp Ha Hb s [->%elem_of_singleton|Hs]%elem_of_union; [split; [done|exists cap'; auto]|].
  destruct (Hv s Hs) as (? & c & Hc & Hnext). split; [done|]. exists c. split; [done|]. right.
  destruct Hnext as [-> |(q & Hq & Hin)]; [exists p|exists q]; (split; [done|]); set_solver.
Qed.

(** The walk, when it does not run out of fuel, is exact. *)
Lemma cites_exact fuel altered by_id cur seen b :
  visited altered by_id cur seen → cites fuel altered by_id cur seen = Ok (Some b) → b = true ↔ reaches altered by_id cur.
Proof.
  revert cur seen. induction fuel as [|fuel IH]; intros cur seen Hv; cbn [cites]; [done|].
  intros (parent & Hp & Hr)%bind_ok. destruct (hex64 parent) as [p|] eqn:Eh.
  - apply hex64_iff in Eh as [-> Hd]. assert (names_parent cur p) as Hn by done.
    case_bool_decide as Hs; [|case_bool_decide as Ha].
    + injection Hr as <-. split; [done|]. intros Hreach. exfalso. revert Hreach. apply (closed_unreached _ _ seen _ p); [|done|done].
      intros s Hin. destruct (Hv s Hin) as (? & c & Hc & Hnext). split; [done|]. exists c. split; [done|].
      destruct Hnext as [-> |Hq]; [by exists p|done].
    + injection Hr as <-. split; [|done]. intros _. by apply (reaches_now _ _ _ p).
    + destruct (by_id !! p) as [cap'|] eqn:Hb.
      * apply IH in Hr; [|by apply visited_step with (cur := cur)]. rewrite Hr. split; [by apply reaches_next with p|].
        intros [q Hq Hin|q c Hq Hc Hin].
        -- by rewrite (names_parent_det _ _ _ Hq Hn) in Hin.
        -- rewrite (names_parent_det _ _ _ Hq Hn), Hb in Hc. by injection Hc as ->.
      * injection Hr as <-. split; [done|]. intros [q Hq Hin|q c Hq Hc Hin].
        -- by rewrite (names_parent_det _ _ _ Hq Hn) in Hin.
        -- rewrite (names_parent_det _ _ _ Hq Hn) in Hc. congruence.
  - injection Hr as <-. split; [done|]. assert (∀ q, ¬ names_parent cur q) as Hno.
    { intros q [Hq Hd]. rewrite Hp in Hq. injection Hq as ->. by rewrite hex64_digest in Eh. }
    intros [q Hq _|q c Hq _ _]; by destruct (Hno q).
Qed.

(** The fuel is enough: every turn but the last adds an id of the bundle. *)
Lemma cites_fuel_enough fuel altered (by_id : gmap string json) cur seen :
  seen ⊆ dom by_id → (size (dom by_id) < fuel + size seen)%nat → cites fuel altered by_id cur seen ≠ Ok None.
Proof.
  revert cur seen. induction fuel as [|fuel IH]; intros cur seen Hs Hf; cbn [cites].
  - apply subseteq_size in Hs. lia.
  - intros (parent & Hp & Hr)%bind_ok. destruct (hex64 parent) as [p|]; [|done].
    case_bool_decide as Hin; [done|]. case_bool_decide; [done|]. destruct (by_id !! p) as [cap'|] eqn:Hb; [|done].
    revert Hr. apply IH; [apply elem_of_dom_2 in Hb; set_solver|]. rewrite size_union, size_singleton by set_solver. lia.
Qed.

Lemma by_id_size caps by_id by_id' :
  by_id_of caps by_id = Ok by_id' → (size (dom by_id') ≤ size (dom by_id) + length caps)%nat.
Proof.
  revert by_id. induction caps as [|cap caps IH]; intros by_id; cbn [by_id_of]; [intros [= <-]; cbn; lia|].
  intros (id & _ & Hr)%bind_ok. apply IH in Hr. cbn [length]. destruct (hex64 id) as [d|]; [|lia].
  rewrite dom_insert_L in Hr. pose proof (size_union_alt {[ d ]} (dom by_id)) as Hu. rewrite Hu, size_singleton in Hr.
  assert (size (dom by_id ∖ {[ d ]}) ≤ size (dom by_id))%nat by (apply subseteq_size; set_solver). lia.
Qed.

(** ** The notes *)

(** Record [cap]'s own view, at the same place, has a mismatch. *)
Definition altered_record (caps : list json) (views : list GraphView.t) (d : string) : Prop :=
  is_digest d ∧ ∃ j cap v, caps !! j = Some cap ∧ views !! j = Some v ∧ capsule_id_of cap = Ok (JStr d) ∧
    existsb mismatched (GraphView.privilege_log v) = true.

Lemma altered_from_spec caps i views ids d :
  0 ≤ i → altered_from caps i views = Ok ids →
  d ∈ ids ↔ (is_digest d ∧ ∃ j cap v, caps !! (Z.to_nat i + j)%nat = Some cap ∧ views !! j = Some v ∧
    capsule_id_of cap = Ok (JStr d) ∧ existsb mismatched (GraphView.privilege_log v) = true).
Proof.
  revert i ids. induction views as [|v views IH]; intros i ids Hi; cbn [altered_from].
  - intros [= <-]. split; [set_solver|]. by intros (_ & ? & ? & ? & _ & [=] & _).
  - intros (here & Hh & (rest & Hr & [= <-])%bind_ok)%bind_ok. specialize (IH (i + 1) rest ltac:(lia) Hr).
    rewrite elem_of_union, IH. replace (Z.to_nat (i + 1)) with (S (Z.to_nat i)) by lia.
    assert (d ∈ here ↔ (is_digest d ∧ ∃ cap, caps !! (Z.to_nat i + 0)%nat = Some cap ∧ capsule_id_of cap = Ok (JStr d) ∧
      existsb mismatched (GraphView.privilege_log v) = true)) as ->.
    { rewrite Nat.add_0_r. destruct (existsb _ _) eqn:Hm; [|injection Hh as <-; split; [set_solver|by intros (_ & ? & _ & _ & [=])]].
      destruct (caps !! Z.to_nat i) as [cap|] eqn:Hc; [|done]. apply bind_ok in Hh as (id & Hid & [= <-]).
      destruct (hex64 id) as [e|] eqn:Ee.
      - apply hex64_iff in Ee as [-> He]. rewrite elem_of_singleton. split; [intros ->; split; [done|by exists cap]|].
        intros (_ & c & [= <-] & E & _). congruence.
      - split; [set_solver|]. intros (Hd & c & [= <-] & E & _). rewrite Hid in E. injection E as ->. by rewrite hex64_digest in Ee. }
    split.
    + intros [(Hd & cap & ? & ? & ?)|(Hd & j & cap & w & ? & ? & ? & ?)]; (split; [done|]); [by exists 0%nat, cap, v|].
      exists (S j), cap, w. by rewrite Nat.add_succ_r.
    + intros (Hd & [|j] & cap & w & Hc & Hw & ? & ?); [left|right]; (split; [done|]).
      * cbn in Hw. injection Hw as <-. by exists cap.
      * exists j, cap, w. by rewrite Nat.add_succ_r in Hc.
Qed.

Lemma annotate_from_ended turns altered by_id i caps :
  (∀ i cap, annotate_one turns altered by_id i cap ≠ Ok None) → annotate_from turns altered by_id i caps ≠ Ok None.
Proof.
  intros Hone. revert i. induction caps as [|cap caps IH]; intros i; cbn [annotate_from]; [done|].
  intros ([n|] & Hn & Hr)%bind_ok; [|by destruct (Hone i cap)]. apply bind_ok in Hr as ([l|] & Hl & Hr); [done|by destruct (IH (i + 1))].
Qed.

Lemma annotate_from_notes turns altered by_id i caps notes :
  annotate_from turns altered by_id i caps = Ok (Some notes) →
  length notes = length caps ∧
  ∀ k cap n, caps !! k = Some cap → notes !! k = Some n → annotate_one turns altered by_id (i + Z.of_nat k) cap = Ok (Some n).
Proof.
  revert i notes. induction caps as [|cap caps IH]; intros i notes; cbn [annotate_from]; [by intros [= <-]|].
  intros ([n|] & Hn & Hr)%bind_ok; [|done]. apply bind_ok in Hr as ([l|] & Hl & Hr); [|done]. injection Hr as <-.
  apply IH in Hl as [Hlen Hl]. split; [cbn; lia|]. intros [|k] c m; cbn [lookup list_lookup].
  - intros [= <-] [= <-]. by rewrite Z.add_0_r.
  - intros Hc Hm. rewrite <- (Hl k c m Hc Hm). f_equal. lia.
Qed.

(** C18: the walk along the chain of parents always ends, cycles included:
    watched for any number of turns above the number of capsules, none is
    found still going. The notes, when no exception is raised by a malformed
    capsule, are exact: one per capsule, in order; a record is marked altered
    exactly when its id is that of a record whose own view has a mismatch,
    and flagged as citing an altered record exactly when it is not itself
    altered and its chain of parents within the bundle meets an altered id. *)
Theorem annotate_records_exact (turns : nat) capsules views :
  (length capsules < turns)%nat →
  annotate_records turns capsules views ≠ Ok None ∧
  ∀ notes, annotate_records turns capsules views = Ok (Some notes) →
  length notes = length capsules ∧
  ∃ by_id : gmap string json, by_id_of (_unwrap <$> capsules) ∅ = Ok by_id ∧
  ∃ altered : gset string, (∀ d, d ∈ altered ↔ altered_record (_unwrap <$> capsules) views d) ∧
  ∀ i cap n, (_unwrap <$> capsules) !! i = Some cap → notes !! i = Some n →
    RecordNote.index n = Z.of_nat i ∧
    (RecordNote.is_altered n = true ↔ ∃ d, capsule_id_of cap = Ok (JStr d) ∧ d ∈ altered) ∧
    (RecordNote.cites_altered n = true ↔ RecordNote.is_altered n = false ∧ reaches altered by_id cap).
Proof.
  intros Hturns. unfold annotate_records. split.
  - intros (altered & _ & (by_id & Hb & Hn)%bind_ok)%bind_ok. revert Hn. apply annotate_from_ended. intros i cap.
    intros (cid & _ & ([] & _ & E)%bind_ok)%bind_ok. case_match; [done|].
    apply bind_ok in E as ([c|] & Hc & E); [done|]. revert Hc. apply cites_fuel_enough; [set_solver|].
    apply by_id_size in Hb. rewrite dom_empty_L, size_empty, length_fmap in Hb. rewrite size_empty. lia.
  - intros notes (altered & Ha & (by_id & Hb & [Hlen Hn]%annotate_from_notes)%bind_ok)%bind_ok.
    split; [by rewrite Hlen, length_fmap|]. exists by_id. split; [done|]. exists altered.
    split; [intros d; by apply (altered_from_spec _ 0 views)|]. intros i cap n Hc Hi.
    specialize (Hn i cap n Hc Hi). apply bind_ok in Hn as (cid & Hid & E). apply bind_ok in E as ([] & _ & E). rewrite Hid.
    destruct (match cid with JStr d => bool_decide (d ∈ altered) | _ => false end) eqn:Hal.
    + injection E as <-. cbn. destruct cid; try done. apply bool_decide_eq_true_1 in Hal. split_and!; [done| |by split; [|intros []]].
      split; [by eauto|done].
    + apply bind_ok in E as ([c|] & Hcite & E); [|done]. injection E as <-. cbn.
      apply cites_exact in Hcite; [|intros s; set_solver]. split_and!; [done| |by rewrite Hcite; split; [|intros []]].
      split; [done|]. intros (d & [= ->] & Hd). by rewrite bool_decide_eq_true_2 in Hal.
Qed.

(** ** The stages *)

Context `{Sha256} `{Cbor} `{Crypto}.

(** Some logged verdict is a mismatch. *)
Definition some_mismatch (views : list GraphView.t) : Prop :=
  ∃ v e, v ∈ views ∧ e ∈ GraphView.privilege_log v ∧ PrivilegeLogEntry.match_ok e = Some false.

Lemma mismatches_elem views e :
  e ∈ mismatches views ↔ ∃ v, v ∈ views ∧ e ∈ GraphView.privilege_log v ∧ PrivilegeLogEntry.match_ok e = Some false.
Proof.
  unfold mismatches. rewrite list_elem_of_filter, list_elem_of_In, in_concat.
  assert (mismatched e = true ↔ PrivilegeLogEntry.match_ok e = Some false) as ->
    by (unfold mismatched; by destruct (PrivilegeLogEntry.match_ok e) as [[]|]).
  split.
  - intros (Hm & log & Hl%list_elem_of_In & He%list_elem_of_In). apply list_elem_of_fmap in Hl as (v & -> & Hv). by exists v.
  - intros (v & Hv & He & Hm). split; [done|]. exists (GraphView.privilege_log v). rewrite <- !list_elem_of_In.
    split; [by apply list_elem_of_fmap_2|done].
Qed.

Lemma mismatches_nil views : mismatches views = [] ↔ ¬ some_mismatch views.
Proof.
  unfold some_mismatch. split.
  - intros E (v & e & He). assert (e ∈ mismatches views) as Hin by (apply mismatches_elem; by exists v).
    rewrite E in Hin. by apply elem_of_nil in Hin.
  - intros Hn. destruct (mismatches views) as [|e l] eqn:E; [done|]. destruct Hn.
    assert (e ∈ mismatches views) as (v & ?)%mismatches_elem by (rewrite E; left). by exists v, e.
Qed.

(** The statements the bundle's sidecars carry. *)
Definition sidecars (capsules : list json) : list json :=
  filter (fun sc => json_truthy sc = true)
    (omap (fun c => match c with JObj d => Some (get d "signed_statement") | _ => None end) capsules).

Lemma authenticity_status capsules st :
  _check_authenticity capsules = Ok st →
  RitualStage.name st = "Authenticity"%string ∧
  (RitualStage.status st = "fail"%string ∧ (∃ sc, sc ∈ sidecars capsules ∧ sidecar_verifies sc = false) ∨
   RitualStage.status st = "skip"%string ∧ ∀ sc, sc ∈ sidecars capsules → sidecar_verifies sc = true).
Proof.
  unfold _check_authenticity. intros (found & Hf & [= <-])%bind_ok.
  assert (filter (fun sc => json_truthy sc = true) found = sidecars capsules) as ->.
  { unfold sidecars. f_equal. apply mapM_ok in Hf. induction Hf as [|c v l k Hc _ IH]; [done|]. cbn [omap list_omap].
    destruct c; try done. injection Hc as <-. by rewrite IH. }
  destruct (sidecars capsules) as [|sc l] eqn:E; [split; [done|right; split; [done|by intros ? ?%elem_of_nil]]|].
  destruct (forallb sidecar_verifies (sc :: l)) eqn:Hall; cbn [RitualStage.name RitualStage.status]; (split; [done|]).
  - right. split; [done|]. rewrite forallb_forall in Hall. intros x Hx. by apply Hall, list_elem_of_In.
  - left. split; [done|]. apply not_true_iff_false in Hall. rewrite forallb_forall in Hall.
    destruct (existsb (fun x => negb (sidecar_verifies x)) (sc :: l)) eqn:Hex.
    + apply existsb_exists in Hex as (x & Hx & Hv). exists x. split; [by apply list_elem_of_In|by apply negb_true_iff].
    + destruct Hall. intros x Hx. destruct (sidecar_verifies x) eqn:Hv; [done|].
      rewrite <- not_true_iff_false, existsb_exists in Hex. destruct Hex. exists x. by rewrite Hv.
Qed.

Lemma witness_status w st :
  _check_witness w = Ok st →
  RitualStage.name st = "Witness"%string ∧
  (RitualStage.status st = "fail"%string ↔ ∃ d, w = Some d ∧ get d "verified" = JBool false) ∧
  (RitualStage.status st = "pass"%string ↔ ∃ d, w = Some d ∧ get d "verified" ≠ JBool false ∧ get d "reachable" ≠ JBool false ∧
     py_lt (get_or d "held" (JInt 0)) (py_or (py_or (get d "configured") (get_or d "held" (JInt 0))) (JInt 1)) = Ok false).
Proof.
  unfold _check_witness. destruct w as [d|]; [|intros [= <-]; split_and!; [done|..]; by split; [|intros (? & [=] & _)]].
  assert (get d "verified" = JBool false ∨ get d "verified" ≠ JBool false) as [Hv|Hv]
    by (destruct (get d "verified") as [|[]| | | | |]; auto; by right).
  { rewrite Hv. intros [= <-]. split_and!; [done| |].
    - split; [by exists d|done].
    - split; [done|]. by intros (? & [= <-] & ? & _). }
  assert (get d "reachable" = JBool false ∨ get d "reachable" ≠ JBool false) as [Hr|Hr]
    by (destruct (get d "reachable") as [|[]| | | | |]; auto; by right).
  - rewrite Hr. intros E. assert (RitualStage.name st = "Witness"%string ∧ RitualStage.status st = "skip"%string) as [-> ->]
      by (destruct (get d "verified") as [|[]| | | | |]; by try injection E as <-).
    split_and!; [done|..]; [by split; [|intros (? & [= <-] & ?)]|]. split; [done|]. by intros (? & [= <-] & _ & ? & _).
  - intros E. assert (∃ words short, py_lt (get_or d "held" (JInt 0)) (py_or (py_or (get d "configured") (get_or d "held" (JInt 0))) (JInt 1)) = Ok short ∧
      RitualStage.name st = "Witness"%string ∧ _witness_grade_words (get d "receipt_grades") = Ok words ∧
      RitualStage.status st = if (short : bool) then "skip"%string else "pass"%string) as (words & short & Hs & -> & _ & ->).
    { destruct (get d "verified") as [|[]| | | | |]; try done; destruct (get d "reachable") as [|[]| | | | |]; try done;
        apply bind_ok in E as (words & Hw & E); apply bind_ok in E as (short & Hs & [= <-]);
        exists words, short; by destruct short. }
    split_and!; [done| |].
    + split; [by destruct short|by intros (? & [= <-] & ?)].
    + destruct short; (split; [try done|]); [|intros _; by exists d|done].
      intros (? & [= <-] & _ & _ & Hs'). congruence.
Qed.

Lemma sequence_status capsules finding st finding' :
  sequence capsules finding = Ok (st, finding') →
  RitualStage.name st = "Sequence"%string ∧
  ∃ gaps, find_chain_gaps capsules = Ok gaps ∧
    RitualStage.status st = (match gaps with [] => "pass" | _ => "fail" end)%string ∧
    (match finding, gaps with
     | Some f, _ => finding' = Some f
     | None, [] => finding' = None
     | None, _ => ∃ f, finding' = Some f ∧ Finding.code f = "chain_gap"%string
     end).
Proof.
  unfold sequence. intros (gaps & Hg & Hr)%bind_ok. destruct gaps as [|g gaps].
  - injection Hr as <- <-. split; [done|]. exists []. split_and!; [done|done|]. by destruct finding.
  - apply bind_ok in Hr as (a & _ & Hr). apply bind_ok in Hr as (b & _ & Hr).
    destruct finding as [f|]; [injection Hr as <- <-|apply bind_ok in Hr as (x & _ & Hr); apply bind_ok in Hr as (y & _ & Hr); injection Hr as <- <-];
      (split; [done|]); exists (g :: gaps); split_and!; try done. by eexists.
Qed.

(** C20: the ritual reports the four stages in order. Integrity fails exactly
    when some revealed artifact does not match its digest, Sequence exactly
    when a chain gap was found; Authenticity is never a pass and fails exactly
    when some signed statement of the bundle does not verify; Witness fails
    exactly on an explicit [verified: false] and passes exactly when neither
    [verified] nor [reachable] is [false] and the held count is not below the
    configured one ([held] itself when none is configured, [1] when that is
    nothing too); Integrity and Sequence pass when they do not fail; there is
    a finding exactly when Integrity or Sequence failed, and a digest mismatch
    takes precedence. *)
Theorem ritual_stages capsules views witness s :
  evaluate_ritual capsules views witness = Ok s →
  ∃ integrity sequence authenticity witnessed gaps,
    RitualSummary.stages s = [integrity; sequence; authenticity; witnessed] ∧
    RitualStage.name <$> RitualSummary.stages s = ["Integrity"; "Sequence"; "Authenticity"; "Witness"]%string ∧
    (RitualStage.status integrity = "fail"%string ↔ some_mismatch views) ∧
    (RitualStage.status integrity = "pass"%string ↔ ¬ some_mismatch views) ∧
    find_chain_gaps capsules = Ok gaps ∧ (RitualStage.status sequence = "fail"%string ↔ gaps ≠ []) ∧
    (RitualStage.status sequence = "pass"%string ↔ gaps = []) ∧
    RitualStage.status authenticity ≠ "pass"%string ∧
    (RitualStage.status authenticity = "fail"%string ↔ ∃ sc, sc ∈ sidecars capsules ∧ sidecar_verifies sc = false) ∧
    (RitualStage.status witnessed = "fail"%string ↔ ∃ d, witness = Some d ∧ get d "verified" = JBool false) ∧
    (RitualStage.status witnessed = "pass"%string ↔ ∃ d, witness = Some d ∧
       get d "verified" ≠ JBool false ∧ get d "reachable" ≠ JBool false ∧
       py_lt (get_or d "held" (JInt 0)) (py_or (py_or (get d "configured") (get_or d "held" (JInt 0))) (JInt 1)) = Ok false) ∧
    (RitualSummary.finding s = None ↔ ¬ some_mismatch views ∧ gaps = []) ∧
    (some_mismatch views → ∃ f, RitualSummary.finding s = Some f ∧ Finding.code f = "digest_mismatch"%string).
Proof.
  unfold evaluate_ritual. destruct (integrity views) as [st0 f0] eqn:E0.
  assert (RitualStage.name st0 = "Integrity"%string ∧ (RitualStage.status st0 = "fail"%string ↔ some_mismatch views) ∧
    (RitualStage.status st0 = "pass"%string ↔ ¬ some_mismatch views) ∧
    ((¬ some_mismatch views ∧ f0 = None) ∨ (some_mismatch views ∧ ∃ f, f0 = Some f ∧ Finding.code f = "digest_mismatch"%string)))
    as (N0 & S0 & P0 & F0).
  { unfold integrity in E0. destruct (mismatches views) as [|e l] eqn:Em.
    - apply mismatches_nil in Em. injection E0 as <- <-. split_and!; [done|by split|by split|by left].
    - assert (some_mismatch views) as Hm.
      { assert (e ∈ mismatches views) as (v & ?)%mismatches_elem by (rewrite Em; left). by exists v, e. }
      injection E0 as <- <-. split_and!; [done|by split|by split|right]. split; [done|]. by eexists. }
  intros ([st1 f1] & (N1 & gaps & Hg & S1 & F1)%sequence_status & Hr)%bind_ok.
  apply bind_ok in Hr as (st2 & (N2 & S2)%authenticity_status & Hr). apply bind_ok in Hr as (st3 & (N3 & S3 & P3)%witness_status & [= <-]).
  exists st0, st1, st2, st3, gaps. cbn. rewrite N0, N1, N2, N3, S1. split_and!; try done.
  - by destruct gaps; split.
  - by destruct gaps; split.
  - by destruct S2 as [[-> _]|[-> _]].
  - destruct S2 as [[-> ?]|[-> Hall]]; [by split|split; [done|]]. intros (sc & Hin & Hf). rewrite Hall in Hf; done.
  - destruct F0 as [[Hn ->]|(Hm & f & -> & _)]; [|subst; split; [done|by intros []]].
    destruct gaps; [by split|]. destruct F1 as (f & -> & _). by split; [|intros []].
  - intros Hm. destruct F0 as [[Hn _]|(_ & f & -> & Hf)]; [done|]. by exists f.
Qed.

(** A bundle whose records name no parent at all passes the Sequence
    stage, whose text says that every record names the one before it. *)
Theorem sequence_pass_unlinked capsules finding :
  Forall (fun c => ∃ d, _unwrap c = JObj d ∧ get d "chain" = JNull) capsules →
  sequence capsules finding =
    Ok (RitualStage.Build_t "Sequence" "pass" "unbroken — every record names the one before it", finding).
Proof.
  intros Hall. unfold sequence, find_chain_gaps.
  assert (∀ caps : list json, Forall (fun c => ∃ d, c = JObj d ∧ get d "chain" = JNull) caps →
    (∃ ids, bundle_ids caps = Ok ids) ∧ ∀ ids i, gaps_from ids i caps = Ok []) as Hgen.
  { induction 1 as [|c caps (d & -> & Hd) _ [[ids IH1] IH2]]; [split; [by exists ∅|done]|]. split.
    - unfold bundle_ids in *. cbn. destruct (mapM capsule_id_of caps); [by eexists|done].
    - intros ids' i. cbn [gaps_from]. destruct (i =? 0); [apply IH2|]. unfold parent_of, object_or_empty. cbn. rewrite Hd. cbn.
      by rewrite IH2. }
  destruct (Hgen (_unwrap <$> capsules)) as [[ids ->] Hg]; [by apply Forall_fmap|]. cbn. by rewrite Hg.
Qed.
End ritual.
