(* ===== verification/Receipt.v ===== *)
(** * COSE Receipts: the operations of [scitt_cose/receipt.py]

    Building a receipt, decoding its inclusion proofs, the CCF proof walk and
    the verifier with its error reports.  Definitions only; [ReceiptProof]
    proves what they promise. *)

From S2P Require Import Prelude PyRuntime Sha256 Merkle EncodingRule Cbor Crypto CoseSign1.

Definition HDR_VDS : pyval := VInt 395.
Definition HDR_VDP : pyval := VInt 396.
Definition VDS_RFC9162_SHA256 : Z := 1.
Definition VDS_CCF_LEDGER_SHA256 : Z := 2.
Definition VDP_INCLUSION_PROOFS : pyval := VInt (-1).
Definition _MAX_INCLUSION_PROOFS : Z := 16.
Definition HDR_CWT_CLAIMS : pyval := VInt 15.
Definition CWT_CLAIM_IAT : pyval := VInt 6.
Definition CWT_CLAIM_ISS : pyval := VInt 1.
Definition CWT_CLAIM_SUB : pyval := VInt 2.
Definition HDR_KID : pyval := VInt 4.
Definition HDR_GRADE : pyval := VInt (-65537).
Definition _RECEIPT_UNDERSTOOD : list pyval := [HDR_ALG; HDR_CRIT; HDR_VDS; HDR_CWT_CLAIMS].
Definition _CCF_RECEIPT_UNDERSTOOD : list pyval := _RECEIPT_UNDERSTOOD ++ [VInt 4; VStr "ccf.v1"].
Definition _MAX_AUDIT_PATH : Z := 64.

(** An f-string with its interpolated values. *)
Definition text (template : string) : msg := Msg template [].

Definition _CLAIMS_WITHHELD : msg :=
  text "protected header claims withheld (iat/iss/sub/protected_header_ext): receipt signature did not verify".

Record ReceiptResult := {
  ok : bool;
  root : option string;
  tree_size : option Z;
  leaf_index : option Z;
  errors : list msg;
  iat : option Z;
  issuer : option string;
  subject : option string;
  protected_header_ext : dict;
  failed_at : option string }.

(** [ReceiptResult()] with one error appended. *)
Definition rejected (error : msg) : ReceiptResult :=
  {| ok := false; root := None; tree_size := None; leaf_index := None; errors := [error];
     iat := None; issuer := None; subject := None; protected_header_ext := []; failed_at := None |}.

(** The result after a failed signature step. *)
Definition unverified (diagnostic : option (option Z * option Z * string)) (last_error : msg_arg) : ReceiptResult :=
  {| ok := false;
     root := snd <$> diagnostic;
     tree_size := diagnostic ≫= (fun d => d.1.1); leaf_index := diagnostic ≫= (fun d => d.1.2);
     errors := [Msg "receipt signature did not verify: {last_error}" [last_error]; _CLAIMS_WITHHELD];
     iat := None; issuer := None; subject := None; protected_header_ext := [];
     failed_at := match diagnostic with Some _ => Some "signature"%string | None => None end |}.

(** ** Early returns

    [inl e] stands for [result.errors.append(e); return result] while the
    result is still the fresh one, [inr a] for going on with [a]. *)
Definition checked (A : Type) : Type := result (msg + A).

Definition proceed {A B} (m : checked A) (f : A → checked B) : checked B :=
  match m with
  | Ok (inr a) => f a
  | Ok (inl e) => Ok (inl e)
  | Raise e => Raise e
  end.
Notation "x '⇐' m ';' k" := (proceed m (fun x => k)) (at level 20, m at level 100, k at level 200, right associativity).

Definition pass {A} (a : A) : checked A := Ok (inr a).
Definition stop {A} (e : msg) : checked A := Ok (inl e).

(** [try: m except CoseError as exc: errors.append(h(exc)); return result] *)
Definition or_cose {A} (m : result A) (h : msg → msg) : checked A :=
  match m with Ok a => pass a | Raise (CoseError e) => stop (h e) | Raise e => Raise e end.

(** The same for [except Exception]. *)
Definition or_exception {A} (m : result A) (h : exn → msg) : checked A :=
  match m with Ok a => pass a | Raise e => stop (h e) end.

Definition receipt_rejected (exc : msg) : msg := Msg "receipt rejected: {exc}" [AMsg exc].

Section receipt.
Context `{Sha256} `{Cbor} `{Crypto}.

Definition _encode_inclusion_proof (tree_size leaf_index : Z) (audit_path_hex : list string) : result bytes :=
  path ← mapM fromhex audit_path_hex;
  cbor_dumps (VList false [VInt tree_size; VInt leaf_index; VList false (VBytes <$> path)]).

(** The loop over the path elements of [_decode_inclusion_proof]. *)
Fixpoint path_nodes (path : list pyval) : result (list bytes) :=
  match path with
  | [] => Ok []
  | VBytes node :: path => nodes ← path_nodes path; Ok (node :: nodes)
  | _ :: _ => Raise (cose "inclusion proof path element is not a byte string" [])
  end.

Definition _decode_inclusion_proof (blob : bytes) : result (Z * Z * list string) :=
  '(arr, rest) ← rethrow (cbor_decode blob)
    (fun exc => cose "inclusion proof is not valid CBOR: {type(exc).__name__}" [AStr (exn_name exc)]);
  if negb (bool_decide (rest = [])) then Raise (cose "inclusion proof contains trailing CBOR bytes" []) else
  match _plain arr with
  | VList _ [tree_size; leaf_index; path] =>
      match tree_size with
      | VInt tree_size =>
          match leaf_index with
          | VInt leaf_index =>
              match path with
              | VList _ path =>
                  if zlen path >? _MAX_AUDIT_PATH
                  then Raise (cose "inclusion proof path too long ({len(path)} > {_MAX_AUDIT_PATH})" [AInt (zlen path); AInt _MAX_AUDIT_PATH])
                  else
                    nodes ← path_nodes path;
                    if negb ((0 <=? leaf_index) && (leaf_index <? tree_size)) || (tree_size >? MAX_TREE_SIZE)
                    then Raise (cose "invalid tree size or leaf index" [])
                    else if negb (zlen path =? _expected_inclusion_path_len tree_size leaf_index)
                    then Raise (cose "invalid inclusion proof path length" [])
                    else if existsb (fun node => negb (zlen node =? 32)) nodes
                    then Raise (cose "inclusion proof path node must be 32 bytes" [])
                    else Ok (tree_size, leaf_index, hex <$> nodes)
              | _ => Raise (cose "inclusion proof path must be an array" [])
              end
          | _ => Raise (cose "inclusion proof leaf_index must be an int" [])
          end
      | _ => Raise (cose "inclusion proof tree_size must be an int" [])
      end
  | _ => Raise (cose "inclusion proof must be [tree_size, leaf_index, [path]]" [])
  end.

(** The loop over the path of [_verify_ccf_v1_proof]. *)
Fixpoint ccf_fold (accumulator : bytes) (path : list pyval) : result bytes :=
  match path with
  | [] => Ok accumulator
  | VList _ [left_; sibling] :: path =>
      match left_, sibling with
      | VBool left_, VBytes sibling =>
          if negb (zlen sibling =? 32) then Raise (cose "CCF proof path sibling must be 32 bytes" [])
          else ccf_fold (if left_ then sha256 (sibling ++ accumulator) else sha256 (accumulator ++ sibling)) path
      | VBool _, _ => Raise (cose "CCF proof path sibling must be 32 bytes" [])
      | _, _ => Raise (cose "CCF proof path step left must be a bool" [])
      end
  | _ :: _ => Raise (cose "CCF proof path step must be [left: bool, hash: bytes]" [])
  end.

Definition _verify_ccf_v1_proof (proof_blob claim_digest : bytes) : result bytes :=
  proof ← rethrow (cbor_loads proof_blob)
    (fun exc => cose "CCF proof is not valid CBOR: {type(exc).__name__}" [AStr (exn_name exc)]);
  match _plain proof with
  | VDict false proof =>
      match dict_get proof (VInt 1) with
      | Some (VList _ [write_set_digest; ce_string; proof_claim_digest]) =>
          write_set_digest ← (match write_set_digest with
            | VBytes b => if zlen b =? 32 then Ok b else Raise (cose "CCF proof write_set_digest must be 32 bytes" [])
            | _ => Raise (cose "CCF proof write_set_digest must be 32 bytes" []) end);
          ce_string ← (match ce_string with
            | VStr s => Ok s | _ => Raise (cose "CCF proof ce_string must be a text string" []) end);
          proof_claim_digest ← (match proof_claim_digest with
            | VBytes b => if zlen b =? 32 then Ok b else Raise (cose "CCF proof claim_digest must be 32 bytes" [])
            | _ => Raise (cose "CCF proof claim_digest must be 32 bytes" []) end);
          if bool_decide (proof_claim_digest ≠ claim_digest)
          then Raise (cose "CCF proof claim_digest does not match the supplied leaf_entry_hex" [])
          else
            ce_octets ← py_encode ce_string;
            let accumulator := sha256 (write_set_digest ++ sha256 ce_octets ++ proof_claim_digest) in
            match (match dict_get proof (VInt 2) with Some path => path | None => VList false [] end) with
            | VList _ path =>
                if zlen path >? _MAX_AUDIT_PATH
                then Raise (cose "CCF proof path too long ({len(path)} > {_MAX_AUDIT_PATH})" [AInt (zlen path); AInt _MAX_AUDIT_PATH])
                else ccf_fold accumulator path
            | _ => Raise (cose "CCF proof path (key 2) must be an array" [])
            end
      | _ => Raise (cose "CCF proof leaf (key 1) must be a 3-element array" [])
      end
  | _ => Raise (cose "CCF proof must be a CBOR map (keys 1 and 2)" [])
  end.

(** The claims and the protected header [build_receipt] signs. *)
Definition receipt_claims (iss sub : option string) (iat : option Z) : dict :=
  match iss with Some iss => [(CWT_CLAIM_ISS, VStr iss)] | None => [] end ++
  match sub with Some sub => [(CWT_CLAIM_SUB, VStr sub)] | None => [] end ++
  match iat with Some iat => [(CWT_CLAIM_IAT, VInt iat)] | None => [] end.

Definition receipt_protected (iss sub : option string) (iat : option Z) (grade : option string) (kid : option bytes) : dict :=
  [(HDR_VDS, VInt VDS_RFC9162_SHA256)] ++
  match receipt_claims iss sub iat with [] => [] | claims => [(HDR_CWT_CLAIMS, VDict false claims)] end ++
  match grade with Some grade => [(HDR_GRADE, VStr grade)] | None => [] end ++
  match kid with Some kid => [(HDR_KID, VBytes kid)] | None => [] end.

Definition build_receipt (leaf_entry_hex : string) (leaf_index : Z) (tree_entries_hex : list string) (alg : string)
    (log_private_key_pem : PemLike) (detached : bool) (iss sub : option string) (kid : option bytes)
    (iat : option Z) (grade : option string) : result bytes :=
  if negb ((0 <=? leaf_index) && (leaf_index <? zlen tree_entries_hex))
  then Raise (cose "leaf_index {leaf_index} out of range for {len(tree_entries_hex)} entries" [AInt leaf_index; AInt (zlen tree_entries_hex)])
  else if bool_decide (tree_entries_hex !! Z.to_nat leaf_index ≠ Some leaf_entry_hex)
  then Raise (cose "leaf_entry_hex does not match tree_entries_hex[leaf_index]" [])
  else if negb detached then Raise (cose "a receipt's payload must be detached" [])
  else
    root_hex ← merkle_root tree_entries_hex;
    audit_path ← inclusion_proof tree_entries_hex leaf_index;
    inclusion_blob ← _encode_inclusion_proof (zlen tree_entries_hex) leaf_index audit_path;
    payload ← fromhex root_hex;
    sign_sign1 payload alg log_private_key_pem (Some (receipt_protected iss sub iat grade kid))
      (Some [(HDR_VDP, VDict false [(VDP_INCLUSION_PROOFS, VList false [VBytes inclusion_blob])])]) true.

(** ** The verifier *)

(** What the dispatch on the data structure needs of a receipt. *)
Record headers := { protected : dict; vds : option Z; inclusion_proofs : list bytes }.

(** The loop that checks every proof entry. *)
Fixpoint check_proofs (proofs : list pyval) : checked (list bytes) :=
  match proofs with
  | [] => pass []
  | VBytes proof :: proofs =>
      _ ⇐ or_cose (check proof "an inclusion proof" false) receipt_rejected;
      checked_proofs ⇐ check_proofs proofs;
      pass (proof :: checked_proofs)
  | _ :: _ => stop (text "inclusion proof entry is not a byte string")
  end.

(** [{}] for an empty protected header. *)
Definition loads_protected (protected_bstr : bytes) : checked pyval :=
  match protected_bstr with
  | [] => pass (VDict false [])
  | _ => or_exception (v ← cbor_loads protected_bstr; Ok (_plain v))
           (fun exc => Msg "protected header is not valid CBOR ({type(exc).__name__})" [AStr (exn_name exc)])
  end.

(** The part of [_verify_receipt] before the dispatch on [vds]. *)
Definition receipt_headers (receipt : bytes) : checked headers :=
  outer ⇐ or_cose (strict_decode receipt) receipt_rejected;
  match outer with
  | (tag, VList _ [protected_bstr; unprotected; payload_slot; _]) =>
      if negb (tag =? COSE_SIGN1_TAG) then stop (text "receipt is not a COSE_Sign1 message")
      else match payload_slot with
      | VNone =>
          _ ⇐ or_cose (check receipt "the receipt" true) receipt_rejected;
          match protected_bstr with
          | VBytes protected_bstr =>
              _ ⇐ (match protected_bstr with
                   | [] => pass ()
                   | _ => or_cose (check protected_bstr "the protected header" false) receipt_rejected
                   end);
              protected ⇐ loads_protected protected_bstr;
              match protected with
              | VDict false protected =>
                  let vds := match dict_get protected HDR_VDS with Some (VInt vds) => Some vds | _ => None end in
                  _ ⇐ or_cose (_check_critical_headers protected
                        (if bool_decide (vds = Some VDS_CCF_LEDGER_SHA256) then _CCF_RECEIPT_UNDERSTOOD else _RECEIPT_UNDERSTOOD))
                      (fun exc => exc);
                  if negb (dict_mem protected HDR_ALG) then stop (text "protected header missing alg (label 1)")
                  else match _plain unprotected with
                  | VDict false unprotected =>
                      match dict_get unprotected HDR_VDP with
                      | Some (VDict false vdp) =>
                          match dict_get vdp VDP_INCLUSION_PROOFS with
                          | Some (VList _ ((_ :: _) as proofs)) =>
                              if zlen proofs >? _MAX_INCLUSION_PROOFS
                              then stop (Msg "too many inclusion proofs ({len(inclusion_proofs)} > {_MAX_INCLUSION_PROOFS})"
                                           [AInt (zlen proofs); AInt _MAX_INCLUSION_PROOFS])
                              else
                                inclusion_proofs ⇐ check_proofs proofs;
                                pass {| protected := protected; vds := vds; inclusion_proofs := inclusion_proofs |}
                          | _ => stop (text "vdp has no inclusion proofs (key -1)")
                          end
                      | _ => stop (text "unprotected vdp (label 396) missing or not a map")
                      end
                  | _ => stop (text "unprotected header is not a map")
                  end
              | _ => stop (text "protected header is not a map")
              end
          | _ => stop (text "protected header is not a byte string")
          end
      | _ => stop (text "receipt payload is attached; a receipt's payload must be detached")
      end
  | _ => stop (text "receipt is not a COSE_Sign1 message")
  end.

(** [_reconstruct_root] *)
Definition _reconstruct_root (leaf_entry_hex : string) (leaf_index tree_size : Z) (audit_path_hex : list string) :
    result (option string) :=
  root_from_inclusion_proof leaf_entry_hex leaf_index tree_size audit_path_hex.

(** How the loop over the candidates ends: one verified, one could not be
    evaluated, or none verified. *)
Inductive attempt : Type :=
| Verified (tree_size leaf_index : Z) (root : string)
| NotEvaluated (exc : exn)
| Exhausted (last_error : msg_arg) (diagnostic : option (option Z * option Z * string)).

Fixpoint try_candidates (receipt : bytes) (leaf_entry_hex : string) (log_public_key_pem : PemLike)
    (candidates : list (Z * Z * list string)) (last_error : msg_arg)
    (diagnostic : option (option Z * option Z * string)) : result attempt :=
  match candidates with
  | [] => Ok (Exhausted last_error diagnostic)
  | (tree_size, leaf_index, audit_path_hex) :: candidates =>
      match _reconstruct_root leaf_entry_hex leaf_index tree_size audit_path_hex with
      | Raise exc => Ok (NotEvaluated exc)
      | Ok None => try_candidates receipt leaf_entry_hex log_public_key_pem candidates last_error diagnostic
      | Ok (Some reconstructed) =>
          let diagnostic :=
            match diagnostic with None => Some (Some tree_size, Some leaf_index, reconstructed) | _ => diagnostic end in
          payload ← fromhex reconstructed;
          match verify_sign1 receipt log_public_key_pem (Some payload) _RECEIPT_UNDERSTOOD with
          | Ok _ => Ok (Verified tree_size leaf_index reconstructed)
          | Raise (CoseError exc) =>
              try_candidates receipt leaf_entry_hex log_public_key_pem candidates (AMsg exc) diagnostic
          | Raise e => Raise e
          end
      end
  end.

Definition _KNOWN_PROTECTED : list pyval := [HDR_ALG; HDR_CRIT; HDR_VDS; HDR_CWT_CLAIMS].

(** The claims of a verified receipt, from its protected header. *)
Definition accepted (protected : dict) (tree_size leaf_index : option Z) (root : string) : ReceiptResult :=
  let cwt_claims := match dict_get protected HDR_CWT_CLAIMS with Some (VDict false claims) => claims | _ => [] end in
  {| ok := true; root := Some root; tree_size := tree_size; leaf_index := leaf_index; errors := [];
     iat := match dict_get cwt_claims CWT_CLAIM_IAT with
            | Some (VInt iat) => if (- 2 ^ 63 <=? iat) && (iat <? 2 ^ 63) then Some iat else None
            | _ => None
            end;
     issuer := match dict_get cwt_claims CWT_CLAIM_ISS with Some (VStr iss) => Some iss | _ => None end;
     subject := match dict_get cwt_claims CWT_CLAIM_SUB with Some (VStr sub) => Some sub | _ => None end;
     protected_header_ext := filter (fun kv => existsb (fun u => key_eq kv.1 u) _KNOWN_PROTECTED = false) protected;
     failed_at := None |}.

(** The [vds == 1] branch. *)
Definition verify_rfc9162 (receipt : bytes) (leaf_entry_hex : string) (log_public_key_pem : PemLike) (h : headers) :
    result ReceiptResult :=
  candidates ← or_cose (mapM _decode_inclusion_proof (inclusion_proofs h)) (fun exc => exc);
  match candidates with
  | inl error => Ok (rejected error)
  | inr candidates =>
      attempt ← try_candidates receipt leaf_entry_hex log_public_key_pem candidates (AVal VNone) None;
      match attempt with
      | Verified tree_size leaf_index root => Ok (accepted (protected h) (Some tree_size) (Some leaf_index) root)
      | NotEvaluated exc => Ok (rejected (Msg "inclusion proof could not be evaluated: {type(exc).__name__}" [AStr (exn_name exc)]))
      | Exhausted last_error diagnostic => Ok (unverified diagnostic last_error)
      end
  end.

(** The [vds == 2] branch. *)
Definition verify_ccf (receipt : bytes) (leaf_entry_hex : string) (log_public_key_pem : PemLike) (h : headers) :
    result ReceiptResult :=
  match fromhex leaf_entry_hex with
  | Raise (ValueError exc) => Ok (rejected (Msg "leaf_entry_hex is not valid hex: {exc}" [AMsg exc]))
  | Raise e => Raise e
  | Ok claim_digest =>
      match inclusion_proofs h with
      | [] => Raise (IndexError (text "list index out of range"))
      | first_proof :: _ =>
          match _verify_ccf_v1_proof first_proof claim_digest with
          | Raise (CoseError exc) => Ok (rejected exc)
          | Raise e => Raise e
          | Ok root_bytes =>
              match verify_sign1 receipt log_public_key_pem (Some root_bytes) _CCF_RECEIPT_UNDERSTOOD with
              | Ok _ => Ok (accepted (protected h) None None (hex root_bytes))
              | Raise (CoseError exc) => Ok (unverified (Some (None, None, hex root_bytes)) (AMsg exc))
              | Raise e => Raise e
              end
          end
      end
  end.

Definition _verify_receipt (receipt : bytes) (leaf_entry_hex : string) (log_public_key_pem : PemLike) : result ReceiptResult :=
  h ← receipt_headers receipt;
  match h with
  | inl error => Ok (rejected error)
  | inr h =>
      match vds h with
      | Some 1 => verify_rfc9162 receipt leaf_entry_hex log_public_key_pem h
      | Some 2 => verify_ccf receipt leaf_entry_hex log_public_key_pem h
      | _ => Ok (rejected (text "unsupported verifiable data structure (protected label 395); expected RFC9162_SHA256 (vds=1) or CCF_LEDGER_SHA256 (vds=2)"))
      end
  end.

(** [if not result.ok and result.failed_at is None: result.failed_at = "structure"] *)
Definition verify_receipt (receipt : bytes) (leaf_entry_hex : string) (log_public_key_pem : PemLike) : result ReceiptResult :=
  r ← _verify_receipt receipt leaf_entry_hex log_public_key_pem;
  Ok (if negb (ok r) && bool_decide (failed_at r = None)
      then {| ok := ok r; root := root r; tree_size := tree_size r; leaf_index := leaf_index r; errors := errors r;
              iat := iat r; issuer := issuer r; subject := subject r;
              protected_header_ext := protected_header_ext r; failed_at := Some "structure"%string |}
      else r).
End receipt.
