(* ===== verification/ReceiptProof.v ===== *)
(** * What [verify_receipt] promises

    The shape of every result, totality, what acceptance entails for the leaf
    and for the surfaced claims, and that built receipts verify. *)

From S2P Require Import Prelude PyRuntime Sha256 Merkle MerkleTree MerkleInclusion EncodingRule EncodingRuleProof Cbor Crypto CoseSign1 CoseSign1Proof CoseRoundTrip Receipt.

(** ** Early returns *)

Lemma proceed_ok {A B} (m : checked A) (f : A → checked B) b :
  proceed m f = Ok (inr b) ↔ ∃ a, m = Ok (inr a) ∧ f a = Ok (inr b).
Proof.
  destruct m as [[e|a]|e]; cbn; (split; [try discriminate|intros (a' & [=] & ?)]); [eauto|by subst].
Qed.

Lemma or_cose_ok {A} (m : result A) h a : or_cose m h = Ok (inr a) ↔ m = Ok a.
Proof. destruct m as [|[]]; cbn; split; (discriminate || by intros [= ->]). Qed.

Lemma or_exception_ok {A} (m : result A) h a : or_exception m h = Ok (inr a) ↔ m = Ok a.
Proof. destruct m as [|[]]; cbn; split; (discriminate || by intros [= ->]). Qed.

(** The computation raises nothing. *)
Definition never_raises {A} (m : result A) : Prop := ∃ x, m = Ok x.

Lemma proceed_never {A B} (m : checked A) (f : A → checked B) :
  never_raises m → (∀ a, m = Ok (inr a) → never_raises (f a)) → never_raises (proceed m f).
Proof. intros [[e|a] ->] Hf; cbn; [by eexists|by apply Hf]. Qed.

Lemma or_cose_never {A} (m : result A) h : raises_cose m → never_raises (or_cose m h).
Proof. intros Hm. destruct m as [a|e]; cbn; [by eexists|]. destruct (Hm e eq_refl) as [x ->]. by eexists. Qed.

Lemma or_exception_never {A} (m : result A) h : never_raises (or_exception m h).
Proof. destruct m; by eexists. Qed.

Lemma ok_never {A} (x : A) : never_raises (Ok x).
Proof. by eexists. Qed.

Lemma check_cose octets what ot : raises_cose (check octets what ot).
Proof. intros e He. apply check_raise in He as (t & args & ->). by eexists. Qed.

#[export] Hint Resolve or_cose_never or_exception_never ok_never check_cose strict_decode_cose : scitt.

(** One early return after another, by cases on what is tested. *)
Ltac never :=
  repeat first
    [ apply ok_never | apply or_cose_never; auto with scitt | apply or_exception_never
    | apply proceed_never; [|intros]
    | match goal with |- never_raises (if ?b then _ else _) => destruct b end
    | match goal with |- never_raises (match ?x with _ => _ end) => destruct x end ].

Section receipt.
Context `{Sha256} `{Cbor} `{Crypto}.

(** ** Nothing is raised *)

Lemma check_proofs_never proofs : never_raises (check_proofs proofs).
Proof.
  induction proofs as [|p proofs IH]; [by eexists|]. cbn. destruct p; try (by eexists).
  apply proceed_never; [auto with scitt|intros _ _]. apply proceed_never; [exact IH|intros]. by eexists.
Qed.

(** Octets that meet the encoding rule are read as a value whose integers have
    64 bits. *)
Lemma checked_ints `{!CborLaws _} pb what v :
  check pb what false = Ok () → cbor_loads pb = Ok v → ints_small (_plain v) = true.
Proof.
  intros (i & Hi & <-)%check_iff Hv. destruct (loads_item 17 false i (le_n _) Hi) as (v' & Hv' & Hr).
  assert (v' = v) as -> by congruence. rewrite (plain_represents 17 v i Hi Hr). by eapply admitted_ints.
Qed.

(** The octets of a protected header are empty or meet the rule. *)
Definition header_rule (pb : bytes) : Prop := pb = [] ∨ check pb "the protected header" false = Ok ().

Lemma loads_protected_ints `{!CborLaws _} pb protected :
  header_rule pb → loads_protected pb = Ok (inr protected) → ints_small protected = true.
Proof.
  intros Hrule. unfold loads_protected. destruct pb as [|o os]; [by intros [= <-]|].
  destruct Hrule as [|Hrule]; [done|]. intros (v & Hv & [= <-])%or_exception_ok%bind_ok. by eapply checked_ints.
Qed.

Lemma header_rule_ok pb :
  (match pb with [] => pass () | _ => or_cose (check pb "the protected header" false) receipt_rejected end) = Ok (inr ()) →
  header_rule pb.
Proof. destruct pb; [by left|]. intros Hc%or_cose_ok. by right. Qed.

Lemma receipt_headers_never `{!CborLaws _} receipt : never_raises (receipt_headers receipt).
Proof.
  unfold receipt_headers. apply proceed_never; [auto with scitt|intros [tag v] _].
  destruct v as [| | | | |tuple [|pv [|un [|slot [|sg [|]]]]]| | |]; try apply ok_never.
  destruct (negb _); [apply ok_never|]. destruct slot; try apply ok_never.
  apply proceed_never; [auto with scitt|intros [] _]. destruct pv as [| | |pb| | | | |]; try apply ok_never.
  apply proceed_never; [destruct pb; [apply ok_never|auto with scitt]|intros [] Hrule%header_rule_ok].
  apply proceed_never; [unfold loads_protected; destruct pb; [apply ok_never|auto with scitt]|intros protected Hp].
  pose proof (loads_protected_ints pb protected Hrule Hp) as Hints.
  destruct protected as [| | | | | |[] d| |]; try apply ok_never. cbv zeta.
  apply proceed_never; [apply or_cose_never; by apply check_critical_headers_cose|intros [] _].
  repeat first [apply check_proofs_never | progress never].
Qed.

Lemma check_proofs_ok proofs l : check_proofs proofs = Ok (inr l) → proofs = VBytes <$> l.
Proof.
  revert l. induction proofs as [|p proofs IH]; intros l; cbn; [by intros [= <-]|].
  destruct p; try done. intros (? & _ & (l' & Hl & [= <-])%proceed_ok)%proceed_ok. cbn. by rewrite <- IH.
Qed.

Lemma path_nodes_cose path : raises_cose (path_nodes path).
Proof. induction path as [|v path IH]; cbn; [apply raises_cose_ok|]. cose_errors. exact IH. Qed.

Lemma path_nodes_ok path nodes : path_nodes path = Ok nodes ↔ path = VBytes <$> nodes.
Proof.
  revert nodes. induction path as [|v path IH]; intros nodes; cbn.
  - split; [by intros [= <-]|by destruct nodes].
  - destruct v as [| | |b| | | | |]; (split; [try done|destruct nodes; try done]).
    + intros (nodes' & ->%IH & [= <-])%bind_ok. done.
    + cbn. intros [= -> E]. by rewrite (proj2 (IH nodes) E).
Qed.

Lemma decode_inclusion_proof_cose blob : raises_cose (_decode_inclusion_proof blob).
Proof. unfold _decode_inclusion_proof. cose_errors; apply path_nodes_cose. Qed.

Lemma mapM_cose {A B} (f : A → result B) l : (∀ x, raises_cose (f x)) → raises_cose (mapM f l).
Proof.
  intros Hf. induction l as [|x l IH]; cbn; [apply raises_cose_ok|].
  apply raises_cose_bind; [apply Hf|intros]. apply raises_cose_bind; [exact IH|intros]. apply raises_cose_ok.
Qed.

Lemma ccf_fold_cose acc path : raises_cose (ccf_fold acc path).
Proof.
  revert acc. induction path as [|v path IH]; intros acc; cbn [ccf_fold]; cose_errors; apply IH.
Qed.

(** The plain form has the leaves of the value. *)
Lemma all_leaves_plain p v : all_leaves p v = true → all_leaves p (_plain v) = true.
Proof.
  revert v. fix IH 1. intros [| | | | |tuple l|frozen d| |]; cbn; try done.
  - induction l as [|v l IHl]; [done|]. cbn. intros [Hv Hl]%andb_prop. by rewrite (IH v Hv), IHl.
  - induction d as [|[k v] d IHd]; [done|]. cbn. intros [[Hk Hv]%andb_prop Hd]%andb_prop.
    by rewrite Hk, (IH v Hv), IHd.
Qed.

(** [cbor2] reads strict UTF-8, so the evidence text can be encoded again. *)
Lemma verify_ccf_cose `{!CborLaws _} blob digest : raises_cose (_verify_ccf_v1_proof blob digest).
Proof.
  unfold _verify_ccf_v1_proof. apply raises_cose_bind; [cose_errors|]. intros v Hv.
  assert (texts_ok (_plain v) = true) as Ht.
  { destruct (cbor_loads blob) as [u|] eqn:E; [|done]. injection Hv as <-. by apply all_leaves_plain, (loads_texts blob). }
  destruct (_plain v) as [| | | | | |[] d| |]; try apply raises_cose_raise.
  destruct (dict_get d (VInt 1)) as [[| | | | |? [|a [|b [|c [|]]]]| | |]|] eqn:Hl; try apply raises_cose_raise.
  apply raises_cose_bind; [cose_errors|intros w _]. apply raises_cose_bind; [cose_errors|intros e He].
  destruct b as [| | | |s| | | |]; try done. injection He as <-.
  apply raises_cose_bind; [cose_errors|intros ? _]. case_bool_decide; [apply raises_cose_raise|].
  assert (texts_ok (VStr s) = true) as Hs.
  { pose proof (all_leaves_get _ _ _ _ Ht Hl) as Hl'. cbn in Hl'. by apply andb_prop in Hl' as [_ [? _]%andb_prop]. }
  rewrite (py_encode_ok _ Hs). cbn [mbind outcome_bind]. cose_errors. apply ccf_fold_cose.
Qed.

Lemma fromhex_raise s e : fromhex s = Raise e → e = fromhex_error.
Proof.
  assert (∀ n s, (String.length s < n)%nat → fromhex s = Raise e → e = fromhex_error) as Hn; [|apply (Hn (S (String.length s))); lia].
  clear s. induction n as [|n IH]; [lia|]. intros [|c s] Hl; cbn in *; [done|].
  destruct (is_space c); [apply IH; lia|]. destruct (hex_val c); [|by intros [= <-]].
  destruct s as [|d s]; [by intros [= <-]|]. destruct (hex_val d); [|by intros [= <-]].
  destruct (fromhex s) eqn:E; cbn; [done|]. intros [= <-]. apply (IH s); [cbn in Hl; lia|done].
Qed.

(** A reconstructed root is the text of a digest. *)
Lemma reconstruct_hex leaf i n path r : _reconstruct_root leaf i n path = Ok (Some r) → ∃ d, r = hex d.
Proof.
  unfold _reconstruct_root, root_from_inclusion_proof. repeat case_if; try done.
  intros (e & _ & Hr)%bind_ok. apply bind_ok in Hr as ([[d|] [|]] & _ & Hr); try done. injection Hr as <-. eauto.
Qed.

Lemma try_candidates_never `{!CborLaws _} `{!VerifyLaws _} receipt leaf pem candidates last diagnostic :
  ¬ oversized receipt → never_raises (try_candidates receipt leaf pem candidates last diagnostic).
Proof.
  intros Hsize. revert last diagnostic. induction candidates as [|[[n i] path] candidates IH]; intros last diagnostic; cbn; [by eexists|].
  destruct (_reconstruct_root leaf i n path) as [[r|]|] eqn:Hr; [|apply IH|by eexists].
  apply reconstruct_hex in Hr as [d ->]. rewrite fromhex_hex. cbn [mbind outcome_bind].
  destruct (verify_sign1 _ _ _ _) as [s|e] eqn:Hv; [by eexists|].
  apply verify_sign1_raises in Hv as [[m ->]|[_ ?]]; [apply IH|done].
Qed.

(** What is known of the headers of a receipt that reaches the dispatch. *)
Record headers_of (receipt : bytes) (h : headers) (protected_bstr : bytes) : Prop := {
  headers_message : ∃ tuple unprotected signature,
    strict_decode receipt = Ok (COSE_SIGN1_TAG, VList tuple [VBytes protected_bstr; unprotected; VNone; signature]);
  headers_rule : check receipt "the receipt" true = Ok ();
  headers_protected_rule : header_rule protected_bstr;
  headers_protected : loads_protected protected_bstr = pass (VDict false (protected h));
  headers_vds : vds h = match dict_get (protected h) HDR_VDS with Some (VInt vds) => Some vds | _ => None end;
  headers_crit : crit_satisfied (protected h)
    (if bool_decide (vds h = Some VDS_CCF_LEDGER_SHA256) then _CCF_RECEIPT_UNDERSTOOD else _RECEIPT_UNDERSTOOD);
  headers_proofs : inclusion_proofs h ≠ [] ∧ zlen (inclusion_proofs h) ≤ _MAX_INCLUSION_PROOFS
}.

Lemma receipt_headers_inv receipt h : receipt_headers receipt = Ok (inr h) → ∃ pb, headers_of receipt h pb.
Proof.
  unfold receipt_headers. intros ([tag v] & Hd%or_cose_ok & Hh)%proceed_ok.
  destruct v as [| | | | |tuple [|pv [|un [|slot [|sg [|]]]]]| | |]; try done.
  destruct (Z.eqb_spec tag COSE_SIGN1_TAG) as [->|]; [|done]. destruct slot; try done.
  apply proceed_ok in Hh as ([] & Hrule%or_cose_ok & Hh). destruct pv as [| | |pb| | | | |]; try done.
  apply proceed_ok in Hh as ([] & Hpr%header_rule_ok & Hh). apply proceed_ok in Hh as (v & Hp & Hh).
  destruct v as [| | | | | |[] prot| |]; try done.
  apply proceed_ok in Hh as ([] & Hcrit%or_cose_ok & Hh). destruct (dict_mem prot HDR_ALG); [|done].
  destruct (_plain un) as [| | | | | |[] und| |]; try done. destruct (dict_get und HDR_VDP) as [[| | | | | |[] vdp| |]|]; try done.
  destruct (dict_get vdp VDP_INCLUSION_PROOFS) as [[| | | | |? [|p ps]| | |]|]; try done.
  destruct (zlen (p :: ps) >? _MAX_INCLUSION_PROOFS) eqn:Hmax; [done|].
  apply proceed_ok in Hh as (l & Hl%check_proofs_ok & [= <-]). exists pb. split; cbn.
  - by exists tuple, un, sg.
  - done.
  - exact Hpr.
  - exact Hp.
  - done.
  - by apply check_critical_headers_ok.
  - assert (zlen (p :: ps) = zlen l) as E by (by rewrite Hl, zlen_fmap). split; [by intros ->|lia].
Qed.

(** The envelope [verify_sign1] decodes holds the same protected header. *)
Lemma headers_decoded receipt h pb a b c d protected :
  headers_of receipt h pb → _decode_envelope receipt = Ok (VBytes a, b, c, d) → decode_protected a = Ok protected →
  a = pb ∧ protected = Receipt.protected h.
Proof.
  intros Hh. destruct (headers_message _ _ _ Hh) as (tuple & un & sg & Hd). pose proof (headers_protected _ _ _ Hh) as Hp.
  unfold _decode_envelope. rewrite Hd. cbn. intros [= -> _ _ _] Hprot. split; [done|].
  unfold decode_protected in Hprot. unfold loads_protected in Hp.
  destruct a as [|o os]; [unfold pass in Hp; congruence|]. apply or_exception_ok in Hp.
  destruct (cbor_loads (o :: os)) as [v|]; [|done]. cbn in Hp, Hprot. injection Hp as Hp. rewrite Hp in Hprot.
  by case_if_in Hprot; [|injection Hprot].
Qed.

Lemma headers_not_oversized `{!CborLaws _} receipt h pb : headers_of receipt h pb → ¬ oversized receipt.
Proof.
  intros Hh (a & b & c & d & protected & He & Hp & Hs).
  destruct (headers_decoded _ _ _ _ _ _ _ _ Hh He Hp) as [-> ->].
  rewrite (loads_protected_ints pb (VDict false (Receipt.protected h))) in Hs; [done|apply Hh|apply Hh].
Qed.

(** ** The results *)

(** The three forms a result takes before the default [failed_at]. *)
Lemma verify_receipt_shape receipt leaf pem r :
  _verify_receipt receipt leaf pem = Ok r →
  (∃ e, r = rejected e) ∨ (∃ d e, r = unverified d e) ∨ (∃ p n i rt, r = accepted p n i rt).
Proof.
  unfold _verify_receipt, verify_rfc9162, verify_ccf. intros ([e|h] & _ & Hr)%bind_ok; [injection Hr as <-; eauto|].
  assert (∀ m, @Ok exn _ (rejected m) = Ok r → ∃ e, r = rejected e) as Hrej by (intros m [= <-]; eauto).
  destruct (vds h) as [v|]; [|left; by eapply Hrej].
  destruct v as [|[[]|[]|]|]; try (left; by eapply Hrej).
  - destruct (fromhex leaf) as [d|[]]; try done; [|left; by eapply Hrej].
    destruct (inclusion_proofs h); [done|]. destruct (_verify_ccf_v1_proof _ _) as [rt|[]]; try done; [|left; by eapply Hrej].
    destruct (verify_sign1 _ _ _ _) as [x|[]]; try done; injection Hr as <-; eauto 8.
  - apply bind_ok in Hr as ([e|cs] & _ & Hr); [left; by eapply Hrej|].
    apply bind_ok in Hr as ([] & _ & Hr); injection Hr as <-; eauto 8.
Qed.

(** What holds of every result. *)
Definition honours_contract (r : ReceiptResult) : Prop :=
  (ok r = true ↔ failed_at r = None) ∧ (ok r = true ↔ errors r = []) ∧ (ok r = true → root r ≠ None) ∧
  (ok r = false → iat r = None ∧ issuer r = None ∧ subject r = None ∧ protected_header_ext r = []) ∧
  (failed_at r = Some "structure"%string → root r = None ∧ tree_size r = None ∧ leaf_index r = None) ∧
  (failed_at r = Some "signature"%string → root r ≠ None ∧ _CLAIMS_WITHHELD ∈ errors r) ∧
  failed_at r ∈ [None; Some "structure"%string; Some "signature"%string] ∧
  (∀ t, iat r = Some t → - 2 ^ 63 ≤ t < 2 ^ 63).

Lemma result_contract receipt leaf pem r : verify_receipt receipt leaf pem = Ok r → honours_contract r.
Proof.
  unfold verify_receipt, honours_contract. intros (r' & [[e ->]|[(d & e & ->)|(p & n & i & rt & ->)]]%verify_receipt_shape & [= <-])%bind_ok.
  - cbn. split_and!; try done; by right; left.
  - destruct d as [d|]; cbn; split_and!; try done; try (by intros; split; [done|right; left]); right; [right|]; left.
  - cbn. split_and!; try done; [by left|]. intros t. destruct (dict_get _ _) as [[]|]; try done.
    case_if; [|done]. intros [= <-]. lia.
Qed.

Lemma verify_receipt_never `{!CborLaws _} `{!VerifyLaws _} receipt leaf pem :
  ∃ r, verify_receipt receipt leaf pem = Ok r.
Proof.
  unfold verify_receipt, _verify_receipt, verify_rfc9162, verify_ccf.
  destruct (receipt_headers_never receipt) as [[e|h] Hh]; rewrite Hh; [by eexists|]. cbn [mbind outcome_bind].
  apply receipt_headers_inv in Hh as [pb Hh]. pose proof (headers_not_oversized _ _ _ Hh) as Hsize.
  destruct (vds h) as [v|]; [|by eexists]. destruct v as [|[[]|[]|]|]; try (by eexists).
  - destruct (fromhex leaf) as [d|e] eqn:Hd; [|apply fromhex_raise in Hd as ->; by eexists].
    destruct (headers_proofs _ _ _ Hh) as [Hne _].
    destruct (inclusion_proofs h); [done|].
    destruct (_verify_ccf_v1_proof _ _) as [rt|e] eqn:Hc; [|apply verify_ccf_cose in Hc as [m ->]; by eexists].
    destruct (verify_sign1 _ _ _ _) as [s|e] eqn:Hv; [by eexists|].
    apply verify_sign1_raises in Hv as [[m ->]|[_ ?]]; [by eexists|done].
  - destruct (or_cose_never (mapM _decode_inclusion_proof (inclusion_proofs h)) (λ exc, exc)) as [[e|cs] ->];
      [apply mapM_cose, decode_inclusion_proof_cose|by eexists|]. cbn [mbind outcome_bind].
    destruct (try_candidates_never receipt leaf pem cs (AVal VNone) None Hsize) as [[] ->]; by eexists.
Qed.

(** C7: the contract of the receipt verifier: for every octet string, leaf
    text and key it returns a result, never an exception, given that [cbor2]
    dumps arrays of strings, reads text as strict UTF-8 and reads the items of
    the encoding rule, and that a refused signature is reported as
    [InvalidSignature]; in that result [ok] is true exactly when no step
    failed and no error was recorded, and then a root is reported; a failure
    surfaces no claim of the receipt ([iat], [issuer], [subject],
    [protected_header_ext]); a structural failure reports no root, size or
    position, a signature failure reports a diagnostic root together with the
    notice that the claims are withheld; a reported [iat] fits in 64 bits. *)
Theorem verify_receipt_contract `{!CborLaws _} `{!VerifyLaws _} receipt leaf pem :
  ∃ r, verify_receipt receipt leaf pem = Ok r ∧ honours_contract r.
Proof.
  destruct (verify_receipt_never receipt leaf pem) as [r Hr]. exists r. split; [done|by eapply result_contract].
Qed.

Lemma verify_receipt_ok_errors receipt leaf pem r :
  verify_receipt receipt leaf pem = Ok r → ok r = true ↔ errors r = [].
Proof.
  unfold verify_receipt. intros (r' & [[e ->]|[(d & e & ->)|(p & n & i & rt & ->)]]%verify_receipt_shape & [= <-])%bind_ok;
    [done|by destruct d|done].
Qed.

(** ** Acceptance *)

Lemma try_candidates_verified receipt leaf pem candidates last diagnostic n i rt :
  try_candidates receipt leaf pem candidates last diagnostic = Ok (Verified n i rt) →
  ∃ path d s, (n, i, path) ∈ candidates ∧ rt = hex d ∧
    root_from_inclusion_proof leaf i n path = Ok (Some rt) ∧
    verify_sign1 receipt pem (Some d) _RECEIPT_UNDERSTOOD = Ok s.
Proof.
  revert last diagnostic. induction candidates as [|[[n' i'] path] candidates IH]; intros last diagnostic; cbn; [done|].
  destruct (_reconstruct_root leaf i' n' path) as [[r|]|] eqn:Hr; [| |done].
  - apply reconstruct_hex in Hr as Hd. destruct Hd as [d ->]. rewrite fromhex_hex. cbn [mbind outcome_bind].
    destruct (verify_sign1 _ _ _ _) as [s|[]] eqn:Hv; try done.
    + intros [= -> -> <-]. exists path, d, s. split_and!; [left|done|exact Hr|exact Hv].
    + intros (p & d' & s & ? & ?)%IH. exists p, d', s. split; [by right|done].
  - intros (p & d' & s & ? & ?)%IH. exists p, d', s. split; [by right|done].
Qed.

(** The header whose claims are surfaced is the signed one. *)
Lemma headers_signed receipt h pb pem payload understood s :
  headers_of receipt h pb → verify_sign1 receipt pem (Some payload) understood = Ok s →
  sign1_protected s = protected h ∧ sign1_payload s = payload.
Proof.
  intros Hh. destruct (headers_message _ _ _ Hh) as (tuple & un & sg & Hd).
  unfold verify_sign1. intros ([[[a b] c] d] & He & Hv)%bind_ok. pose proof He as He'.
  unfold _decode_envelope in He. rewrite Hd in He. cbn in He. injection He as <- <- <- <-.
  apply bind_ok in Hv as (prot & Hprot & Hv). destruct (headers_decoded _ _ _ _ _ _ _ _ Hh He' Hprot) as [_ ->]. apply bind_ok in Hv as (und & _ & Hv). cbn [mbind outcome_bind] in Hv.
  destruct (_plain sg); try done. destruct (dict_get _ HDR_ALG) as [[]|]; try done.
  apply bind_ok in Hv as (? & _ & Hv). apply bind_ok in Hv as (? & _ & Hv). apply bind_ok in Hv as (? & _ & [= <-]).
  done.
Qed.

(** What an accepted receipt was accepted for. *)
Inductive evidence (receipt : bytes) (leaf : string) (pem : PemLike) (h : headers) (r : ReceiptResult) (digest : bytes) : Prop :=
| rfc9162_evidence n i path blob s :
    vds h = Some VDS_RFC9162_SHA256 → blob ∈ inclusion_proofs h → _decode_inclusion_proof blob = Ok (n, i, path) →
    tree_size r = Some n → leaf_index r = Some i → root_from_inclusion_proof leaf i n path = Ok (Some (hex digest)) →
    verify_sign1 receipt pem (Some digest) _RECEIPT_UNDERSTOOD = Ok s →
    sign1_protected s = protected h → sign1_payload s = digest → evidence receipt leaf pem h r digest
| ccf_evidence claim blob blobs s :
    vds h = Some VDS_CCF_LEDGER_SHA256 → inclusion_proofs h = blob :: blobs → fromhex leaf = Ok claim →
    _verify_ccf_v1_proof blob claim = Ok digest → tree_size r = None → leaf_index r = None →
    verify_sign1 receipt pem (Some digest) _CCF_RECEIPT_UNDERSTOOD = Ok s →
    sign1_protected s = protected h → sign1_payload s = digest → evidence receipt leaf pem h r digest.

Lemma verify_receipt_evidence receipt leaf pem r :
  verify_receipt receipt leaf pem = Ok r → ok r = true →
  ∃ h digest, receipt_headers receipt = Ok (inr h) ∧ check receipt "the receipt" true = Ok () ∧
    r = accepted (protected h) (tree_size r) (leaf_index r) (hex digest) ∧ evidence receipt leaf pem h r digest.
Proof.
  unfold verify_receipt. intros (r' & Hr & [= <-])%bind_ok Hok.
  assert (ok r' = true) as Hok' by by destruct (negb (ok r') && _).
  rewrite Hok' in *. cbn [negb andb] in *. clear Hok.
  unfold _verify_receipt in Hr. apply bind_ok in Hr as ([e|h] & Hh & Hr); [by injection Hr as <-|].
  apply receipt_headers_inv in Hh as Hof. destruct Hof as [pb Hof]. exists h.
  destruct (vds h) as [v|] eqn:Hvds; [|by injection Hr as <-]. destruct v as [|[[]|[]|]|]; try (by injection Hr as <-).
  - unfold verify_ccf in Hr. destruct (fromhex leaf) as [claim|[]] eqn:Hleaf; try done; [|by injection Hr as <-].
    destruct (inclusion_proofs h) as [|blob blobs] eqn:Hblobs; [done|].
    destruct (_verify_ccf_v1_proof blob claim) as [digest|[]] eqn:Hc; try done; [|by injection Hr as <-].
    destruct (verify_sign1 _ _ _ _) as [s|[]] eqn:Hv; try done; [|by injection Hr as <-].
    injection Hr as <-. destruct (headers_signed _ _ _ _ _ _ _ Hof Hv) as [Hs Hpl].
    exists digest. split_and!; [done|apply (headers_rule _ _ _ Hof)|done|]. by eapply ccf_evidence.
  - unfold verify_rfc9162 in Hr. apply bind_ok in Hr as ([e|cs] & Hcs & Hr); [by injection Hr as <-|].
    apply or_cose_ok in Hcs. apply bind_ok in Hr as ([n i rt| |] & Ht & Hr); [|by injection Hr as <-..]. injection Hr as <-.
    apply try_candidates_verified in Ht as (path & digest & s & Hin & -> & Hroot & Hv).
    destruct (headers_signed _ _ _ _ _ _ _ Hof Hv) as [Hs Hpl].
    apply mapM_ok in Hcs. apply list_elem_of_lookup in Hin as [k Hk].
    destruct (Forall2_lookup_r _ _ _ _ _ Hcs Hk) as (blob & Hb & Hdec).
    exists digest. split_and!; [done|apply (headers_rule _ _ _ Hof)|done|].
    apply (rfc9162_evidence _ _ _ _ _ _ n i path blob s); try done. by eapply list_elem_of_lookup_2.
Qed.

(** C5: what is reported is what was signed: an accepted receipt meets the
    encoding rule, its payload is detached, its signature verifies under the
    given key over the very root that is reported, and the claims reported
    ([iat], [issuer], [subject] and the remaining labels) are read from the
    protected header that signature covers. *)
Theorem verify_receipt_signed receipt leaf pem r :
  verify_receipt receipt leaf pem = Ok r → ok r = true →
  ∃ digest s understood, verify_sign1 receipt pem (Some digest) understood = Ok s ∧
    check receipt "the receipt" true = Ok () ∧ root r = Some (hex digest) ∧ sign1_payload s = digest ∧
    r = accepted (sign1_protected s) (tree_size r) (leaf_index r) (hex digest) ∧
    ∃ tuple a b d, strict_decode receipt = Ok (COSE_SIGN1_TAG, VList tuple [a; b; VNone; d]).
Proof.
  intros Hr Hok. destruct (verify_receipt_evidence _ _ _ _ Hr Hok) as (h & digest & Hh & Hc & Ha & Hev).
  apply receipt_headers_inv in Hh as [pb Hh]. destruct (headers_message _ _ _ Hh) as (t & un & sg & Hd).
  exists digest. destruct Hev as [n i path blob s _ _ _ _ _ _ Hv Hs Hp|claim blob blobs s _ _ _ _ _ _ Hv Hs Hp];
    exists s; eexists; rewrite Hs; (split_and!; [exact Hv|exact Hc|by rewrite Ha|exact Hp|exact Ha|by eauto]).
Qed.

(** C4: an accepted RFC 9162 receipt whose root is the root of a log opens a
    logged entry: if it also reports the log's size, the leaf is the entry at
    the reported position; and in any case a member of the log; or two
    inputs collide among those hashed along an inclusion proof of the receipt
    itself, whose size, position and path are the decoded ones, and those
    hashed to build the log's root. *)
Theorem verify_receipt_binds_leaf (entries : list string) (bs : list bytes) receipt leaf pem r n i rt :
  mapM fromhex entries = Ok bs → merkle_root entries = Ok rt →
  verify_receipt receipt leaf pem = Ok r → ok r = true →
  root r = Some rt → tree_size r = Some n → leaf_index r = Some i →
  ∃ e path, fromhex leaf = Ok e ∧
    (∃ h blob, receipt_headers receipt = Ok (inr h) ∧ blob ∈ inclusion_proofs h ∧
       _decode_inclusion_proof blob = Ok (n, i, path)) ∧
    ((e ∈ bs ∧ (n = zlen entries → bs !! Z.to_nat i = Some e)) ∨
     collision (inclusion_inputs leaf i n path ++ tree_inputs bs)).
Proof.
  intros Hbs Hroot Hr Hok Hrt Hn Hi.
  destruct (verify_receipt_evidence _ _ _ _ Hr Hok) as (h & digest & Hh & _ & Ha & Hev).
  rewrite Ha in Hrt. cbn in Hrt. injection Hrt as <-.
  destruct Hev as [n' i' path blob s _ Hblob Hdec Hn' Hi' Hfold _ _ _|? ? ? ? _ _ _ _ Hn' _ _ _ _]; [|congruence].
  rewrite Hn in Hn'. rewrite Hi in Hi'. injection Hn' as <-. injection Hi' as <-.
  destruct (accepted_leaf entries bs leaf i n path (hex digest) Hbs Hroot) as (e & He & Hc).
  { unfold verify_inclusion. rewrite Hfold. cbn. by rewrite bool_decide_eq_true_2. }
  exists e, path. split_and!; [done|by exists h, blob|exact Hc].
Qed.
End receipt.
