(* ===== verification/ReceiptCcf.v ===== *)
(** * CCF receipts

    A reference tree for the [ccf.v1] ledger hash, and what a proof accepted
    under its root entails for the claim digest. *)

From S2P Require Import Prelude PyRuntime Sha256 Merkle EncodingRule Cbor Crypto CoseSign1 CoseSign1Proof Receipt ReceiptProof.

(** A ledger: the leaves carry a write-set digest, the commit evidence and the
    claim digest of a transaction. *)
Inductive ccf_tree : Type :=
| CcfLeaf (write_set evidence claim : bytes)
| CcfNode (l r : ccf_tree).

Section ccf.
Context `{Sha256}.

Definition ccf_preimage (write_set evidence claim : bytes) : bytes := write_set ++ sha256 evidence ++ claim.

Fixpoint ccf_root (t : ccf_tree) : bytes :=
  match t with
  | CcfLeaf w e c => sha256 (ccf_preimage w e c)
  | CcfNode l r => sha256 (ccf_root l ++ ccf_root r)
  end.

(** Digests of the leaves have 32 octets. *)
Fixpoint ccf_wf (t : ccf_tree) : Prop :=
  match t with
  | CcfLeaf w _ c => length w = 32%nat ∧ length c = 32%nat
  | CcfNode l r => ccf_wf l ∧ ccf_wf r
  end.

Fixpoint ccf_claims (t : ccf_tree) : list bytes :=
  match t with CcfLeaf _ _ c => [c] | CcfNode l r => ccf_claims l ++ ccf_claims r end.

Fixpoint ccf_tree_inputs (t : ccf_tree) : list bytes :=
  match t with
  | CcfLeaf w e c => [ccf_preimage w e c]
  | CcfNode l r => (ccf_root l ++ ccf_root r) :: ccf_tree_inputs l ++ ccf_tree_inputs r
  end.

(** The inputs of the walk over the steps. *)
Fixpoint ccf_fold_inputs (acc : bytes) (path : list pyval) : list bytes :=
  match path with
  | VList _ [VBool left_; VBytes sibling] :: path =>
      let input := if left_ then sibling ++ acc else acc ++ sibling in
      input :: ccf_fold_inputs (sha256 input) path
  | _ => []
  end.

Lemma ccf_fold_inputs_length acc path : (length (ccf_fold_inputs acc path) ≤ length path)%nat.
Proof.
  revert acc. induction path as [|v path IH]; intros acc; [done|]. cbn.
  destruct v as [| | | | |? [|[] [|[] [|]]]| | |]; cbn; try lia. specialize (IH (sha256 (if b then b0 ++ acc else acc ++ b0))). lia.
Qed.

Lemma ccf_root_length t : length (ccf_root t) = 32%nat.
Proof. destruct t; apply sha256_length. Qed.

(** The last step of a walk. *)
Lemma ccf_fold_snoc acc path v rt :
  ccf_fold acc (path ++ [v]) = Ok rt →
  ∃ acc' sibling input, ccf_fold acc path = Ok acc' ∧ length sibling = 32%nat ∧ rt = sha256 input ∧
    (input = sibling ++ acc' ∨ input = acc' ++ sibling) ∧
    ccf_fold_inputs acc (path ++ [v]) = ccf_fold_inputs acc path ++ [input].
Proof.
  revert acc. induction path as [|u path IH]; intros acc; cbn [app ccf_fold ccf_fold_inputs].
  - destruct v as [| | | | |? [|[] [|[] [|]]]| | |]; try done. destruct (Z.eqb_spec (zlen b0) 32) as [Hl|]; [|done].
    intros [= <-]. exists acc, b0. destruct b; eexists; (split_and!; [done|unfold zlen in Hl; lia|done|auto|done]).
  - destruct u as [| | | | |? [|[] [|[] [|]]]| | |]; try done. destruct (zlen b0 =? 32); [|done]. cbn [negb].
    intros Hf. assert (∀ x : bytes, (if b then sha256 (b0 ++ x) else sha256 (x ++ b0)) = sha256 (if b then b0 ++ x else x ++ b0)) as Hb
      by by destruct b.
    rewrite Hb in *. destruct (IH _ Hf) as (acc' & sib & input & ? & ? & ? & ? & ->). by exists acc', sib, input.
Qed.

Lemma ccf_fold_length acc path rt : length acc = 32%nat → ccf_fold acc path = Ok rt → length rt = 32%nat.
Proof.
  intros Ha. destruct path as [|v path _] using rev_ind; [by intros [= <-]|].
  intros (? & ? & ? & _ & _ & -> & _)%ccf_fold_snoc. apply sha256_length.
Qed.

(** A walk that ends at the root of a ledger starts at one of its leaves: the
    three parts of a leaf make 96 octets and the two of a node make 64, so
    neither can be read as the other. *)
Lemma ccf_fold_sound S t w e c path :
  ccf_wf t → length w = 32%nat → length c = 32%nat →
  ccf_fold (sha256 (ccf_preimage w e c)) path = Ok (ccf_root t) →
  ccf_preimage w e c ∈ S → ccf_fold_inputs (sha256 (ccf_preimage w e c)) path ⊆ S → ccf_tree_inputs t ⊆ S →
  c ∈ ccf_claims t ∨ collision S.
Proof.
  intros Ht Hw Hc. set (acc := sha256 (ccf_preimage w e c)).
  assert (∀ w e c, length w = 32%nat → length c = 32%nat → length (ccf_preimage w e c) = 96%nat) as Hpre.
  { intros w0 e0 c0 Hw0 Hc0. unfold ccf_preimage. rewrite !length_app, sha256_length. lia. }
  revert path. induction t as [w' e' c'|l IHl r IHr]; intros path; cbn [ccf_root ccf_tree_inputs ccf_claims];
    (destruct path as [|v path _] using rev_ind; [intros [= Hroot]|intros Hf]); intros HwS HpS HtS.
  - destruct Ht as [Hw' Hc'].
    destruct (sha256_eq S (ccf_preimage w e c) (ccf_preimage w' e' c') Hroot HwS) as [E|]; [set_solver| |by right].
    left. unfold ccf_preimage in E. apply app_eq_l in E as [_ E]; [|lia].
    apply app_eq_l in E as [_ ->]; [set_solver|by rewrite !sha256_length].
  - destruct Ht as [Hw' Hc']. apply ccf_fold_snoc in Hf as (acc' & sib & input & Hf & Hsib & Hroot & Hin & Hins). rewrite Hins in HpS.
    apply ccf_fold_length in Hf; [|apply sha256_length].
    destruct (sha256_eq S (ccf_preimage w' e' c') input Hroot) as [E|]; [set_solver|set_solver| |by right].
    apply (f_equal length) in E. rewrite Hpre in E by done. exfalso. destruct Hin as [-> | ->]; rewrite length_app in E; lia.
  - destruct (sha256_eq S (ccf_preimage w e c) (ccf_root l ++ ccf_root r) Hroot HwS) as [E|]; [set_solver| |by right].
    apply (f_equal length) in E. rewrite Hpre, length_app, !ccf_root_length in E by done. lia.
  - destruct Ht as [Hl Hr]. apply ccf_fold_snoc in Hf as (acc' & sib & input & Hf & Hsib & Hroot & Hin & Hins). rewrite Hins in HpS.
    pose proof (ccf_fold_length _ _ _ (sha256_length _) Hf) as Hacc.
    destruct (sha256_eq S (ccf_root l ++ ccf_root r) input Hroot) as [E|]; [set_solver|set_solver| |by right].
    destruct Hin as [-> | ->]; apply app_eq_l in E as [E1 E2]; try (rewrite ccf_root_length; lia).
    + rewrite <- E2 in Hf. destruct (IHr Hr path Hf HwS) as [?|?]; [set_solver..| |by right]. left. set_solver.
    + rewrite <- E1 in Hf. destruct (IHl Hl path Hf HwS) as [?|?]; [set_solver..| |by right]. left. set_solver.
Qed.
End ccf.

(** ** What a receipt hashes *)

Section verify.
Context `{Sha256} `{Cbor} `{Crypto}.

(** The write-set digest, the evidence text, the claim digest and the path a
    proof blob spells out. *)
Definition ccf_proof_parts (blob : bytes) : option (bytes * bytes * bytes * list pyval) :=
  match cbor_loads blob with
  | Ok v =>
      match _plain v with
      | VDict false proof =>
          match dict_get proof (VInt 1), default (VList false []) (dict_get proof (VInt 2)) with
          | Some (VList _ [VBytes w; VStr e; VBytes c]), VList _ path => Some (w, of_string e, c, path)
          | _, _ => None
          end
      | _ => None
      end
  | Raise _ => None
  end.

(** The inputs hashed on the way from the leaf to the root a proof blob leads
    to, from its octets alone. *)
Definition ccf_proof_inputs (blob : bytes) : list bytes :=
  match ccf_proof_parts blob with
  | Some (w, e, c, path) => ccf_preimage w e c :: ccf_fold_inputs (sha256 (ccf_preimage w e c)) path
  | None => []
  end.

(** The same for a receipt: its first inclusion proof is the one followed. *)
Definition ccf_receipt_inputs (receipt : bytes) : list bytes :=
  match receipt_headers receipt with
  | Ok (inr h) => match inclusion_proofs h with blob :: _ => ccf_proof_inputs blob | [] => [] end
  | _ => []
  end.

Lemma verify_ccf_ok blob claim rt :
  _verify_ccf_v1_proof blob claim = Ok rt →
  ∃ w e path, ccf_proof_parts blob = Some (w, e, claim, path) ∧
    length w = 32%nat ∧ length claim = 32%nat ∧ zlen path ≤ _MAX_AUDIT_PATH ∧
    ccf_fold (sha256 (ccf_preimage w e claim)) path = Ok rt.
Proof.
  unfold _verify_ccf_v1_proof, ccf_proof_parts. intros (v & Hload & Hv)%bind_ok.
  destruct (cbor_loads blob) as [v'|]; [injection Hload as ->|done]. destruct (_plain v) as [| | | | | |[] d| |]; try done.
  destruct (dict_get d (VInt 1)) as [[| | | | |? [|a [|b [|c [|]]]]| | |]|]; try done.
  apply bind_ok in Hv as (w & Hw & Hv). apply bind_ok in Hv as (e & He & Hv). apply bind_ok in Hv as (c' & Hc & Hv).
  destruct a as [| | |w'| | | | |]; try done. destruct (Z.eqb_spec (zlen w') 32) as [Hlw|]; [|done]. injection Hw as ->.
  destruct b as [| | | |s| | | |]; try done. injection He as ->.
  destruct c as [| | |c''| | | | |]; try done. destruct (Z.eqb_spec (zlen c'') 32) as [Hlc|]; [|done]. injection Hc as ->.
  case_bool_decide as Heq; [done|]. assert (c' = claim) as -> by (by destruct (decide (c' = claim))).
  apply bind_ok in Hv as (eb & ->%py_encode_inv & Hv). unfold zlen in Hlw, Hlc. unfold default.
  destruct (match dict_get d (VInt 2) with Some _ => _ | None => _ end) as [| | | | |? path| | |]; try done.
  destruct (zlen path >? _MAX_AUDIT_PATH) eqn:Hmax; [done|].
  exists w, (of_string e), path. split_and!; [done|lia|lia|lia|exact Hv].
Qed.

(** C6: an accepted CCF receipt whose root is the root of a ledger opens a
    transaction of that ledger: its leaf is the claim digest of one of the
    ledger's leaves, or two inputs collide among those hashed along the
    receipt's own first inclusion proof, which are computed from the receipt
    and are at most 65, and those hashed to build the ledger's root. *)
Theorem verify_receipt_ccf_member (t : ccf_tree) receipt leaf pem r :
  ccf_wf t → verify_receipt receipt leaf pem = Ok r → ok r = true →
  tree_size r = None → root r = Some (hex (ccf_root t)) →
  (1 ≤ length (ccf_receipt_inputs receipt) ≤ 65)%nat ∧
  ∃ claim, fromhex leaf = Ok claim ∧
    (claim ∈ ccf_claims t ∨ collision (ccf_receipt_inputs receipt ++ ccf_tree_inputs t)).
Proof.
  intros Ht Hr Hok Hn Hrt. destruct (verify_receipt_evidence _ _ _ _ Hr Hok) as (h & digest & Hh & _ & Ha & Hev).
  rewrite Ha in Hrt. cbn in Hrt. injection Hrt as ->%hex_inj.
  destruct Hev as [? ? ? ? ? _ _ _ Hn' _ _ _ _ _|claim blob blobs s _ Hblobs Hleaf Hc _ _ _ _ _]; [congruence|].
  apply verify_ccf_ok in Hc as (w & e & path & Hp & Hw & Hcl & Hmax & Hf).
  assert (ccf_receipt_inputs receipt = ccf_preimage w e claim :: ccf_fold_inputs (sha256 (ccf_preimage w e claim)) path) as ->.
  { unfold ccf_receipt_inputs, ccf_proof_inputs. by rewrite Hh, Hblobs, Hp. }
  split.
  { pose proof (ccf_fold_inputs_length (sha256 (ccf_preimage w e claim)) path). unfold zlen, _MAX_AUDIT_PATH in Hmax. cbn. lia. }
  exists claim. split; [exact Hleaf|].
  apply (ccf_fold_sound _ t w e claim path Ht Hw Hcl Hf); set_solver.
Qed.
End verify.
