(* ===== verification/ReceiptRoundTrip.v ===== *)
(** * Built receipts verify

    Inclusion proofs survive encoding, a decoded proof always evaluates, and
    [verify_receipt] accepts what [build_receipt] mints and reports what was
    put in. *)

From S2P Require Import Prelude PyRuntime Utf8 Sha256 Merkle MerkleTree MerkleInclusion EncodingRule EncodingRuleProof Cbor Crypto CoseSign1 CoseSign1Proof CoseRoundTrip Receipt ReceiptProof.

Section decode.
Context `{Sha256} `{!Cbor}.

Lemma path_nodes_bytes nodes : path_nodes (VBytes <$> nodes) = Ok nodes.
Proof. by apply path_nodes_ok. Qed.

Lemma length_32_forall (nodes : list bytes) :
  existsb (fun node => negb (zlen node =? 32)) nodes = false ↔ Forall (fun x => length x = 32%nat) nodes.
Proof.
  induction nodes as [|x nodes IH]; cbn; [done|]. rewrite orb_false_iff, IH, Forall_cons.
  destruct (Z.eqb_spec (zlen x) 32); cbn; unfold zlen in *; intuition (lia || done).
Qed.

Lemma decode_inclusion_proof_ok blob n i path :
  _decode_inclusion_proof blob = Ok (n, i, path) →
  ∃ nodes, path = hex <$> nodes ∧ Forall (fun x => length x = 32%nat) nodes ∧ 0 ≤ i < n ∧ n ≤ MAX_TREE_SIZE ∧
    zlen nodes = _expected_inclusion_path_len n i.
Proof.
  unfold _decode_inclusion_proof. intros ([v rest] & _ & Hv)%bind_ok. destruct (negb _); [done|].
  destruct (_plain v) as [| | | | |? [|n' [|i' [|path' [|]]]]| | |]; try done.
  destruct n' as [n'| | | | | | | |]; try done. destruct i' as [i'| | | | | | | |]; try done.
  destruct path' as [| | | | |? path'| | |]; try done.
  destruct (zlen path' >? _) eqn:Hmax; [done|]. apply bind_ok in Hv as (nodes & ->%path_nodes_ok & Hv).
  destruct (negb _ || _) eqn:Hr; [done|]. rewrite zlen_fmap in Hv. destruct (negb (zlen nodes =? _)) eqn:Hl; [done|].
  destruct (existsb _ nodes) eqn:H32; [done|]. injection Hv as <- <- <-. exists nodes.
  apply orb_false_iff in Hr as [Hi Hn]. apply length_32_forall in H32.
  split_and!; try done; lia.
Qed.

(** A proof that passes [_decode_inclusion_proof] always evaluates: its
    index is inside its size, the size is at most 2^62, the path has at most
    62 nodes, and for every well-formed leaf the fold consumes the whole path
    and yields a 32-octet root, so the verifier never skips a decoded proof
    and a signature failure always comes with a diagnostic root. *)
Theorem decoded_proof_evaluates blob n i path leaf e :
  _decode_inclusion_proof blob = Ok (n, i, path) → fromhex leaf = Ok e →
  0 ≤ i < n ∧ n ≤ 2 ^ 62 ∧ zlen path ≤ 62 ∧
  ∃ d, length d = 32%nat ∧ _reconstruct_root leaf i n path = Ok (Some (hex d)).
Proof.
  intros (nodes & -> & _ & Hi & Hn & Hl)%decode_inclusion_proof_ok He.
  assert (n ≤ 2 ^ Z.of_nat 62) as Hn' by exact Hn.
  assert (zlen (hex <$> nodes) ≤ 62) as H62.
  { rewrite zlen_fmap, Hl. unfold _expected_inclusion_path_len. pose proof (path_len_range (depth_fuel n) n i).
    pose proof (depth_fuel_bound n 62 Hn'). lia. }
  split_and!; [lia|lia|exact Hn'|exact H62|].
  destruct (inclusion_fold_total (depth_fuel n) (_leaf_hash_bytes e) n i nodes []) as (d & Hd & Hf);
    [apply leaf_hash_length|done|apply depth_fuel_enough|done|].
  exists d. split; [done|]. unfold _reconstruct_root, root_from_inclusion_proof.
  rewrite zlen_fmap, Hl, Z.eqb_refl.
  replace (n >? MAX_TREE_SIZE) with false by lia. replace ((0 <=? i) && (i <? n)) with true by lia. cbn [negb orb].
  rewrite He. cbn [mbind outcome_bind]. cbn [app] in Hf. by rewrite Hf.
Qed.
End decode.

Section receipt.
Context `{Sha256} `{!Cbor} `{!CborLaws _} `{!Crypto} `{!SignLaws _}.
#[local] Set Default Proof Using "All".

(** ** Inclusion proofs *)

Definition proof_item (n i : Z) (nodes : list bytes) : item :=
  Array [Uint n; Uint i; Array (Octets <$> nodes)].

Lemma proof_item_admitted n i nodes :
  0 ≤ i < n → n ≤ MAX_TREE_SIZE → zlen nodes ≤ 62 → Forall (fun x => length x = 32%nat) nodes →
  admitted 17 false (proof_item n i nodes).
Proof.
  intros Hi Hn Hl H32. change MAX_TREE_SIZE with (2 ^ 62) in Hn.
  apply admitted_Array. split; [done|]. apply Forall_cons. split; [cbn; lia|]. apply Forall_cons. split; [cbn; lia|].
  apply Forall_singleton, admitted_Array. rewrite zlen_fmap. split; [lia|]. apply Forall_fmap.
  eapply Forall_impl; [exact H32|]. intros x Hx. apply admitted_Octets. cbv beta in Hx. unfold zlen. lia.
Qed.

Lemma proof_item_length n i nodes :
  zlen nodes ≤ 62 → Forall (fun x => length x = 32%nat) nodes → zlen (encode (proof_item n i nodes)) ≤ 2600.
Proof.
  intros Hl H32.
  assert (zlen (concat (map encode (Octets <$> nodes))) ≤ 41 * zlen nodes) as Hc.
  { clear Hl. induction H32 as [|x nodes Hx _ IH]; [done|]. cbn. rewrite !zlen_app, zlen_cons.
    pose proof (zlen_head_le 2 (zlen x)). unfold zlen in IH at 2. unfold zlen in *. lia. }
  pose proof (zlen_head_le 4 3). pose proof (zlen_head_le 0 n). pose proof (zlen_head_le 0 i).
  pose proof (zlen_head_le 4 (zlen (Octets <$> nodes))).
  change (encode (proof_item n i nodes)) with
    (head 4 3 ++ head 0 n ++ head 0 i ++ (head 4 (zlen (Octets <$> nodes)) ++ concat (map encode (Octets <$> nodes))) ++ []).
  unfold zlen in *. rewrite !length_app. cbn [length]. lia.
Qed.

Lemma proof_item_short n i nodes :
  zlen nodes ≤ 62 → Forall (fun x => length x = 32%nat) nodes → zlen (encode (proof_item n i nodes)) < 2 ^ 64.
Proof. intros Hl H32. pose proof (proof_item_length n i nodes Hl H32). lia. Qed.

Lemma encode_inclusion_proof_item n i nodes :
  admitted 17 false (proof_item n i nodes) →
  _encode_inclusion_proof n i (hex <$> nodes) = Ok (encode (proof_item n i nodes)).
Proof.
  intros Hi. unfold _encode_inclusion_proof. rewrite mapM_fromhex_hex. cbn [mbind outcome_bind].
  apply (dumps_item _ _ _ _ (le_n _) Hi). unfold represents. cbn [thaw value_of proof_item map].
  by rewrite !map_map.
Qed.

Lemma decode_inclusion_proof_item n i nodes :
  admitted 17 false (proof_item n i nodes) → 0 ≤ i < n → n ≤ MAX_TREE_SIZE → zlen nodes ≤ 62 →
  zlen nodes = _expected_inclusion_path_len n i → Forall (fun x => length x = 32%nat) nodes →
  _decode_inclusion_proof (encode (proof_item n i nodes)) = Ok (n, i, hex <$> nodes).
Proof.
  intros Hi Hr Hn Hl Hexp H32. unfold _decode_inclusion_proof.
  destruct (decode_item 17 false _ (le_n _) Hi) as (v & -> & Hv). cbn [rethrow mbind outcome_bind].
  rewrite bool_decide_eq_true_2 by done. cbn [negb]. rewrite (plain_represents 17 _ _ Hi Hv).
  cbn [value_of proof_item map]. rewrite map_map.
  change (map (λ x, value_of (Octets x)) nodes) with (VBytes <$> nodes).
  rewrite zlen_fmap. unfold _MAX_AUDIT_PATH. replace (zlen nodes >? 64) with false by lia.
  rewrite path_nodes_bytes. cbn [mbind outcome_bind].
  replace (negb ((0 <=? i) && (i <? n)) || (n >? MAX_TREE_SIZE)) with false by lia.
  rewrite Hexp, Z.eqb_refl. cbn [negb]. by rewrite (proj2 (length_32_forall nodes) H32).
Qed.

(** ** Headers *)

(** The unprotected header with one inclusion proof. *)
Definition vdp_items (blob : bytes) : list (item * item) := [(Uint 396, Map [(Nint 0, Array [Octets blob])])].

Lemma vdp_admitted blob : zlen blob < 2 ^ 64 → admitted 15 false (Map (vdp_items blob)).
Proof.
  intros Hb. apply admitted_Map. split; [done|]. split; [apply NoDup_singleton|]. apply Forall_singleton.
  split_and!; [done|done|]. apply admitted_Map. split; [done|]. split; [apply NoDup_singleton|]. apply Forall_singleton.
  split_and!; [done|done|]. apply admitted_Array. split; [done|]. apply Forall_singleton. by apply admitted_Octets.
Qed.

Lemma receipt_headers_message pl blob sig kind :
  admitted 17 true (message_item (encode (Map pl)) (vdp_items blob) None sig) → admitted 17 false (Map pl) →
  zlen blob < 2 ^ 64 → check blob "an inclusion proof" false = Ok () →
  zlen (encode (message_item (encode (Map pl)) (vdp_items blob) None sig)) ≤ MAX_MESSAGE_BYTES →
  dict_get (dict_of pl) HDR_VDS = Some (VInt kind) → dict_mem (dict_of pl) HDR_ALG = true →
  _check_critical_headers (dict_of pl)
    (if bool_decide (Some kind = Some VDS_CCF_LEDGER_SHA256) then _CCF_RECEIPT_UNDERSTOOD else _RECEIPT_UNDERSTOOD) = Ok () →
  receipt_headers (encode (message_item (encode (Map pl)) (vdp_items blob) None sig)) =
    pass {| protected := dict_of pl; vds := Some kind; inclusion_proofs := [blob] |}.
Proof.
  intros Hm Hpl Hb Hcheck Hsize Hvds Halg Hcrit. unfold receipt_headers.
  destruct (strict_decode_message _ _ _ _ Hm Hpl Hsize) as (tp & un & -> & Hun). cbn [or_cose proceed pass slot_of].
  rewrite Z.eqb_refl. cbn [negb].
  rewrite (proj2 (check_iff _ "the receipt" true)) by by eexists. cbn [or_cose proceed pass].
  assert (loads_protected (encode (Map pl)) = pass (VDict false (dict_of pl))) as Hload.
  { destruct (loads_item 17 false (Map pl) (le_n _) Hpl) as (v & Hv & Hr). unfold loads_protected.
    pose proof (encode_nonempty _ _ _ Hpl). destruct (encode (Map pl)) as [|o os]; [done|]. rewrite Hv. cbn.
    by rewrite (plain_represents 17 _ _ Hpl Hr). }
  assert (check (encode (Map pl)) "the protected header" false = Ok ()) as Hrule by (apply check_iff; by eexists).
  pose proof (encode_nonempty _ _ _ Hpl) as Hne. destruct (encode (Map pl)) as [|o os]; [done|].
  rewrite Hrule. cbn [or_cose proceed pass]. rewrite Hload. cbn [proceed pass]. rewrite Hvds.
  rewrite Hcrit. cbn [or_cose proceed pass]. rewrite Halg. cbn [negb].
  rewrite (plain_represents 15 _ _ (vdp_admitted blob Hb) Hun), value_of_dict.
  change (dict_get (dict_of (vdp_items blob)) HDR_VDP) with (Some (VDict false [(VInt (-1), VList false [VBytes blob])])).
  cbv beta iota. change (dict_get [(VInt (-1), VList false [VBytes blob])] VDP_INCLUSION_PROOFS) with (Some (VList false [VBytes blob])).
  cbv beta iota. cbn [check_proofs]. rewrite Hcheck. done.
Qed.

(** ** The round trip *)

(** The protected header that is signed. *)
Definition receipt_header (iss sub : option string) (iat : option Z) (grade : option string) (kid : option bytes) (code : Z) : dict :=
  receipt_protected iss sub iat grade kid ++ [(HDR_ALG, VInt code)].

Lemma receipt_header_set iss sub iat grade kid code :
  dict_set (receipt_protected iss sub iat grade kid) HDR_ALG (VInt code) = receipt_header iss sub iat grade kid code.
Proof. by destruct iss, sub, iat, grade, kid. Qed.

(** The labels [build_receipt] may sign that the verifier does not read. *)
Definition receipt_ext (grade : option string) (kid : option bytes) : dict :=
  match grade with Some grade => [(HDR_GRADE, VStr grade)] | None => [] end ++
  match kid with Some kid => [(HDR_KID, VBytes kid)] | None => [] end.

Lemma accepted_header iss sub iat_ grade kid code n i rt :
  (∀ t, iat_ = Some t → - 2 ^ 63 ≤ t < 2 ^ 63) →
  accepted (thaw_dict (receipt_header iss sub iat_ grade kid code)) (Some n) (Some i) rt =
    {| ok := true; root := Some rt; tree_size := Some n; leaf_index := Some i; errors := []; iat := iat_;
       issuer := iss; subject := sub; protected_header_ext := receipt_ext grade kid; failed_at := None |}.
Proof.
  intros Ht. assert (∀ t, iat_ = Some t → (if (- 2 ^ 63 <=? t) && (t <? 2 ^ 63) then Some t else None) = Some t) as Hif.
  { intros t E. specialize (Ht t E). by replace ((- 2 ^ 63 <=? t) && (t <? 2 ^ 63)) with true by lia. }
  destruct iat_ as [t|]; [specialize (Hif t eq_refl)|clear Hif]; destruct iss, sub, grade, kid;
    unfold accepted; f_equal; try reflexivity; exact Hif.
Qed.

(** The signature step of a candidate that folds to the signed root. *)
Lemma verify_rfc9162_one receipt leaf pem h blob n i path digest s :
  inclusion_proofs h = [blob] → _decode_inclusion_proof blob = Ok (n, i, path) →
  root_from_inclusion_proof leaf i n path = Ok (Some (hex digest)) →
  verify_sign1 receipt pem (Some digest) _RECEIPT_UNDERSTOOD = Ok s →
  verify_rfc9162 receipt leaf pem h = Ok (accepted (protected h) (Some n) (Some i) (hex digest)).
Proof.
  intros Hblob Hdec Hroot Hv. unfold verify_rfc9162. rewrite Hblob. cbn [mapM]. rewrite Hdec.
  cbn [mbind outcome_bind mret outcome_ret or_cose pass try_candidates]. unfold _reconstruct_root. rewrite Hroot, fromhex_hex.
  cbn [mbind outcome_bind]. by rewrite Hv.
Qed.

Lemma root_digest_length leaf i n path digest :
  root_from_inclusion_proof leaf i n path = Ok (Some (hex digest)) → zlen digest = 32.
Proof.
  unfold root_from_inclusion_proof. intros Hfold. repeat case_if_in Hfold; try done. ok_inv.
  destruct a0 as [[d|] [|]]; try done. injection Hfold as ->%hex_inj.
  apply inclusion_fold_length in Ha0; [unfold zlen; lia|apply leaf_hash_length].
Qed.

(** The verification half: a signed message with the header and the inclusion
    proof of a receipt is accepted. *)
Lemma verify_minted pl sig code digest pk_pem leaf n i nodes iss sub iat_ grade kid :
  let blob := encode (proof_item n i nodes) in
  let receipt := encode (message_item (encode (Map pl)) (vdp_items blob) None sig) in
  admitted 17 true (message_item (encode (Map pl)) (vdp_items blob) None sig) → admitted 17 false (Map pl) →
  zlen receipt ≤ MAX_MESSAGE_BYTES → zlen (encode (Map pl)) < 2 ^ 64 →
  dict_of pl = thaw_dict (receipt_header iss sub iat_ grade kid code) →
  dict_get (dict_of pl) HDR_ALG = Some (VInt code) →
  check_signature pk_pem code sig (encode (sig_item (encode (Map pl)) digest)) = Ok () →
  0 ≤ i < n → n ≤ MAX_TREE_SIZE → zlen nodes ≤ 62 → zlen nodes = _expected_inclusion_path_len n i →
  Forall (fun x => length x = 32%nat) nodes → root_from_inclusion_proof leaf i n (hex <$> nodes) = Ok (Some (hex digest)) →
  (∀ t, iat_ = Some t → - 2 ^ 63 ≤ t < 2 ^ 63) →
  verify_receipt receipt leaf pk_pem =
    Ok {| ok := true; root := Some (hex digest); tree_size := Some n; leaf_index := Some i; errors := [];
          iat := iat_; issuer := iss; subject := sub; protected_header_ext := receipt_ext grade kid; failed_at := None |}.
Proof.
  cbv zeta. intros Hm Hpl Hsize Hlp Hdict Hget Hcheck Hi Hn H62 Hexp H32 Hfold Ht.
  pose proof (proof_item_admitted n i nodes Hi Hn H62 H32) as Hitem. set (blob := encode (proof_item n i nodes)) in *.
  assert (zlen blob < 2 ^ 64) as Hblob by by apply proof_item_short.
  assert (check blob "an inclusion proof" false = Ok ()) as Hrule by (apply check_iff; by eexists).
  assert (_check_critical_headers (dict_of pl) _RECEIPT_UNDERSTOOD = Ok ()) as Hcrit.
  { unfold _check_critical_headers. rewrite Hdict, dict_get_thaw. by destruct iss, sub, iat_, grade, kid. }
  assert (dict_get (dict_of pl) HDR_VDS = Some (VInt VDS_RFC9162_SHA256)) as Hvds.
  { rewrite Hdict, dict_get_thaw. by destruct iss, sub, iat_, grade, kid. }
  assert (dict_mem (dict_of pl) HDR_ALG = true) as Hmem by (unfold dict_mem; by rewrite Hget).
  pose proof (root_digest_length _ _ _ _ _ Hfold) as Hdl. unfold verify_receipt, _verify_receipt.
  rewrite (receipt_headers_message pl blob sig _ Hm Hpl Hblob Hrule Hsize Hvds Hmem Hcrit).
  cbn [pass mbind outcome_bind vds VDS_RFC9162_SHA256].
  rewrite (verify_rfc9162_one _ leaf pk_pem
    {| protected := dict_of pl; vds := Some VDS_RFC9162_SHA256; inclusion_proofs := [blob] |} blob n i (hex <$> nodes) digest _ eq_refl
    (decode_inclusion_proof_item _ _ _ Hitem Hi Hn H62 Hexp H32) Hfold
    (verify_sign1_message pl (vdp_items blob) None sig code digest pk_pem (Some digest) _RECEIPT_UNDERSTOOD
      Hm Hpl (vdp_admitted blob Hblob) Hsize Hlp ltac:(lia) eq_refl Hget Hcrit Hcheck)).
  cbn [mbind outcome_bind protected]. rewrite Hdict, accepted_header by done. done.
Qed.

(** What [build_receipt] emits. *)
Lemma build_receipt_message entries leaf i rt alg code sk_pem pk_pem key iss sub kid iat_ grade pl :
  zlen entries ≤ MAX_TREE_SIZE → 0 ≤ i → entries !! Z.to_nat i = Some leaf → merkle_root entries = Ok rt →
  ALG_NAME_TO_CODE alg = Some code →
  load_private sk_pem = Ok key → load_public pk_pem = Ok (public_of key) →
  alg_class code = Some (private_class key) →
  represents (VDict false (receipt_header iss sub iat_ grade kid code)) (Map pl) → admitted 17 false (Map pl) →
  zlen (encode (Map pl)) < 2 ^ 64 →
  ∃ nodes digest sig,
    let m := message_item (encode (Map pl)) (vdp_items (encode (proof_item (zlen entries) i nodes))) None sig in
    build_receipt leaf i entries alg sk_pem true iss sub kid iat_ grade = Ok (encode m) ∧ admitted 17 true m ∧
    check_signature pk_pem code sig (encode (sig_item (encode (Map pl)) digest)) = Ok () ∧
    dict_get (dict_of pl) HDR_ALG = Some (VInt code) ∧ (length sig ≤ 96)%nat ∧ rt = hex digest ∧
    inclusion_proof entries i = Ok (hex <$> nodes) ∧ Forall (fun x => length x = 32%nat) nodes ∧
    0 ≤ i < zlen entries ∧ zlen nodes ≤ 62 ∧ zlen nodes = _expected_inclusion_path_len (zlen entries) i ∧
    root_from_inclusion_proof leaf i (zlen entries) (hex <$> nodes) = Ok (Some (hex digest)).
Proof.
  intros Hmax Hi Hleaf Hroot Halg Hsk Hpk Hclass Hpr Hpl Hlp.
  destruct (inclusion_proof_root _ _ _ _ Hmax Hi Hleaf Hroot) as (nodes & Hproof & H32 & Hlt & Hexp & Hfold).
  apply reconstruct_hex in Hfold as Hd. destruct Hd as [digest ->].
  assert (zlen nodes ≤ 62) as H62.
  { rewrite Hexp. unfold _expected_inclusion_path_len. pose proof (path_len_range (depth_fuel (zlen entries)) (zlen entries) i).
    pose proof (depth_fuel_bound (zlen entries) 62 Hmax). lia. }
  pose proof (proof_item_admitted (zlen entries) i nodes ltac:(lia) Hmax H62 H32) as Hitem.
  pose proof (root_digest_length _ _ _ _ _ Hfold) as Hdl.
  set (blob := encode (proof_item (zlen entries) i nodes)).
  destruct (sign_sign1_message digest alg code sk_pem pk_pem key (Some (receipt_protected iss sub iat_ grade kid))
    (Some [(HDR_VDP, VDict false [(VDP_INCLUSION_PROOFS, VList false [VBytes blob])])]) pl (vdp_items blob) true)
    as (sig & Hsign & Hm & Hcheck & Hget & Hlen); try done.
  { cbn [or_empty]. by rewrite receipt_header_set. }
  { by apply vdp_admitted, proof_item_short. }
  { lia. }
  exists nodes, digest, sig. cbv zeta. fold blob. split_and!; try done; try lia.
  unfold build_receipt. replace ((0 <=? i) && (i <? zlen entries)) with true by lia. cbn [negb].
  rewrite bool_decide_eq_false_2 by (by intros []). cbn [negb]. rewrite Hroot. cbn [mbind outcome_bind].
  rewrite Hproof. cbn [mbind outcome_bind]. rewrite encode_inclusion_proof_item by done. cbn [mbind outcome_bind].
  rewrite fromhex_hex. cbn [mbind outcome_bind]. exact Hsign.
Qed.

Lemma receipt_header_dict iss sub iat_ grade kid code pl :
  represents (VDict false (receipt_header iss sub iat_ grade kid code)) (Map pl) →
  dict_of pl = thaw_dict (receipt_header iss sub iat_ grade kid code).
Proof. unfold represents. rewrite value_of_dict. cbn [thaw]. by intros [= <-]. Qed.

(** C29: a minted receipt verifies: for every entry of every log of at most
    [MAX_TREE_SIZE] well-formed entries, [build_receipt] succeeds with a key
    of the algorithm's class, and [verify_receipt] with the matching public
    key accepts its output for that entry and reports the root, the size, the
    position and exactly the claims and labels that were put in; provided the
    protected header is within the encoding rule, [iat] fits in 64 bits, and
    the receipt is within 10 MiB. *)
Theorem build_verify_receipt entries leaf i rt alg code sk_pem pk_pem key iss sub kid iat_ grade pl :
  zlen entries ≤ MAX_TREE_SIZE → 0 ≤ i → entries !! Z.to_nat i = Some leaf → merkle_root entries = Ok rt →
  ALG_NAME_TO_CODE alg = Some code →
  load_private sk_pem = Ok key → load_public pk_pem = Ok (public_of key) →
  alg_class code = Some (private_class key) →
  represents (VDict false (receipt_header iss sub iat_ grade kid code)) (Map pl) → admitted 17 false (Map pl) →
  zlen (encode (Map pl)) < 2 ^ 64 → (∀ t, iat_ = Some t → - 2 ^ 63 ≤ t < 2 ^ 63) →
  ∃ receipt, build_receipt leaf i entries alg sk_pem true iss sub kid iat_ grade = Ok receipt ∧
    (zlen receipt ≤ MAX_MESSAGE_BYTES →
     verify_receipt receipt leaf pk_pem =
       Ok {| ok := true; root := Some rt; tree_size := Some (zlen entries); leaf_index := Some i; errors := [];
             iat := iat_; issuer := iss; subject := sub; protected_header_ext := receipt_ext grade kid;
             failed_at := None |}).
Proof.
  intros Hmax Hi Hleaf Hroot Halg Hsk Hpk Hclass Hpr Hpl Hlp Ht.
  destruct (build_receipt_message entries leaf i rt alg code sk_pem pk_pem key iss sub kid iat_ grade pl)
    as (nodes & digest & sig & Hb & Hm & Hcheck & Hget & _ & -> & _ & H32 & Hlt & H62 & Hexp & Hfold); try done.
  eexists. split; [exact Hb|]. intros Hsize. eapply verify_minted; eauto. by apply receipt_header_dict.
Qed.
End receipt.
