(* ===== verification/Cli.v ===== *)
(** * The command line: [scitt_cose/cli.py]

    [main] on the parsed options.  Reading a file is the operating system's:
    [open_read] gives the octets of a path or raises [OSError].  The printed
    report is kept as the dict it prints ([--json]) or as its lines; that a
    value of the report cannot be turned into text is an exception of [main].
    Lengths, sizes and positions are far from the limit on digits, and the
    terminal takes any text. *)

From S2P Require Import Prelude PyRuntime Sha256 Merkle EncodingRule Cbor Crypto CoseSign1 Statement Receipt.

(** What [_build_parser] parses. *)
Record options := {
  statement : option string; statement_pubkey : option string; receipt : option string;
  receipt_log_pubkey : option string; leaf_entry_hex : option string; as_json : bool }.

(** [if path:] *)
Definition given (path : option string) : option string :=
  match path with Some p => if bool_decide (p = "") then None else Some p | None => None end.

(** The dict of [_verify_statement]: the parsed statement without its claims,
    with the length of the payload for the payload. *)
Record statement_report := {
  stated : option bool; stated_issuer : option string; stated_subject : option string;
  stated_content_type : option string; stated_alg : option pyval; stated_unverified : option (fields * option Z);
  payload_len : option Z }.

(** The dict of [_verify_receipt]; a missing key is [None]. *)
Record receipt_report := {
  reported_ok : bool; reported_root : option string; reported_tree_size : option Z; reported_leaf_index : option Z;
  reported_failed_at : option string; reported_errors : list msg }.

Record report := { statement_part : option statement_report; receipt_part : option receipt_report }.

(** What reaches the terminal. *)
Inductive printed : Type :=
| JsonReport (r : report)
| Human (lines : list msg)
| Stderr (m : msg).

(** ** Text of a value

    [str] and [repr] of an object of another class ([VOther]), and whether it
    is a float, are the interpreter's and [cbor2]'s. *)
Class PyText := {
  other_is_float : N → bool;
  other_str : N → result unit;
  other_repr : N → result unit
}.

Section each.
Context {A : Type} (f : A → result unit).
(** [f] on one element after the other, up to the first exception. *)
Fixpoint each (l : list A) : result unit :=
  match l with
  | [] => Ok ()
  | x :: l => _ ← f x; each l
  end.
End each.

Section text.
Context `{PyText}.

(** [repr(v)], as the unit it returns or the exception it raises *)
Fixpoint py_repr (v : pyval) : result unit :=
  match v with
  | VInt z => int_text z
  | VList _ l => each py_repr l
  | VDict _ d => each (fun kv => _ ← py_repr kv.1; py_repr kv.2) d
  | VTag _ v => py_repr v
  | VOther _ id => other_repr id
  | VBool _ | VNone | VBytes _ | VStr _ => Ok ()
  end.

(** [str(v)] *)
Definition py_text (v : pyval) : result unit := match v with VOther _ id => other_str id | _ => py_repr v end.

(** A key of a dict that [json.dumps] writes. *)
Definition json_key (k : pyval) : result unit :=
  match k with
  | VStr _ | VBool _ | VNone => Ok ()
  | VInt z => int_text z
  | VOther _ id => if other_is_float id then Ok () else Raise TypeError
  | VBytes _ | VList _ _ | VDict _ _ | VTag _ _ => Raise TypeError
  end.

(** [json.dumps(v, indent=2, default=str)]: a tuple is a list, and [str] is
    asked for a value of any other class, but never for a key. *)
Fixpoint json_dumps_str (v : pyval) : result unit :=
  match v with
  | VInt z => int_text z
  | VBool _ | VNone | VStr _ => Ok ()
  | VList _ l => each json_dumps_str l
  | VDict false d => each (fun kv => _ ← json_key kv.1; json_dumps_str kv.2) d
  | VOther _ id => if other_is_float id then Ok () else other_str id
  | VBytes _ | VDict true _ | VTag _ _ => py_text v
  end.

Definition optional_text (f : pyval → result unit) (v : option pyval) : result unit :=
  match v with Some v => f v | None => Ok () end.

(** The values of the fields under [unverified]: the algorithm, and in the
    JSON report the claims too. *)
Definition unverified_text (as_json : bool) (unverified : option (fields * option Z)) : result unit :=
  match unverified with
  | Some (f, _) =>
      if as_json then _ ← optional_text json_dumps_str (alg f); json_dumps_str (VDict false (claims f))
      else optional_text py_text (alg f)
  | None => Ok ()
  end.

(** The statement's part of the report: the authenticated algorithm comes
    first in the JSON, and is the only one of the human report of a verified
    statement. *)
Definition statement_text (as_json : bool) (s : statement_report) : result unit :=
  if as_json then _ ← optional_text json_dumps_str (stated_alg s); unverified_text true (stated_unverified s)
  else match stated s with Some true => optional_text py_text (stated_alg s) | _ => unverified_text false (stated_unverified s) end.
End text.

Section cli.
Context `{Sha256} `{Cbor} `{Crypto} `{PyText} (open_read : string → result bytes).

Definition _read (path : string) : result bytes := open_read path.

Definition _verify_statement (args : options) : result (option statement_report) :=
  match given (statement args) with
  | None => Ok None
  | Some path =>
      msg ← _read path;
      pub ← (match given (statement_pubkey args) with Some path => Some <$> _read path | None => Ok None end);
      parsed ← parse_signed_statement msg (PemBytes <$> pub);
      let fields := authenticated parsed in
      Ok (Some {| stated := signature_verified parsed; stated_issuer := Statement.issuer fields;
                  stated_subject := Statement.subject fields;
                  stated_content_type := content_type fields; stated_alg := alg fields;
                  stated_unverified := Statement.unverified parsed; payload_len := zlen <$> payload fields |})
  end.

Definition _verify_receipt (args : options) : result (option receipt_report) :=
  match given (receipt args) with
  | None => Ok None
  | Some path =>
      match given (receipt_log_pubkey args), given (leaf_entry_hex args) with
      | Some log_path, Some leaf =>
          octets ← _read path;
          log_pub ← _read log_path;
          result ← verify_receipt octets leaf (PemBytes log_pub);
          Ok (Some {| reported_ok := ok result; reported_root := root result; reported_tree_size := tree_size result;
                      reported_leaf_index := leaf_index result; reported_failed_at := failed_at result;
                      reported_errors := errors result |})
      | _, _ =>
          Ok (Some {| reported_ok := false; reported_root := None; reported_tree_size := None; reported_leaf_index := None;
                      reported_failed_at := None;
                      reported_errors := [text "--receipt requires --receipt-log-pubkey and --leaf-entry-hex"] |})
      end
  end.

(** [f"{v}"] of an optional value *)
Definition show_text (v : option string) : msg_arg := match v with Some s => AStr s | None => AVal VNone end.
Definition show_int (v : option Z) : msg_arg := match v with Some z => AInt z | None => AVal VNone end.
Definition show_value (v : option pyval) : msg_arg := match v with Some v => AVal v | None => AVal VNone end.

Definition print_statement (s : statement_report) : list msg :=
  let sv_text := match stated s with None => "SKIPPED (no pubkey)" | Some true => "PASS" | Some false => "FAIL" end in
  let '(iss, sub, ct, al) :=
    match stated s with
    | Some true => (stated_issuer s, stated_subject s, stated_content_type s, stated_alg s)
    | _ => match stated_unverified s with
           | Some (f, _) => (Statement.issuer f, Statement.subject f, content_type f, alg f)
           | None => (None, None, None, None)
           end
    end in
  let tag := match stated s with Some true => "" | _ => "  [UNVERIFIED]" end in
  [text "  Signed Statement";
   Msg "    issuer (iss)   : {fields.get('issuer')}{tag}" [show_text iss; AStr tag];
   Msg "    subject (sub)  : {fields.get('subject')}{tag}" [show_text sub; AStr tag];
   Msg "    content_type   : {fields.get('content_type')}{tag}" [show_text ct; AStr tag];
   Msg "    alg            : {fields.get('alg')}{tag}" [show_value al; AStr tag];
   Msg "    signature      : {sv_text}" [AStr sv_text]].

Definition print_receipt (r : receipt_report) : list msg :=
  [text "  Receipt";
   Msg "    ok             : {r.get('ok')}" [AVal (VBool (reported_ok r))];
   Msg "    root           : {r.get('root')}" [show_text (reported_root r)];
   Msg "    tree_size      : {r.get('tree_size')}" [show_int (reported_tree_size r)];
   Msg "    leaf_index     : {r.get('leaf_index')}" [show_int (reported_leaf_index r)]]
  ++ ((fun e => Msg "    [ERR] {e}" [AMsg e]) <$> reported_errors r).

Definition rule : msg := text "------------------------------------------------------------------------".

Definition _print_human (r : report) : list msg :=
  [text "scitt-cose"; text "  {report['draft_tracking']}"; rule]
  ++ match statement_part r with Some s => print_statement s | None => [] end
  ++ match receipt_part r with Some r => print_receipt r | None => [] end
  ++ [rule].

(** The exit status and what is printed; [parser.error] exits with 2. *)
Definition main (args : options) : result (Z * printed) :=
  match given (statement args), given (receipt args) with
  | None, None => Ok (2, Stderr (text "supply at least one of --statement or --receipt"))
  | _, _ =>
      let reports :=
        statement_report ← _verify_statement args;
        receipt_report ← _verify_receipt args;
        Ok {| statement_part := statement_report; receipt_part := receipt_report |} in
      match reports with
      | Raise (OSError m) => Ok (2, Stderr (Msg "error: {exc}" [AMsg m]))
      | Raise (CoseError m) => Ok (1, Stderr (Msg "error: {exc}" [AMsg m]))
      | Raise e => Raise e
      | Ok report =>
          _ ← (match statement_part report with Some s => statement_text (as_json args) s | None => Ok () end);
          let printed := if as_json args then JsonReport report else Human (_print_human report) in
          let ok := true in
          let ok := match statement_part report with
                    | Some s => if bool_decide (stated s = Some false) then false else ok | None => ok end in
          let ok := match receipt_part report with Some r => if negb (reported_ok r) then false else ok | None => ok end in
          Ok (if ok then 0 else 1, printed)
      end
  end.
End cli.
