(* ===== verification/CliProof.v ===== *)
(** * What the exit status of the command line means *)

From S2P Require Import Prelude PyRuntime Sha256 Merkle EncodingRule Cbor Crypto CoseSign1 CoseSign1Proof Statement StatementProof Receipt ReceiptProof Cli.

Section cli.
Context `{Sha256} `{!Cbor} `{!CborLaws _} `{!Crypto} `{!VerifyLaws _} `{PyText} (open_read : string → result bytes).
#[local] Set Default Proof Using "All".

(** Reading a file fails with [OSError] only. *)
Definition reads_files : Prop := ∀ path e, open_read path = Raise e → ∃ m, e = OSError m.

(** The statement at [path] was read, and verified if a key file was named. *)
Definition statement_accepted (args : options) (path : string) : Prop :=
  ∃ octets, open_read path = Ok octets ∧
    ∀ key_path, given (statement_pubkey args) = Some key_path →
      ∃ key s, open_read key_path = Ok key ∧ verify_sign1 octets (PemBytes key) None _STMT_UNDERSTOOD = Ok s.

(** The receipt at [path] was read with its key and verified for the leaf. *)
Definition receipt_accepted (args : options) (path : string) : Prop :=
  ∃ log_path leaf octets key r,
    given (receipt_log_pubkey args) = Some log_path ∧ given (leaf_entry_hex args) = Some leaf ∧
    open_read path = Ok octets ∧ open_read log_path = Ok key ∧
    verify_receipt octets leaf (PemBytes key) = Ok r ∧ ok r = true.

(** The outcome of one half of the report: a report that passes or not, a
    file that could not be read, or another exception. *)
Definition half {A} (m : result (option A)) (asked : option string) (passes : A → Prop) (accepted : string → Prop)
    (escapes : exn → Prop) : Prop :=
  match asked with
  | None => m = Ok None
  | Some path =>
      (∃ a, m = Ok (Some a) ∧ (passes a ↔ accepted path)) ∨ (∃ e, m = Raise (OSError e) ∧ ¬ accepted path) ∨
      (∃ e, m = Raise e ∧ escapes e)
  end.

(** The key named for the statement is [key]. *)
Definition statement_key (args : options) (key : option PemLike) : Prop :=
  match given (statement_pubkey args) with
  | Some key_path => ∃ octets, open_read key_path = Ok octets ∧ key = Some (PemBytes octets)
  | None => key = None
  end.

(** The exception [e] reaches the user: an integer of more than 4300 digits
    in the header of a statement that was to be verified, or a value of a
    statement that was not verified that cannot be printed. *)
Definition escaping (args : options) (path : string) (e : exn) : Prop :=
  ∃ octets key, open_read path = Ok octets ∧ statement_key args key ∧
    ((e = digits_error ∧ oversized octets ∧ ∃ k, key = Some k ∧ verify_sign1 octets k None _STMT_UNDERSTOOD = Raise e) ∨
     ∃ p, parse_signed_statement octets key = Ok p ∧ signature_verified p ≠ Some true ∧
       unverified_text (as_json args) (Statement.unverified p) = Raise e).

Context (Hfiles : reads_files).

(** A read either gives octets or fails with [OSError]. *)
Lemma read_cases path : (∃ octets, open_read path = Ok octets) ∨ (∃ m, open_read path = Raise (OSError m)).
Proof. destruct (open_read path) as [|e] eqn:E; [eauto|]. destruct (Hfiles _ _ E) as [m ->]. eauto. Qed.

(** The report on a parsed statement. *)
Definition report_of (parsed : parsed) : statement_report :=
  let fields := authenticated parsed in
  {| stated := signature_verified parsed; stated_issuer := Statement.issuer fields;
     stated_subject := Statement.subject fields; stated_content_type := content_type fields;
     stated_alg := alg fields; stated_unverified := Statement.unverified parsed; payload_len := zlen <$> payload fields |}.

(** What is authenticated can be printed: the algorithm is a name. *)
Lemma verified_text octets key p as_json :
  parse_signed_statement octets key = Ok p →
  statement_text as_json (report_of p) =
    if decide (signature_verified p = Some true) then Ok () else unverified_text as_json (Statement.unverified p).
Proof.
  unfold parse_signed_statement. destruct key as [key|].
  - destruct (verify_sign1 octets key None _STMT_UNDERSTOOD) as [s|[]] eqn:Hv; try done.
    + intros [= <-]. cbn. apply verify_sign1_named in Hv as (code & name & Hc & Hn).
      unfold statement_text. cbn. rewrite Hc, Hn. by destruct as_json.
    + intros (u & _ & [= <-])%bind_ok. by destruct as_json.
  - intros (u & _ & [= <-])%bind_ok. by destruct as_json.
Qed.

Lemma printed_text args octets key p path :
  given (statement args) = Some path → open_read path = Ok octets → statement_key args key →
  parse_signed_statement octets key = Ok p →
  statement_text (as_json args) (report_of p) = Ok () ∨
  ∃ e, statement_text (as_json args) (report_of p) = Raise e ∧ escaping args path e.
Proof.
  intros Hpath Ho Hk Hp. rewrite (verified_text _ _ _ _ Hp). case_decide as Hs; [by left|].
  destruct (unverified_text (as_json args) (Statement.unverified p)) as [[]|e] eqn:He; [by left|right].
  exists e. split; [done|]. exists octets, key. split_and!; [done..|]. right. by exists p.
Qed.

(** The statement's half, printing included. *)
Definition statement_half_text (args : options) : result (option statement_report) :=
  r ← _verify_statement open_read args;
  _ ← (match r with Some s => statement_text (as_json args) s | None => Ok () end);
  Ok r.

Lemma read_key args :
  (∃ key, statement_key args key ∧
     (match given (statement_pubkey args) with Some path => Some <$> open_read path | None => Ok None end)
       = Ok (match key with Some (PemBytes b) => Some b | _ => None end) ∧
     PemBytes <$> (match key with Some (PemBytes b) => Some b | _ => None end) = key) ∨
  (∃ m, (match given (statement_pubkey args) with Some path => Some <$> open_read path | None => Ok None end) = Raise (OSError m) ∧
     ∃ key_path, given (statement_pubkey args) = Some key_path ∧ open_read key_path = Raise (OSError m)).
Proof.
  unfold statement_key. destruct (given (statement_pubkey args)) as [kp|]; [|left; by exists None].
  destruct (read_cases kp) as [[b Hb]|[m Hm]].
  - left. exists (Some (PemBytes b)). rewrite Hb. split_and!; [by exists b|done|done].
  - right. exists m. rewrite Hm. split; [done|]. by exists kp.
Qed.

Lemma statement_half args :
  half (_verify_statement open_read args) (given (statement args)) (fun s => stated s ≠ Some false) (statement_accepted args)
    (fun e => e = digits_error ∧ ∃ path, given (statement args) = Some path ∧ escaping args path e) ∧
  ∀ path s, given (statement args) = Some path → _verify_statement open_read args = Ok (Some s) →
    statement_text (as_json args) s = Ok () ∨ ∃ e, statement_text (as_json args) s = Raise e ∧ escaping args path e.
Proof.
  unfold half, _verify_statement, statement_accepted, _read. destruct (given (statement args)) as [path|] eqn:Hpath; [|done].
  destruct (read_cases path) as [[octets Ho]|[m Ho]]; rewrite Ho; cbn [mbind outcome_bind].
  2: { split; [|done]. right; left; exists m; split; [done|]; by intros (? & [=] & _). }
  destruct (read_key args) as [(key & Hk & -> & Hpem)|(m & -> & kp & Hkp & Hm)]; cbn [mbind outcome_bind].
  2: { split; [|done]. right; left. exists m. split; [done|]. intros (? & _ & Hv). destruct (Hv _ Hkp) as (? & ? & Hx & _). congruence. }
  rewrite Hpem. destruct (parse_signed_statement_total octets key) as [[p Hp]|(k & -> & Hsize & Hv & Hr)].
  2: { rewrite Hr. cbn [mbind outcome_bind]. split; [|done]. right; right. exists digits_error. split; [done|]. split; [done|].
       exists path. split; [done|]. exists octets, (Some k). split_and!; [done..|]. left. split_and!; [done..|]. by exists k. }
  rewrite Hp. cbn [mbind outcome_bind]. fold (report_of p). split.
  2: { intros ? s [= <-] [= <-]. by eapply printed_text. }
  left. exists (report_of p). split; [done|]. cbn [stated report_of]. unfold parse_signed_statement in Hp. destruct key as [k|].
  - unfold statement_key in Hk. destruct (given (statement_pubkey args)) as [kp|]; [|done].
    destruct Hk as (b & Hb & [= ->]). destruct (verify_sign1 octets (PemBytes b) None _STMT_UNDERSTOOD) as [s|[]] eqn:Hv; try done.
    + injection Hp as <-. split; [|done]. intros _. exists octets. split; [done|]. intros ? [= <-]. eauto.
    + apply bind_ok in Hp as (u & _ & [= <-]). split; [done|].
      intros (? & [= <-] & Hs). destruct (Hs _ eq_refl) as (b' & ? & Hb' & Hv'). assert (b' = b) as -> by congruence. congruence.
  - apply bind_ok in Hp as (u & _ & [= <-]). unfold statement_key in Hk. destruct (given (statement_pubkey args)) as [kp|].
    + by destruct Hk as (? & _ & [=]).
    + split; [|done]. intros _. exists octets. by split.
Qed.

Lemma receipt_half args :
  half (_verify_receipt open_read args) (given (receipt args)) (fun r => reported_ok r = true) (receipt_accepted args)
    (fun _ => False).
Proof.
  unfold half, _verify_receipt, receipt_accepted, _read. destruct (given (receipt args)) as [path|]; [|done].
  destruct (given (receipt_log_pubkey args)) as [log_path|], (given (leaf_entry_hex args)) as [leaf|];
    try (left; eexists; split; [reflexivity|]; split; [done|by intros (? & ? & ? & ? & ? & ? & ? & _)]).
  destruct (read_cases path) as [[octets Ho]|[m Ho]]; rewrite Ho; cbn [mbind outcome_bind];
    [|right; left; exists m; split; [done|]; by intros (? & ? & ? & ? & ? & _ & _ & [=] & _)].
  destruct (read_cases log_path) as [[key Hr]|[m Hr]]; rewrite Hr; cbn [mbind outcome_bind];
    [|right; left; exists m; split; [done|]; intros (? & ? & ? & ? & ? & [= <-] & _ & _ & Hx & _); congruence].
  left. destruct (verify_receipt_never octets leaf (PemBytes key)) as [r Hv]. rewrite Hv. eexists. split; [reflexivity|].
  cbn. split; [intros; by exists log_path, leaf, octets, key, r|].
  intros (? & ? & ? & ? & r' & [= <-] & [= <-] & [= <-] & Hk & Hv' & ?). congruence.
Qed.

(** C32: the command line says exactly what was verified. It exits with status
    0, 1 or 2, and with 0 exactly when at least one of the statement
    and the receipt was named, every file it needs was readable, the statement
    verified under the key named for it, if one was, and the receipt verified
    under the log key for the leaf entry named; with status 2 only
    a message is printed. Only two things make it end in an exception
    instead, both about a statement that was named and readable but not
    verified: with a key, an integer of more than 4300 digits in its protected
    header that the text of the refusal would name; and a value of the fields
    reported as unverified that cannot be printed, as a claim whose key is a
    byte string with [--json]. *)
Theorem cli_exit_status args :
  match main open_read args with
  | Ok (code, out) =>
      (code = 0 ∨ code = 1 ∨ code = 2 ∧ ∃ m, out = Stderr m) ∧
      (code = 0 ↔
         (given (statement args) ≠ None ∨ given (receipt args) ≠ None) ∧
         (∀ path, given (statement args) = Some path → statement_accepted args path) ∧
         (∀ path, given (receipt args) = Some path → receipt_accepted args path))
  | Raise e => ∃ path, given (statement args) = Some path ∧ escaping args path e
  end.
Proof.
  destruct (statement_half args) as [Hs Ht]. pose proof (receipt_half args) as Hr. unfold half in Hs, Hr. unfold main.
  destruct (given (statement args)) as [sp|].
  - destruct Hs as [(a & Ea & Ha)|[(e & -> & Ha)|(e & -> & -> & p & [= <-] & He)]].
    + specialize (Ht sp a eq_refl Ea). rewrite Ea. cbn [mbind outcome_bind].
      destruct (given (receipt args)) as [rp|].
      * destruct Hr as [(b & -> & Hb)|[(e & -> & Hb)|(? & _ & [])]]; cbn [mbind outcome_bind statement_part receipt_part].
        -- destruct Ht as [->|(e & -> & He)]; cbn [mbind outcome_bind]; [|by exists sp].
           case_bool_decide; destruct (reported_ok b); cbn; (split; [lia|]); naive_solver lia.
        -- split; [right; right; eauto|]. split; [lia|]; naive_solver.
      * rewrite Hr. cbn [mbind outcome_bind statement_part receipt_part].
        destruct Ht as [->|(e & -> & He)]; cbn [mbind outcome_bind]; [|by exists sp].
        case_bool_decide; (split; [lia|]); naive_solver lia.
    + cbn [mbind outcome_bind]. split; [right; right; eauto|]. split; [lia|]; naive_solver.
    + cbn [mbind outcome_bind]. by exists sp.
  - rewrite Hs. destruct (given (receipt args)) as [rp|].
    + destruct Hr as [(b & -> & Hb)|[(e & -> & Hb)|(? & _ & [])]]; cbn.
      * destruct (reported_ok b); cbn; (split; [lia|]); naive_solver lia.
      * split; [right; right; eauto|]. split; [lia|]. naive_solver.
    + split; [right; right; eauto|]. split; [lia|]. naive_solver.
Qed.
End cli.
