(* ===== verification/Hosted.v ===== *)
(** * The hosted verifier: [hosted_profiles/hosted.py]

    Request verification, the rate gate, the anonymous counters, the anchor
    proxy and the helpers of the capsule page.  The routes that call them are
    in [HostedRoutes].  Definitions only. *)

From stdpp Require Import gmap strings.
From S2P Require Import Prelude PyRuntime Sha256 Utf8 Merkle Cbor Json PyJson JsonLoads Base64 Crypto CoseSign1 Statement Receipt MachineMandate Aac Ritual.

(** ** Text *)

(** The characters [str.strip] removes. *)
Definition is_space_code (c : Z) : bool :=
  ((9 <=? c) && (c <=? 13)) || ((28 <=? c) && (c <=? 32)) || (c =? 133) || (c =? 160) || (c =? 5760) ||
  ((8192 <=? c) && (c <=? 8202)) || (c =? 8232) || (c =? 8233) || (c =? 8239) || (c =? 8287) || (c =? 12288).

(** [lstrip], [rstrip] and [strip] of a sequence of characters *)
Definition lstrip {A} (f : A → bool) (l : list A) : list A := drop_while f l.
Definition rstrip {A} (f : A → bool) (l : list A) : list A := reverse (drop_while f (reverse l)).
Definition strip {A} (f : A → bool) (l : list A) : list A := rstrip f (lstrip f l).

(** [_b64]: standard or URL-safe alphabet, with or without padding. *)
Definition _b64 (value : json) : result bytes :=
  match value with
  | JStr s =>
      let s := strip is_space_code (utf8_codes (of_string s)) in
      let s := s ++ repeat 61 (Z.to_nat (- zlen s mod 4)) in
      match urlsafe_b64decode s with Ok b => Ok b | Raise _ => b64decode s end
  | _ => Raise AttributeError
  end.

(** ** [verify_payload] *)

(** The dict [statement_report]. *)
Inductive StatementReport : Type :=
| StatementChecked (issuer subject content_type : option string) (alg : option pyval) (signature_verified : option bool)
    (payload_len : option Z)
| StatementRefused.

(** The dict [receipt_report]. *)
Inductive ReceiptReport : Type :=
| ReceiptChecked (ok : bool) (root : option string) (tree_size leaf_index : option Z) (errors : list msg)
| ReceiptRefused.

(** The verdict: a malformed request, which HTTP answers with 400, or the
    outcome of a verification; the constant members (the capabilities, the
    draft notice) are left out. *)
Inductive Verdict : Type :=
| BadRequest (reason : msg)
| Verified (valid : bool) (statement : option StatementReport) (receipt : option ReceiptReport) (reasons : list msg).

(** [statement_report.get("signature_verified") is True] *)
Definition statement_affirmed (r : StatementReport) : bool :=
  match r with StatementChecked _ _ _ _ (Some true) _ => true | _ => false end.
(** [receipt_report.get("ok") is True] *)
Definition receipt_affirmed (r : ReceiptReport) : bool :=
  match r with ReceiptChecked ok _ _ _ _ => ok | ReceiptRefused => false end.

Section hosted.
Context `{PyObjects} `{Sha256} `{Cbor} `{Crypto}.

(** [pub.encode() if isinstance(pub, str) else pub] of a key that is not null. *)
Definition pem_of (pub : json) : result PemLike :=
  match pub with JStr s => PemBytes <$> py_encode s | v => Ok (PemObject (py_bytes v)) end.

(** The candidates of a receipt when the leaf is not text: the first one
    whose size, index and path length agree reads the leaf, and
    [bytes.fromhex] raises. *)
Fixpoint nontext_candidates (candidates : list (Z * Z * list string)) : attempt :=
  match candidates with
  | [] => Exhausted (AVal VNone) None
  | (tree_size, leaf_index, audit_path_hex) :: candidates =>
      if negb ((0 <=? leaf_index) && (leaf_index <? tree_size)) || (tree_size >? MAX_TREE_SIZE)
         || negb (zlen audit_path_hex =? _expected_inclusion_path_len tree_size leaf_index)
      then nontext_candidates candidates
      else NotEvaluated TypeError
  end.

(** [verify_receipt] of a leaf that is not text. *)
Definition verify_nontext (receipt : bytes) : result ReceiptResult :=
  let structure r := {| ok := ok r; root := root r; tree_size := tree_size r; leaf_index := leaf_index r; errors := errors r;
    iat := iat r; issuer := issuer r; subject := subject r; protected_header_ext := protected_header_ext r;
    failed_at := Some "structure"%string |} in
  h ← receipt_headers receipt;
  match h with
  | inl error => Ok (structure (rejected error))
  | inr h =>
      match vds h with
      | Some 1 =>
          candidates ← or_cose (mapM _decode_inclusion_proof (inclusion_proofs h)) (fun exc => exc);
          Ok (structure (
            match candidates with
            | inl error => rejected error
            | inr candidates =>
                match nontext_candidates candidates with
                | NotEvaluated exc => rejected (Msg "inclusion proof could not be evaluated: {type(exc).__name__}" [AStr (exn_name exc)])
                | _ => unverified None (AVal VNone)
                end
            end))
      | Some 2 => Raise TypeError
      | _ => Ok (structure (rejected (text "unsupported verifiable data structure (protected label 395); expected RFC9162_SHA256 (vds=1) or CCF_LEDGER_SHA256 (vds=2)")))
      end
  end.

Definition verify_leaf (receipt : bytes) (leaf : json) (pem : PemLike) : result ReceiptResult :=
  match leaf with JStr leaf => verify_receipt receipt leaf pem | _ => verify_nontext receipt end.

(** The block [if has_statement]: the report and the reason it adds. *)
Definition check_statement (request : object) : StatementReport * list msg :=
  let checked :=
    stmt ← _b64 (get request "statement_b64");
    pub_bytes ← key_of (get request "statement_pubkey_pem");
    parse_signed_statement stmt pub_bytes in
  match checked with
  | Ok parsed =>
      let a := authenticated parsed in
      (StatementChecked (Statement.issuer a) (Statement.subject a) (Statement.content_type a) (Statement.alg a)
         (signature_verified parsed) (zlen <$> Statement.payload a),
       match signature_verified parsed with
       | Some false => [text "statement signature did not verify"]
       | None => [text "statement signature not checked (no statement_pubkey_pem)"]
       | Some true => []
       end)
  | Raise (CoseError exc) => (StatementRefused, [Msg "statement: {exc}" [AMsg exc]])
  | Raise exc => (StatementRefused, [Msg "statement: malformed input ({type(exc).__name__})" [AStr (exn_name exc)]])
  end.

(** The block [if has_receipt]. *)
Definition check_receipt (request : object) : ReceiptReport * list msg :=
  let log_pub := get request "log_pubkey_pem" in
  let leaf := get request "leaf_entry_hex" in
  if negb (json_truthy log_pub) || negb (json_truthy leaf)
  then (ReceiptRefused, [text "receipt requires log_pubkey_pem and leaf_entry_hex"])
  else
    let checked := receipt ← _b64 (get request "receipt_b64"); log_bytes ← pem_of log_pub; verify_leaf receipt leaf log_bytes in
    match checked with
    | Ok res =>
        (ReceiptChecked (ok res) (root res) (tree_size res) (leaf_index res) (errors res), if ok res then [] else errors res)
    | Raise exc => (ReceiptRefused, [Msg "receipt: malformed input ({type(exc).__name__})" [AStr (exn_name exc)]])
    end.

Definition verify_payload (request : object) : Verdict :=
  let has_statement := json_truthy (get request "statement_b64") in
  let has_receipt := json_truthy (get request "receipt_b64") in
  if negb has_statement && negb has_receipt then BadRequest (text "supply at least one of statement_b64 or receipt_b64")
  else
    let statement := if has_statement then Some (check_statement request) else None in
    let receipt := if has_receipt then Some (check_receipt request) else None in
    let components :=
      (match statement with Some (r, _) => [statement_affirmed r] | None => [] end)
      ++ (match receipt with Some (r, _) => [receipt_affirmed r] | None => [] end) in
    let valid := match components with [] => false | _ => forallb (fun b => b) components end in
    Verified valid (fst <$> statement) (fst <$> receipt)
      ((match statement with Some (_, reasons) => reasons | None => [] end)
       ++ (match receipt with Some (_, reasons) => reasons | None => [] end)).

Definition verify_request_bytes (body : bytes) : Verdict :=
  let request := if utf8_valid body then json_loads (to_string body) else Raise UnicodeDecodeError in
  match request with
  | Raise exc => BadRequest (Msg "request body is not valid JSON ({exc})" [AMsg (exn_msg exc)])
  | Ok (JObj request) => verify_payload request
  | Ok _ => BadRequest (text "request body must be a JSON object")
  end.

(** ** The rate gate *)

(** Readings of the monotonic clock are in nanoseconds. *)
Record RateGate := { per_minute : Z; window_start : Z; count : Z }.

Definition new_gate (per_minute : Z) : RateGate := {| per_minute := per_minute; window_start := 0; count := 0 |}.

Definition window_length : Z := 60000000000.

(** [_RateGate.allow] at the clock reading [now] *)
Definition allow (now : Z) (g : RateGate) : bool * RateGate :=
  if per_minute g <=? 0 then (true, g)
  else
    let g := if now - window_start g >=? window_length then {| per_minute := per_minute g; window_start := now; count := 0 |} else g in
    let g := {| per_minute := per_minute g; window_start := window_start g; count := count g + 1 |} in
    (count g <=? per_minute g, g).

(** ** Anonymous counters *)

Record Counters := { views : Z; referrers : gmap string Z }.

Fixpoint split_on (sep : byte) (b : bytes) : list bytes :=
  match b with
  | [] => [[]]
  | c :: b =>
      if bool_decide (c = sep) then [] :: split_on sep b
      else match split_on sep b with part :: parts => (c :: part) :: parts | [] => [[c]] end
  end.

Definition same_origin_hosts : list string :=
  ["verify.agentactioncapsule.org"; "verify.actionstate.ai"; "localhost"; "127.0.0.1"].

Definition _referrer_domain (referer : string) : option string :=
  if bool_decide (referer = "") then None
  else
    match url_hostname referer with
    | Raise _ => None
    | Ok hostname =>
        let host := match hostname with Some h => h | None => ""%string end in
        if bool_decide (host = "") || bool_decide (host ∈ same_origin_hosts) then None
        else
          let parts := split_on x2e (rstrip (fun c => bool_decide (c = x2e)) (of_string host)) in
          Some (if zlen parts >=? 2 then to_string (join x2e (drop (length parts - 2) parts)) else host)
    end.

Definition _instrument_capsule_view (referer : string) (c : Counters) : Counters :=
  {| views := views c + 1;
     referrers :=
       match _referrer_domain referer with
       | Some domain =>
           if bool_decide (domain = "") then referrers c
           else <[ domain := (match referrers c !! domain with Some n => n | None => 0 end) + 1 ]> (referrers c)
       | None => referrers c
       end |}.

(** ** Capsule page helpers *)

Definition is_slash (c : byte) : bool := bool_decide (c = x2f).

Definition is_hex_octet (c : byte) : bool :=
  ((48 <=? byte_val c) && (byte_val c <=? 57)) || ((65 <=? byte_val c) && (byte_val c <=? 70)) || ((97 <=? byte_val c) && (byte_val c <=? 102)).

(** [cid.lower()] of hexadecimal digits *)
Definition lower (c : byte) : byte := if (65 <=? byte_val c) && (byte_val c <=? 90) then byte_of (byte_val c + 32) else c.

Definition _capsule_id_from_path (path prefix : string) : option string :=
  let stripped := lstrip is_slash (of_string path) in
  let prefix := lstrip is_slash (of_string prefix) in
  if bool_decide (take (length prefix) stripped = prefix) then
    let cid := strip is_slash (drop (length prefix) stripped) in
    if (zlen cid =? 64) && forallb is_hex_octet cid then Some (to_string (map lower cid)) else None
  else None.

Definition _is_hex64 (s : json) : bool :=
  match s with JStr s => (zlen (of_string s) =? 64) && forallb is_hex_octet (of_string s) | _ => false end.

Definition _unwrap_envelope (data : json) : json :=
  match data with
  | JObj d => match get d "capsule" with JObj inner => JObj inner | _ => data end
  | _ => data
  end.

Definition _capsule_has_hitl (cap : json) : result bool :=
  let disposition := match _unwrap_envelope cap with JObj d => get d "disposition" | _ => JNull end in
  if negb (json_truthy disposition) then Ok false
  else
    d ← as_dict disposition;
    Ok ((match get d "human_disposed" with JBool true => true | _ => false end) || is_text (get d "approver") "human").

(** [any(c.get("evidence_digest") for c in constraints)] *)
Fixpoint any_evidence (constraints : list json) : result bool :=
  match constraints with
  | [] => Ok false
  | c :: constraints =>
      ev ← py_get c "evidence_digest" JNull;
      if json_truthy ev then Ok true else any_evidence constraints
  end.

Definition _capsule_has_sd (cap : json) : result bool :=
  match _unwrap_envelope cap with
  | JObj cap =>
      ma ← object_or_empty (get cap "model_attestation");
      let ca := py_or (get ma "compute_attestation") (JObj []) in
      if json_truthy (get cap "withheld_commitments") then Ok true
      else
        constraints ← py_tuple (py_or (get cap "constraints") (JArr []));
        evidence ← any_evidence constraints;
        if (evidence : bool) then Ok true
        else
          ca ← as_dict ca;
          Ok (_is_hex64 (get_or ca "agent_input_digest" (JStr "")) || _is_hex64 (get_or ca "agent_output_digest" (JStr "")))
  | _ => Ok false
  end.

(** ** The anchor proxy *)

(** What [_fetch_json] returns or raises. *)
Inductive fetched : Type :=
| Fetched (v : json)
| HttpError (code : Z) (exc : msg)
| FetchFailed (exc : msg).

Record AnchorStatus := {
  status_capsule_id : string; anchored : bool; receipt_verified : bool; log_index : json; status_leaf_index : json;
  status_tree_size : json; error : option msg; rung : option string; receipt_errors : list msg;
  receipt_verify_error : option msg }.

Definition newline : string := to_string [x0a].

Definition _ed25519_hex_to_pem (raw_hex : string) : result string :=
  raw ← fromhex raw_hex;
  header ← fromhex "302a300506032b6570032100";
  Ok ("-----BEGIN PUBLIC KEY-----" +:+ newline +:+ to_string (b64encode (header ++ raw)) +:+ newline
      +:+ "-----END PUBLIC KEY-----" +:+ newline)%string.

(** [_VISIBILITY_TO_RUNG.get(visibility, "publicly-anchored")] *)
Definition rung_of (visibility : json) : result string :=
  _ ← py_hash visibility;
  Ok (if is_text visibility "local" then "local-anchored"
      else if is_text visibility "counterparty" then "counterparty-visible" else "publicly-anchored")%string.

(** [len(v)] *)
Definition py_len (v : json) : result Z :=
  match v with
  | JStr s => Ok (zlen (utf8_codes (of_string s)))
  | JArr l => Ok (zlen l)
  | JObj d => Ok (zlen d)
  | JNull | JBool _ | JInt _ | JFloat _ => Raise TypeError
  end.

(** The inner [try]: the verification of the receipt the anchor returned. *)
Definition check_anchor_receipt (pubkey_data receipt_b64 entry_hash : json) : result (option ReceiptResult) :=
  pubkey_hex ← py_get pubkey_data "pubkey_hex" (JStr "");
  n ← py_len pubkey_hex;
  if n =? 64 then
    log_pem ← (match pubkey_hex with JStr s => _ed25519_hex_to_pem s | _ => Raise TypeError end);
    receipt_bytes ← (match receipt_b64 with JStr s => b64decode (utf8_codes (of_string s) ++ [61; 61]) | _ => Raise TypeError end);
    vr ← verify_leaf receipt_bytes entry_hash (PemBytes (of_string log_pem));
    Ok (Some vr)
  else Ok None.

Definition anchor_base : string := "https://anchor.agentactioncapsule.org".

(** [_fetch_json] is an argument. *)
Definition _anchor_proxy_json (fetch : string → fetched) (capsule_id : string) : AnchorStatus :=
  let status anchored verified index size error rung errors verify_error :=
    {| status_capsule_id := capsule_id; anchored := anchored; receipt_verified := verified; log_index := index;
       status_leaf_index := index; status_tree_size := size; error := error; rung := rung; receipt_errors := errors;
       receipt_verify_error := verify_error |} in
  match fetch (anchor_base +:+ "/v1/inclusion/" +:+ capsule_id)%string with
  | HttpError code _ =>
      if code =? 404 then status false false JNull JNull None (Some "standalone"%string) [] None
      else status false false JNull JNull (Some (Msg "anchor returned HTTP {exc.code}" [AInt code])) None [] None
  | FetchFailed exc => status false false JNull JNull (Some exc) None [] None
  | Fetched (JObj inclusion) =>
      let index := get inclusion "leaf_index" in
      let size := get inclusion "tree_size" in
      match rung_of (get inclusion "visibility") with
      | Raise exc => status true false index size (Some (exn_msg exc)) None [] None
      | Ok rung =>
          let receipt_b64 := get_or inclusion "receipt_b64" (JStr "") in
          let entry_hash := get_or inclusion "entry_hash" (JStr "") in
          if json_truthy receipt_b64 && json_truthy entry_hash then
            match fetch (anchor_base +:+ "/anchor/authority-pubkey")%string with
            | HttpError _ exc | FetchFailed exc => status true false index size None (Some rung) [] (Some exc)
            | Fetched pubkey_data =>
                match check_anchor_receipt pubkey_data receipt_b64 entry_hash with
                | Raise exc => status true false index size None (Some rung) [] (Some (exn_msg exc))
                | Ok None => status true false index size None (Some rung) [] None
                | Ok (Some vr) => status true (ok vr) index size None (Some rung) (if ok vr then [] else errors vr) None
                end
            end
          else status true false index size None (Some rung) [] None
      end
  | Fetched _ => status true false JNull JNull (Some (exn_msg AttributeError)) None [] None
  end.
End hosted.
