(* ===== verification/Vectors.v ===== *)
(** * The conformance runner: [scitt_cose/vectors.py]

    [check_vector] compares one test vector with what the public verifiers
    answer, [main] runs every vector of a manifest.  A path is the list of its
    parts; reading files is the operating system's.  The text of the printed
    table is left out, the exceptions its formatting raises are not. *)

From S2P Require Import Prelude PyRuntime Sha256 Utf8 Merkle Cbor Json PyJson JsonLoads Crypto CoseSign1 Statement Receipt Cli MachineMandate Aac Ritual Hosted.

(** [v[key]] of whatever [v] is *)
Definition item (v : json) (key : string) : result json :=
  match v with JObj d => index d key | _ => Raise TypeError end.

(** [a is v] of a verdict [True], [False] or [None] *)
Definition identical (a : option bool) (v : json) : bool :=
  match a, v with
  | Some b, JBool b' => Bool.eqb b b'
  | None, JNull => true
  | _, _ => false
  end.

(** [a == v] of text or [None], of an integer or [None] *)
Definition text_eq (a : option string) (v : json) : bool :=
  match a, v with Some s, JStr s' => bool_decide (s = s') | None, JNull => true | _, _ => false end.

Section vectors.
Context `{PyObjects} `{Sha256} `{Cbor} `{Crypto}.

Definition int_eq (a : option Z) (v : json) : bool :=
  match a with Some z => json_eq (JInt z) v | None => json_eq JNull v end.

(** [==] of an object outside the classes [pyval] distinguishes, the text of
    such a value, the files and the existence of one. *)
Context (other_eq : N → json → bool) (read : list string → result bytes) (is_file : list string → bool).

(** [a == v] of a decoded CBOR value *)
Fixpoint value_eq (a : pyval) (v : json) : bool :=
  match a, v with
  | VNone, JNull => true
  | VInt z, _ => json_eq (JInt z) v
  | VBool b, _ => json_eq (JBool b) v
  | VStr s, JStr s' => bool_decide (s = s')
  | VList false l, JArr l' =>
      (fix eq_list (l : list pyval) (l' : list json) : bool :=
         match l, l' with
         | [], [] => true
         | a :: l, v :: l' => value_eq a v && eq_list l l'
         | _, _ => false
         end) l l'
  | VDict false d, JObj d' =>
      (zlen d =? zlen d') &&
      forallb (fun kv => match kv.1 with
                         | VStr k => match jget d' k with Some v => value_eq kv.2 v | None => false end
                         | _ => false
                         end) d
  | VOther _ id, _ => other_eq id v
  | _, _ => false
  end.

Definition alg_eq (a : option pyval) (v : json) : bool :=
  match a with Some a => value_eq a v | None => json_eq JNull v end.

(** [if cond: mismatches.append(m)] *)
Definition mismatch (cond : bool) (m : msg) : list msg := if cond then [m] else [].

(** The comparison of the decoded fields, in the order of the loop. *)
Definition field_mismatches (src : Statement.fields) (exp_stmt : json) : result (list msg) :=
  let differs field eq shown :=
    v ← item exp_stmt field;
    Ok (mismatch (negb (eq v)) (Msg "statement {field}={src.get(field)!r} != {exp_stmt[key]!r}"
          [AStr field; shown; AStr (json_repr v)])) in
  a ← differs "alg"%string (alg_eq (alg src)) (show_value (alg src));
  i ← differs "issuer"%string (text_eq (Statement.issuer src)) (show_text (Statement.issuer src));
  s ← differs "subject"%string (text_eq (Statement.subject src)) (show_text (Statement.subject src));
  c ← differs "content_type"%string (text_eq (content_type src)) (show_text (content_type src));
  Ok (a ++ i ++ s ++ c).

(** Part 3 of [check_vector]; the verdict on the statement comes with it. *)
Definition check_vector_statement (statement issuer_pub payload : bytes) (expected : json) :
    result (option bool * list msg) :=
  exp_header ← item expected "protected_header";
  exp_stmt ← item exp_header "statement";
  let '(sv, parsed, parse_error) :=
    match parse_signed_statement statement (Some (PemBytes issuer_pub)) with
    | Ok parsed => (signature_verified parsed, Some parsed, [])
    | Raise exc => (Some false, None, [Msg " (parse error: {parse_error})" [AStr (exn_name exc); AMsg (exn_msg exc)]])
    end in
  exp_valid ← item expected "statement_signature_valid";
  let verdict := mismatch (negb (identical sv exp_valid))
    (Msg "statement signature_verified={parsed.get('signature_verified')} != expected {expected['statement_signature_valid']}{detail}"
       (match sv with Some b => AVal (VBool b) | None => AVal VNone end :: AStr (py_str exp_valid) :: (AMsg <$> parse_error))) in
  let verified := bool_decide (sv = Some true) in
  let src := parsed ≫= (fun p => if verified then Some (authenticated p) else fst <$> Statement.unverified p) in
  fields ← (
    match src with
    | None => Ok []
    | Some src =>
        differing ← field_mismatches src exp_stmt;
        Ok (differing ++
            mismatch (verified && match parsed ≫= (fun p => Statement.payload (authenticated p)) with
                                  | Some p => bool_decide (p ≠ payload) | None => false end)
              (text "verified statement payload differs from payload.bin"))
    end);
  Ok (sv, verdict ++ fields).

(** Part 4: the receipt. *)
Definition check_vector_receipt (receipt log_pub : bytes) (expected : json) : result (ReceiptResult * list msg) :=
  leaf ← item expected "leaf_entry";
  res ← verify_leaf receipt leaf (PemBytes log_pub);
  receipt_valid ← item expected "receipt_valid";
  let verdict := mismatch (negb (identical (Some (ok res)) receipt_valid))
    (Msg "receipt unexpectedly {verdict}; expected receipt_valid={expected['receipt_valid']}"
       (AMsg (if ok res then text "verified" else Msg "failed ({'; '.join(res.errors)})" (AMsg <$> errors res))
        :: [AStr (py_str receipt_valid)])) in
  evidence ← (
    if json_truthy receipt_valid && ok res then
      exp_root ← item expected "reconstructed_root";
      exp_size ← item expected "tree_size";
      exp_index ← item expected "leaf_index";
      Ok (mismatch (negb (text_eq (root res) exp_root))
            (Msg "reconstructed root {res.root} != expected {expected['reconstructed_root']}"
               [show_text (root res); AStr (py_str exp_root)])
          ++ mismatch (negb (int_eq (tree_size res) exp_size) || negb (int_eq (leaf_index res) exp_index))
               (Msg "tree_size/leaf_index {res.tree_size}/{res.leaf_index} != {expected['tree_size']}/{expected['leaf_index']}"
                  [show_int (tree_size res); show_int (leaf_index res); AStr (py_str exp_size); AStr (py_str exp_index)]))
    else Ok []);
  Ok (res, verdict ++ evidence).

Definition check_vector (vector_dir : list string) (expected : json) : result (list msg) :=
  let file name := read (vector_dir ++ [name]) in
  payload ← file "payload.bin"%string;
  statement ← file "statement.cose"%string;
  receipt ← file "receipt.cose"%string;
  issuer_pub ← file "issuer-key.pub"%string;
  log_pub ← file "log-key.pub"%string;
  let digest := hex (sha256 payload) in
  payload_sha256 ← item expected "payload_sha256";
  let m1 := mismatch (negb (is_text payload_sha256 digest))
    (Msg "payload sha256 {digest} != expected {expected['payload_sha256']}" [AStr digest; AStr (py_str payload_sha256)]) in
  let leaf := hex (sha256 statement) in
  leaf_entry ← item expected "leaf_entry";
  let m2 := mismatch (negb (is_text leaf_entry leaf))
    (Msg "leaf_entry {expected['leaf_entry']} is not SHA-256(statement.cose) ({leaf})" [AStr (py_str leaf_entry); AStr leaf]) in
  '(sv, m3) ← check_vector_statement statement issuer_pub payload expected;
  '(res, m4) ← check_vector_receipt receipt log_pub expected;
  let overall_valid := bool_decide (sv = Some true) && ok res in
  exp_result ← item expected "result";
  let expected_valid := is_text exp_result "VALID" in
  let m5 := mismatch (negb (Bool.eqb overall_valid expected_valid))
    (Msg "overall verdict valid={overall_valid} != expected result {expected['result']}"
       [AVal (VBool overall_valid); AStr (py_str exp_result)]) in
  Ok (m1 ++ m2 ++ m3 ++ m4 ++ m5).

(** ** The runner *)

(** An entry of [report]; its status is [PASS] when nothing mismatches. *)
Record vector_report := {
  id : json; expected_result : json; failure_code : json; mismatches : list msg }.

Definition status (r : vector_report) : string := match mismatches r with [] => "PASS" | _ => "FAIL" end.

(** [json.loads(path.read_text())] *)
Definition load (path : list string) : result json :=
  b ← read path;
  if utf8_valid b then json_loads (to_string b) else Raise UnicodeDecodeError.

(** The body of the loop over [manifest["vectors"]]. *)
Definition run_vector (vectors_dir : string) (v : json) : result vector_report :=
  dir ← item v "dir";
  vector_dir ← (match dir with JStr dir => Ok [vectors_dir; dir] | _ => Raise TypeError end);
  expected ← load (vector_dir ++ ["expected.json"%string]);
  found ← check_vector vector_dir expected;
  exp_manifest ← item v "expected_result";
  exp_result ← item expected "result";
  let m6 := mismatch (negb (json_eq exp_manifest exp_result))
    (Msg "manifest expected_result={v['expected_result']} != expected.json result={expected['result']}"
       [AStr (py_str exp_manifest); AStr (py_str exp_result)]) in
  code_manifest ← py_get v "failure_code" JNull;
  code ← py_get expected "failure_code" JNull;
  let m7 := mismatch (negb (json_eq code_manifest code))
    (Msg "manifest failure_code={v.get('failure_code')} != expected.json failure_code={expected.get('failure_code')}"
       [AStr (py_str code_manifest); AStr (py_str code)]) in
  name ← item v "id";
  Ok {| id := name; expected_result := exp_result; failure_code := code; mismatches := found ++ m6 ++ m7 |}.

(** One row of the table: [" / " + code] and the padded id take text only. *)
Definition check_row (r : vector_report) : result unit :=
  _ ← (if json_truthy (failure_code r) then match failure_code r with JStr _ => Ok () | _ => Raise TypeError end else Ok ());
  match id r with JStr _ => Ok () | _ => Raise TypeError end.

(** The table: its width is [max(len(r["id"]) ...)], which needs a row. *)
Definition check_table (manifest : json) (report : list vector_report) : result unit :=
  _ ← mapM (fun r => py_len (id r)) report;
  _ ← (match report with [] => Raise (ValueError (Msg "max() iterable argument is empty" [])) | _ => Ok () end);
  _ ← item manifest "version";
  _ ← item manifest "stability";
  _ ← mapM check_row report;
  Ok ().

(** The exit status and the report. *)
Definition main (vectors_dir : string) (as_json : bool) : result (Z * list vector_report) :=
  let manifest_path := [vectors_dir; "manifest.json"%string] in
  if negb (is_file manifest_path) then Ok (2, [])
  else
    manifest ← load manifest_path;
    vectors ← item manifest "vectors";
    vectors ← py_tuple vectors;
    report ← mapM (run_vector vectors_dir) vectors;
    let failed := sum_list_with (fun r => length (mismatches r)) report in
    _ ← (if as_json then _ ← item manifest "version"; Ok () else check_table manifest report);
    Ok (if bool_decide (failed = 0%nat) then 0 else 1, report).
End vectors.
