(* ===== verification/VectorsProof.v ===== *)
(** * What a passing conformance run shows *)

From S2P Require Import Prelude PyRuntime Sha256 Utf8 Merkle Cbor Json PyJson JsonLoads Crypto CoseSign1 CoseSign1Proof Statement StatementProof Receipt ReceiptProof Cli Hosted Vectors.

Section vectors.
Context `{PyObjects} `{Sha256} `{!Cbor} `{!CborLaws _} `{!Crypto} `{!VerifyLaws _}.
Context (other_eq : N → json → bool) (read : list string → result bytes) (is_file : list string → bool).
#[local] Set Default Proof Using "All".

Lemma mismatch_nil cond m : mismatch cond m = [] ↔ cond = false.
Proof. by destruct cond. Qed.

Lemma identical_some b v : identical (Some b) v = true → v = JBool b.
Proof. destruct v as [|b'| | | | |]; try done. cbn. by intros ->%Bool.eqb_prop. Qed.

(** The verdict [sv] on a statement under a key: that of the parser, or a
    refusal when the parser raises, which it does only where an error would
    name an integer of more than 4300 digits. *)
Definition statement_verdict (statement issuer_pub : bytes) (sv : bool) : Prop :=
  (∃ p, parse_signed_statement statement (Some (PemBytes issuer_pub)) = Ok p ∧ signature_verified p = Some sv) ∨
  (sv = false ∧ oversized statement ∧ parse_signed_statement statement (Some (PemBytes issuer_pub)) = Raise digits_error).

(** The verifiers answer what the vector in [dir] expects of them. *)
Definition agrees (dir : list string) (expected : json) : Prop :=
  ∃ statement receipt issuer_pub log_pub res sv,
    read (dir ++ ["statement.cose"%string]) = Ok statement ∧ read (dir ++ ["receipt.cose"%string]) = Ok receipt ∧
    read (dir ++ ["issuer-key.pub"%string]) = Ok issuer_pub ∧ read (dir ++ ["log-key.pub"%string]) = Ok log_pub ∧
    statement_verdict statement issuer_pub sv ∧
    verify_receipt receipt (hex (sha256 statement)) (PemBytes log_pub) = Ok res ∧
    item expected "statement_signature_valid" = Ok (JBool sv) ∧ item expected "receipt_valid" = Ok (JBool (ok res)) ∧
    ∃ result, item expected "result" = Ok result ∧
      (is_text result "VALID" = true ↔ sv = true ∧ ok res = true).

Lemma statement_agrees statement issuer_pub payload expected sv ms :
  check_vector_statement other_eq statement issuer_pub payload expected = Ok (sv, ms) → ms = [] →
  ∃ b, statement_verdict statement issuer_pub b ∧ sv = Some b ∧
    item expected "statement_signature_valid" = Ok (JBool b).
Proof.
  unfold check_vector_statement. intros (hdr & _ & Hr)%bind_ok Hms. apply bind_ok in Hr as (stmt & _ & Hr).
  unfold statement_verdict.
  destruct (parse_signed_statement_total statement (Some (PemBytes issuer_pub))) as [[p Hp]|(k & _ & Hsize & _ & Hp)]; rewrite Hp in *.
  2: { apply bind_ok in Hr as (valid & Hv & Hr). cbv zeta in Hr. apply bind_ok in Hr as (fs & _ & [= <- <-]).
       apply app_eq_nil in Hms as [Hm _]. apply mismatch_nil, negb_false_iff, (identical_some false) in Hm as ->. exists false. auto. }
  apply bind_ok in Hr as (valid & Hv & Hr). cbv zeta in Hr. apply bind_ok in Hr as (fs & _ & [= <- <-]).
  apply app_eq_nil in Hms as [Hm _]. apply mismatch_nil, negb_false_iff in Hm.
  assert (∃ b, signature_verified p = Some b) as [b Hb].
  { unfold parse_signed_statement in Hp. destruct (verify_sign1 _ _ _ _) as [s|[]]; try done; [injection Hp as <-; by eexists|].
    apply bind_ok in Hp as (u & _ & [= <-]). by eexists. }
  rewrite Hb in *. apply identical_some in Hm as ->. exists b. split_and!; [left; by exists p|done|done].
Qed.

Lemma receipt_agrees receipt log_pub expected leaf res ms :
  check_vector_receipt receipt log_pub expected = Ok (res, ms) → ms = [] → item expected "leaf_entry" = Ok (JStr leaf) →
  verify_receipt receipt leaf (PemBytes log_pub) = Ok res ∧ item expected "receipt_valid" = Ok (JBool (ok res)).
Proof.
  unfold check_vector_receipt. intros (l & Hl & Hr)%bind_ok Hms Hleaf. rewrite Hl in Hleaf. injection Hleaf as ->.
  apply bind_ok in Hr as (r & Hv & Hr). apply bind_ok in Hr as (valid & Hvalid & Hr). cbv zeta in Hr.
  apply bind_ok in Hr as (ev & _ & [= <- <-]). apply app_eq_nil in Hms as [Hm _].
  apply mismatch_nil, negb_false_iff, identical_some in Hm as ->. by split.
Qed.

(** A vector without mismatch agrees. *)
Lemma check_vector_agrees dir expected : check_vector other_eq read dir expected = Ok [] → agrees dir expected.
Proof.
  unfold check_vector. intros (payload & _ & Hr)%bind_ok. apply bind_ok in Hr as (statement & Hst & Hr).
  apply bind_ok in Hr as (receipt & Hre & Hr). apply bind_ok in Hr as (issuer & Hi & Hr). apply bind_ok in Hr as (log & Hlog & Hr).
  apply bind_ok in Hr as (psha & _ & Hr). apply bind_ok in Hr as (leaf & Hleaf & Hr).
  apply bind_ok in Hr as ([sv m3] & H3 & Hr). apply bind_ok in Hr as ([res m4] & H4 & Hr).
  apply bind_ok in Hr as (result & Hresult & Hr). injection Hr as Hr.
  apply app_eq_nil in Hr as [_ Hr]. apply app_eq_nil in Hr as [E2 Hr]. apply app_eq_nil in Hr as [E3 Hr].
  apply app_eq_nil in Hr as [E4 E5]. rewrite !mismatch_nil, negb_false_iff in E2, E5.
  apply Bool.eqb_prop in E5. assert (leaf = JStr (hex (sha256 statement))) as ->.
  { destruct leaf as [| | | |s| |]; try done. cbn in E2. apply bool_decide_eq_true_1 in E2. by subst. }
  destruct (statement_agrees _ _ _ _ _ _ H3 E3) as (b & Hb & -> & Hsv).
  destruct (receipt_agrees _ _ _ _ _ _ H4 E4 Hleaf) as [Hv Hvalid].
  exists statement, receipt, issuer, log, res, b. split_and!; try done. exists result. split; [done|].
  rewrite <- E5. destruct b, (ok res); cbn; naive_solver.
Qed.

Lemma run_vector_agrees vectors_dir v r :
  run_vector other_eq read vectors_dir v = Ok r → mismatches r = [] →
  ∃ dir expected, item v "dir" = Ok (JStr dir) ∧ load read [vectors_dir; dir; "expected.json"%string] = Ok expected ∧
    agrees [vectors_dir; dir] expected.
Proof.
  unfold run_vector. intros (d & Hd & Hr)%bind_ok Hm. destruct d as [| | | |dir| |]; try done. cbn [mbind outcome_bind] in Hr.
  apply bind_ok in Hr as (expected & He & Hr). apply bind_ok in Hr as (found & Hf & Hr).
  do 5 (apply bind_ok in Hr as (? & _ & Hr)). injection Hr as <-. cbn in Hm.
  apply app_eq_nil in Hm as [-> _]. exists dir, expected. split_and!; [done|done|]. by apply check_vector_agrees.
Qed.

Lemma no_mismatch (report : list vector_report) :
  sum_list_with (fun r => length (mismatches r)) report = 0%nat → Forall (fun r => mismatches r = []) report.
Proof.
  induction report as [|r report IH]; [constructor|]. cbn. intros E. constructor; [|apply IH; lia].
  apply nil_length_inv. lia.
Qed.

(** C33: exit status 0 of the runner is rejection agreement as much as
    acceptance agreement: the manifest was read, and for every vector it
    lists, the verdict on the statement under the issuer key is the expected
    one, so is the verdict on the receipt for the digest of the statement, and
    the vector is expected [VALID] exactly when both verify; an invalid vector
    that verifies makes the run fail. A statement on which the parser raises,
    which only an integer of more than 4300 digits brings about, counts as
    refused. *)
Theorem conformance_pass vectors_dir as_json report :
  main other_eq read is_file vectors_dir as_json = Ok (0, report) →
  ∃ manifest vectors,
    load read [vectors_dir; "manifest.json"%string] = Ok manifest ∧ item manifest "vectors" ≫= py_tuple = Ok vectors ∧
    length report = length vectors ∧
    Forall (fun v => ∃ dir expected, item v "dir" = Ok (JStr dir) ∧
      load read [vectors_dir; dir; "expected.json"%string] = Ok expected ∧ agrees [vectors_dir; dir] expected) vectors.
Proof.
  unfold main. destruct (negb _); [by intros [= ]|]. intros (manifest & Hm & Hr)%bind_ok.
  apply bind_ok in Hr as (vs & Hvs & Hr). apply bind_ok in Hr as (vectors & Hv & Hr). apply bind_ok in Hr as (rep & Hrep & Hr).
  apply bind_ok in Hr as (? & _ & Hr). case_bool_decide as Hz; [|done]. injection Hr as <-. apply no_mismatch in Hz.
  exists manifest, vectors. split_and!; [done|by rewrite Hvs|by eapply mapM_ok_length|].
  apply mapM_ok in Hrep. clear Hv. induction Hrep as [|v r vectors' rep' Hr _ IH]; [constructor|].
  inversion Hz; subst. constructor; [by eapply run_vector_agrees|auto].
Qed.
End vectors.
