(* ===== verification/VectorGen.v ===== *)
(** * The vector generator: [scripts/generate_test_vectors.py]

    The disk is threaded through: what was written before a refusal or an
    exception stays.  Keys come from a generator of random keys, so what the
    n-th call of [_keys] answers is an argument; the printed text is left
    out. *)

From S2P Require Import Prelude PyRuntime Sha256 Utf8 Merkle Cbor Json PyJson JsonLoads PyText PyIo Crypto CoseSign1 Statement Receipt Cli Vectors.

Definition VERSION : string := "v1".
Definition TREE_SIZE : Z := 8.
Definition LEAF_INDEX : Z := 2.
Definition OUT : string := "test-vectors".

Definition ALG_CODES (alg : string) : result Z :=
  if bool_decide (alg = "EdDSA") then Ok (-8) else if bool_decide (alg = "ES256") then Ok (-7) else Raise KeyError.

(** ** The disk

    A path is the list of its parts; files and directories are known by their
    full name. *)
Record disk := { directories : gset string; files : gmap string bytes }.

Definition full_name (p : list string) : string := String.concat "/" p.

Definition there (d : disk) (p : list string) : bool :=
  bool_decide (full_name p ∈ directories d) || bool_decide (is_Some (files d !! full_name p)).
Definition exists_path (p : list string) : prog disk bool := observe (fun d => Ok (there d p)).

Definition os_error (what : string) : exn := OSError (Msg what []).

Definition read_bytes (d : disk) (p : list string) : result bytes :=
  match files d !! full_name p with Some b => Ok b | None => Raise (os_error "No such file or directory") end.

Definition write_bytes (p : list string) (b : bytes) : prog disk unit := λ d,
  if bool_decide (full_name p ∈ directories d) then (d, Raise (os_error "Is a directory"))
  else if negb (bool_decide (full_name (take (length p - 1) p) ∈ directories d)) then (d, Raise (os_error "No such file or directory"))
  else ({| directories := directories d; files := <[full_name p := b]> (files d) |}, Ok ()).

(** The ancestors that are missing, from the top down. *)
Fixpoint make_directories (ancestors : list (list string)) : prog disk unit :=
  match ancestors with
  | [] => mret ()
  | p :: ancestors => λ d,
      if bool_decide (is_Some (files d !! full_name p)) then (d, Raise (os_error "Not a directory"))
      else make_directories ancestors {| directories := {[ full_name p ]} ∪ directories d; files := files d |}
  end.

(** [p.mkdir(parents=True)]: an existing [p] is an error. *)
Definition mkdir (p : list string) : prog disk unit :=
  exists_already ← exists_path p;
  if exists_already : bool then lift (Raise (os_error "File exists"))
  else make_directories ((fun n => take n p) <$> seq 1 (length p)).

(** The name of an entry of the directory [dir], from its full name. *)
Definition entry_of (dir name : string) : option string :=
  r ← after_literal (of_string (dir +:+ "/")) (of_string name);
  if bool_decide (r = []) || contains "/" (to_string r) then None else Some (to_string r).

(** [sorted(dir.iterdir())] *)
Definition iterdir (dir : list string) : prog disk (list string) := observe (fun d =>
  Ok ((sort_items ((fun name => (name, ())) <$>
       omap (entry_of (full_name dir)) ((map_to_list (files d)).*1 ++ elements (directories d)))).*1)).

(** ** Artifacts *)

Definition _flip_byte (data : bytes) (offset : Z) : result bytes :=
  let i := if offset <? 0 then offset + zlen data else offset in
  if (0 <=? i) && (i <? zlen data)
  then Ok (alter (fun o => byte_of (Z.lxor (byte_val o) 1)) (Z.to_nat i) data)
  else Raise (IndexError (Msg "bytearray index out of range" [])).

(** The dict of [_mint]. *)
Record minted := {
  alg : string; issuer_priv : bytes; issuer_pub : bytes; log_priv : bytes; log_pub : bytes;
  payload : bytes; statement : bytes; entries : list string; leaf : string;
  audit_path : list string; root_hex : string; receipt : bytes }.

Definition filler (vector_id : string) (i : Z) : string :=
  "scitt-cose test vectors v1 :: " +:+ vector_id +:+ " :: filler leaf " +:+ int_str i.

Definition ISSUER : string := "https://test-vectors.scitt-cose.invalid".
Definition subject_of (vector_id : string) : string := "urn:scitt-cose:test-vectors:v1:" +:+ vector_id.

Definition NOTE : string := "opaque payload — scitt-cose treats these bytes as opaque".
(** [json.dumps({...}, sort_keys=True).encode()] *)
Definition vector_payload (vector_id : string) : bytes :=
  json_text default_layout json_string 0
    (normal (JObj [("vector", JStr vector_id); ("note", JStr NOTE)])).

(** The elements of the message; what this script minted is an array of four. *)
Definition unpack_message (v : pyval) : result (Z * (pyval * pyval * pyval * pyval)) :=
  match v with
  | VTag tag (VList _ [a; b; c; d]) => Ok (tag, (a, b, c, d))
  | VTag _ (VList _ _) => Raise (ValueError (Msg "values to unpack (expected 4)" []))
  | VTag _ _ => Raise TypeError
  | _ => Raise AttributeError
  end.

Definition unpack_proof (v : pyval) : result (pyval * pyval * list pyval) :=
  match v with
  | VList _ [tree_size; leaf_index; VList _ path] => Ok (tree_size, leaf_index, path)
  | VList _ [_; _; _] => Raise TypeError
  | VList _ _ => Raise (ValueError (Msg "values to unpack (expected 3)" []))
  | _ => Raise TypeError
  end.

(** [v[key]] of a decoded map *)
Definition map_item (v key : pyval) : result pyval :=
  match v with
  | VDict _ d => match dict_get d key with Some v => Ok v | None => Raise KeyError end
  | _ => Raise TypeError
  end.
Definition first_of {A} (l : list A) : result A :=
  match l with a :: _ => Ok a | [] => Raise (IndexError (Msg "list index out of range" [])) end.
Definition first_item (v : pyval) : result pyval :=
  match v with
  | VList _ l => first_of l
  | _ => Raise TypeError
  end.
(** [bytes(v)] of what this script put there *)
Definition as_bytes (v : pyval) : result bytes := match v with VBytes b => Ok b | _ => Raise TypeError end.
(** [path[0] = _flip_byte(path[0])] *)
Definition flip_first (path : list bytes) : result (list bytes) :=
  node ← first_of path;
  node ← _flip_byte node 0;
  Ok (node :: drop 1 path).
(** [{k: v for k, v in v.items()}] *)
Definition as_items (v : pyval) : result dict := match v with VDict _ d => Ok d | _ => Raise AttributeError end.

Section generator.
Context `{PyObjects} `{Sha256} `{Cbor} `{Crypto}.
Context (other_eq : N → json → bool) (generate : nat → string → bytes * bytes).

Definition _tree_entries (vector_id : string) (statement_bytes : bytes) : result (list string) :=
  mapM (fun i => if i =? LEAF_INDEX then Ok (hex (sha256 statement_bytes))
                 else text ← py_encode (filler vector_id i); Ok (hex (sha256 text))) (seqZ 0 TREE_SIZE).

(** The [n]-th call; it draws two pairs of keys. *)
Definition _mint (n : nat) (vector_id alg : string) (transform_statement : option (bytes → result bytes)) : result minted :=
  let '(issuer_priv, issuer_pub) := generate (2 * n) alg in
  let '(log_priv, log_pub) := generate (2 * n + 1) alg in
  let payload := vector_payload vector_id in
  statement ← build_signed_statement payload alg (PemBytes issuer_priv) ISSUER (subject_of vector_id) "application/json" None None;
  statement ← (match transform_statement with Some transform => transform statement | None => Ok statement end);
  entries ← _tree_entries vector_id statement;
  let leaf := nth (Z.to_nat LEAF_INDEX) entries ""%string in
  receipt ← build_receipt leaf LEAF_INDEX entries alg (PemBytes log_priv) true None None None None None;
  path ← inclusion_proof entries LEAF_INDEX;
  root ← merkle_root entries;
  Ok {| alg := alg; issuer_priv := issuer_priv; issuer_pub := issuer_pub; log_priv := log_priv; log_pub := log_pub;
        payload := payload; statement := statement; entries := entries; leaf := leaf; audit_path := path;
        root_hex := root; receipt := receipt |}.

(** The blob with the first byte of its path flipped. *)
Definition tampered_blob (blob : bytes) : result bytes :=
  proof ← cbor_loads blob;
  '(tree_size, leaf_index, path) ← unpack_proof proof;
  nodes ← mapM as_bytes path;
  flipped ← flip_first nodes;
  cbor_dumps (VList false [tree_size; leaf_index; VList false (VBytes <$> (flipped : list bytes))]).

Definition _tamper_inclusion_path (receipt : bytes) : result bytes :=
  tag ← cbor_loads receipt;
  '(tag, (protected, unprotected, payload, sig)) ← unpack_message tag;
  unprotected ← as_items unprotected;
  vdp ← map_item (VDict false unprotected) HDR_VDP;
  vdp ← as_items vdp;
  proofs ← map_item (VDict false vdp) VDP_INCLUSION_PROOFS;
  blob ← first_item proofs;
  blob ← as_bytes blob;
  blob ← tampered_blob blob;
  let vdp := dict_set vdp VDP_INCLUSION_PROOFS (VList false [VBytes blob]) in
  cbor_dumps (VTag tag (VList false [protected; VDict false (dict_set unprotected HDR_VDP (VDict false vdp)); payload; sig])).

Definition _tamper_signature (statement : bytes) : result bytes :=
  tag ← cbor_loads statement;
  '(tag, (protected, unprotected, payload, sig)) ← unpack_message tag;
  sig ← as_bytes sig;
  sig ← _flip_byte sig (-1);
  cbor_dumps (VTag tag (VList false [protected; unprotected; payload; VBytes sig])).

Definition _mint_unsupported_vds_receipt (m : minted) : result bytes :=
  path ← mapM fromhex (audit_path m);
  inclusion_blob ← cbor_dumps (VList false [VInt TREE_SIZE; VInt LEAF_INDEX; VList false (VBytes <$> path)]);
  root ← fromhex (root_hex m);
  sign_sign1 root (alg m) (PemBytes (log_priv m)) (Some [(HDR_VDS, VInt 2)])
    (Some [(HDR_VDP, VDict false [(VDP_INCLUSION_PROOFS, VList false [VBytes inclusion_blob])])]) true.

Definition _expected (vector_id description : string) (m : minted) (result_ : string) (failure_code : option string)
    (statement_sig_valid receipt_valid : bool) (receipt_vds : Z) (inclusion_path : option (list string)) : result json :=
  code ← ALG_CODES (alg m);
  Ok (JObj (
    [("description", JStr description);
     ("payload_sha256", JStr (hex (sha256 (payload m))));
     ("protected_header", JObj [
       ("statement", JObj [
         ("alg", JStr (alg m)); ("alg_code", JInt code); ("content_type", JStr "application/json");
         ("cwt_claims_label", JInt 15); ("issuer", JStr ISSUER); ("subject", JStr (subject_of vector_id))]);
       ("receipt", JObj [
         ("alg", JStr (alg m)); ("alg_code", JInt code); ("vds_label", JInt 395); ("vds", JInt receipt_vds)])]);
     ("leaf_entry", JStr (leaf m));
     ("leaf_index", JInt LEAF_INDEX);
     ("tree_size", JInt TREE_SIZE);
     ("inclusion_path", JArr (JStr <$> (match inclusion_path with Some path => path | None => audit_path m end)));
     ("reconstructed_root", if receipt_valid then JStr (root_hex m) else JNull);
     ("statement_signature_valid", JBool statement_sig_valid);
     ("receipt_valid", JBool receipt_valid);
     ("result", JStr result_)]
    ++ match failure_code with
       | Some code => if bool_decide (code = ""%string) then [] else [("failure_code", JStr code)]
       | None => [] end)).

(** [p.write_text(json.dumps(v, indent=2) + "\n")]; the text is ASCII. *)
Definition write_json (p : list string) (v : json) : prog disk unit :=
  write_bytes p (json_text indent_2 json_string 0 v ++ [x0a]).

Definition _write_vector (dirname : string) (m : minted) (statement receipt : bytes) (expected : json) : prog disk unit :=
  let d := [OUT; VERSION; dirname] in
  _ ← mkdir d;
  _ ← write_bytes (d ++ ["statement.cose"%string]) statement;
  _ ← write_bytes (d ++ ["payload.bin"%string]) (payload m);
  _ ← write_bytes (d ++ ["receipt.cose"%string]) receipt;
  _ ← write_bytes (d ++ ["issuer-key.pub"%string]) (issuer_pub m);
  _ ← write_bytes (d ++ ["log-key.pub"%string]) (log_pub m);
  _ ← write_bytes (d ++ ["issuer-key.test-private"%string]) (issuer_priv m);
  _ ← write_bytes (d ++ ["log-key.test-private"%string]) (log_priv m);
  write_json (d ++ ["expected.json"%string]) expected.

(** ** The run *)

(** The entry [register] appends. *)
Definition register (vid description : string) (expected : json) : result json :=
  result_ ← Vectors.item expected "result";
  code ← (match expected with JObj d => Ok (jget d "failure_code") | _ => Raise TypeError end);
  Ok (JObj ([("id", JStr vid); ("dir", JStr (VERSION +:+ "/" +:+ vid)); ("description", JStr description); ("expected_result", result_)]
            ++ match code with Some code => [("failure_code", code)] | None => [] end)).

(** One vector: [finish] makes what is written of what was minted. *)
Definition make_vector (n : nat) (vid desc alg : string) (transform : option (bytes → result bytes))
    (finish : minted → result (bytes * bytes * json)) : prog disk json :=
  m ← lift (_mint n vid alg transform);
  '(statement, receipt, exp) ← lift (finish m);
  _ ← _write_vector vid m statement receipt exp;
  lift (register vid desc exp).

Definition valid_vector (n : nat) (alg lower : string) : prog disk json :=
  let vid := "valid-" +:+ lower in
  let desc := "Happy path: " +:+ alg +:+ " Signed Statement + RFC9162_SHA256 receipt; everything verifies." in
  make_vector n vid desc alg None (fun m =>
    exp ← _expected vid desc m "VALID" None true true 1 None; Ok (statement m, receipt m, exp)).

Definition tampered_path_vector (n : nat) : prog disk json :=
  let vid := "fail-tampered-path"%string in
  let desc := "Inclusion path with one flipped byte (first audit-path node). The reconstructed root no longer matches what the log signed; a verifier MUST reject. Statement is honest — the failure is receipt-only."%string in
  make_vector n vid desc "EdDSA" None (fun m =>
    tampered ← _tamper_inclusion_path (receipt m);
    first ← (node ← first_of (audit_path m); node ← fromhex node; _flip_byte node 0);
    exp ← _expected vid desc m "INVALID" (Some "TAMPERED_INCLUSION_PATH"%string) true false 1 (Some (hex first :: drop 1 (audit_path m)));
    Ok (statement m, tampered, exp)).

Definition unsupported_vds_vector (n : nat) : prog disk json :=
  let vid := "fail-unsupported-vds"%string in
  let desc := "Receipt whose protected vds (label 395) is 2, not 1 (RFC9162_SHA256). Proof and signature are otherwise honest, so the ONLY conformant rejection reason is the unsupported verifiable data structure — read from the protected header, never the unprotected one."%string in
  make_vector n vid desc "EdDSA" None (fun m =>
    bad ← _mint_unsupported_vds_receipt m;
    exp ← _expected vid desc m "INVALID" (Some "UNSUPPORTED_VDS"%string) true false 2 None;
    Ok (statement m, bad, exp)).

Definition bad_signature_vector (n : nat) : prog disk json :=
  let vid := "fail-bad-statement-sig"%string in
  let desc := "Signed Statement whose signature byte was flipped. The receipt is minted over the digest of the TAMPERED bytes and verifies — isolating the failure to the statement signature alone."%string in
  make_vector n vid desc "EdDSA" (Some _tamper_signature) (fun m =>
    exp ← _expected vid desc m "INVALID" (Some "BAD_STATEMENT_SIGNATURE"%string) false true 1 None;
    Ok (statement m, receipt m, exp)).

(** The five vectors in their order. *)
Definition make_vectors : prog disk (list json) :=
  a ← valid_vector 0 "EdDSA" "eddsa";
  b ← valid_vector 1 "ES256" "es256";
  c ← tampered_path_vector 2;
  d ← unsupported_vds_vector 3;
  e ← bad_signature_vector 4;
  mret [a; b; c; d; e].

Definition manifest_path : list string := [OUT; "manifest.json"%string].
Definition sums_path : list string := [OUT; "SHA256SUMS"%string].

(** A manifest written for the first time. *)
Definition new_manifest (vectors : list json) : json :=
  JObj [("version", JStr VERSION); ("stability", JStr "append-only");
        ("leaf_entry_definition", JStr "SHA-256 digest of the complete Signed Statement (COSE_Sign1) bytes, hex-encoded");
        ("tree_construction", JStr ("tree_size=" +:+ int_str TREE_SIZE +:+ "; statement digest at leaf_index=" +:+ int_str LEAF_INDEX
          +:+ "; filler leaf i = SHA-256('scitt-cose test vectors v1 :: <vector-id> :: filler leaf <i>'); leaves in index order; RFC 9162 SHA-256 tree"));
        ("vectors", JArr vectors)].

(** The ids of a list of entries. *)
Definition vector_ids (vectors : list json) : result (list json) :=
  mapM (fun v => id ← Vectors.item v "id"; _ ← py_hash id; Ok id) vectors.

(** The manifest to write, or [None] when an id is already there. *)
Definition merged_manifest (old : option bytes) (vectors : list json) : result (option json) :=
  match old with
  | None => Ok (Some (new_manifest vectors))
  | Some text =>
      manifest ← (if utf8_valid text then json_loads (to_string text) else Raise UnicodeDecodeError);
      existing ← Vectors.item manifest "vectors";
      existing_ids ← py_tuple existing ≫= vector_ids;
      ids ← vector_ids vectors;
      if existsb (fun id => existsb (json_eq id) ids) existing_ids then Ok None
      else
        match manifest, existing with
        | JObj d, JArr l => Ok (Some (JObj (jset d "vectors" (JArr (l ++ vectors)))))
        | _, _ => Raise AttributeError
        end
  end.

(** The lines [sha256sum] reads. *)
Definition digest_line (dir : string) (file : string) (data : bytes) : string :=
  hex (sha256 data) +:+ "  " +:+ dir +:+ "/" +:+ file.
Definition vector_dir (v : json) : result string :=
  dir ← Vectors.item v "dir"; match dir with JStr dir => Ok dir | _ => Raise TypeError end.
Definition digest_lines (v : json) : prog disk (list string) :=
  dir ← lift (vector_dir v);
  names ← iterdir [OUT; dir];
  mapM (fun name => observe (fun d => data ← read_bytes d [OUT; dir; name]; Ok (digest_line dir name data))) names.

Definition old_lines (old : option bytes) : result (list string) :=
  match old with
  | None => Ok []
  | Some text => if utf8_valid text then Ok (utf8 <$> splitlines (utf8_codes text)) else Raise UnicodeDecodeError
  end.

Definition read_if_file (p : list string) : prog disk (option bytes) := observe (fun d => Ok (files d !! full_name p)).

Definition self_check (v : json) : prog disk (list msg) :=
  dir ← lift (vector_dir v);
  observe (fun d =>
    exp ← Vectors.load (read_bytes d) [OUT; dir; "expected.json"%string];
    Vectors.check_vector other_eq (read_bytes d) [OUT; dir] exp).

(** The exit status. *)
Definition main : prog disk Z :=
  published ← exists_path [OUT; VERSION];
  if published : bool then mret 1 else
  manifest_vectors ← make_vectors;
  old ← read_if_file manifest_path;
  merged ← lift (merged_manifest old manifest_vectors);
  match merged with
  | None => mret 1
  | Some manifest =>
      _ ← write_json manifest_path manifest;
      sums ← read_if_file sums_path;
      lines ← lift (old_lines sums);
      added ← mapM digest_lines manifest_vectors;
      _ ← write_bytes sums_path (of_string (String.concat (to_string [x0a]) (lines ++ concat added)) ++ [x0a]);
      failures ← mapM self_check manifest_vectors;
      mret (match concat failures with [] => 0 | _ => 1 end)
  end.
End generator.
