(* ===== verification/VectorGenDisk.v ===== *)
(** * What the vector generator does to the disk

    It only adds: published files stay as they are, the manifest and the
    digests grow at the end. *)

From S2P Require Import Prelude PyRuntime Utf8 Sha256 Cbor Json PyJson JsonLoads PyText PyIo Crypto Vectors VectorGen.

(** ** Names *)

Lemma string_app_longer s c t : s +:+ String c t ≠ s.
Proof. induction s as [|c' s IH]; [done|]. cbn. by intros [= ?%IH]. Qed.

(** A file of a vector. *)
Definition vector_dir_name (vid : string) : string := full_name [OUT; VERSION; vid].
Definition vector_file (vid file : string) : string := full_name [OUT; VERSION; vid; file].

Lemma vector_file_inj vid file file' : vector_file vid file = vector_file vid file' → file = file'.
Proof.
  unfold vector_file, full_name. cbn. intros E. injection E as E. apply (inj (String.append vid)) in E. by injection E.
Qed.

Lemma vector_file_directory vid file : vector_file vid file ≠ vector_dir_name vid.
Proof. unfold vector_file, vector_dir_name, full_name. cbn. intros E. injection E as E. by eapply string_app_longer. Qed.

(** The runner's name of the same file. *)
Lemma vector_file_listed vid file : full_name ([OUT; VERSION +:+ "/" +:+ vid] ++ [file]) = vector_file vid file.
Proof. reflexivity. Qed.

(** ** Steps *)

Lemma write_bytes_ok d p b :
  full_name p ∉ directories d → full_name (take (length p - 1) p) ∈ directories d →
  write_bytes p b d = ({| directories := directories d; files := <[full_name p := b]> (files d) |}, Ok ()).
Proof. intros Hp Hparent. unfold write_bytes. by rewrite bool_decide_eq_false_2, bool_decide_eq_true_2. Qed.

(** Nothing is in the way of a vector. *)
Definition vacant (d : disk) (vid : string) : Prop :=
  there d [OUT; VERSION; vid] = false ∧ files d !! full_name [OUT] = None ∧ files d !! full_name [OUT; VERSION] = None ∧
  ∀ file, vector_file vid file ∉ directories d.

Definition with_directory (d : disk) (vid : string) : disk :=
  {| directories := {[ vector_dir_name vid ]} ∪ ({[ full_name [OUT; VERSION] ]} ∪ ({[ full_name [OUT] ]} ∪ directories d));
     files := files d |}.

Lemma mkdir_vacant d vid : vacant d vid → mkdir [OUT; VERSION; vid] d = (with_directory d vid, Ok ()).
Proof.
  intros (Ht & Ho & Hv & _). unfold mkdir. erewrite prog_step by (unfold exists_path, observe; by rewrite Ht).
  apply orb_false_iff in Ht as [_ Hf%bool_decide_eq_false_1].
  change ((fun n => take n [OUT; VERSION; vid]) <$> seq 1 (length [OUT; VERSION; vid])) with [[OUT]; [OUT; VERSION]; [OUT; VERSION; vid]].
  cbn [make_directories files directories].
  rewrite !bool_decide_eq_false_2 by (rewrite ?Ho, ?Hv; done || by intros []). done.
Qed.

Lemma vector_file_free d vid file : vacant d vid → vector_file vid file ∉ directories (with_directory d vid).
Proof.
  intros (_ & _ & _ & Hf). cbn [directories with_directory]. rewrite !elem_of_union, !elem_of_singleton.
  intros [E|[E|[E|E]]]; [by apply vector_file_directory in E|done|done|by apply (Hf file)].
Qed.

(** One more file of a vector. *)
Definition with_file (d : disk) (vid file : string) (b : bytes) : disk :=
  {| directories := directories d; files := <[vector_file vid file := b]> (files d) |}.

Lemma write_file_ok d vid file b :
  vector_file vid file ∉ directories d → vector_dir_name vid ∈ directories d →
  write_bytes [OUT; VERSION; vid; file] b d = (with_file d vid file b, Ok ()).
Proof. intros Hf Hd. by apply write_bytes_ok. Qed.

(** Every file of a vector can be read where the runner looks for it. *)
Lemma write_vector_reads `{PyObjects} d vid m st rc exp :
  vacant d vid → ∃ d', _write_vector vid m st rc exp d = (d', Ok ()) ∧
    let file name := read_bytes d' ([OUT; VERSION +:+ "/" +:+ vid] ++ [name]) in
    file "payload.bin"%string = Ok (payload m) ∧ file "statement.cose"%string = Ok st ∧ file "receipt.cose"%string = Ok rc ∧
    file "issuer-key.pub"%string = Ok (issuer_pub m) ∧ file "log-key.pub"%string = Ok (log_pub m) ∧
    file "expected.json"%string = Ok (json_text indent_2 json_string 0 exp ++ [x0a]).
Proof.
  intros Hd. pose proof (vector_file_free d vid) as Hfree. unfold _write_vector. cbv zeta.
  erewrite prog_step by by apply mkdir_vacant. assert (vector_dir_name vid ∈ directories (with_directory d vid)) as Hin by (cbn; set_solver).
  do 7 (erewrite prog_step by (apply write_file_ok; [by apply Hfree|exact Hin])).
  eexists. split; [apply (write_file_ok _ vid); [by apply Hfree|exact Hin]|].
  cbv zeta. unfold read_bytes. rewrite !vector_file_listed. cbn [files with_file].
  assert (∀ f g, f ≠ g → vector_file vid f ≠ vector_file vid g) as Hne by (intros f g Hfg E; by apply vector_file_inj in E).
  split_and!; repeat (rewrite lookup_insert_ne by by apply Hne); by rewrite lookup_insert_eq.
Qed.

(** ** Nothing else changes *)

(** Directories stay, and only files of directories that were not there
    change. *)
Definition adds (d d' : disk) : Prop :=
  directories d ⊆ directories d' ∧
  ∀ name, files d' !! name ≠ files d !! name → ∃ vid file, name = vector_file vid file ∧ vector_dir_name vid ∉ directories d.

#[export] Instance adds_preorder : PreOrder adds.
Proof.
  split.
  - intros d. by split.
  - intros d1 d2 d3 [Hd Hf] [Hd' Hf']. split; [set_solver|]. intros name Hne.
    destruct (decide (files d3 !! name = files d2 !! name)) as [E|E].
    + apply Hf. congruence.
    + destruct (Hf' name E) as (vid & file & -> & Hv). exists vid, file. split; [done|]. set_solver.
Qed.

(** Only files of one vector change. *)
Definition fills (vid : string) (d d' : disk) : Prop :=
  directories d' = directories d ∧ ∀ name, files d' !! name ≠ files d !! name → ∃ file, name = vector_file vid file.

#[export] Instance fills_preorder vid : PreOrder (fills vid).
Proof.
  split.
  - intros d. by split.
  - intros d1 d2 d3 [Hd Hf] [Hd' Hf']. split; [congruence|]. intros name Hne.
    destruct (decide (files d3 !! name = files d2 !! name)) as [E|E]; [|by apply Hf'].
    apply Hf. congruence.
Qed.

Lemma write_fills vid file b : always (fills vid) (write_bytes [OUT; VERSION; vid; file] b).
Proof.
  intros d. unfold write_bytes. repeat case_match; cbn [fst]; [reflexivity..|]. split; [done|]. cbn [files]. intros name Hne.
  exists file. destruct (decide (name = vector_file vid file)) as [|Hn]; [done|]. exfalso. apply Hne.
  by apply lookup_insert_ne.
Qed.

Lemma make_directories_grow ancestors d :
  directories d ⊆ directories (make_directories ancestors d).1 ∧ files (make_directories ancestors d).1 = files d.
Proof.
  revert d. induction ancestors as [|p ancestors IH]; intros d; [done|]. cbn [make_directories].
  case_match; [done|]. destruct (IH {| directories := {[full_name p]} ∪ directories d; files := files d |}) as [Hd Hf].
  cbn [directories files] in *. split; [set_solver|done].
Qed.

Lemma write_vector_adds `{PyObjects} vid m st rc exp : always adds (_write_vector vid m st rc exp).
Proof.
  intros d. unfold _write_vector, mkdir. cbv zeta. unfold mbind at 1, prog_bind at 1.
  destruct (there d [OUT; VERSION; vid]) eqn:Ht; unfold mbind at 1, prog_bind at 1, exists_path, observe; rewrite Ht; [cbn; reflexivity|].
  pose proof (make_directories_grow ((fun n => take n [OUT; VERSION; vid]) <$> seq 1 (length [OUT; VERSION; vid])) d) as [Hd Hf].
  destruct (make_directories _ d) as [d1 [[]|e]]; cbn [fst] in *.
  2: { split; [done|]. rewrite Hf. by intros name []. }
  apply orb_false_iff in Ht as [Hnew%bool_decide_eq_false_1 _].
  match goal with |- adds d (?m d1).1 => assert (always (fills vid) m) as Hfills end.
  { repeat (apply always_bind; [apply _|apply write_fills|intros []]). apply write_fills. }
  destruct (Hfills d1) as [Hdirs Hfiles]. split; [by rewrite Hdirs|]. rewrite <- Hf. intros name (file & ->)%Hfiles. by exists vid, file.
Qed.

(** ** The run *)

Section run.
Context `{PyObjects} `{Sha256} `{Cbor} `{Crypto}.
Context (other_eq : N → json → bool) (generate : nat → string → bytes * bytes).
#[local] Set Default Proof Using "All".

Lemma make_vector_adds n vid desc alg transform finish : always adds (make_vector generate n vid desc alg transform finish).
Proof.
  unfold make_vector. apply always_bind; [apply _|apply always_lift, _|intros m].
  apply always_bind; [apply _|apply always_lift, _|intros [[st rc] exp]].
  apply always_bind; [apply _|apply write_vector_adds|intros []]. apply always_lift, _.
Qed.

Lemma make_vectors_adds : always adds (make_vectors generate).
Proof.
  unfold make_vectors. repeat (apply always_bind; [apply _|apply make_vector_adds|intros ?]). apply always_ret, _.
Qed.

(** Reading steps. *)
Lemma digest_lines_reads v : always eq (digest_lines v).
Proof.
  unfold digest_lines. apply always_bind; [apply _|apply always_lift, _|intros dir].
  apply always_bind; [apply _|apply always_observe, _|intros names]. apply always_mapM; [apply _|intros name]. apply always_observe, _.
Qed.

Lemma self_check_reads v : always eq (self_check other_eq v).
Proof.
  unfold self_check. apply always_bind; [apply _|apply always_lift, _|intros dir]. apply always_observe, _.
Qed.

Lemma merged_manifest_some text vectors manifest :
  merged_manifest (Some text) vectors = Ok (Some manifest) →
  ∃ entries l, json_loads (to_string text) = Ok (JObj entries) ∧ jget entries "vectors" = Some (JArr l) ∧
    manifest = JObj (jset entries "vectors" (JArr (l ++ vectors))).
Proof.
  unfold merged_manifest. destruct (utf8_valid text); [|done]. intros (m & Hm & Hr)%bind_ok. apply bind_ok in Hr as (ex & Hex & Hr).
  apply bind_ok in Hr as (ids & _ & Hr). apply bind_ok in Hr as (ids' & _ & Hr). destruct (existsb _ ids); [done|].
  destruct m as [| | | | | |entries]; try done. destruct ex as [| | | | |l|]; try done. injection Hr as <-.
  exists entries, l. split_and!; [done| |done]. cbn in Hex. unfold index in Hex. destruct (jget entries "vectors"); [|done].
  by injection Hex as ->.
Qed.

(** What is published stays: directories and files are kept but for the
    manifest and the digests, which keep what they list and grow at the end. *)
Record only_grows (d d' : disk) : Prop := {
  directories_kept : directories d ⊆ directories d';
  files_kept name : files d' !! name ≠ files d !! name →
    name = full_name manifest_path ∨ name = full_name sums_path ∨
    ∃ vid file, name = vector_file vid file ∧ vector_dir_name vid ∉ directories d;
  manifest_grows text : files d !! full_name manifest_path = Some text →
    files d' !! full_name manifest_path = Some text ∨
    ∃ entries l new, json_loads (to_string text) = Ok (JObj entries) ∧ jget entries "vectors" = Some (JArr l) ∧
      files d' !! full_name manifest_path =
        Some (json_text indent_2 json_string 0 (JObj (jset entries "vectors" (JArr (l ++ new)))) ++ [x0a]);
  sums_grow text : files d !! full_name sums_path = Some text →
    files d' !! full_name sums_path = Some text ∨
    ∃ lines new, old_lines (Some text) = Ok lines ∧
      files d' !! full_name sums_path = Some (of_string (String.concat (to_string [x0a]) (lines ++ new)) ++ [x0a])
}.

Lemma adds_index d d' p :
  adds d d' → p = full_name manifest_path ∨ p = full_name sums_path → files d' !! p = files d !! p.
Proof.
  intros [_ Hf] Hp. destruct (decide (files d' !! p = files d !! p)) as [|Hne]; [done|].
  destruct (Hf p Hne) as (vid & file & E & _). by destruct Hp as [-> | ->].
Qed.

Lemma adds_only_grows d d' : adds d d' → only_grows d d'.
Proof.
  intros Ha. pose proof (adds_index d d' _ Ha (or_introl eq_refl)) as Hm. pose proof (adds_index d d' _ Ha (or_intror eq_refl)) as Hs.
  destruct Ha as [Hd Hf]. split; [done|eauto| |].
  - intros text E. left. congruence.
  - intros text E. left. congruence.
Qed.

(** A write that succeeds, or leaves the disk alone. *)
Lemma write_bytes_cases p b d :
  (write_bytes p b d).1 = d ∨
  (write_bytes p b d).1 = {| directories := directories d; files := <[full_name p := b]> (files d) |}.
Proof. unfold write_bytes. repeat case_match; auto. Qed.

Lemma manifest_only_grows d d1 vectors manifest :
  adds d d1 → merged_manifest (files d1 !! full_name manifest_path) vectors = Ok (Some manifest) →
  only_grows d (write_json manifest_path manifest d1).1.
Proof.
  intros Ha Hmerged. pose proof (adds_only_grows d d1 Ha) as [Hdirs Hfiles _ Hsums].
  destruct (write_bytes_cases manifest_path (json_text indent_2 json_string 0 manifest ++ [x0a]) d1) as [E|E];
    unfold write_json; rewrite E; [by apply adds_only_grows|].
  rewrite (adds_index d d1 _ Ha (or_introl eq_refl)) in Hmerged. split; cbn [directories files].
  - done.
  - intros name Hne. destruct (decide (name = full_name manifest_path)) as [|Hn]; [by left|].
    rewrite lookup_insert_ne in Hne by done. auto.
  - intros text Ht. right. rewrite Ht in Hmerged. apply merged_manifest_some in Hmerged as (entries & l & Hl & Hv & ->).
    exists entries, l, vectors. split_and!; [done..|]. apply lookup_insert_eq.
  - intros text Ht. rewrite lookup_insert_ne by done. auto.
Qed.

Lemma sums_only_grows d d2 lines new :
  only_grows d d2 → files d2 !! full_name sums_path = files d !! full_name sums_path →
  old_lines (files d2 !! full_name sums_path) = Ok lines →
  only_grows d (write_bytes sums_path (of_string (String.concat (to_string [x0a]) (lines ++ new)) ++ [x0a]) d2).1.
Proof.
  intros Hg Hsame Hl. set (text' := _ ++ [x0a]). destruct (write_bytes_cases sums_path text' d2) as [E|E]; rewrite E; [done|].
  destruct Hg as [Hdirs Hfiles Hm _]. split; cbn [directories files].
  - done.
  - intros name Hne. destruct (decide (name = full_name sums_path)) as [|Hn]; [by right; left|].
    rewrite lookup_insert_ne in Hne by done. auto.
  - intros text Ht. rewrite lookup_insert_ne by done. auto.
  - intros text Ht. right. rewrite Hsame, Ht in Hl. exists lines, new. split; [done|]. apply lookup_insert_eq.
Qed.

Lemma write_json_sums manifest d1 : files (write_json manifest_path manifest d1).1 !! full_name sums_path = files d1 !! full_name sums_path.
Proof.
  unfold write_json. destruct (write_bytes_cases manifest_path (json_text indent_2 json_string 0 manifest ++ [x0a]) d1) as [->| ->]; [done|].
  by apply lookup_insert_ne.
Qed.

(** Once the vectors are there. *)
Lemma index_only_grows d d1 vectors :
  adds d d1 →
  only_grows d ((old ← read_if_file manifest_path;
    merged ← lift (merged_manifest old vectors);
    match merged with
    | None => mret 1
    | Some manifest =>
        _ ← write_json manifest_path manifest;
        sums ← read_if_file sums_path;
        lines ← lift (old_lines sums);
        added ← mapM digest_lines vectors;
        _ ← write_bytes sums_path (of_string (String.concat (to_string [x0a]) (lines ++ concat added)) ++ [x0a]);
        failures ← mapM (self_check other_eq) vectors;
        mret (match concat failures with [] => 0 | _ => 1 end)
    end) d1).1.
Proof.
  intros Ha. erewrite prog_step by reflexivity.
  destruct (merged_manifest (files d1 !! full_name manifest_path) vectors) as [[manifest|]|e] eqn:Hmerged;
    unfold mbind at 1, prog_bind at 1, lift at 1; [|by apply adds_only_grows..].
  pose proof (manifest_only_grows d d1 vectors manifest Ha Hmerged) as Hg. pose proof (write_json_sums manifest d1) as Hsums.
  unfold mbind at 1, prog_bind at 1. destruct (write_json manifest_path manifest d1) as [d2 [[]|e]]; cbn [fst] in Hg, Hsums |- *; [|done].
  erewrite prog_step by reflexivity. destruct (old_lines (files d2 !! full_name sums_path)) as [lines|e] eqn:Hlines;
    unfold mbind at 1, prog_bind at 1, lift at 1; [|done].
  pose proof (always_mapM eq digest_lines vectors digest_lines_reads d2) as Hread.
  unfold mbind at 1, prog_bind at 1. destruct (mapM digest_lines vectors d2) as [d3 [added|e]]; cbn [fst] in Hread |- *; subst d3; [|done].
  assert (only_grows d (write_bytes sums_path (of_string (String.concat (to_string [x0a]) (lines ++ concat added)) ++ [x0a]) d2).1) as Hg'.
  { apply sums_only_grows; [done| |done]. rewrite Hsums. by apply adds_index; [|right]. }
  unfold mbind at 1, prog_bind at 1. destruct (write_bytes sums_path _ d2) as [d3 [[]|e]]; cbn [fst] in Hg' |- *; [|done].
  pose proof (always_mapM eq (self_check other_eq) vectors self_check_reads d3) as Hread.
  unfold mbind at 1, prog_bind at 1. destruct (mapM (self_check other_eq) vectors d3) as [d4 [failures|e]]; cbn [fst] in Hread |- *; by subst d4.
Qed.

(** C35: the published vectors are append-only: whatever the run does, also
    when it refuses or raises half-way, no directory goes away and no file
    changes but for the files of a vector whose directory was not there, the
    manifest, whose entries all stay in front of the new ones, and the digest
    list, whose lines all stay in front of the new ones; and when the version
    is published already nothing happens at all. *)
Theorem generation_append_only d d' r :
  main other_eq generate d = (d', r) →
  only_grows d d' ∧ (there d [OUT; VERSION] = true → d' = d ∧ r = Ok 1).
Proof.
  unfold main. unfold mbind at 1, prog_bind at 1, exists_path, observe. destruct (there d [OUT; VERSION]).
  { intros [= <- <-]. split; [by apply adds_only_grows|done]. }
  intros Hm. split; [|done]. pose proof (make_vectors_adds d) as Ha.
  unfold mbind at 1, prog_bind at 1 in Hm. destruct (make_vectors generate d) as [d1 [vectors|e]]; cbn [fst] in Ha.
  - pose proof (index_only_grows d d1 vectors Ha) as Hg. unfold read_if_file in Hg, Hm. by rewrite Hm in Hg.
  - injection Hm as <- _. by apply adds_only_grows.
Qed.
End run.
