(* ===== verification/VectorGenProof.v ===== *)
(** * Generated vectors conform

    What the generator mints, writes and lists passes the conformance runner,
    and the generator leaves everything else on the disk alone. *)

From S2P Require Import Prelude PyRuntime Utf8 Sha256 Merkle MerkleTree MerkleInclusion EncodingRule EncodingRuleProof Cbor CborInstance Json JsonProof PyJson JsonLoads JsonLoadsProof PyText PyIo Crypto CoseSign1 CoseSign1Proof CoseRoundTrip Statement StatementProof Receipt ReceiptProof ReceiptRoundTrip Cli Hosted Vectors VectorsProof VectorGen VectorGenDisk.

(** ** Text *)

Lemma of_string_app s t : of_string (s +:+ t) = of_string s ++ of_string t.
Proof.
  unfold of_string, String.list_byte_of_string. rewrite <- map_app. f_equal.
  induction s as [|c s IH]; [done|]. cbn. by rewrite <- IH.
Qed.

Lemma text_ok_app s t : text_ok s → text_ok t → text_ok (s +:+ t).
Proof.
  unfold text_ok. rewrite of_string_app, !utf8_valid_iff. intros (cs & Hcs & ->) (ds & Hds & ->).
  exists (cs ++ ds). split; [by apply Forall_app|]. by rewrite fmap_app, concat_app.
Qed.

Lemma zlen_of_string_app s t : zlen (of_string (s +:+ t)) = zlen (of_string s) + zlen (of_string t).
Proof. by rewrite of_string_app, zlen_app. Qed.

(** Text no longer than this leaves every message within its bound. *)
Definition SHORT : Z := 65536.

Definition short_text (s : string) : Prop := text_ok s ∧ zlen (of_string s) ≤ SHORT.

Lemma subject_ok vid : short_text vid → text_ok (subject_of vid) ∧ zlen (of_string (subject_of vid)) ≤ SHORT + 31.
Proof.
  intros [Hv Hl]. unfold subject_of. rewrite zlen_of_string_app. split; [by apply text_ok_app|].
  change (zlen (of_string "urn:scitt-cose:test-vectors:v1:")) with 31. lia.
Qed.

Lemma digit_text_ok i : 0 ≤ i < 8 → text_ok (int_str i).
Proof.
  intros Hi. assert (i = 0 ∨ i = 1 ∨ i = 2 ∨ i = 3 ∨ i = 4 ∨ i = 5 ∨ i = 6 ∨ i = 7) as Hc by lia.
  by destruct Hc as [->|[->|[->|[->|[->|[->|[->| ->]]]]]]].
Qed.

Lemma filler_ok vid i : short_text vid → 0 ≤ i < 8 → text_ok (filler vid i).
Proof. intros [Hv _] Hi. unfold filler. repeat apply text_ok_app; try done. by apply digit_text_ok. Qed.

Lemma escape_length c : zlen (escape c) ≤ 12.
Proof. unfold escape, escape_unit. repeat case_match; rewrite ?zlen_app; unfold zlen; cbn [length]; lia. Qed.

Lemma utf8_codes_length b : (length (utf8_codes b) ≤ length b)%nat.
Proof.
  induction b as [b IH] using (induction_ltof1 _ (@length byte)). unfold ltof in IH.
  destruct b as [|x b]; [done|]. cbn [utf8_codes].
  repeat case_if; repeat case_match; subst; cbn [length]; try lia;
    match goal with |- context [utf8_codes ?r] => pose proof (IH r ltac:(cbn; lia)) end; lia.
Qed.

Lemma json_string_length s : zlen (json_string s) ≤ 12 * zlen (of_string s) + 2.
Proof.
  unfold json_string. rewrite zlen_cons, zlen_app, zlen_one_elem. pose proof (utf8_codes_length (of_string s)) as Hc.
  assert (∀ cs, zlen (concat (map escape cs)) ≤ 12 * zlen cs) as He.
  { induction cs as [|c cs IH]; [done|]. cbn. rewrite zlen_app, zlen_cons. pose proof (escape_length c). lia. }
  specialize (He (utf8_codes (of_string s))). unfold zlen in *. lia.
Qed.

Lemma payload_text (text : string → bytes) v w :
  json_text default_layout text 0 (normal (JObj [("vector", JStr v); ("note", JStr w)])) =
    x7b :: text "note"%string ++ x3a :: x20 :: text w ++ x2c :: x20 :: text "vector"%string ++ x3a :: x20 :: text v ++ [x7d].
Proof.
  change (normal (JObj [("vector", JStr v); ("note", JStr w)])) with (JObj [("note", JStr w); ("vector", JStr v)]).
  cbn. rewrite !app_nil_r, <- !app_assoc. cbn. by rewrite <- ?app_assoc, ?app_nil_r.
Qed.

Lemma zlen_literals : zlen (json_string "note") = 6 ∧ zlen (json_string "vector") = 8 ∧ zlen (json_string NOTE) = 63.
Proof. by vm_compute. Qed.

Lemma vector_payload_length vid : short_text vid → zlen (vector_payload vid) ≤ 2 ^ 20.
Proof.
  intros [_ Hl]. pose proof (json_string_length vid) as Hj. unfold SHORT in Hl. unfold vector_payload.
  rewrite payload_text. destruct zlen_literals as (E1 & E2 & E3).
  rewrite !zlen_cons, !zlen_app, !zlen_cons, !zlen_app, !zlen_cons, !zlen_app, !zlen_cons, zlen_app, E1, E2, E3, zlen_one_elem. lia.
Qed.

(** Hexadecimal text is ASCII. *)
Lemma hex_digit_ascii z : 0 ≤ z < 16 → byte_val (Ascii.byte_of_ascii (hex_digit z)) < 128.
Proof.
  intros Hz. assert (forallb (fun n => byte_val (Ascii.byte_of_ascii (hex_digit (Z.of_nat n))) <? 128) (seq 0 16) = true) as Hall
    by (vm_compute; reflexivity).
  rewrite forallb_forall in Hall. specialize (Hall (Z.to_nat z)). rewrite Z2Nat.id in Hall by lia.
  apply Z.ltb_lt, Hall, in_seq. lia.
Qed.

Lemma hex_text_ok b : text_ok (hex b).
Proof.
  apply ascii_valid. induction b as [|x b IH]; [constructor|]. pose proof (byte_val_range x).
  cbn [hex]. unfold of_string, String.list_byte_of_string in *. cbn [String.list_ascii_of_string map].
  repeat constructor; [apply hex_digit_ascii; Z.to_euclidean_division_equations; lia..|exact IH].
Qed.

(** ** Headers and messages *)

Lemma literal_admitted room ot s : text_ok s → zlen (of_string s) < 2 ^ 64 → admitted (S room) ot (Text (of_string s)).
Proof. intros Hs Hl. apply admitted_Text. split; [done|]. by apply utf8_text. Qed.

Lemma text_encode_length s : zlen (encode (Text (of_string s))) ≤ 9 + zlen (of_string s).
Proof. cbn [encode]. rewrite zlen_app. pose proof (zlen_head_le 3 (zlen (of_string s))). lia. Qed.

Abbreviation header_items := (list (EncodingRuleProof.item * EncodingRuleProof.item)).

(** The protected headers the generator signs. *)
Definition claims_items (vid : string) : header_items :=
  [(Uint 1, Text (of_string ISSUER)); (Uint 2, Text (of_string (subject_of vid)))].
Definition statement_items (vid : string) (code : Z) : header_items :=
  [(Uint 3, Text (of_string "application/json")); (Uint 15, Map (claims_items vid)); (Uint 1, Nint (-1 - code))].
Definition receipt_items (kind code : Z) : header_items := [(Uint 395, Uint kind); (Uint 1, Nint (-1 - code))].

Definition signing_code (code : Z) : Prop := code = -8 ∨ code = -7.

Lemma claims_admitted room vid : short_text vid → admitted (S (S room)) false (Map (claims_items vid)).
Proof.
  intros [Hs Hl]%subject_ok. unfold SHORT in Hl. apply admitted_Map. split; [done|]. split.
  { apply NoDup_cons. split; [by intros [=]%list_elem_of_singleton|apply NoDup_singleton]. }
  apply Forall_cons. split; [split_and!; [done|cbn; lia|by apply literal_admitted]|].
  apply Forall_singleton. split_and!; [done|cbn; lia|apply literal_admitted; [done|cbn [snd]; lia]].
Qed.

Lemma statement_items_admitted vid code :
  short_text vid → signing_code code → admitted 17 false (Map (statement_items vid code)).
Proof.
  intros Hv Hc. apply admitted_Map. split; [done|]. split.
  { unfold statement_items. cbn. repeat (apply NoDup_cons; split; [rewrite ?elem_of_cons, elem_of_nil; naive_solver|]). apply NoDup_nil_2. }
  apply Forall_cons. split; [split_and!; [done|cbn; lia|by apply literal_admitted]|].
  apply Forall_cons. split; [split_and!; [done|cbn; lia|by apply claims_admitted]|].
  apply Forall_singleton. unfold signing_code in Hc. split_and!; [done|cbn; lia|cbn; lia].
Qed.

Lemma header_items_admitted kind code :
  0 ≤ kind < 2 ^ 64 → signing_code code → admitted 17 false (Map (receipt_items kind code)).
Proof.
  intros Hk Hc. apply admitted_Map. split; [done|]. split.
  { apply NoDup_cons. split; [by intros [=]%list_elem_of_singleton|apply NoDup_singleton]. }
  unfold signing_code in Hc. apply Forall_cons. split; [split_and!; [done|cbn; lia|done]|].
  apply Forall_singleton. split_and!; [done|cbn; lia|cbn; lia].
Qed.

Definition merged_claims (vid : string) : dict := [(CWT_ISS, VStr ISSUER); (CWT_SUB, VStr (subject_of vid))].

Lemma statement_items_represent vid code :
  represents (VDict false (signed_header "application/json" (merged_claims vid) None code)) (Map (statement_items vid code)).
Proof.
  unfold represents, signed_header, merged_claims, statement_items, claims_items. cbn -[ISSUER subject_of].
  rewrite !to_of_string. by replace (-1 - (-1 - code)) with code by lia.
Qed.

Lemma receipt_items_represent kind code :
  represents (VDict false [(HDR_VDS, VInt kind); (HDR_ALG, VInt code)]) (Map (receipt_items kind code)).
Proof. unfold represents, receipt_items. cbn. by replace (-1 - (-1 - code)) with code by lia. Qed.

(** Bounds on lengths, one pair of a map at a time. *)
Definition pairs_length (l : header_items) : Z := zlen (concat (map (fun kv => encode kv.1 ++ encode kv.2) l)).

Lemma map_encode_length l : zlen (encode (Map l)) ≤ 9 + pairs_length l.
Proof. cbn [encode]. rewrite zlen_app. pose proof (zlen_head_le 5 (zlen l)). unfold pairs_length. lia. Qed.

Lemma pairs_length_cons k v l : pairs_length ((k, v) :: l) = zlen (encode k) + zlen (encode v) + pairs_length l.
Proof. unfold pairs_length. cbn [map concat fst snd]. by rewrite !zlen_app. Qed.

Lemma pairs_length_nil : pairs_length [] = 0.
Proof. done. Qed.

Lemma key_encode_length n : zlen (encode (Uint n)) ≤ 9.
Proof. apply zlen_head_le. Qed.

Lemma statement_items_length vid code : short_text vid → zlen (encode (Map (statement_items vid code))) ≤ SHORT + 250.
Proof.
  intros [_ Hl]%subject_ok. pose proof (text_encode_length "application/json") as H1. pose proof (text_encode_length ISSUER) as H2.
  pose proof (text_encode_length (subject_of vid)) as H3. change (zlen (of_string "application/json")) with 16 in H1.
  change (zlen (of_string ISSUER)) with 39 in H2.
  pose proof (map_encode_length (statement_items vid code)) as Hm. pose proof (map_encode_length (claims_items vid)) as Hc.
  pose proof (zlen_head_le 1 (-1 - code)) as Hn. unfold statement_items, claims_items in *.
  rewrite !pairs_length_cons, pairs_length_nil in *. pose proof key_encode_length as Hk.
  pose proof (Hk 1). pose proof (Hk 2). pose proof (Hk 3). pose proof (Hk 15). cbn [encode] in Hn. change (encode (Nint ?n)) with (head 1 n) in *. lia.
Qed.

Lemma receipt_items_length kind code : zlen (encode (Map (receipt_items kind code))) ≤ 45.
Proof.
  pose proof (map_encode_length (receipt_items kind code)) as Hm. unfold receipt_items in *. rewrite !pairs_length_cons, pairs_length_nil in Hm.
  pose proof (key_encode_length 395). pose proof (key_encode_length 1). pose proof (key_encode_length kind).
  pose proof (zlen_head_le 1 (-1 - code)). change (encode (Nint (-1 - code))) with (head 1 (-1 - code)) in Hm. lia.
Qed.

Lemma message_length pb ul slot sig :
  zlen (encode (message_item pb ul slot sig)) ≤
    50 + zlen pb + zlen (encode (Map ul)) + match slot with Some p => zlen p | None => 0 end + zlen sig.
Proof.
  unfold message_item. set (payload := match slot with Some p => Octets p | None => Simple 22 end).
  assert (zlen (encode payload) ≤ 9 + match slot with Some p => zlen p | None => 0 end) as Hp.
  { subst payload. destruct slot as [p|]; [cbn [encode]; rewrite zlen_app; pose proof (zlen_head_le 2 (zlen p)); lia|].
    change (encode (Simple 22)) with (head 7 22). pose proof (zlen_head_le 7 22). lia. }
  change (encode (Tag COSE_SIGN1_TAG (Array [Octets pb; Map ul; payload; Octets sig]))) with
    (head 6 COSE_SIGN1_TAG ++ head 4 4 ++ (head 2 (zlen pb) ++ pb) ++ encode (Map ul) ++ encode payload ++ (head 2 (zlen sig) ++ sig) ++ []).
  rewrite !zlen_app, zlen_nil.
  pose proof (zlen_head_le 6 COSE_SIGN1_TAG). pose proof (zlen_head_le 4 4). pose proof (zlen_head_le 2 (zlen pb)).
  pose proof (zlen_head_le 2 (zlen sig)). lia.
Qed.

Lemma vdp_length blob : zlen (encode (Map (vdp_items blob))) ≤ zlen blob + 60.
Proof.
  assert (zlen (encode (Array [Octets blob])) ≤ 18 + zlen blob) as Ha.
  { change (encode (Array [Octets blob])) with (head 4 1 ++ (head 2 (zlen blob) ++ blob) ++ []).
    rewrite !zlen_app, zlen_nil. pose proof (zlen_head_le 4 1). pose proof (zlen_head_le 2 (zlen blob)). lia. }
  pose proof (map_encode_length (vdp_items blob)) as H1. pose proof (map_encode_length [(Nint 0, Array [Octets blob])]) as H2.
  unfold vdp_items in *. rewrite pairs_length_cons, pairs_length_nil in H1, H2.
  pose proof (key_encode_length 396). pose proof (zlen_head_le 1 0). change (encode (Nint 0)) with (head 1 0) in H2. lia.
Qed.

Section generator.
Context `{PyObjects} `{Sha256} `{!Cbor} `{!CborLaws _} `{!Crypto} `{!SignLaws _}.
Context (other_eq : N → json → bool) (generate : nat → string → bytes * bytes).
#[local] Set Default Proof Using "All".

(** What the generator of keys promises: the two halves load, match, and are
    of the class the algorithm signs with. *)
Definition key_pair (code : Z) (pair : bytes * bytes) : Prop :=
  ∃ key, load_pem_private_key pair.1 = Ok key ∧ load_pem_public_key pair.2 = Ok (public_of key) ∧
    alg_class code = Some (private_class key).
Definition key_laws : Prop := ∀ n alg code, ALG_CODES alg = Ok code → key_pair code (generate n alg).

Lemma alg_codes_ok alg code : ALG_CODES alg = Ok code → ALG_NAME_TO_CODE alg = Some code ∧ signing_code code.
Proof.
  unfold ALG_CODES, ALG_NAME_TO_CODE, signing_code. repeat case_bool_decide; try done; intros [= <-]; auto.
Qed.

(** ** The log *)

Lemma tree_entries_ok vid st :
  short_text vid → ∃ bs, _tree_entries vid st = Ok (hex <$> bs) ∧ length bs = 8%nat ∧ bs !! 2%nat = Some (sha256 st).
Proof.
  intros Hv. set (digest i := if i =? LEAF_INDEX then sha256 st else sha256 (of_string (filler vid i))).
  exists (digest <$> [0; 1; 2; 3; 4; 5; 6; 7]). split; [|done]. unfold _tree_entries.
  change (seqZ 0 TREE_SIZE) with [0; 1; 2; 3; 4; 5; 6; 7]. apply mapM_ok.
  assert (∀ i, 0 ≤ i < 8 → (if i =? LEAF_INDEX then Ok (hex (sha256 st))
    else text ← py_encode (filler vid i); Ok (hex (sha256 text))) = Ok (hex (digest i))) as Hi.
  { intros i Hr. unfold digest. destruct (i =? LEAF_INDEX); [done|]. unfold py_encode.
    by rewrite (filler_ok vid i Hv Hr). }
  repeat (constructor; [apply Hi; lia|]). constructor.
Qed.

Lemma merkle_root_hex bs : ∃ d, merkle_root (hex <$> bs) = Ok (hex d).
Proof.
  unfold merkle_root. assert (leaf_hashes (hex <$> bs) = Ok (_leaf_hash_bytes <$> bs)) as ->; [|by eexists].
  apply mapM_ok. apply Forall2_fmap. apply Forall_Forall2_diag, Forall_true. intros b. by rewrite fromhex_hex.
Qed.

(** ** Minting *)

(** What the runner is to read in a statement. *)
Definition parsed_as (vid alg : string) (claims : dict) : parsed :=
  {| signature_verified := Some true;
     authenticated := {| Statement.issuer := Some ISSUER; Statement.subject := Some (subject_of vid);
                         content_type := Some "application/json"%string; Statement.alg := Some (VStr alg); claims := claims;
                         Statement.payload := Some (vector_payload vid) |};
     Statement.unverified := None |}.

(** What is known of minted artifacts. *)
Record sound_mint (vid alg : string) (m : minted) : Prop := {
  mint_alg : VectorGen.alg m = alg;
  mint_payload : VectorGen.payload m = vector_payload vid;
  mint_leaf : leaf m = hex (sha256 (VectorGen.statement m));
  mint_statement : ∃ claims, parse_signed_statement (VectorGen.statement m) (Some (PemBytes (issuer_pub m))) = Ok (parsed_as vid alg claims);
  mint_receipt : verify_receipt (VectorGen.receipt m) (leaf m) (PemBytes (log_pub m)) =
    Ok {| ok := true; root := Some (root_hex m); tree_size := Some TREE_SIZE; leaf_index := Some LEAF_INDEX; errors := [];
          iat := None; Receipt.issuer := None; Receipt.subject := None; protected_header_ext := []; failed_at := None |};
  mint_path : ∃ nodes digest, audit_path m = hex <$> nodes ∧ root_hex m = hex digest ∧ zlen digest = 32 ∧
    Forall (fun x => length x = 32%nat) nodes ∧ zlen nodes ≤ 62 ∧ zlen nodes = _expected_inclusion_path_len TREE_SIZE LEAF_INDEX;
  mint_log_key : ∀ code, ALG_CODES alg = Ok code → key_pair code (log_priv m, log_pub m)
}.

Lemma minted_statement vid alg code pair :
  ALG_CODES alg = Ok code → short_text vid → key_pair code pair →
  ∃ st claims, build_signed_statement (vector_payload vid) alg (PemBytes pair.1) ISSUER (subject_of vid) "application/json" None None = Ok st ∧
    parse_signed_statement st (Some (PemBytes pair.2)) = Ok (parsed_as vid alg claims).
Proof.
  intros Hcode Hv (key & Hpriv & Hpub & Hclass). destruct (alg_codes_ok _ _ Hcode) as [Hname Hsc].
  pose proof (statement_items_length vid code Hv) as Hlen. unfold SHORT in Hlen. pose proof (vector_payload_length vid Hv) as Hplen.
  pose proof (statement_items_admitted vid code Hv Hsc) as Hpl.
  destruct (build_statement_message (vector_payload vid) alg code (PemBytes pair.1) (PemBytes pair.2) key ISSUER (subject_of vid)
    "application/json" None None (merged_claims vid) (statement_items vid code))
    as (sig & Hbuild & Hm & Hcheck & Hget & Hsig); try done; try lia; [apply statement_items_represent|].
  exists (message (Map (statement_items vid code)) [] (Some (vector_payload vid)) sig), (thaw_dict (merged_claims vid)).
  split; [done|]. pose proof (map_encode_length []) as Hempty. rewrite pairs_length_nil in Hempty.
  pose proof (message_length (encode (Map (statement_items vid code))) [] (Some (vector_payload vid)) sig) as Hml.
  cbv beta iota in Hml. apply (parse_statement_message _ alg code _ _ _ _ None None (merged_claims vid)); try done; try lia.
  - apply signed_header_dict, statement_items_represent.
  - unfold message, MAX_MESSAGE_BYTES. assert (zlen sig ≤ 96) by (unfold zlen; lia). lia.
Qed.

(** The receipt over a log of eight entries. *)
Lemma minted_receipt alg code pair bs digest_of :
  ALG_CODES alg = Ok code → key_pair code pair → length bs = 8%nat → bs !! 2%nat = Some digest_of →
  ∃ nodes digest receipt,
    build_receipt (hex digest_of) LEAF_INDEX (hex <$> bs) alg (PemBytes pair.1) true None None None None None = Ok receipt ∧
    inclusion_proof (hex <$> bs) LEAF_INDEX = Ok (hex <$> nodes) ∧ merkle_root (hex <$> bs) = Ok (hex digest) ∧ zlen digest = 32 ∧
    Forall (fun x => length x = 32%nat) nodes ∧ zlen nodes ≤ 62 ∧ zlen nodes = _expected_inclusion_path_len TREE_SIZE LEAF_INDEX ∧
    verify_receipt receipt (hex digest_of) (PemBytes pair.2) =
      Ok {| ok := true; root := Some (hex digest); tree_size := Some TREE_SIZE; leaf_index := Some LEAF_INDEX; errors := [];
            iat := None; Receipt.issuer := None; Receipt.subject := None; protected_header_ext := []; failed_at := None |}.
Proof.
  intros Hcode (key & Hpriv & Hpub & Hclass) Hbs Hleaf. destruct (alg_codes_ok _ _ Hcode) as [Hname Hsc].
  destruct (merkle_root_hex bs) as [d Hroot].
  assert ((hex <$> bs) !! Z.to_nat LEAF_INDEX = Some (hex digest_of)) as Hl
    by (rewrite list_lookup_fmap; change (Z.to_nat LEAF_INDEX) with 2%nat; by rewrite Hleaf).
  assert (zlen (hex <$> bs) = TREE_SIZE) as Hsize by (rewrite zlen_fmap; unfold zlen; by rewrite Hbs).
  pose proof (receipt_items_length 1 code) as Hril. pose proof (header_items_admitted 1 code ltac:(lia) Hsc) as Hpl.
  destruct (build_receipt_message (hex <$> bs) (hex digest_of) LEAF_INDEX (hex d) alg code (PemBytes pair.1) (PemBytes pair.2) key
    None None None None None (receipt_items 1 code))
    as (nodes & digest & sig & Hb & Hm & Hcheck & Hget & Hsig & Hd & Hproof & H32 & Hr & H62 & Hexp & Hfold);
    try done; try (rewrite Hsize; done); [apply receipt_items_represent|lia|]. rewrite Hsize in *.
  pose proof (message_length (encode (Map (receipt_items 1 code))) (vdp_items (encode (proof_item TREE_SIZE LEAF_INDEX nodes))) None sig) as Hrl.
  pose proof (vdp_length (encode (proof_item TREE_SIZE LEAF_INDEX nodes))) as Hvl.
  pose proof (proof_item_length TREE_SIZE LEAF_INDEX nodes H62 H32) as Hpil. cbv beta iota in Hrl.
  eexists nodes, digest, _. rewrite Hroot, Hd. split_and!; try done; [by eapply root_digest_length|].
  apply (verify_minted (receipt_items 1 code) sig code digest _ _ TREE_SIZE LEAF_INDEX nodes None None None None None); try done; try lia.
  - unfold MAX_MESSAGE_BYTES. assert (zlen sig ≤ 96) by (unfold zlen; lia). lia.
  - apply receipt_header_dict, receipt_items_represent.
Qed.

Lemma mint_ok n vid alg code :
  key_laws → ALG_CODES alg = Ok code → short_text vid → ∃ m, _mint generate n vid alg None = Ok m ∧ sound_mint vid alg m.
Proof.
  intros Hkeys Hcode Hv. unfold _mint.
  pose proof (Hkeys (2 * n)%nat alg code Hcode) as Hik. pose proof (Hkeys (2 * n + 1)%nat alg code Hcode) as Hlk.
  destruct (generate (2 * n) alg) as [ipriv ipub]. destruct (generate (2 * n + 1) alg) as [lpriv lpub].
  destruct (minted_statement vid alg code (ipriv, ipub)) as (st & claims & Hbuild & Hparse); [done..|]. cbn [fst snd] in *.
  rewrite Hbuild. cbn [mbind outcome_bind]. destruct (tree_entries_ok vid st Hv) as (bs & -> & Hbs & Hleaf).
  destruct (minted_receipt alg code (lpriv, lpub) bs (sha256 st)) as (nodes & digest & rc & Hb & Hproof & Hroot & Hd & H32 & H62 & Hexp & Hr);
    [done..|]. cbn [fst snd] in *.
  assert ((hex <$> bs) !! Z.to_nat LEAF_INDEX = Some (hex (sha256 st))) as Hl
    by (rewrite list_lookup_fmap; change (Z.to_nat LEAF_INDEX) with 2%nat; by rewrite Hleaf).
  cbn [mbind outcome_bind]. rewrite (nth_lookup_Some _ _ _ _ Hl), Hb, Hproof, Hroot. cbn [mbind outcome_bind].
  eexists. split; [done|].
  split; cbn [VectorGen.alg VectorGen.payload leaf VectorGen.statement issuer_pub VectorGen.receipt log_pub log_priv root_hex audit_path]; try done.
  - by exists claims.
  - by exists nodes, digest.
  - intros code' Hcode'. rewrite Hcode in Hcode'. by injection Hcode' as <-.
Qed.

(** ** A receipt of the other data structure

    The number 2 is that of CCF receipts: the verifier takes the proof for a
    CCF proof and refuses its shape. *)
Definition not_a_ccf_proof : msg := text "CCF proof must be a CBOR map (keys 1 and 2)".

Lemma unsupported_vds_receipt vid alg code m :
  sound_mint vid alg m → ALG_CODES alg = Ok code →
  ∃ bad, _mint_unsupported_vds_receipt m = Ok bad ∧
    ∃ r, verify_receipt bad (leaf m) (PemBytes (log_pub m)) = Ok r ∧ ok r = false ∧ errors r = [not_a_ccf_proof].
Proof.
  intros [Halg _ Hleaf _ _ (nodes & digest & Hpath & Hroot & Hd & H32 & H62 & Hexp) Hkey] Hcode.
  destruct (alg_codes_ok _ _ Hcode) as [Hname Hsc]. destruct (Hkey code Hcode) as (key & Hpriv & Hpub & Hclass).
  pose proof (proof_item_admitted TREE_SIZE LEAF_INDEX nodes ltac:(by vm_compute) ltac:(by vm_compute) H62 H32) as Hitem.
  pose proof (proof_item_length TREE_SIZE LEAF_INDEX nodes H62 H32) as Hpil.
  set (blob := encode (proof_item TREE_SIZE LEAF_INDEX nodes)) in *.
  assert (admitted 17 false (Map (receipt_items 2 code))) as Hpl by by apply header_items_admitted.
  pose proof (receipt_items_length 2 code) as Hril.
  assert (admitted 15 false (Map (vdp_items blob))) as Hvdp by (apply vdp_admitted; lia).
  destruct (sign_sign1_message digest alg code (PemBytes (log_priv m)) (PemBytes (log_pub m)) key (Some [(HDR_VDS, VInt 2)])
    (Some [(HDR_VDP, VDict false [(VDP_INCLUSION_PROOFS, VList false [VBytes blob])])]) (receipt_items 2 code) (vdp_items blob) true)
    as (sig & Hsign & Hm & _ & Hget & Hsig); try done; try lia; [apply (receipt_items_represent 2 code)|].
  cbv beta iota zeta in Hsign, Hm. eexists. split.
  - unfold _mint_unsupported_vds_receipt. rewrite Hpath, Hroot, Halg, fromhex_hex.
    pose proof (encode_inclusion_proof_item TREE_SIZE LEAF_INDEX nodes Hitem) as Hblob. unfold _encode_inclusion_proof in Hblob.
    rewrite mapM_fromhex_hex in *. cbn [mbind outcome_bind] in *. rewrite Hblob. exact Hsign.
  - pose proof (message_length (encode (Map (receipt_items 2 code))) (vdp_items blob) None sig) as Hml. cbv beta iota in Hml.
    pose proof (vdp_length blob) as Hvl. assert (zlen sig ≤ 96) by (unfold zlen; lia).
    assert (zlen (encode (message_item (encode (Map (receipt_items 2 code))) (vdp_items blob) None sig)) ≤ MAX_MESSAGE_BYTES) as Hsize
      by (unfold MAX_MESSAGE_BYTES; lia).
    assert (check blob "an inclusion proof" false = Ok ()) as Hrule
      by (apply check_iff; exact (ex_intro _ _ (conj Hitem eq_refl))).
    assert (dict_mem (dict_of (receipt_items 2 code)) HDR_ALG = true) as Hmem by (unfold dict_mem; by rewrite Hget).
    unfold verify_receipt, Receipt._verify_receipt.
    assert (dict_get (dict_of (receipt_items 2 code)) HDR_VDS = Some (VInt 2)) as Hvds by reflexivity.
    assert (_check_critical_headers (dict_of (receipt_items 2 code)) _CCF_RECEIPT_UNDERSTOOD = Ok ()) as Hcrit by reflexivity.
    assert (zlen blob < 2 ^ 64) as Hb64 by lia.
    rewrite (receipt_headers_message _ blob sig 2 Hm Hpl Hb64 Hrule Hsize Hvds Hmem Hcrit).
    cbn [pass mbind outcome_bind vds]. unfold verify_ccf. rewrite Hleaf, fromhex_hex. cbn [inclusion_proofs].
    unfold _verify_ccf_v1_proof. destruct (loads_item 17 false _ (le_n _) Hitem) as (v & Hload & Hv). fold blob in Hload.
    rewrite Hload. cbn [rethrow mbind outcome_bind]. rewrite (plain_represents 17 _ _ Hitem Hv). by eexists.
Qed.

(** ** The expected verdicts *)

(** What the runner reads of the fields [_expected] wrote. *)
Lemma expected_items vid desc m result_ code sv rv vds path expected :
  _expected vid desc m result_ code sv rv vds path = Ok expected →
  Vectors.item expected "payload_sha256" = Ok (JStr (hex (sha256 (VectorGen.payload m)))) ∧
  Vectors.item expected "leaf_entry" = Ok (JStr (leaf m)) ∧
  (∃ hdr stmt, Vectors.item expected "protected_header" = Ok hdr ∧ Vectors.item hdr "statement" = Ok stmt ∧
    Vectors.item stmt "alg" = Ok (JStr (VectorGen.alg m)) ∧ Vectors.item stmt "issuer" = Ok (JStr ISSUER) ∧
    Vectors.item stmt "subject" = Ok (JStr (subject_of vid)) ∧ Vectors.item stmt "content_type" = Ok (JStr "application/json")) ∧
  Vectors.item expected "statement_signature_valid" = Ok (JBool sv) ∧ Vectors.item expected "receipt_valid" = Ok (JBool rv) ∧
  Vectors.item expected "reconstructed_root" = Ok (if rv then JStr (root_hex m) else JNull) ∧
  Vectors.item expected "tree_size" = Ok (JInt TREE_SIZE) ∧ Vectors.item expected "leaf_index" = Ok (JInt LEAF_INDEX) ∧
  Vectors.item expected "result" = Ok (JStr result_).
Proof.
  unfold _expected. intros (c & _ & [= <-])%bind_ok. split_and!; try reflexivity. by eexists _, _.
Qed.

Lemma is_text_refl s : is_text (JStr s) s = true.
Proof. by apply bool_decide_eq_true_2. Qed.

Lemma check_generated_statement vid alg m expected desc result_ code rv vds path :
  sound_mint vid alg m → _expected vid desc m result_ code true rv vds path = Ok expected →
  check_vector_statement other_eq (VectorGen.statement m) (issuer_pub m) (VectorGen.payload m) expected = Ok (Some true, []).
Proof.
  intros [Halg Hpayload _ [claims Hparse] _ _ _]
    (_ & _ & (hdr & stmt & Hh & Hs & Ha & Hi & Hsub & Hct) & Hsv & _)%expected_items.
  unfold check_vector_statement. rewrite Hh. cbn [mbind outcome_bind]. rewrite Hs, Hparse, Hsv. cbn [mbind outcome_bind].
  unfold field_mismatches. rewrite Ha, Hi, Hsub, Hct, Halg, Hpayload.
  rewrite (bool_decide_eq_true_2 (Some true = Some true)) by done.
  cbn -[ISSUER subject_of vector_payload bool_decide alg_eq text_eq].
  rewrite (bool_decide_eq_false_2 (vector_payload vid ≠ vector_payload vid)) by (by intros []).
  cbn -[ISSUER subject_of bool_decide]. by rewrite !bool_decide_eq_true_2.
Qed.

Lemma check_generated_receipt vid alg m expected desc result_ code sv rv vds path rc r :
  sound_mint vid alg m → _expected vid desc m result_ code sv rv vds path = Ok expected →
  verify_receipt rc (leaf m) (PemBytes (log_pub m)) = Ok r → ok r = rv →
  (rv = true → root r = Some (root_hex m) ∧ tree_size r = Some TREE_SIZE ∧ leaf_index r = Some LEAF_INDEX) →
  check_vector_receipt rc (log_pub m) expected = Ok (r, []).
Proof.
  intros _ (_ & Hleaf & _ & _ & Hrv & Hroot & Hsize & Hindex & _)%expected_items Hv Hok Hfacts.
  unfold check_vector_receipt. rewrite Hleaf. cbn [mbind outcome_bind verify_leaf]. rewrite Hv. cbn [mbind outcome_bind].
  rewrite Hrv. cbn [mbind outcome_bind identical json_truthy]. rewrite Hok, Bool.eqb_reflx. destruct rv; [|done].
  destruct (Hfacts eq_refl) as (-> & -> & ->). cbn [andb]. rewrite Hroot, Hsize, Hindex. cbn [mbind outcome_bind text_eq].
  by rewrite bool_decide_eq_true_2.
Qed.

(** The five files the runner reads of a vector. *)
Definition vector_files (read : list string → result bytes) (dir : list string) (m : minted) (rc : bytes) : Prop :=
  read (dir ++ ["payload.bin"%string]) = Ok (VectorGen.payload m) ∧ read (dir ++ ["statement.cose"%string]) = Ok (VectorGen.statement m) ∧
  read (dir ++ ["receipt.cose"%string]) = Ok rc ∧ read (dir ++ ["issuer-key.pub"%string]) = Ok (issuer_pub m) ∧
  read (dir ++ ["log-key.pub"%string]) = Ok (log_pub m).

Lemma check_generated vid alg m expected desc result_ code rv vds path read dir rc r :
  sound_mint vid alg m → _expected vid desc m result_ code true rv vds path = Ok expected → vector_files read dir m rc →
  verify_receipt rc (leaf m) (PemBytes (log_pub m)) = Ok r → ok r = rv →
  (rv = true → root r = Some (root_hex m) ∧ tree_size r = Some TREE_SIZE ∧ leaf_index r = Some LEAF_INDEX) →
  bool_decide (result_ = "VALID"%string) = rv →
  check_vector other_eq read dir expected = Ok [].
Proof.
  intros Hm He (Hpay & Hst & Hrc & Hip & Hlp) Hv Hok Hfacts Hres. unfold check_vector.
  rewrite Hpay, Hst, Hrc, Hip, Hlp. cbn [mbind outcome_bind].
  destruct (expected_items _ _ _ _ _ _ _ _ _ _ He) as (Hsha & Hleaf & _ & _ & _ & _ & _ & _ & Hresult).
  rewrite Hsha, Hleaf. cbn [mbind outcome_bind]. rewrite (check_generated_statement vid alg m expected desc _ code rv vds path) by done.
  rewrite (check_generated_receipt vid alg m expected desc result_ code true rv vds path rc r) by done. cbn [mbind outcome_bind].
  rewrite Hresult, (mint_leaf _ _ _ Hm), !is_text_refl. cbn [mbind outcome_bind is_text].
  rewrite Hres, Hok, (bool_decide_eq_true_2 (Some true = Some true)) by done. cbn [andb]. by rewrite Bool.eqb_reflx.
Qed.

Ltac distinct_names :=
  cbn; repeat (apply NoDup_cons; split; [rewrite ?elem_of_cons, elem_of_nil; naive_solver discriminate|]); apply NoDup_nil_2.

(** The expected verdicts survive being written as JSON. *)
Lemma expected_readable vid desc alg m result_ code sv rv vds expected room :
  sound_mint vid alg m → _expected vid desc m result_ code sv rv vds None = Ok expected →
  short_text vid → text_ok desc → text_ok result_ → text_ok (default ""%string code) → zlen (dec (Z.abs vds)) ≤ 4300 →
  readable (S (S (S room))) expected.
Proof.
  intros [Halg _ Hleaf _ _ (nodes & digest & Hpath & Hroot & _) _] He [Hv _] Hdesc Hres Hcode Hvds.
  unfold _expected in He. apply bind_ok in He as (c & Hc & [= <-]). apply alg_codes_ok in Hc as [Hname Hsc].
  assert (text_ok (VectorGen.alg m)) as Ha.
  { unfold ALG_NAME_TO_CODE in Hname. by repeat case_bool_decide; try match goal with E : _ = _ |- _ => by rewrite E end. }
  assert (zlen (dec (Z.abs c)) ≤ 4300) as Hcl by (by destruct Hsc as [-> | ->]).
  assert (text_ok (subject_of vid)) as Hsub by by apply text_ok_app.
  cbn [readable]. rewrite Hleaf, Hroot, Hpath. split.
  - destruct code as [code|]; [case_bool_decide|]; rewrite ?app_nil_r; cbn;
      distinct_names.
  - apply all_of_Forall. repeat (apply Forall_cons_2; [split; [reflexivity|cbn [snd readable]]|]); try done; try apply hex_text_ok.
    + split; [distinct_names|]. repeat (split; [split; [reflexivity|cbn [snd readable]]|]); try done;
        (split; [distinct_names|]); repeat (split; [split; [reflexivity|cbn [snd readable]; try done]|]); done.
    + apply all_of_Forall, Forall_fmap, Forall_fmap, Forall_true. intros node. apply hex_text_ok.
    + destruct rv; [apply hex_text_ok|done].
    + destruct code as [code|]; [|constructor]. case_bool_decide; repeat constructor. exact Hcode.
Qed.

(** ** From the disk to the runner *)

Definition code_json (code : option string) : json := match code with Some code => JStr code | None => JNull end.

Lemma expected_code vid desc m result_ code sv rv vds path expected :
  _expected vid desc m result_ code sv rv vds path = Ok expected → code ≠ Some ""%string →
  ∃ entries, expected = JObj entries ∧ jget entries "failure_code" = JStr <$> code.
Proof.
  unfold _expected. intros (c & _ & [= <-])%bind_ok Hne. eexists. split; [reflexivity|]. destruct code as [code|]; [|done].
  rewrite bool_decide_eq_false_2 by congruence. done.
Qed.

Lemma load_written read path v room :
  recursion_room = room → readable room v → read path = Ok (json_text indent_2 json_string 0 v ++ [x0a]) → load read path = Ok v.
Proof.
  intros Hroom Hv Hread. assert (white [x0a]) as Hw by by repeat constructor. unfold load. rewrite Hread. cbn [mbind outcome_bind].
  rewrite (written_valid indent_2 indent_2_white room) by done. apply (json_loads_written indent_2 indent_2_white); [|done]. by rewrite Hroom.
Qed.

(** The entry of a vector in the manifest. *)
Lemma registered vid desc expected entries result_ code :
  Vectors.item expected "result" = Ok (JStr result_) → expected = JObj entries → jget entries "failure_code" = JStr <$> code →
  ∃ v, register vid desc expected = Ok v ∧ Vectors.item v "dir" = Ok (JStr (VERSION +:+ "/" +:+ vid)) ∧
    Vectors.item v "expected_result" = Ok (JStr result_) ∧ Vectors.item v "id" = Ok (JStr vid) ∧
    py_get v "failure_code" JNull = Ok (code_json code).
Proof.
  intros Hr -> Hc. unfold register. rewrite Hr, Hc. eexists. split; [reflexivity|]. split_and!; try reflexivity. by destruct code.
Qed.

(** The report of a vector that was minted and written. *)
Lemma made_vector_conforms n vid desc alg m result_ code rv vds expected finish rc r d :
  _mint generate n vid alg None = Ok m → sound_mint vid alg m → short_text vid → text_ok desc → text_ok result_ →
  text_ok (default ""%string code) → code ≠ Some ""%string → zlen (dec (Z.abs vds)) ≤ 4300 → (3 ≤ recursion_room)%nat → vacant d vid →
  finish m = Ok (VectorGen.statement m, rc, expected) → _expected vid desc m result_ code true rv vds None = Ok expected →
  verify_receipt rc (leaf m) (PemBytes (log_pub m)) = Ok r → ok r = rv →
  (rv = true → root r = Some (root_hex m) ∧ tree_size r = Some TREE_SIZE ∧ leaf_index r = Some LEAF_INDEX) →
  bool_decide (result_ = "VALID"%string) = rv →
  ∃ d' v, make_vector generate n vid desc alg None finish d = (d', Ok v) ∧
    run_vector other_eq (read_bytes d') OUT v =
      Ok {| id := JStr vid; expected_result := JStr result_; Vectors.failure_code := code_json code; mismatches := [] |}.
Proof.
  intros Hmint Hm Hvid Hdesc Hrt Hct Hne Hvds Hroom Hd Hfin He Hv Hok Hfacts Hres.
  destruct (write_vector_reads d vid m (VectorGen.statement m) rc expected Hd) as (d' & Hw & Hpay & Hst & Hrc & Hip & Hlp & Hexp).
  destruct (expected_items _ _ _ _ _ _ _ _ _ _ He) as (_ & _ & _ & _ & _ & _ & _ & _ & Hresult).
  destruct (expected_code _ _ _ _ _ _ _ _ _ _ He Hne) as (entries & Hobj & Hcode).
  assert (∃ k, recursion_room = S (S (S k))) as [k Hk] by (destruct recursion_room as [|[|[|k]]]; try lia; eauto).
  pose proof (expected_readable _ _ _ _ _ _ _ _ _ _ k Hm He Hvid Hdesc Hrt Hct Hvds) as Hread.
  destruct (registered vid desc expected entries result_ code Hresult Hobj Hcode) as (v & Hreg & Hdir & Hver & Hid & Hget).
  exists d', v. split.
  - unfold make_vector, lift. unfold mbind at 1, prog_bind at 1. rewrite Hmint. unfold mbind at 1, prog_bind at 1. rewrite Hfin.
    unfold mbind at 1, prog_bind at 1. by rewrite Hw, Hreg.
  - unfold run_vector. rewrite Hdir. cbn [mbind outcome_bind].
    change ([OUT; VERSION +:+ "/" +:+ vid] ++ ["expected.json"%string]) with (([OUT; VERSION +:+ "/" +:+ vid]) ++ ["expected.json"%string]).
    rewrite (load_written _ _ expected _ Hk Hread Hexp). cbn [mbind outcome_bind].
    rewrite (check_generated vid alg m expected desc result_ code rv vds None _ _ rc r) by (try done; by split_and!).
    cbn [mbind outcome_bind]. rewrite Hver, Hresult, Hget, Hid. cbn [mbind outcome_bind].
    rewrite Hobj. cbn [mbind outcome_bind py_get]. unfold get_or. rewrite Hcode. cbn [json_eq].
    destruct code as [code|]; cbn [fmap option_fmap option_map code_json json_eq mbind outcome_bind]; by rewrite !bool_decide_eq_true_2.
Qed.

Lemma algorithm_text_ok alg code : ALG_CODES alg = Ok code → text_ok alg.
Proof. unfold ALG_CODES. by repeat case_bool_decide; subst. Qed.

(** C34: generated vectors conform: with keys that load, match and are of the
    algorithm's class, a happy-path vector, for each algorithm, and the vector
    of the other data structure are minted and written without an error
    wherever their directory is free, and the conformance runner, reading the
    files and the JSON back from the disk, reports them with the published
    verdict and not one mismatch; provided the JSON reader may nest three
    levels deep and the id of the vector is a short text. *)
Theorem generated_vectors_conform :
  key_laws → (3 ≤ recursion_room)%nat →
  (∀ n alg lower code d, let vid := "valid-" +:+ lower in
     ALG_CODES alg = Ok code → short_text vid → vacant d vid →
     ∃ d' v, valid_vector generate n alg lower d = (d', Ok v) ∧
       run_vector other_eq (read_bytes d') OUT v =
         Ok {| id := JStr vid; expected_result := JStr "VALID"; Vectors.failure_code := JNull; mismatches := [] |}) ∧
  (∀ n d, let vid := "fail-unsupported-vds"%string in
     vacant d vid →
     ∃ d' v, unsupported_vds_vector generate n d = (d', Ok v) ∧
       run_vector other_eq (read_bytes d') OUT v =
         Ok {| id := JStr vid; expected_result := JStr "INVALID"; Vectors.failure_code := JStr "UNSUPPORTED_VDS"; mismatches := [] |}).
Proof.
  intros Hkeys Hroom. split; cbv zeta.
  - intros n alg lower code d Hcode Hvid Hd. destruct (mint_ok n _ alg code Hkeys Hcode Hvid) as (m & Hmint & Hm).
    pose proof (algorithm_text_ok _ _ Hcode) as Halg. unfold valid_vector. cbv zeta.
    set (desc := "Happy path: " +:+ alg +:+ _). assert (text_ok desc) as Hdesc by (repeat apply text_ok_app; done).
    assert (∃ exp, _expected ("valid-" +:+ lower) desc m "VALID" None true true 1 None = Ok exp) as [exp Hexp].
    { unfold _expected. rewrite (mint_alg _ _ _ Hm), Hcode. by eexists. }
    eapply (made_vector_conforms n _ desc alg m "VALID" None true 1 exp); try done; [by rewrite Hexp|exact (mint_receipt _ _ _ Hm)|done..].
  - intros n d Hd. assert (short_text "fail-unsupported-vds") as Hvid by done.
    destruct (mint_ok n "fail-unsupported-vds" "EdDSA" (-8) Hkeys eq_refl Hvid) as (m & Hmint & Hm).
    destruct (unsupported_vds_receipt _ _ (-8) m Hm eq_refl) as (bad & Hbad & r & Hr & Hok & _).
    unfold unsupported_vds_vector. cbv zeta.
    match goal with |- context [make_vector _ _ _ ?text _ _ _] => set (desc := text) end.
    assert (text_ok desc) as Hdesc by (vm_compute; reflexivity).
    assert (∃ exp, _expected "fail-unsupported-vds" desc m "INVALID" (Some "UNSUPPORTED_VDS"%string) true false 2 None = Ok exp) as [exp Hexp].
    { unfold _expected. rewrite (mint_alg _ _ _ Hm). by eexists. }
    eapply (made_vector_conforms n _ desc "EdDSA" m "INVALID" (Some "UNSUPPORTED_VDS"%string) false 2 exp); try done.
    by rewrite Hbad; cbn [mbind outcome_bind]; rewrite Hexp.
Qed.
End generator.
