(* ===== verification/VectorGenWitness.v ===== *)
(** * A concrete run of the vector generator

    The generator over the toy signature scheme and the toy digest, on a disk
    that has an empty [test-vectors] directory. *)

From S2P Require Import Prelude PyRuntime Utf8 Sha256 Cbor CborInstance Json PyJson JsonLoads PyText PyIo Crypto CoseRoundTrip Vectors VectorGen VectorGenDisk VectorGenProof.

#[local] Existing Instance plain_objects.
#[local] Existing Instance Toy.instance.
#[local] Existing Instance ref_cbor.
#[local] Existing Instance ref_laws.
#[local] Existing Instance toy_crypto.
#[local] Existing Instance toy_sign_laws.

Module VectorGenWitness.
Definition other_eq (_ : N) (_ : json) : bool := false.
(** Fresh keys of the algorithm's class: the class octet and the number of the call. *)
Definition generate (n : nat) (a : string) : bytes * bytes :=
  let k := (if bool_decide (a = "EdDSA") then x04 else x01) :: be_bytes 8 (Z.of_nat n) in (k, k).
Definition empty_disk : disk := {| directories := {[ OUT ]}; files := ∅ |}.

Lemma keys : key_laws generate.
Proof.
  intros n alg code Hc. unfold ALG_CODES, generate in *. exists ((if bool_decide (alg = "EdDSA"%string) then x04 else x01) :: be_bytes 8 (Z.of_nat n)).
  split_and!; [done..|]. case_bool_decide; [by injection Hc as <-|]. case_bool_decide; [by injection Hc as <-|done].
Qed.

Lemma empty_vacant vid : vacant empty_disk vid.
Proof.
  split_and!; [|done|done|].
  - apply orb_false_iff. rewrite !bool_decide_eq_false. split; [|by intros []]. cbn [directories empty_disk]. by rewrite elem_of_singleton.
  - intros file. cbn [directories empty_disk]. by rewrite elem_of_singleton.
Qed.
End VectorGenWitness.
Import VectorGenWitness.

Lemma generated_vectors_conform_witness :
  ∃ d' v, valid_vector generate 0 "EdDSA" "eddsa" empty_disk = (d', Ok v) ∧
    run_vector other_eq (read_bytes d') OUT v =
      Ok {| id := JStr "valid-eddsa"; expected_result := JStr "VALID"; Vectors.failure_code := JNull; mismatches := [] |}.
Proof.
  destruct (generated_vectors_conform other_eq generate keys) as [Hvalid _]; [cbn; lia|].
  apply (Hvalid 0%nat "EdDSA"%string "eddsa"%string (-8) empty_disk); [reflexivity|split; [reflexivity|vm_compute; discriminate]|apply empty_vacant].
Defined.

Lemma generation_append_only_witness : only_grows empty_disk (main other_eq generate empty_disk).1.
Proof.
  exact (proj1 (generation_append_only other_eq generate empty_disk (main other_eq generate empty_disk).1
    (main other_eq generate empty_disk).2 (surjective_pairing _))).
Defined.

(** Whether the digest list of a disk names a file. *)
Definition sums_name (d : disk) (file : string) : bool :=
  match files d !! full_name sums_path with Some text => contains file (to_string text) | None => false end.

(** The whole run: the generator's own check passes; the digest list names the
    private keys, which are not published. *)
Example generator_run :
  let run := main other_eq generate empty_disk in
  run.2 = Ok 0 ∧ sums_name run.1 "v1/valid-eddsa/issuer-key.pub" = true ∧ sums_name run.1 "v1/valid-eddsa/issuer-key.test-private" = true.
Proof. vm_compute. split_and!; reflexivity. Qed.

(** An id that the manifest has already is noticed after the vectors are
    written: the run refuses and leaves them on the disk. *)
Definition listed_disk : disk :=
  {| directories := {[ OUT ]};
     files := {[ full_name manifest_path := json_dumps (JObj [("vectors", JArr [JObj [("id", JStr "valid-es256")]])]) ]} |}.
Example refused_half_done :
  let run := main other_eq generate listed_disk in
  run.2 = Ok 1 ∧ there run.1 [OUT; VERSION; "valid-es256"; "receipt.cose"]%string = true ∧ sums_name run.1 "v1" = false.
Proof. vm_compute. split_and!; reflexivity. Qed.
