(* ===== verification/HostedProof.v ===== *)
(** * What the hosted verifier answers

    A verdict is valid only when everything the request carried was verified;
    base64 is accepted in all four forms; the rate gate bounds what any minute
    lets through; the two front ends agree; and what the anchor proxy's
    verdict does and does not cover. *)

From stdpp Require Import gmap strings sorting.
From S2P Require Import Prelude PyRuntime Sha256 Utf8 EncodingRuleProof Merkle Cbor CborInstance Json PyJson JsonProof Base64 Crypto CoseSign1 CoseSign1Proof Statement Receipt ReceiptProof MachineMandate Aac AacProof Ritual Hosted.

(** ** Verdicts *)

Section verdicts.
Context `{PyObjects} `{Sha256} `{Cbor} `{Crypto}.

Lemma verify_nontext_refused receipt r : verify_nontext receipt = Ok r → ok r = false ∧ errors r ≠ [].
Proof.
  unfold verify_nontext. intros ([e|h] & _ & Hr)%bind_ok; [by injection Hr as <-|].
  destruct (vds h) as [[|[[]|[]|]|]|]; try discriminate Hr; try (by injection Hr as <-).
  apply bind_ok in Hr as ([e|cs] & _ & [= <-]); [done|]. by destruct (nontext_candidates cs).
Qed.

Lemma leaf_verdict receipt leaf pem r :
  verify_leaf receipt leaf pem = Ok r →
  (ok r = true ↔ errors r = []) ∧ (ok r = true → ∃ s, leaf = JStr s ∧ verify_receipt receipt s pem = Ok r).
Proof.
  unfold verify_leaf. destruct leaf as [| | | |s| |];
    try (intros [Ho He]%verify_nontext_refused; split; [by rewrite Ho; split|congruence]).
  intros Hr. split; [by eapply verify_receipt_ok_errors|]. intros _. by exists s.
Qed.

(** What makes a statement report affirmative. *)
Definition statement_verified (request : object) : Prop :=
  ∃ stmt key s, _b64 (get request "statement_b64") = Ok stmt ∧ key_of (get request "statement_pubkey_pem") = Ok (Some key) ∧
    verify_sign1 stmt key None _STMT_UNDERSTOOD = Ok s.

(** What makes a receipt report affirmative. *)
Definition receipt_verified_for (request : object) : Prop :=
  ∃ receipt leaf key r, _b64 (get request "receipt_b64") = Ok receipt ∧ get request "leaf_entry_hex" = JStr leaf ∧
    pem_of (get request "log_pubkey_pem") = Ok key ∧ verify_receipt receipt leaf key = Ok r ∧ ok r = true.

Lemma parse_verified stmt k p :
  parse_signed_statement stmt k = Ok p →
  signature_verified p = Some true ↔ ∃ key s, k = Some key ∧ verify_sign1 stmt key None _STMT_UNDERSTOOD = Ok s.
Proof.
  unfold parse_signed_statement. destruct k as [key|].
  - destruct (verify_sign1 stmt key None _STMT_UNDERSTOOD) as [s|e] eqn:Hv.
    + intros [= <-]. split; [intros _; by exists key, s|done].
    + intros Hp. split; [|intros (? & ? & [= <-] & ?); congruence]. destruct e; try done.
      apply bind_ok in Hp as (u & _ & [= <-]). done.
  - intros (u & _ & [= <-])%bind_ok. split; [done|]. by intros (? & ? & [=] & _).
Qed.

Lemma check_statement_spec request :
  (statement_affirmed (check_statement request).1 = true ↔ statement_verified request) ∧
  (statement_affirmed (check_statement request).1 = true ↔ (check_statement request).2 = []).
Proof.
  unfold check_statement, statement_verified.
  destruct (_b64 (get request "statement_b64")) as [stmt|e]; cbn [mbind outcome_bind].
  - destruct (key_of _) as [k|e] eqn:Hkey; cbn [mbind outcome_bind];
      [|by destruct e; cbn; split; split; try done; intros (? & ? & ? & _ & [=] & _)].
    destruct (parse_signed_statement stmt _) as [p|e] eqn:Hp.
    + pose proof (parse_verified _ _ _ Hp) as Hv. cbn [fst snd statement_affirmed].
      assert ((match signature_verified p with Some true => true | _ => false end) = true ↔ signature_verified p = Some true) as ->
        by (by destruct (signature_verified p) as [[]|]).
      split; [|by destruct (signature_verified p) as [[]|]; split]. rewrite Hv. split.
      * intros (key & s & -> & ?). by exists stmt, key, s.
      * intros (? & key & s & [= <-] & [= ->] & ?). by exists key, s.
    + assert (¬ ∃ stmt' key s, Ok stmt = @Ok exn _ stmt' ∧ Ok k = @Ok exn _ (Some key) ∧
        verify_sign1 stmt' key None _STMT_UNDERSTOOD = Ok s) as Hno.
      { intros (? & key & s & [= <-] & [= ->] & Hv). unfold parse_signed_statement in Hp. by rewrite Hv in Hp. }
      by destruct e; cbn; split; split.
  - by destruct e; cbn; split; split; try done; intros (? & ? & ? & [=] & _).
Qed.

Lemma check_receipt_spec request :
  (receipt_affirmed (check_receipt request).1 = true → receipt_verified_for request) ∧
  (receipt_affirmed (check_receipt request).1 = true ↔ (check_receipt request).2 = []).
Proof.
  unfold check_receipt, receipt_verified_for. destruct (_ || _); [by split|].
  destruct (_b64 (get request "receipt_b64")) as [receipt|e]; cbn [mbind outcome_bind]; [|by split].
  destruct (pem_of _) as [key|e] eqn:Hkey; cbn [mbind outcome_bind]; [|by split].
  destruct (verify_leaf _ _ _) as [r|e] eqn:Hv; [|by split]. apply leaf_verdict in Hv as [He Hok]. cbn. split.
  - intros Ho. destruct (Hok Ho) as (s & Hs & Hr). by exists receipt, s, key, r.
  - destruct (ok r); [by split|]. by rewrite <- He.
Qed.

(** C17: the hosted verdict fails closed: it is valid exactly when no reason is
    given, and then the request carried a statement or a receipt, the
    statement it carried verifies under the key it carried, and so does the
    receipt it carried, for a leaf that is text; a statement without a key
    never counts. *)
Theorem verdict_fails_closed request valid statement receipt reasons :
  verify_payload request = Verified valid statement receipt reasons →
  (valid = true ↔ reasons = []) ∧
  (valid = true →
    (json_truthy (get request "statement_b64") = true ∨ json_truthy (get request "receipt_b64") = true) ∧
    (json_truthy (get request "statement_b64") = true → statement_verified request) ∧
    (json_truthy (get request "receipt_b64") = true → receipt_verified_for request)).
Proof.
  unfold verify_payload. destruct (check_statement_spec request) as [Hs Hs']. destruct (check_receipt_spec request) as [Hr Hr'].
  destruct (check_statement request) as [sr sreasons], (check_receipt request) as [rr rreasons]. cbn [fst snd] in *.
  assert (∀ a b : list msg, a ++ b = [] ↔ a = [] ∧ b = []) as Happ by (intros [] []; cbn; split; try done; by intros []).
  destruct (json_truthy (get request "statement_b64")), (json_truthy (get request "receipt_b64")); cbn [negb andb]; [..|done];
    intros [= <- _ _ <-]; cbn [app forallb]; rewrite ?andb_true_r, ?app_nil_r, ?Happ, ?andb_true_iff.
  - rewrite Hs', Hr'. split; [done|]. intros [? ?]. split; [by left|]. split; intros _; [by apply Hs, Hs'|by apply Hr, Hr'].
  - rewrite Hs'. split; [done|]. intros ?. split; [by left|]. split; [intros _; by apply Hs, Hs'|done].
  - rewrite Hr'. split; [done|]. intros ?. split; [by right|]. split; [done|intros _; by apply Hr, Hr'].
Qed.
End verdicts.

(** ** Base64 in every form *)

Lemma utf8_codes_ascii b : Forall (fun c => byte_val c < 128) b → utf8_codes b = map byte_val b.
Proof. induction 1 as [|c b Hc _ IH]; cbn; [done|]. by rewrite (proj2 (Z.ltb_lt _ _) Hc), IH. Qed.

Lemma drop_while_all {A} (f : A → bool) l k : Forall (fun x => f x = true) l → drop_while f (l ++ k) = drop_while f k.
Proof. induction 1 as [|x l Hx _ IH]; cbn; [done|]. by rewrite Hx. Qed.

Lemma drop_while_none {A} (f : A → bool) l k : Forall (fun x => f x = false) l → l ≠ [] → drop_while f (l ++ k) = l ++ k.
Proof. intros Hl Hne. destruct Hl as [|x l Hx _]; [done|]. cbn. by rewrite Hx. Qed.

Lemma strip_core {A} (f : A → bool) a l b :
  Forall (fun x => f x = true) a → Forall (fun x => f x = false) l → Forall (fun x => f x = true) b → strip f (a ++ l ++ b) = l.
Proof.
  intros Ha Hl Hb. unfold strip, rstrip, lstrip. rewrite drop_while_all by done. destruct (decide (l = [])) as [->|Hne].
  - cbn. pose proof (drop_while_all f b [] Hb) as E. rewrite app_nil_r in E. by rewrite E.
  - rewrite drop_while_none by done. rewrite reverse_app, drop_while_all by (by apply Forall_reverse).
    assert (reverse l ≠ []) as Hr by (intros E; apply Hne; by rewrite <- (reverse_involutive l), E).
    pose proof (drop_while_none f (reverse l) [] (proj2 (Forall_reverse _ _) Hl) Hr) as E. rewrite app_nil_r in E.
    by rewrite E, reverse_involutive.
Qed.

Lemma not_space c : 33 ≤ c < 128 → is_space_code c = false.
Proof. intros Hc. unfold is_space_code. repeat (apply orb_false_intro); lia. Qed.

Lemma ascii_octets b : Forall (fun c => byte_val c < 128) b → ascii (map byte_val b) = Ok b.
Proof.
  intros Hb. unfold ascii. replace (forallb _ _) with true.
  - f_equal. induction Hb as [|c b _ _ IH]; cbn; [done|]. by rewrite byte_of_val, IH.
  - symmetry. apply forallb_forall. intros x (c & <- & Hc)%in_map_iff. rewrite Forall_forall in Hb.
    apply Z.ltb_lt, Hb. by apply list_elem_of_In.
Qed.

(** The two alphabets. *)
Definition alphabet (urlsafe : bool) (b : bytes) : bytes := if urlsafe then map to_urlsafe b else b.

Lemma alphabet_decodes urlsafe b : map from_urlsafe (alphabet urlsafe (b64data b)) = b64data b.
Proof. destruct urlsafe; [apply from_to_urlsafe_data|apply from_urlsafe_data]. Qed.

Lemma alphabet_octets urlsafe b : Forall (fun c => 33 ≤ byte_val c < 128) (alphabet urlsafe (b64data b)).
Proof.
  assert (Forall (fun c => 33 ≤ byte_val c < 128) (b64data b)) as Hb.
  { eapply Forall_impl; [apply b64data_chars|]. intros c (v & Hv & ->). destruct (sextet_char v Hv) as (_ & _ & ?). lia. }
  destruct urlsafe; [|done]. apply Forall_fmap. eapply Forall_impl; [apply b64data_chars|].
  intros c (v & Hv & ->). destruct (urlsafe_char v Hv) as (_ & _ & ?). cbn. lia.
Qed.

Lemma zlen_alphabet urlsafe b : zlen (alphabet urlsafe b) = zlen b.
Proof. destruct urlsafe; [apply zlen_fmap|done]. Qed.

Lemma zlen_pad b : zlen (pad b) = - zlen b mod 4.
Proof. unfold pad, zlen at 1. rewrite repeat_length. rewrite Z2Nat.id; [done|]. apply Z.mod_pos_bound. lia. Qed.

Definition is_ascii_space (c : byte) : Prop := byte_val c < 128 ∧ is_space_code (byte_val c) = true.

(** Base64 is accepted in every form: the standard or the URL-safe
    alphabet, with or without padding, with any ASCII white space around it;
    each decodes to the octets that were encoded. *)
Theorem b64_accepts_all_forms (b before after : bytes) (urlsafe padded : bool) :
  Forall is_ascii_space before → Forall is_ascii_space after →
  _b64 (JStr (to_string (before ++ (alphabet urlsafe (b64data b) ++ if padded then pad (b64data b) else []) ++ after))) = Ok b.
Proof.
  intros Hbefore Hafter. set (body := alphabet urlsafe (b64data b) ++ if padded then pad (b64data b) else []).
  assert (Forall (fun c => 33 ≤ byte_val c < 128) body) as Hbody.
  { apply Forall_app_2; [apply alphabet_octets|]. destruct padded; [|done]. unfold pad. apply Forall_forall.
    intros x Hx%list_elem_of_In%repeat_spec. subst. by vm_compute. }
  unfold _b64. rewrite of_to_string, utf8_codes_ascii.
  2:{ rewrite !Forall_app. split_and!; [eapply Forall_impl; [exact Hbefore|]|eapply Forall_impl; [exact Hbody|]|eapply Forall_impl; [exact Hafter|]];
      cbn; intros c; [intros []; done|lia|intros []; done]. }
  rewrite !map_app, strip_core.
  2:{ apply Forall_fmap. eapply Forall_impl; [exact Hbefore|]. by intros c []. }
  2:{ apply Forall_fmap. eapply Forall_impl; [exact Hbody|]. intros c Hc. by apply not_space. }
  2:{ apply Forall_fmap. eapply Forall_impl; [exact Hafter|]. by intros c []. }
  assert (map byte_val body ++ repeat 61 (Z.to_nat (- zlen (map byte_val body) mod 4)) =
    map byte_val (alphabet urlsafe (b64data b) ++ pad (b64data b))) as ->.
  { change (map byte_val body) with (byte_val <$> body). rewrite zlen_fmap. unfold body. destruct padded.
    - rewrite zlen_app, zlen_pad, zlen_alphabet.
      replace (- (zlen (b64data b) + - zlen (b64data b) mod 4) mod 4) with 0 by (Z.to_euclidean_division_equations; lia).
      apply app_nil_r.
    - rewrite app_nil_r, zlen_alphabet, map_app. f_equal. unfold pad. by rewrite map_repeat. }
  unfold urlsafe_b64decode. rewrite ascii_octets.
  - cbn [mbind outcome_bind]. rewrite map_app, alphabet_decodes, from_urlsafe_pad. by rewrite a2b_data.
  - apply Forall_app_2; [eapply Forall_impl; [apply alphabet_octets|]; by intros c [_ ?]|]. unfold pad. apply Forall_forall.
    intros x Hx%list_elem_of_In%repeat_spec. subst. by vm_compute.
Qed.

(** ** The rate gate *)

(** The calls of [allow] at the given clock readings: reading and verdict. *)
Fixpoint gate_run (g : RateGate) (readings : list Z) : list (Z * bool) :=
  match readings with
  | [] => []
  | now :: readings => let '(allowed, g) := allow now g in (now, allowed) :: gate_run g readings
  end.

(** The calls let through at a reading in the minute from [t] on. *)
Definition let_through (t : Z) (run : list (Z * bool)) : Z :=
  zlen (filter (fun call => call.2 = true ∧ t ≤ call.1 < t + window_length) run).

Lemma let_through_cons t now (allowed : bool) run :
  let_through t ((now, allowed) :: run) =
    let_through t run + (if allowed && (t <=? now) && (now <? t + window_length) then 1 else 0).
Proof.
  unfold let_through. rewrite filter_cons. cbn [fst snd]. case_decide as Hd.
  - destruct Hd as [-> Hd]. rewrite zlen_cons. by replace ((true && (t <=? now) && _)) with true by lia.
  - destruct allowed; cbn [andb]; [|lia]. replace ((t <=? now) && _) with false by (destruct (_ && _) eqn:E; [destruct Hd; split; [done|lia]|done]). lia.
Qed.

(** Calls after the minute do not count. *)
Lemma let_through_late t g readings :
  Forall (fun now => t + window_length ≤ now) readings → let_through t (gate_run g readings) = 0.
Proof.
  intros Hr. revert g. induction Hr as [|now readings Hn _ IH]; intros g; [done|]. cbn [gate_run].
  destruct (allow now g) as [allowed g']. rewrite let_through_cons, IH.
  replace (now <? t + window_length) with false by lia. by rewrite andb_false_r.
Qed.

Lemma sorted_ge (l : list Z) x : Sorted Z.le (x :: l) → Forall (fun y => x ≤ y) l.
Proof. intros Hs. apply Sorted_StronglySorted in Hs; [|intros ? ? ?; lia]. by inversion Hs. Qed.

(** The calls the current window can still let through. *)
Definition room (g : RateGate) : Z := Z.max 0 (per_minute g - count g).

Lemma room_nonneg g : 0 ≤ room g.
Proof. unfold room. lia. Qed.

(** One call. *)
Lemma allow_step now g :
  0 < per_minute g → 0 ≤ count g →
  (allow now g).2 =
    (if now - window_start g >=? window_length then {| per_minute := per_minute g; window_start := now; count := 1 |}
     else {| per_minute := per_minute g; window_start := window_start g; count := count g + 1 |}) ∧
  (if (allow now g).1 then 1 else 0) + room (allow now g).2 =
    (if now - window_start g >=? window_length then per_minute g else room g).
Proof.
  intros Hp Hc. unfold allow. replace (per_minute g <=? 0) with false by lia. cbv zeta.
  destruct (now - window_start g >=? window_length) eqn:E; cbn [per_minute window_start count fst snd]; (split; [done|]);
    unfold room; cbn [per_minute count]; destruct (_ <=? _) eqn:Hl; lia.
Qed.

(** From a window that starts within the minute, only its room is left. *)
Lemma gate_within t g readings :
  0 < per_minute g → 0 ≤ count g → t ≤ window_start g → Sorted Z.le readings →
  let_through t (gate_run g readings) ≤ room g.
Proof.
  revert g. induction readings as [|now readings IH]; intros g Hp Hc Ht Hs; [apply room_nonneg|].
  cbn [gate_run]. destruct (allow_step now g Hp Hc) as [Hg Hroom].
  destruct (allow now g) as [allowed g'] eqn:Ha. cbn [fst snd] in Hg, Hroom. rewrite let_through_cons.
  destruct (now - window_start g >=? window_length) eqn:E.
  - rewrite let_through_late.
    + replace (now <? t + window_length) with false by lia. rewrite andb_false_r. unfold room. lia.
    + eapply Forall_impl; [by apply sorted_ge|]. cbn. lia.
  - assert (let_through t (gate_run g' readings) ≤ room g') as IH'.
    { apply IH; subst g'; cbn; try lia. by inversion Hs. }
    destruct allowed; cbn [andb]; [destruct (_ && _); lia|lia].
Qed.

(** From any window, its room and one further window. *)
Lemma gate_two_windows t g readings :
  0 < per_minute g → 0 ≤ count g → Forall (fun now => t ≤ now) readings → Sorted Z.le readings →
  let_through t (gate_run g readings) ≤ room g + per_minute g.
Proof.
  revert g. induction readings as [|now readings IH]; intros g Hp Hc Ht Hs; [change (0 ≤ room g + per_minute g); pose proof (room_nonneg g); lia|].
  cbn [gate_run]. destruct (allow_step now g Hp Hc) as [Hg Hroom].
  destruct (allow now g) as [allowed g'] eqn:Ha. cbn [fst snd] in Hg, Hroom. rewrite let_through_cons.
  apply Forall_cons in Ht as [Hnow Ht]. assert (Sorted Z.le readings) as Hs' by (by inversion Hs).
  assert (0 ≤ room g) by (unfold room; lia).
  destruct (now - window_start g >=? window_length) eqn:E.
  - assert (let_through t (gate_run g' readings) ≤ room g') by (apply gate_within; subst g'; cbn; lia || done).
    destruct allowed; cbn [andb]; [destruct (_ && _); lia|lia].
  - assert (let_through t (gate_run g' readings) ≤ room g' + per_minute g') as IH' by (apply IH; subst g'; cbn; lia || done).
    assert (per_minute g' = per_minute g) by (by subst g').
    destruct allowed; cbn [andb]; [destruct (_ && _); lia|lia].
Qed.

(** C22: the backstop holds: however the calls fall, with a positive limit no
    minute lets more than twice the limit through; and a call that comes a
    full window after the current one began is let through. *)
Theorem rate_gate_bound limit readings t :
  0 < limit → Sorted Z.le readings →
  let_through t (gate_run (new_gate limit) readings) ≤ 2 * limit ∧
  ∀ g now, per_minute g = limit → window_start g + window_length ≤ now → (allow now g).1 = true.
Proof.
  intros Hl Hs. split.
  - assert (∀ g, per_minute g = limit → 0 ≤ count g → let_through t (gate_run g readings) ≤ 2 * limit) as Hgen; [|by apply Hgen].
    induction readings as [|now readings IH]; intros g Hp Hc; [change (0 ≤ 2 * limit); lia|].
    destruct (Z_lt_le_dec now t) as [Hlt|Hge].
    + cbn [gate_run]. destruct (allow_step now g ltac:(lia) Hc) as [Hg _]. destruct (allow now g) as [allowed g'] eqn:Ha.
      cbn [snd] in Hg. rewrite let_through_cons. replace (t <=? now) with false by lia. rewrite andb_false_r. cbn [andb].
      assert (let_through t (gate_run g' readings) ≤ 2 * limit); [|lia].
      apply IH; [by inversion Hs|subst g'; by case_match|subst g'; case_match; cbn; lia].
    + pose proof (gate_two_windows t g (now :: readings) ltac:(lia) Hc) as Hb.
      assert (room g ≤ limit) by (unfold room; lia).
      assert (let_through t (gate_run g (now :: readings)) ≤ room g + per_minute g); [|lia]. apply Hb; [|done].
      constructor; [done|]. eapply Forall_impl; [by apply sorted_ge|]. cbn. lia.
  - intros g now Hp Hn. unfold allow. replace (per_minute g <=? 0) with false by lia. cbv zeta.
    replace (now - window_start g >=? window_length) with true by lia. cbn. lia.
Qed.

(** The gate after some calls. *)
Definition gate_after (g : RateGate) (readings : list Z) : RateGate := fold_left (fun g now => (allow now g).2) readings g.

Lemma gate_run_app g readings readings' :
  gate_run g (readings ++ readings') = gate_run g readings ++ gate_run (gate_after g readings) readings'.
Proof.
  revert g. induction readings as [|now readings IH]; intros g; [done|]. cbn [gate_run app gate_after fold_left].
  destruct (allow now g) as [allowed g'] eqn:Ha. cbn [snd app]. by rewrite IH.
Qed.

Lemma gate_after_snoc g readings now : gate_after g (readings ++ [now]) = (allow now (gate_after g readings)).2.
Proof. unfold gate_after. by rewrite fold_left_app. Qed.

Lemma let_through_app t run run' : let_through t (run ++ run') = let_through t run + let_through t run'.
Proof. unfold let_through. by rewrite filter_app, zlen_app. Qed.

(** What the count stands for: calls let through since the window began, up to
    the limit; refused calls add nothing to the wait. *)
Lemma gate_count limit readings now :
  0 < limit → Sorted Z.le (0 :: readings ++ [now]) →
  let g := gate_after (new_gate limit) readings in
  per_minute g = limit ∧ 0 ≤ count g ∧ window_start g ≤ now ∧
  Z.min (count g) limit ≤ let_through (window_start g) (gate_run (new_gate limit) readings).
Proof.
  intros Hl. revert now. induction readings as [|x readings IH] using rev_ind; intros now Hs; cbv zeta.
  { apply sorted_ge in Hs. inversion Hs; subst. cbn [gate_after fold_left new_gate per_minute count window_start gate_run].
    split_and!; [lia..|]. change (let_through 0 []) with 0. lia. }
  apply Sorted_StronglySorted in Hs; [|intros ? ? ?; lia]. rewrite app_comm_cons in Hs.
  apply StronglySorted_app in Hs as (Hle & Hs & _). specialize (Hle x now ltac:(set_solver) ltac:(set_solver)).
  destruct (IH x) as (Hp & Hc & Hw & Hmin); [by apply StronglySorted_Sorted|].
  rewrite gate_after_snoc, gate_run_app, let_through_app. set (g := gate_after _ readings) in *.
  destruct (allow_step x g ltac:(lia) Hc) as [Hg _]. cbn [gate_run].
  destruct (allow x g) as [allowed g'] eqn:Ha. cbn [snd] in *. rewrite let_through_cons. change (let_through _ []) with 0.
  unfold allow in Ha. replace (per_minute g <=? 0) with false in Ha by lia. cbv zeta in Ha. injection Ha as Ha _.
  subst g'. destruct (_ >=? _) eqn:Hreset; cbn [per_minute count window_start] in *.
  - rewrite <- Ha. replace (0 + 1 <=? per_minute g) with true by lia. replace (x <=? x) with true by lia.
    replace (x <? x + window_length) with true by (unfold window_length; lia). cbn [andb]. split_and!; try lia.
    pose proof (zlen_nonneg (filter (fun call => call.2 = true ∧ x ≤ call.1 < x + window_length) (gate_run (new_gate limit) readings))).
    unfold let_through. lia.
  - replace (window_start g <=? x) with true by lia. replace (x <? window_start g + window_length) with true by lia.
    rewrite !andb_true_r. split_and!; try lia. destruct allowed; lia.
Qed.

(** C23: no call is refused but under load: when one is refused, the gate has
    let as many calls through as the limit allows in less than a minute before
    it, so refused calls never keep the gate closed. *)
Theorem rate_gate_live limit readings now :
  0 < limit → Sorted Z.le (0 :: readings ++ [now]) →
  last (gate_run (new_gate limit) (readings ++ [now])) = Some (now, false) →
  ∃ t, now - window_length < t ≤ now ∧ limit ≤ let_through t (gate_run (new_gate limit) readings).
Proof.
  intros Hl Hs Hrefused. destruct (gate_count limit readings now Hl Hs) as (Hp & Hc & Hw & Hmin).
  set (g := gate_after _ readings) in *. rewrite gate_run_app in Hrefused. fold g in Hrefused. cbn [gate_run] in Hrefused.
  destruct (allow now g) as [allowed g'] eqn:Ha. rewrite last_snoc in Hrefused. injection Hrefused as ->.
  unfold allow in Ha. replace (per_minute g <=? 0) with false in Ha by lia. cbv zeta in Ha. injection Ha as Ha _.
  exists (window_start g). destruct (_ >=? _) eqn:Hreset; cbn [per_minute count] in Ha; [lia|]. split; lia.
Qed.
