(* ===== verification/HostedRoutes.v ===== *)
(** * The two HTTP front ends of [hosted_profiles/hosted.py]

    The standard-library handler of [make_handler] and the ASGI application
    of [make_asgi_app], as functions from a request and the server's state to
    the response and the state after.  A page or script is named, not spelled
    out; socket and header writing is left out. *)

From stdpp Require Import gmap strings.
From S2P Require Import Prelude PyRuntime Sha256 Utf8 Cbor Json PyJson Base64 Crypto CoseSign1 Statement Receipt MachineMandate Aac Ritual Hosted.

(** The documents served. *)
Inductive script : Type := VERIFY_JS | AAC_CRYPTO_JS | CAPSULE_JS | MMR_JS | BUNDLE_JS | WITNESS_CHECK_JS | WITNESS_LIST_JS.
Inductive page : Type := landing_page | bundle_page (offline : bool) | capsule_page (capsule_id : string).

Inductive json_body : Type :=
| Healthy
| Service
| InstrumentationPolicy
| Anchor (status : AnchorStatus)
| NotFound (error : string)
| RateLimited
| TooLarge
| Verdict_of (v : Verdict).

Inductive response : Type :=
| SendJson (status : Z) (body : json_body)
| SendHtml (status : Z) (p : page)
| SendJs (status : Z) (s : script).

(** What outlives a request: the gate, the counters of the page views, and the
    number of verifications. *)
Record Server := { gate : RateGate; counters : Counters; request_count : Z }.

Definition set_gate (g : RateGate) (s : Server) : Server := {| gate := g; counters := counters s; request_count := request_count s |}.
Definition count_view (c : Counters) (s : Server) : Server := {| gate := gate s; counters := c; request_count := request_count s |}.
Definition count_request (s : Server) : Server := {| gate := gate s; counters := counters s; request_count := request_count s + 1 |}.

(** [path.rstrip("/")] *)
Definition rstrip_slash (path : string) : string := to_string (rstrip is_slash (of_string path)).

(** [path in (...)] and [path == "..."] *)
Definition one_of (path : string) (paths : list string) : bool := bool_decide (path ∈ paths).

Definition static_script (path : string) : option script :=
  if bool_decide (path = "/static/verify.js") then Some VERIFY_JS
  else if bool_decide (path = "/static/aac-crypto.js") then Some AAC_CRYPTO_JS
  else if bool_decide (path = "/static/capsule.js") then Some CAPSULE_JS
  else if bool_decide (path = "/static/mmr.js") then Some MMR_JS
  else if bool_decide (path = "/static/bundle.js") then Some BUNDLE_JS
  else if bool_decide (path = "/static/witness-check.js") then Some WITNESS_CHECK_JS
  else if bool_decide (path = "/static/witness-list.js") then Some WITNESS_LIST_JS
  else None.

Definition max_body : Z := 1000000.

(** [400 if verdict.get("bad_request") else 200] *)
Definition verdict_status (v : Verdict) : Z := match v with BadRequest _ => 400 | Verified _ _ _ _ => 200 end.

Section routes.
Context `{PyObjects} `{Sha256} `{Cbor} `{Crypto}.
Context (fetch : string → fetched).

(** ** The standard-library handler *)

(** [do_GET], with the values of the Accept and Referer headers or [""] *)
Definition do_GET (path accept referer : string) (s : Server) : response * Server :=
  if one_of (rstrip_slash path) ["/health"; "/healthz"] then (SendJson 200 Healthy, s)
  else
    match static_script path with
    | Some js => (SendJs 200 js, s)
    | None =>
        if bool_decide (rstrip_slash path = "/bundle") then (SendHtml 200 (bundle_page false), s)
        else if bool_decide (path = "/bundle/offline-shell") then (SendHtml 200 (bundle_page true), s)
        else if one_of (rstrip_slash path) [""; "/verify"] then
          (if contains "text/html" accept then SendHtml 200 landing_page else SendJson 200 Service, s)
        else if bool_decide (path = "/instrumentation-policy") then (SendJson 200 InstrumentationPolicy, s)
        else
          match _capsule_id_from_path path "v/" with
          | Some cid => (SendHtml 200 (capsule_page cid), count_view (_instrument_capsule_view referer (counters s)) s)
          | None =>
              match _capsule_id_from_path path "anchor-status/" with
              | Some cid => (SendJson 200 (Anchor (_anchor_proxy_json fetch cid)), s)
              | None => (SendJson 404 (NotFound "not found"), s)
              end
          end
    end.

(** [self.rfile.read(length)] of what the client sent; a negative length reads
    to the end. *)
Definition read (length : Z) (rfile : bytes) : bytes :=
  if length <? 0 then rfile else take (Z.to_nat length) rfile.

(** [do_POST] at the clock reading [now]; the Content-Length header, or
    [""] when it is absent *)
Definition do_POST (path content_length : string) (rfile : bytes) (now : Z) (s : Server) : result response * Server :=
  if negb (bool_decide (rstrip_slash path = "/verify")) then (Ok (SendJson 404 (NotFound "POST /verify")), s)
  else
    let '(allowed, g) := allow now (gate s) in
    let s := set_gate g s in
    if negb allowed then (Ok (SendJson 429 RateLimited), s)
    else
      match int_of_text (if bool_decide (content_length = "") then "0"%string else content_length) with
      | Raise e => (Raise e, s)
      | Ok length =>
          if length >? max_body then (Ok (SendJson 413 TooLarge), s)
          else
            let verdict := verify_request_bytes (read length rfile) in
            (Ok (SendJson (verdict_status verdict) (Verdict_of verdict)), count_request s)
      end.

(** ** The ASGI application *)

(** Lifespan messages, and what the application answers until shutdown. *)
Inductive lifespan : Type := Startup | Shutdown | OtherMessage.
Fixpoint drain (messages : list lifespan) : list lifespan * bool :=
  match messages with
  | [] => ([], false)
  | Startup :: messages => let '(sent, ended) := drain messages in (Startup :: sent, ended)
  | Shutdown :: _ => ([Shutdown], true)
  | OtherMessage :: messages => drain messages
  end.

(** The loop that reads the body; [None] while the client has not sent all
    of it. *)
Inductive body_read : Type := Complete (body : bytes) | Oversized.
Fixpoint read_body (body : bytes) (messages : list (bytes * bool)) : option body_read :=
  match messages with
  | [] => None
  | (chunk, more_body) :: messages =>
      let body := body ++ chunk in
      if zlen body >? max_body then Some Oversized else if more_body then read_body body messages else Some (Complete body)
  end.

Record Scope := { method : string; scope_path : string; root_path : string; headers : list (string * string) }.

(** The path without the mount prefix and trailing slashes. *)
Definition app_path (scope : Scope) : string :=
  let path := scope_path scope in
  let root := root_path scope in
  let path := if negb (bool_decide (root = "")) && String.prefix root path
              then String.substring (String.length root) (String.length path) path else path in
  let path := rstrip_slash path in
  if bool_decide (path = "") then "/" else path.

Definition _accepts_html (scope : Scope) : bool :=
  existsb (fun nv => bool_decide (nv.1 = "accept") && contains "text/html" nv.2) (headers scope).

(** The last Referer header; the text of an undecodable one is an argument. *)
Definition referer_of (decode : string → string) (scope : Scope) : string :=
  fold_left (fun referer nv => if bool_decide (nv.1 = "referer") then decode nv.2 else referer) (headers scope) "".

(** One HTTP request to [app] at the clock reading [now]; [None] while it
    waits for the rest of the body. *)
Definition app (decode : string → string) (scope : Scope) (messages : list (bytes * bool)) (now : Z) (s : Server) :
    option response * Server :=
  let path := app_path scope in
  let get := bool_decide (method scope = "GET") in
  if get && one_of path ["/health"; "/healthz"] then (Some (SendJson 200 Healthy), s)
  else
    match (if get then static_script path else None) with
    | Some js => (Some (SendJs 200 js), s)
    | None =>
        if get && bool_decide (path = "/bundle") then (Some (SendHtml 200 (bundle_page false)), s)
        else if get && bool_decide (path = "/bundle/offline-shell") then (Some (SendHtml 200 (bundle_page true)), s)
        else if get && one_of path ["/"; "/verify"] then
          (Some (if _accepts_html scope then SendHtml 200 landing_page else SendJson 200 Service), s)
        else if get && bool_decide (path = "/instrumentation-policy") then (Some (SendJson 200 InstrumentationPolicy), s)
        else
          match (if get then _capsule_id_from_path path "v/" else None) with
          | Some cid =>
              (Some (SendHtml 200 (capsule_page cid)), count_view (_instrument_capsule_view (referer_of decode scope) (counters s)) s)
          | None =>
              match (if get then _capsule_id_from_path path "anchor-status/" else None) with
              | Some cid => (Some (SendJson 200 (Anchor (_anchor_proxy_json fetch cid))), s)
              | None =>
                  if negb (bool_decide (method scope = "POST")) || negb (bool_decide (path = "/verify"))
                  then (Some (SendJson 404 (NotFound "POST /verify")), s)
                  else
                    let '(allowed, g) := allow now (gate s) in
                    let s := set_gate g s in
                    if negb allowed then (Some (SendJson 429 RateLimited), s)
                    else
                      match read_body [] messages with
                      | None => (None, s)
                      | Some Oversized => (Some (SendJson 413 TooLarge), s)
                      | Some (Complete body) =>
                          let verdict := verify_request_bytes body in
                          (Some (SendJson (verdict_status verdict) (Verdict_of verdict)), s)
                      end
              end
          end
    end.
End routes.
