(* ===== verification/HostedRoutesProof.v ===== *)
(** * The two front ends agree, and the anchor proxy

    The ASGI application answers as the standard-library handler does on the
    path without its trailing slashes, the rate gate included; the anchor
    proxy's verdict is about the entry the anchor names. *)

From stdpp Require Import gmap strings.
From S2P Require Import Prelude PyRuntime Sha256 Utf8 Cbor CborInstance Json PyJson JsonProof Base64 Crypto CoseSign1 Statement Receipt ReceiptProof MachineMandate Aac Ritual Hosted HostedProof HostedRoutes.

(** ** Paths *)

Lemma drop_while_idem {A} (f : A → bool) l : drop_while f (drop_while f l) = drop_while f l.
Proof. induction l as [|x l IH]; cbn; [done|]. destruct (f x) eqn:E; [done|]. cbn. by rewrite E. Qed.

Lemma rstrip_idem {A} (f : A → bool) l : rstrip f (rstrip f l) = rstrip f l.
Proof. unfold rstrip. by rewrite reverse_involutive, drop_while_idem. Qed.

(** The path the application routes on when it is not mounted. *)
Definition normal_path (path : string) : string :=
  if bool_decide (rstrip_slash path = "") then "/"%string else rstrip_slash path.

Lemma rstrip_normal path :
  (normal_path path = "/"%string ∧ rstrip_slash (normal_path path) = ""%string) ∨
  (normal_path path ≠ "/"%string ∧ normal_path path ≠ ""%string ∧ rstrip_slash (normal_path path) = normal_path path).
Proof.
  unfold normal_path. case_bool_decide as E; [by left|right].
  assert (rstrip_slash (rstrip_slash path) = rstrip_slash path) as Hi.
  { unfold rstrip_slash. by rewrite of_to_string, rstrip_idem. }
  split_and!; [|done|done]. intros E'. rewrite E' in Hi. by vm_compute in Hi.
Qed.

Lemma one_of_normal path x y :
  x ≠ ""%string → y ≠ ""%string → x ≠ "/"%string → y ≠ "/"%string →
  one_of (rstrip_slash (normal_path path)) [x; y] = one_of (normal_path path) [x; y].
Proof.
  intros ????. destruct (rstrip_normal path) as [[Hn Hr]|(_ & _ & ->)]; [|done]. rewrite Hr, Hn.
  unfold one_of. rewrite !bool_decide_eq_false_2; [done|..]; intros [?|[?|[]%elem_of_nil]%elem_of_cons]%elem_of_cons; congruence.
Qed.

Lemma eq_normal path x :
  x ≠ ""%string → x ≠ "/"%string → bool_decide (rstrip_slash (normal_path path) = x) = bool_decide (normal_path path = x).
Proof.
  intros ??. destruct (rstrip_normal path) as [[Hn Hr]|(_ & _ & ->)]; [|done]. rewrite Hr, Hn.
  rewrite !bool_decide_eq_false_2; congruence.
Qed.

Lemma home_normal path :
  one_of (rstrip_slash (normal_path path)) [""; "/verify"]%string = one_of (normal_path path) ["/"; "/verify"]%string.
Proof.
  destruct (rstrip_normal path) as [[Hn Hr]|(H1 & H2 & Hr)]; rewrite Hr; [by rewrite Hn|].
  unfold one_of. apply bool_decide_ext. rewrite !elem_of_cons, elem_of_nil. naive_solver.
Qed.

Section routes.
Context `{PyObjects} `{Sha256} `{Cbor} `{Crypto}.
Context (fetch : string → fetched) (decode : string → string).

Lemma app_path_root scope : root_path scope = ""%string → app_path scope = normal_path (scope_path scope).
Proof. intros Hr. unfold app_path, normal_path. by rewrite Hr. Qed.

(** The one body that differs: an unknown path. *)
Definition as_app (r : response) : response :=
  match r with SendJson 404 _ => SendJson 404 (NotFound "POST /verify") | r => r end.

(** C21: the two front ends agree, where the application is mounted at the
    root ([root_path] is empty) and its test of the [Accept] header comes out
    as the handler's. On a GET the application answers what the
    handler answers on the path without trailing slashes, with the same
    counters after, but for the text of the 404; on a POST of a complete body
    whose length is announced, both give the same response, leave the same
    rate gate and the same counters. *)
Theorem asgi_mirrors_handler scope messages accept content_length body now s :
  root_path scope = ""%string → _accepts_html scope = contains "text/html" accept →
  (method scope = "GET"%string →
     app fetch decode scope messages now s =
       (Some (as_app (do_GET fetch (normal_path (scope_path scope)) accept (referer_of decode scope) s).1),
        (do_GET fetch (normal_path (scope_path scope)) accept (referer_of decode scope) s).2)) ∧
  (method scope = "POST"%string → content_length ≠ ""%string → int_of_text content_length = Ok (zlen body) →
     (read_body [] messages = Some (Complete body) ∧ zlen body ≤ max_body ∨
      read_body [] messages = Some Oversized ∧ zlen body > max_body) →
     ∃ r s1 s2, do_POST (scope_path scope) content_length body now s = (Ok r, s1) ∧
       app fetch decode scope messages now s = (Some r, s2) ∧ gate s1 = gate s2 ∧ counters s1 = counters s2).
Proof.
  intros Hroot Haccept. unfold app. rewrite (app_path_root _ Hroot). set (p := normal_path (scope_path scope)). split.
  - intros Hm. rewrite Hm, bool_decide_eq_true_2 by done. cbn [andb negb orb]. unfold do_GET.
    assert (one_of (rstrip_slash p) ["/health"; "/healthz"]%string = one_of p ["/health"; "/healthz"]%string) as -> by (by apply one_of_normal).
    assert (bool_decide (rstrip_slash p = "/bundle"%string) = bool_decide (p = "/bundle"%string)) as -> by (by apply eq_normal).
    assert (one_of (rstrip_slash p) [""; "/verify"]%string = one_of p ["/"; "/verify"]%string) as -> by apply home_normal.
    rewrite Haccept.
    destruct (one_of p _); [done|]. destruct (static_script p); [done|]. destruct (bool_decide _); [done|].
    destruct (bool_decide _); [done|]. destruct (one_of p _); [by destruct (contains _ _)|]. destruct (bool_decide _); [done|].
    destruct (_capsule_id_from_path p "v/"); [done|]. by destruct (_capsule_id_from_path p "anchor-status/").
  - intros Hm Hcl Hlen Hbody. rewrite Hm, bool_decide_eq_false_2 by done. cbn [andb negb orb].
    rewrite (bool_decide_eq_true_2 ("POST" = "POST")%string) by done. cbn [negb orb]. unfold do_POST.
    assert (bool_decide (rstrip_slash (scope_path scope) = "/verify"%string) = bool_decide (p = "/verify"%string)) as ->.
    { unfold p, normal_path. destruct (bool_decide (rstrip_slash (scope_path scope) = ""%string)) eqn:E; [|done].
      apply bool_decide_eq_true_1 in E. rewrite E. by rewrite !bool_decide_eq_false_2. }
    destruct (bool_decide (p = "/verify"%string)); cbn [negb]; [|by eexists _, _, _].
    destruct (allow now (gate s)) as [allowed g]. destruct allowed; cbn [negb]; [|by eexists _, _, _].
    rewrite bool_decide_eq_false_2, Hlen by done. destruct Hbody as [[-> Hmax]|[-> Hmax]].
    + replace (zlen body >? max_body) with false by lia. unfold read. replace (zlen body <? 0) with false by (pose proof (zlen_nonneg body); lia).
      rewrite take_ge by (unfold zlen; lia). by eexists _, _, _.
    + replace (zlen body >? max_body) with true by lia. by eexists _, _, _.
Qed.

(** ** The anchor proxy *)

(** The receipt check succeeds on three texts: a key of 64 characters, a
    receipt and a leaf. *)
Lemma anchor_receipt_checked pubkey_data receipt_b64 entry_hash r :
  check_anchor_receipt pubkey_data receipt_b64 entry_hash = Ok (Some r) ∧ ok r = true ↔
  ∃ pubkey key b64 leaf pem octets,
    pubkey_data = JObj pubkey ∧ get_or pubkey "pubkey_hex" (JStr "") = JStr key ∧
    receipt_b64 = JStr b64 ∧ entry_hash = JStr leaf ∧
    zlen (utf8_codes (of_string key)) = 64 ∧ _ed25519_hex_to_pem key = Ok pem ∧
    b64decode (utf8_codes (of_string b64) ++ [61; 61]) = Ok octets ∧
    verify_receipt octets leaf (PemBytes (of_string pem)) = Ok r ∧ ok r = true.
Proof.
  unfold check_anchor_receipt. split.
  - intros [Hc Hok]. destruct pubkey_data as [| | | | | |pubkey]; try done. cbn [py_get mbind outcome_bind] in Hc.
    apply bind_ok in Hc as (n & Hn & Hc). destruct (Z.eqb_spec n 64) as [->|]; [|done].
    destruct (get_or pubkey "pubkey_hex" (JStr "")) as [| | | |key| |] eqn:Hk; try done. injection Hn as Hn.
    apply bind_ok in Hc as (pem & Hp & Hc). apply bind_ok in Hc as (octets & Ho & Hc). apply bind_ok in Hc as (r' & Hv & [= ->]).
    destruct receipt_b64 as [| | | |b64| |]; try done.
    apply leaf_verdict in Hv as [_ Hv]. destruct (Hv Hok) as (leaf & -> & Hr).
    by exists pubkey, key, b64, leaf, pem, octets.
  - intros (pubkey & key & b64 & leaf & pem & octets & -> & Hk & -> & -> & Hn & Hp & Ho & Hr & Hok). split; [|done].
    cbn [py_get mbind outcome_bind]. rewrite Hk. cbn [py_len mbind outcome_bind]. rewrite Hn. cbn [Z.eqb Pos.eqb].
    rewrite Hp. cbn [mbind outcome_bind]. rewrite Ho. cbn [mbind outcome_bind verify_leaf]. by rewrite Hr.
Qed.

(** The same status reported for another capsule id. *)
Definition reported_for (capsule_id : string) (st : AnchorStatus) : AnchorStatus :=
  {| status_capsule_id := capsule_id; anchored := anchored st; receipt_verified := receipt_verified st;
     log_index := log_index st; status_leaf_index := status_leaf_index st; status_tree_size := status_tree_size st;
     error := error st; rung := rung st; receipt_errors := receipt_errors st;
     receipt_verify_error := receipt_verify_error st |}.

(** C31: [receipt_verified] is set exactly when the anchor's answer for the
    capsule is an object whose [visibility] can be looked up, whose non-empty
    [receipt_b64] decodes to a receipt that verifies, for its non-empty
    [entry_hash] as the leaf, under the Ed25519 key that the 64
    characters of hexadecimal text in [pubkey_hex] of the anchor's key answer
    spell out. Nothing ties that
    entry to the capsule: two capsule ids to which the anchor gives the same
    answer have the same status, field by field, but for the id itself. *)
Theorem anchor_proxy_verified capsule_id :
  (receipt_verified (_anchor_proxy_json fetch capsule_id) = true ↔
   ∃ inclusion rung pubkey key b64 leaf pem octets r,
     fetch (anchor_base +:+ "/v1/inclusion/" +:+ capsule_id)%string = Fetched (JObj inclusion) ∧
     rung_of (get inclusion "visibility") = Ok rung ∧
     get_or inclusion "receipt_b64" (JStr "") = JStr b64 ∧ b64 ≠ ""%string ∧
     get_or inclusion "entry_hash" (JStr "") = JStr leaf ∧ leaf ≠ ""%string ∧
     fetch (anchor_base +:+ "/anchor/authority-pubkey")%string = Fetched (JObj pubkey) ∧
     get_or pubkey "pubkey_hex" (JStr "") = JStr key ∧ zlen (utf8_codes (of_string key)) = 64 ∧
     _ed25519_hex_to_pem key = Ok pem ∧ b64decode (utf8_codes (of_string b64) ++ [61; 61]) = Ok octets ∧
     verify_receipt octets leaf (PemBytes (of_string pem)) = Ok r ∧ ok r = true) ∧
  ∀ other, fetch (anchor_base +:+ "/v1/inclusion/" +:+ other)%string = fetch (anchor_base +:+ "/v1/inclusion/" +:+ capsule_id)%string →
    _anchor_proxy_json fetch other = reported_for other (_anchor_proxy_json fetch capsule_id).
Proof.
  assert (∀ s, json_truthy (JStr s) = true ↔ s ≠ ""%string) as Htext.
  { intros s. cbn. by rewrite negb_true_iff, bool_decide_eq_false. }
  split; [split|].
  - unfold _anchor_proxy_json. destruct (fetch (_ +:+ "/v1/inclusion/" +:+ _)%string) as [[| | | | | |inclusion]|code|] eqn:Ef; try done;
      [|by destruct (code =? 404)].
    destruct (rung_of _) as [rg|] eqn:Erg; [|done]. destruct (_ && _) eqn:Etr; [|done].
    destruct (fetch (anchor_base +:+ "/anchor/authority-pubkey")%string) as [pk| |] eqn:Ek; try done.
    destruct (check_anchor_receipt _ _ _) as [[vr|]|] eqn:Ec; try done. cbn. intros Hok.
    destruct (proj1 (anchor_receipt_checked _ _ _ _) (conj Ec Hok))
      as (pubkey & key & b64 & leaf & pem & octets & -> & Hk & Hb & Hl & Hn & Hp & Ho & Hr & _).
    rewrite Hb, Hl in Etr. apply andb_prop in Etr as [Htb%Htext Htl%Htext].
    by exists inclusion, rg, pubkey, key, b64, leaf, pem, octets, vr.
  - intros (inclusion & rg & pubkey & key & b64 & leaf & pem & octets & r & Ef & Erg & Hb & Htb & Hl & Htl & Ek & Hk & Hn & Hp & Ho & Hr & Hok).
    unfold _anchor_proxy_json. rewrite Ef, Erg, Hb, Hl, Ek, (proj2 (Htext _) Htb), (proj2 (Htext _) Htl). cbn [andb].
    destruct (proj2 (anchor_receipt_checked (JObj pubkey) (JStr b64) (JStr leaf) r)) as [-> _]; [|done].
    by exists pubkey, key, b64, leaf, pem, octets.
  - intros other E. unfold _anchor_proxy_json. rewrite E.
    destruct (fetch (_ +:+ "/v1/inclusion/" +:+ capsule_id)%string) as [[| | | | | |inclusion]|code|]; try done; [|by destruct (code =? 404)].
    destruct (rung_of _) as [rg|]; [|done]. destruct (_ && _); [|done].
    destruct (fetch (anchor_base +:+ "/anchor/authority-pubkey")%string) as [pk| |]; try done.
    by destruct (check_anchor_receipt _ _ _) as [[vr|]|].
Qed.
End routes.
