(* ===== verification/Checkpoint.v ===== *)
(** * Checkpoints: the orchestration of [scitt_cose/cll.py]

    The checkpoint record with its canonical signing body and digests, the
    status line, and the three verifiers that bind a leaf, a chain and a range
    to a checkpoint.  A field whose annotation is [str] holds whatever JSON
    value the dict had, as in the source.  Definitions only; [CheckpointProof]
    proves what they promise. *)

From S2P Require Import Prelude PyRuntime Sha256 EncodingRule Cbor Json PyJson Mmr MmrWire Crypto CoseSign1 Receipt.

Module Checkpoint.
Record t := {
  v : Z; kind : json; log_id : json; mmr_size : Z; root : json; prev_size : Z; prev_root : json;
  key_id : json; timestamp : json; signature : json }.
End Checkpoint.

Section checkpoint.
Context `{PyObjects} `{Sha256}.

Definition checkpoint_from_dict (d : object) : result Checkpoint.t :=
  v ← int_field d "v";
  kind ← index d "kind";
  log_id ← index d "log_id";
  mmr_size ← int_field d "mmr_size";
  root ← index d "root";
  prev_size ← int_field d "prev_size";
  let prev_root := get_or d "prev_root" (JStr "") in
  key_id ← index d "key_id";
  timestamp ← index d "timestamp";
  let signature := get_or d "signature" (JStr "") in
  Ok (Checkpoint.Build_t v kind log_id mmr_size root prev_size prev_root key_id timestamp signature).

(** The dict [body] of [signing_body]. *)
Definition body_of (c : Checkpoint.t) : object :=
  [("v", JInt (Checkpoint.v c)); ("kind", Checkpoint.kind c); ("log_id", Checkpoint.log_id c);
   ("mmr_size", JInt (Checkpoint.mmr_size c)); ("root", Checkpoint.root c);
   ("prev_size", JInt (Checkpoint.prev_size c)); ("prev_root", Checkpoint.prev_root c);
   ("key_id", Checkpoint.key_id c); ("timestamp", Checkpoint.timestamp c)].

Definition signing_body (c : Checkpoint.t) : bytes := json_dumps (JObj (body_of c)).

Definition digest (c : Checkpoint.t) : string := hex (sha256 (signing_body c)).

Definition ts_entry_hash (c : Checkpoint.t) : result string := d ← fromhex (digest c); Ok (hex (sha256 d)).

(** [bytes.fromhex(v)] *)
Definition fromhex_value (v : json) : result bytes := match v with JStr s => fromhex s | _ => Raise TypeError end.

Definition root_bytes (c : Checkpoint.t) : result bytes := fromhex_value (Checkpoint.root c).

Definition prev_root_bytes (c : Checkpoint.t) : result bytes :=
  if negb (json_truthy (Checkpoint.prev_root c))
  then Raise (invalid "checkpoint has no prev_root (it is the first checkpoint)" [])
  else fromhex_value (Checkpoint.prev_root c).

Definition witness_status_line (mmr_size : Z) (timestamp : json) (current_size : option Z) : string :=
  let line := ("witnessed up to size " +:+ int_str mmr_size +:+ " at time " +:+ py_str timestamp)%string in
  match current_size with
  | Some current_size =>
      if current_size >? mmr_size then
        let lag := current_size - mmr_size in
        (line +:+ " -- " +:+ int_str lag +:+ " more entr" +:+ (if (lag =? 1)%Z then "y" else "ies") +:+ " appended since, not yet witnessed")%string
      else line
  | None => line
  end.

Record InclusionVerification := {
  inclusion_ok : bool; inclusion_status : string; receipt_result : option ReceiptResult; inclusion_errors : list msg }.

Record ConsistencyVerification := { chain_ok : bool; chain_status : string; chain_errors : list msg }.

Record RangeVerification := { range_ok : bool; range_status : string; scope_note : string; range_errors : list msg }.

(** [f"checkpoint root is not valid hex: {exc}"] *)
Definition bad_root (exc : exn) : msg := Msg "checkpoint root is not valid hex: {exc}" [AMsg (exn_msg exc)].

Definition verify_checkpoint_chain (older newer : Checkpoint.t) (proof : option ConsistencyProof.t)
    (current_size : option Z) : ConsistencyVerification :=
  let stop e := {| chain_ok := false; chain_status := ""; chain_errors := [e] |} in
  let size_a := Checkpoint.mmr_size older in
  let size_b := Checkpoint.mmr_size newer in
  if negb (json_eq (Checkpoint.log_id older) (Checkpoint.log_id newer))
  then stop (Msg "log_id mismatch: {older.log_id!r} vs {newer.log_id!r}"
         [AStr (json_repr (Checkpoint.log_id older)); AStr (json_repr (Checkpoint.log_id newer))])
  else if size_b <? size_a
  then stop (Msg "newer checkpoint size {newer.mmr_size} < older size {older.mmr_size} -- rollback" [AInt size_b; AInt size_a])
  else
    match root_bytes older with
    | Raise exc => stop (bad_root exc)
    | Ok root_a =>
        match root_bytes newer with
        | Raise exc => stop (bad_root exc)
        | Ok root_b =>
            let ok := Mmr.verify_consistency root_a size_a root_b size_b proof in
            {| chain_ok := ok;
               chain_status := witness_status_line size_b (Checkpoint.timestamp newer) current_size;
               chain_errors := if ok then [] else
                 [Msg "consistency proof does not link size {older.mmr_size} to size {newer.mmr_size} -- log may have been rolled back or forked"
                    [AInt size_a; AInt size_b]] |}
        end
    end.

Definition verify_range_against_checkpoint (from_seq to_seq : Z) (body_digests : list bytes) (checkpoint : Checkpoint.t)
    (proof : option RangeProof.t) (current_size : option Z) : RangeVerification :=
  match root_bytes checkpoint with
  | Raise exc => {| range_ok := false; range_status := ""; scope_note := ""; range_errors := [bad_root exc] |}
  | Ok root =>
      let ok := verify_range root from_seq to_seq body_digests proof in
      {| range_ok := ok;
         range_status := witness_status_line (Checkpoint.mmr_size checkpoint) (Checkpoint.timestamp checkpoint) current_size;
         scope_note := ("records " +:+ int_str from_seq +:+ "–" +:+ int_str to_seq
           +:+ " are present, unaltered, and bound to this checkpoint -- this does not show that no other records exist (range-intact != all-traffic)")%string;
         range_errors := if ok then [] else
           [Msg "range proof for [{from_seq}, {to_seq}] does not verify against checkpoint root at size {checkpoint.mmr_size}"
              [AInt from_seq; AInt to_seq; AInt (Checkpoint.mmr_size checkpoint)]] |}
  end.

Context `{Cbor} `{Crypto}.

Definition verify_leaf_against_checkpoint (body_digest : bytes) (leaf_index : Z) (checkpoint : Checkpoint.t)
    (proof : option InclusionProof.t) (receipt : option bytes) (ts_public_key_pem : option PemLike)
    (current_size : option Z) : result InclusionVerification :=
  let size := Checkpoint.mmr_size checkpoint in
  match root_bytes checkpoint with
  | Raise exc =>
      Ok {| inclusion_ok := false; inclusion_status := ""; receipt_result := None; inclusion_errors := [bad_root exc] |}
  | Ok root =>
      let inclusion_ok := Mmr.verify_inclusion root size leaf_index body_digest proof in
      let errors := if inclusion_ok then [] else
        [Msg "inclusion proof does not reconstruct checkpoint root at size {checkpoint.mmr_size}" [AInt size]] in
      '(receipt_ok, rr, errors) ← (
        match receipt with
        | None => Ok (true, None, errors)
        | Some receipt =>
            match ts_public_key_pem with
            | None => Ok (false, None, errors ++ [text "receipt supplied without ts_public_key_pem"])
            | Some ts_public_key_pem =>
                leaf_entry_hex ← ts_entry_hash checkpoint;
                rr ← verify_receipt receipt leaf_entry_hex ts_public_key_pem;
                Ok (ok rr, Some rr,
                    if ok rr then errors
                    else errors ++ ((fun e => Msg "checkpoint receipt: {e}" [AMsg e]) <$> Receipt.errors rr))
            end
        end);
      Ok {| inclusion_ok := inclusion_ok && receipt_ok;
            inclusion_status := witness_status_line size (Checkpoint.timestamp checkpoint) current_size;
            receipt_result := rr; inclusion_errors := errors |}
  end.
End checkpoint.
