(* ===== verification/CheckpointProof.v ===== *)
(** * Checkpoints: what an accepted verification shows

    The digest that is registered with a Transparency Service fixes the
    checkpoint it was made of, and the three verifiers of [Checkpoint] carry
    the guarantees of the MMR proofs and of the receipt over to the log the
    checkpoint commits to. *)

From S2P Require Import Prelude PyRuntime Sha256 MerkleTree EncodingRule EncodingRuleProof Utf8 Cbor CborInstance Json PyJson JsonProof Mmr MmrShape MmrTree MmrInclusion MmrConsistency MmrRange MmrWire Crypto CoseSign1 CoseSign1Proof Receipt ReceiptProof Checkpoint.

#[local] Set Default Proof Using "All".

(** A checkpoint whose annotated [str] fields hold text. *)
Definition is_valid_text (v : json) : Prop := ∃ s, v = JStr s ∧ text_ok s.

Record text_fields (c : Checkpoint.t) : Prop := {
  kind_text : is_valid_text (Checkpoint.kind c);
  log_id_text : is_valid_text (Checkpoint.log_id c);
  root_text : is_valid_text (Checkpoint.root c);
  prev_root_text : is_valid_text (Checkpoint.prev_root c);
  key_id_text : is_valid_text (Checkpoint.key_id c);
  timestamp_text : is_valid_text (Checkpoint.timestamp c) }.

Section digest.
Context `{Sha256}.

Lemma body_ok c : text_fields c → json_ok (JObj (body_of c)).
Proof.
  intros [(? & E1 & ?) (? & E2 & ?) (? & E3 & ?) (? & E4 & ?) (? & E5 & ?) (? & E6 & ?)].
  cbn. rewrite E1, E2, E3, E4, E5, E6. by vm_compute.
Qed.

(** The signing body is an encoding of every field but the signature. *)
Lemma signing_body_inj c c' : text_fields c → text_fields c' → signing_body c = signing_body c' → body_of c = body_of c'.
Proof.
  intros Hc Hc' E%json_dumps_inj; [|by apply body_ok..]. revert E.
  destruct Hc as [(? & E1 & ?) (? & E2 & ?) (? & E3 & ?) (? & E4 & ?) (? & E5 & ?) (? & E6 & ?)],
    Hc' as [(? & F1 & ?) (? & F2 & ?) (? & F3 & ?) (? & F4 & ?) (? & F5 & ?) (? & F6 & ?)].
  unfold body_of. rewrite E1, E2, E3, E4, E5, E6, F1, F2, F3, F4, F5, F6. cbn. by intros [= -> -> -> -> -> -> -> -> ->].
Qed.

(** C16: the digest registered with the Transparency Service fixes the
    checkpoint: two checkpoints with the same [digest] agree on every field
    but the signature, and so do two with the same [ts_entry_hash], up to a
    SHA-256 collision among the signing bodies and their digests. *)
Theorem checkpoint_digest_binds c c' :
  text_fields c → text_fields c' →
  (digest c = digest c' ∨ ts_entry_hash c = ts_entry_hash c') →
  body_of c = body_of c' ∨
  collision [signing_body c; signing_body c'; sha256 (signing_body c); sha256 (signing_body c')].
Proof.
  intros Hc Hc' E. set (S := [_; _; _; _]).
  assert (sha256 (signing_body c) = sha256 (signing_body c') ∨ collision S) as [E'|]; [|..|by right].
  - destruct E as [E|E]; unfold ts_entry_hash, digest in E; [left; by apply hex_inj|].
    rewrite !fromhex_hex in E. injection E as E%hex_inj. apply (sha256_eq S) in E; [done|set_solver..].
  - apply (sha256_eq S) in E' as [E'|]; [left; by apply signing_body_inj|by right|set_solver..].
Qed.
End digest.

(** ** The verifiers *)

Section verifiers.
Context `{PyObjects} `{Sha256}.

(** The checkpoint commits to the log of the body digests [ds]. *)
Definition commits (c : Checkpoint.t) (ds : list bytes) : Prop :=
  root_bytes c = Ok (mmr_root ds) ∧ Checkpoint.mmr_size c = nodes (zlen ds).

Lemma commits_root c ds : commits c ds → root_bytes c = Ok (mmr_root ds).
Proof. by intros []. Qed.

(** What an accepted chain step establishes. *)
Lemma verify_chain_ok older newer ds proof current :
  commits newer ds → chain_ok (verify_checkpoint_chain older newer (Some proof) current) = true →
  json_eq (Checkpoint.log_id older) (Checkpoint.log_id newer) = true ∧
  ∃ f root_a, 0 ≤ f ≤ zlen ds ∧ Checkpoint.mmr_size older = nodes f ∧ root_bytes older = Ok root_a ∧
    (root_a = mmr_root (take (Z.to_nat f) ds) ∨
     collision (consistency_inputs (Checkpoint.mmr_size older) (nodes (zlen ds)) proof ++ mmr_inputs ds)).
Proof.
  intros Hn. unfold verify_checkpoint_chain. rewrite (commits_root _ _ Hn). destruct Hn as [_ ->].
  destruct (json_eq _ _); [|done]. cbn [negb]. destruct (_ <? _); [done|].
  destruct (root_bytes older) as [root_a|] eqn:Ha; [|done]. cbn. intros Hok%consistency_extends.
  destruct Hok as (f & ? & ? & ?). split; [done|]. by exists f, root_a.
Qed.

(** An accepted chain step from [older] to a checkpoint of the log [ds]
    has the same log id, is no rollback, and [older] commits to a prefix of
    [ds], up to a collision: there is no fork. *)
Theorem checkpoint_chain_extends (older newer : Checkpoint.t) (ds : list bytes) proof current :
  commits newer ds → chain_ok (verify_checkpoint_chain older newer (Some proof) current) = true →
  json_eq (Checkpoint.log_id older) (Checkpoint.log_id newer) = true ∧
  ∃ f root_a, 0 ≤ f ≤ zlen ds ∧ Checkpoint.mmr_size older = nodes f ∧ root_bytes older = Ok root_a ∧
    (root_a = mmr_root (take (Z.to_nat f) ds) ∨
     collision (consistency_inputs (Checkpoint.mmr_size older) (nodes (zlen ds)) proof ++ mmr_inputs ds)).
Proof. apply verify_chain_ok. Qed.

(** An accepted range whose proof states the checkpoint's own size carries
    exactly the last records of the log, from [from_seq] on, up to a
    collision. *)
Theorem checkpoint_range_carries (c : Checkpoint.t) (ds : list bytes) a b bodies proof current :
  commits c ds → RangeProof.size proof = Checkpoint.mmr_size c →
  range_ok (verify_range_against_checkpoint a b bodies c (Some proof) current) = true →
  1 ≤ a ≤ b ∧ b = zlen ds ∧
  (bodies = drop (Z.to_nat (a - 1)) ds ∨ collision (range_inputs bodies proof ++ mmr_inputs ds)).
Proof.
  intros Hc Hsz. unfold verify_range_against_checkpoint. rewrite (commits_root _ _ Hc). destruct Hc as [_ Hm].
  intros Hok. apply range_carries; [exact Hok|congruence].
Qed.

(** The checkpoint's [mmr_size] is not compared with the size a range
    proof states: against a checkpoint of a log of three records, its third
    record is accepted as the fifth record of a log of five. *)
Theorem checkpoint_range_unbound (c : Checkpoint.t) x y z current :
  Forall (fun d => length d = 32%nat) [x; y; z] → commits c [x; y; z] →
  Checkpoint.mmr_size c = 4 ∧
  range_ok (verify_range_against_checkpoint 5 5 [z] c (Some (shifted_range x y z)) current) = true.
Proof.
  intros Hd Hc. unfold verify_range_against_checkpoint. rewrite (commits_root _ _ Hc). destruct Hc as [_ ->].
  split; [done|]. by apply verify_range_shifted.
Qed.

Context `{Cbor} `{Crypto}.

(** What an accepted leaf establishes. *)
Lemma verify_leaf_ok body i c proof receipt pem current r :
  verify_leaf_against_checkpoint body i c proof receipt pem current = Ok r → inclusion_ok r = true →
  (∃ root, root_bytes c = Ok root ∧ verify_inclusion root (Checkpoint.mmr_size c) i body proof = true) ∧
  ∀ octets, receipt = Some octets → ∃ key rr,
    pem = Some key ∧ verify_receipt octets (hex (sha256 (sha256 (signing_body c)))) key = Ok rr ∧ ok rr = true.
Proof.
  unfold verify_leaf_against_checkpoint. destruct (root_bytes c) as [root|]; [|by intros [= <-]].
  intros ([[receipt_ok rr] errors] & Hr & [= <-])%bind_ok. cbn. intros [Hinc Hok]%andb_prop.
  split; [by exists root|]. intros octets ->. destruct pem as [key|]; [|congruence].
  unfold ts_entry_hash, digest in Hr. rewrite fromhex_hex in Hr.
  apply bind_ok in Hr as (h & [= <-] & Hr). apply bind_ok in Hr as (rr' & Hv & [= <- _ _]). by exists key, rr'.
Qed.

(** C14: an accepted leaf of a checkpoint that commits to the log [ds] is
    record [leaf_index] of [ds], up to a collision; when a receipt was
    supplied a key was too, and the receipt verifies under it over the entry
    hash recomputed from this very checkpoint. *)
Theorem checkpoint_leaf_member body i (c : Checkpoint.t) (ds : list bytes) proof receipt pem current r :
  commits c ds → verify_leaf_against_checkpoint body i c (Some proof) receipt pem current = Ok r → inclusion_ok r = true →
  0 ≤ i ∧
  (ds !! Z.to_nat i = Some body ∨ collision (inclusion_inputs (nodes (zlen ds)) i body proof ++ mmr_inputs ds)) ∧
  ∀ octets, receipt = Some octets → ∃ key rr,
    pem = Some key ∧ verify_receipt octets (hex (sha256 (sha256 (signing_body c)))) key = Ok rr ∧ ok rr = true.
Proof.
  intros Hc Hv Hok. destruct (verify_leaf_ok _ _ _ _ _ _ _ _ Hv Hok) as ((root & Hr & Hinc) & Hrec).
  rewrite (commits_root _ _ Hc) in Hr. injection Hr as <-. destruct Hc as [_ Hm]. rewrite Hm in Hinc.
  apply inclusion_opens in Hinc as [? ?]. done.
Qed.

(** The three verifiers never raise and report an error exactly when
    they refuse: [ok] is true if and only if the list of errors is empty. *)
Theorem checkpoint_verdicts `{!CborLaws _} `{!VerifyLaws _} body i (c newer : Checkpoint.t) incl cons rng a b bodies
    receipt pem current :
  (∃ r, verify_leaf_against_checkpoint body i c incl receipt pem current = Ok r ∧
        (inclusion_ok r = true ↔ inclusion_errors r = [])) ∧
  (chain_ok (verify_checkpoint_chain c newer cons current) = true ↔
     chain_errors (verify_checkpoint_chain c newer cons current) = []) ∧
  (range_ok (verify_range_against_checkpoint a b bodies c rng current) = true ↔
     range_errors (verify_range_against_checkpoint a b bodies c rng current) = []).
Proof.
  split_and!.
  - unfold verify_leaf_against_checkpoint, ts_entry_hash, digest. rewrite fromhex_hex.
    destruct (root_bytes c) as [root|]; [|by eexists]. cbn [mbind outcome_bind].
    destruct receipt as [octets|], pem as [key|]; cbn [mbind outcome_bind].
    + destruct (verify_receipt_never octets (hex (sha256 (sha256 (signing_body c)))) key) as [rr Hr].
      rewrite Hr. cbn [mbind outcome_bind]. eexists. split; [reflexivity|]. cbn.
      pose proof (verify_receipt_ok_errors _ _ _ _ Hr) as Hrr.
      destruct (ok rr) eqn:Ho, (verify_inclusion _ _ _ _ _); cbn; try done.
      assert (errors rr ≠ []) as Hne by (intros E; by apply Hrr in E). by destruct (errors rr).
    + eexists. split; [reflexivity|]. cbn. by destruct (verify_inclusion _ _ _ _ _).
    + eexists. split; [reflexivity|]. cbn. by destruct (verify_inclusion _ _ _ _ _).
    + eexists. split; [reflexivity|]. cbn. by destruct (verify_inclusion _ _ _ _ _).
  - unfold verify_checkpoint_chain. destruct (negb _); [done|]. destruct (_ <? _); [done|].
    destruct (root_bytes c); [|done]. destruct (root_bytes newer); [|done]. cbn.
    by destruct (verify_consistency _ _ _ _ _).
  - unfold verify_range_against_checkpoint. destruct (root_bytes c); [|done]. cbn. by destruct (verify_range _ _ _ _ _).
Qed.
End verifiers.
