(* ===== verification/CheckpointHistory.v ===== *)
(** * A client that follows a log

    A client trusts one checkpoint and moves to the next only when
    [verify_checkpoint_chain] accepts the step.  Every checkpoint it ever
    trusted then commits to a prefix of the log of the last one, the prefixes
    grow, and no record it verified on the way is ever dropped or moved. *)

From S2P Require Import Prelude PyRuntime Sha256 MerkleTree EncodingRule Cbor Json PyJson Mmr MmrShape MmrTree MmrInclusion MmrConsistency MmrWire Crypto CoseSign1 Receipt Checkpoint CheckpointProof.

Section history.
Context `{PyObjects} `{Sha256}.

(** A checkpoint offered to the client, with its proof and the size the client
    believes current. *)
Definition offer : Type := Checkpoint.t * ConsistencyProof.t * option Z.

(** [follows c steps c']: from [c] the client accepts the offers in turn and
    ends at [c']. *)
Inductive follows : Checkpoint.t → list offer → Checkpoint.t → Prop :=
| follows_stop c : follows c [] c
| follows_step c c1 proof current steps c' :
    chain_ok (verify_checkpoint_chain c c1 (Some proof) current) = true → follows c1 steps c' →
    follows c ((c1, proof, current) :: steps) c'.

(** The checkpoints the client trusted. *)
Definition trusted (c : Checkpoint.t) (steps : list offer) : list Checkpoint.t := c :: map (fun o => o.1.1) steps.

(** Two preimages hashed for an accepted step collide: the step's proof, and
    the prefix of the log its newer checkpoint commits to. *)
Inductive step_collision (ds : list bytes) : Checkpoint.t → list offer → Prop :=
| collision_here c c1 proof current steps n :
    collision (consistency_inputs (Checkpoint.mmr_size c) (nodes (zlen (take n ds))) proof ++ mmr_inputs (take n ds)) →
    step_collision ds c ((c1, proof, current) :: steps)
| collision_later c c1 proof current steps :
    step_collision ds c1 steps → step_collision ds c ((c1, proof, current) :: steps).

(** [c] commits to the first [n] records of [ds]. *)
Definition commits_prefix (ds : list bytes) (c : Checkpoint.t) (n : Z) : Prop :=
  0 ≤ n ≤ zlen ds ∧ commits c (take (Z.to_nat n) ds).

Lemma commits_prefix_all c ds : commits c ds → commits_prefix ds c (zlen ds).
Proof.
  intros Hc. split; [pose proof (zlen_nonneg ds); lia|]. unfold zlen. by rewrite Nat2Z.id, firstn_all.
Qed.

(** One step back: the older checkpoint commits to a shorter prefix. *)
Lemma step_back ds c c1 n proof current steps :
  commits_prefix ds c1 n → chain_ok (verify_checkpoint_chain c c1 (Some proof) current) = true →
  (∃ m, 0 ≤ m ≤ n ∧ commits_prefix ds c m) ∨ step_collision ds c ((c1, proof, current) :: steps).
Proof.
  intros [Hn Hc1] Hok. apply (verify_chain_ok _ _ _ _ _ Hc1) in Hok as (_ & m & root & Hm & Hsz & Hr & [->|Hcol]).
  - left. rewrite zlen_take in Hm by lia. exists m. split; [lia|]. split; [lia|]. unfold commits.
    rewrite take_take, Nat.min_l in Hr by lia. by rewrite zlen_take, Z.min_l by lia.
  - right. by eapply collision_here.
Qed.

(** The sizes of the prefixes, from the trusted checkpoint on. *)
Inductive prefixes (ds : list bytes) : Z → Checkpoint.t → list offer → list Z → Prop :=
| prefixes_stop n c : commits_prefix ds c n → prefixes ds n c [] []
| prefixes_step n c c1 proof current steps m ns :
    commits_prefix ds c n → n ≤ m → prefixes ds m c1 steps ns →
    prefixes ds n c ((c1, proof, current) :: steps) (m :: ns).

Lemma prefixes_head ds n c steps ns : prefixes ds n c steps ns → commits_prefix ds c n.
Proof. by destruct 1. Qed.

(** Along an accepted history the commitments are to growing prefixes. *)
Lemma follows_prefixes ds c steps c' :
  follows c steps c' → commits c' ds → (∃ n ns, prefixes ds n c steps ns) ∨ step_collision ds c steps.
Proof.
  intros Hf Hc'. induction Hf as [c|c c1 proof current steps c' Hok Hf IH].
  - left. exists (zlen ds), []. constructor. by apply commits_prefix_all.
  - destruct (IH Hc') as [(m & ns & Hp)|Hcol]; [|right; by apply collision_later].
    destruct (step_back ds c c1 m proof current steps (prefixes_head _ _ _ _ _ Hp) Hok) as [(n & Hn & Hc)|]; [|by right].
    left. exists n, (m :: ns). constructor; [done|lia|done].
Qed.

(** Every checkpoint of a history commits to a prefix. *)
Lemma prefixes_elem ds n c steps ns k :
  prefixes ds n c steps ns → k ∈ trusted c steps → ∃ m, n ≤ m ∧ commits_prefix ds k m.
Proof.
  induction 1 as [n c Hc|n c c1 proof current steps m ns Hc Hnm _ IH]; cbn.
  - intros ->%list_elem_of_singleton. by exists n.
  - intros [->|Hk]%elem_of_cons; [by exists n|]. destruct (IH Hk) as (m' & ? & ?). exists m'. split; [lia|done].
Qed.

(** The log id never changes: text is only equal to itself. *)
Lemma follows_log_id c steps c' s :
  follows c steps c' → Checkpoint.log_id c = JStr s →
  Forall (fun o : offer => Checkpoint.log_id o.1.1 = JStr s) steps.
Proof.
  induction 1 as [|c c1 proof current steps c' Hok _ IH]; intros Hs; [done|].
  assert (Checkpoint.log_id c1 = JStr s) as Hs1.
  { revert Hok. unfold verify_checkpoint_chain. rewrite Hs. destruct (Checkpoint.log_id c1); try done.
    cbn [json_eq]. case_bool_decide; [by subst|done]. }
  constructor; auto.
Qed.

Context `{Cbor} `{Crypto}.

(** C15: a client that moves from checkpoint to checkpoint only by accepted
    chain steps is never shown two histories: if the last checkpoint commits
    to the log [ds], then every checkpoint the client trusted on the way
    commits to a prefix of [ds], the prefixes only grow, the log id stays what
    it was, and a leaf accepted under any of these checkpoints is the record
    of [ds] at that index; or two preimages hashed for one of the steps or for
    the leaf collide. *)
Theorem checkpoint_history c steps c' (ds : list bytes) s :
  follows c steps c' → commits c' ds → Checkpoint.log_id c = JStr s →
  Forall (fun o : offer => Checkpoint.log_id o.1.1 = JStr s) steps ∧
  (step_collision ds c steps ∨
   (∃ n ns, prefixes ds n c steps ns) ∧
   ∀ k body i proof receipt pem current r,
     k ∈ trusted c steps →
     verify_leaf_against_checkpoint body i k (Some proof) receipt pem current = Ok r → inclusion_ok r = true →
     0 ≤ i ∧ (ds !! Z.to_nat i = Some body ∨
              ∃ n, collision (inclusion_inputs (Checkpoint.mmr_size k) i body proof ++ mmr_inputs (take n ds)))).
Proof.
  intros Hf Hc' Hs. split; [by eapply follows_log_id|].
  destruct (follows_prefixes ds c steps c' Hf Hc') as [(n & ns & Hp)|]; [right|by left].
  split; [by exists n, ns|]. intros k body i proof receipt pem current r Hk Hv Hok.
  destruct (prefixes_elem _ _ _ _ _ _ Hp Hk) as (m & _ & _ & Hr & Hsz).
  destruct (verify_leaf_ok _ _ _ _ _ _ _ _ Hv Hok) as ((root & Hroot & Hinc) & _).
  rewrite Hr in Hroot. injection Hroot as <-. rewrite Hsz in *.
  destruct (inclusion_opens _ _ _ _ Hinc) as [Hi [Hl|Hcol]]; (split; [done|]); [left|right; by eexists].
  by apply lookup_take_Some in Hl as [? _].
Qed.
End history.
