(* ===== verification/CoseWitness.v ===== *)
(** * Concrete messages

    The theorems on COSE_Sign1 and on statements, applied to messages that the
    concrete codec and the toy signature scheme of [CborInstance] produce. *)

From S2P Require Import Prelude PyRuntime Utf8 EncodingRule EncodingRuleProof Cbor Crypto CoseSign1 CoseSign1Proof CoseRoundTrip CborInstance Statement StatementProof.

#[local] Existing Instance ref_cbor.
#[local] Existing Instance ref_laws.
#[local] Existing Instance toy_crypto.
#[local] Existing Instance toy_verify_laws.
#[local] Existing Instance toy_sign_laws.

Definition pem : PemLike := PemBytes [x04].
Definition key : @private_key toy_crypto := [x04].
Lemma key_loads : load_public pem = Ok (public_of key).
Proof. done. Qed.

Definition alg_header : list (item * item) := [(Uint 1, Nint 7)].

(** A message over two octets. *)
Definition hello : bytes := Eval vm_compute in
  match sign_sign1 [x68; x69] "EdDSA" pem None None false with Ok b => b | Raise _ => [] end.

Lemma hello_signed : sign_sign1 [x68; x69] "EdDSA" pem None None false = Ok hello.
Proof. vm_compute. reflexivity. Qed.

Definition hello_sign1 : Sign1 := Eval vm_compute in
  match verify_sign1 hello pem None [] with Ok s => s | Raise _ => Build_Sign1 [] [] [] end.

Lemma hello_verified : verify_sign1 hello pem None [] = Ok hello_sign1.
Proof. vm_compute. reflexivity. Qed.

Lemma alg_header_admitted : admitted 17 false (Map alg_header).
Proof.
  apply admitted_Map. split; [done|]. split; [apply NoDup_singleton|]. apply Forall_singleton. split_and!; done.
Qed.

Lemma sig_structure_binds_witness : ∃ tbs, _sig_structure [x01] [x02] = Ok tbs ∧ [x01] = [x01] ∧ [x02] = [x02].
Proof.
  assert (∃ tbs, _sig_structure [x01] [x02] = Ok tbs) as [tbs Ht] by by eexists.
  exists tbs. split; [exact Ht|]. by apply (sig_structure_binds [x01] [x02] [x01] [x02] tbs).
Defined.

Lemma verify_sign1_accepts_witness :
  ∃ protected_bstr alg, alg = -8 ∧ decode_protected protected_bstr = Ok (sign1_protected hello_sign1).
Proof.
  destruct (verify_sign1_accepts hello pem None [] hello_sign1 hello_verified)
    as (pb & un & slot & sg & alg & key & tbs & _ & Hp & _ & Ha & _).
  exists pb, alg. split; [|exact Hp]. vm_compute in Ha. by injection Ha as <-.
Defined.

Lemma verify_sign1_cose_error_witness : ∃ e, verify_sign1 [x00] pem None [] = Raise e ∧
  ((∃ m, e = CoseError m) ∨ (e = digits_error ∧ oversized [x00])).
Proof.
  assert (∃ e, verify_sign1 [x00] pem None [] = Raise e) as [e He] by (eexists; vm_compute; reflexivity).
  exists e. split; [exact He|]. exact (verify_sign1_cose_error [x00] pem None [] e He).
Defined.

Lemma sign_verify_sign1_witness : ∃ msg, sign_sign1 [x68; x69] "EdDSA" pem None None false = Ok msg.
Proof.
  destruct (sign_verify_sign1 [x68; x69] "EdDSA" (-8) pem pem key None None alg_header [] false None []
    eq_refl eq_refl key_loads eq_refl eq_refl alg_header_admitted eq_refl (empty_map_admitted 14) eq_refl eq_refl eq_refl)
    as (msg & Hs & _); [discriminate|].
  by exists msg.
Defined.

Lemma parse_authenticated_fields_witness :
  ∃ p key, parse_signed_statement hello (Some pem) = Ok p ∧ signature_verified p = Some true ∧
    unverified p = None ∧ Some key = Some pem.
Proof.
  assert (∃ p, parse_signed_statement hello (Some pem) = Ok p ∧ signature_verified p = Some true) as (p & Hp & Hs).
  { eexists. split; vm_compute; reflexivity. }
  pose proof (parse_authenticated_fields hello (Some pem) p Hp) as Ha. rewrite Hs in Ha.
  destruct Ha as (key & s & Hk & _ & _ & Hu). exists p, key. split; [exact Hp|]. split; [exact Hs|]. split; [exact Hu|by symmetry].
Defined.

Lemma hello_admitted sig : zlen sig < 2 ^ 64 → admitted 17 true (message_item (encode (Map alg_header)) [] (Some [x68; x69]) sig).
Proof. intros Hs. apply message_admitted; [done|exact (empty_map_admitted 14)|done|exact Hs]. Qed.

Lemma attach_extract_receipts_witness :
  ∃ transparent, attach_receipts (message (Map alg_header) [] (Some [x68; x69]) [x07]) [[x01]; [x02]] = Ok transparent ∧
    extract_receipts transparent = Ok [[x01]; [x02]].
Proof.
  destruct (attach_extract_receipts (Map alg_header) [] (Some [x68; x69]) [x07] [] [[x01]; [x02]]
    alg_header_admitted (empty_map_admitted 14)) as (t & Ht & He);
    [by vm_compute|by apply hello_admitted|done|done|done|by repeat (apply Forall_cons; split; [done|])|].
  exists t. split; [exact Ht|]. apply He.
    vm_compute in Ht. injection Ht as <-. vm_compute. done.
Defined.

Definition statement_header : list (item * item) :=
  [(Uint 3, Text [x74]); (Uint 15, Map [(Uint 1, Text [x69]); (Uint 2, Text [x73])]); (Uint 1, Nint 7)].

Lemma text_admitted room b : utf8_valid b = true → zlen b < 2 ^ 64 → admitted (S room) false (Text b).
Proof. intros Hb Hl. apply admitted_Text. split; [done|]. by apply utf8_text. Qed.

(** Distinct literal keys. *)
Ltac distinct_keys :=
  repeat (apply NoDup_cons; split; [cbn; rewrite ?elem_of_cons, ?elem_of_nil; intuition discriminate|]); apply NoDup_nil_2.

Lemma statement_header_admitted : admitted 17 false (Map statement_header).
Proof.
  apply admitted_Map. split; [done|]. split; [distinct_keys|].
  repeat (apply Forall_cons; split; [split_and!; [done|done|]|]); [by apply text_admitted| |done|apply Forall_nil_2].
  apply admitted_Map. split; [done|]. split; [distinct_keys|].
  repeat (apply Forall_cons; split; [split_and!; [done|done|by apply text_admitted]|]). apply Forall_nil_2.
Qed.

(** The issuer given is "other"; the extra claims name "i", and win. *)
Lemma build_parse_statement_witness :
  ∃ msg p, build_signed_statement [x68] "EdDSA" pem "other" "s" "t" (Some [(CWT_ISS, VStr "i")]) None = Ok msg ∧
    parse_signed_statement msg (Some pem) = Ok p ∧ issuer (authenticated p) = Some "i"%string ∧
    subject (authenticated p) = Some "s"%string.
Proof.
  destruct (build_parse_statement [x68] "EdDSA" (-8) pem pem key "other" "s" "t" (Some [(CWT_ISS, VStr "i")]) None
    [(CWT_ISS, VStr "i"); (CWT_SUB, VStr "s")] statement_header
    eq_refl eq_refl key_loads eq_refl eq_refl eq_refl statement_header_admitted eq_refl eq_refl)
    as (msg & Hb & Hp).
  exists msg. eexists. split; [exact Hb|]. split; [apply Hp|done].
    vm_compute in Hb. injection Hb as <-. vm_compute. done.
Defined.
