(* ===== verification/CliWitness.v ===== *)
(** * A concrete command line and test vector

    The theorems on the command line and on the conformance runner, applied to
    a statement and a receipt for it over the toy signature scheme. *)

From S2P Require Import Prelude PyRuntime Utf8 Sha256 Merkle EncodingRule EncodingRuleProof Cbor CborInstance Json PyJson JsonLoads Crypto CoseSign1 CoseSign1Proof CoseWitness Statement Receipt Cli CliProof Vectors VectorsProof.

#[local] Existing Instance plain_objects.
#[local] Existing Instance Toy.instance.
#[local] Existing Instance ref_cbor.
#[local] Existing Instance ref_laws.
#[local] Existing Instance toy_crypto.
#[local] Existing Instance toy_verify_laws.
#[local] Existing Instance toy_sign_laws.

Module CliWitness.
Definition octets (m : result bytes) : bytes := match m with Ok b => b | Raise _ => [] end.
Definition stated : bytes := Eval vm_compute in octets (build_signed_statement [x68; x69] "EdDSA" pem "i" "s" "t" None None).
Definition leaf : string := Eval vm_compute in hex (sha256 stated).
Definition logged : bytes := Eval vm_compute in octets (build_receipt leaf 0 [leaf] "EdDSA" pem true None None None None None).

(** *** The command line *)

Definition open_read (path : string) : result bytes :=
  if bool_decide (path = "s"%string) then Ok stated else if bool_decide (path = "r"%string) then Ok logged
  else if bool_decide (path = "k"%string) then Ok [x04] else Raise (OSError (Msg "No such file or directory" [])).
Definition args : options :=
  {| statement := Some "s"%string; statement_pubkey := Some "k"%string; receipt := Some "r"%string;
     receipt_log_pubkey := Some "k"%string; leaf_entry_hex := Some leaf; as_json := true |}.

(** No object of another class: nothing asks for its text. *)
#[export] Instance plain_text : PyText :=
  {| other_is_float _ := false; other_str _ := Ok (); other_repr _ := Ok () |}.

(** An unsigned message whose claims have the byte string [00] as a key. *)
Definition odd_header : bytes := encode (Map [(Uint 15, Map [(Octets [x00], Text [x61])])]).
Definition odd : bytes := encode (Tag 18 (Array [Octets odd_header; Map []; Octets []; Octets []])).
Definition open_odd (path : string) : result bytes :=
  if bool_decide (path = "s"%string) then Ok odd else Raise (OSError (Msg "No such file or directory" [])).
Definition odd_args (as_json : bool) : options :=
  {| statement := Some "s"%string; statement_pubkey := None; receipt := None;
     receipt_log_pubkey := None; leaf_entry_hex := None; as_json := as_json |}.

(** *** A vector that is expected valid *)

Definition fields_expected : json :=
  JObj [("alg", JStr "EdDSA"); ("issuer", JStr "i"); ("subject", JStr "s"); ("content_type", JStr "t")].
Definition reconstructed : json := Eval vm_compute in
  match verify_receipt logged leaf pem with Ok r => match root r with Some rt => JStr rt | None => JNull end | Raise _ => JNull end.
Definition expected : json :=
  JObj [("payload_sha256", JStr (hex (sha256 [x68; x69]))); ("leaf_entry", JStr leaf);
        ("protected_header", JObj [("statement", fields_expected)]); ("statement_signature_valid", JBool true);
        ("receipt_valid", JBool true); ("reconstructed_root", reconstructed); ("tree_size", JInt 1); ("leaf_index", JInt 0);
        ("result", JStr "VALID")].
Definition manifest : json :=
  JObj [("vectors", JArr [JObj [("dir", JStr "one"); ("id", JStr "one"); ("expected_result", JStr "VALID")]]);
        ("version", JStr "1"); ("stability", JStr "stable")].
Definition manifest_text : bytes := Eval vm_compute in json_dumps manifest.
Definition expected_text : bytes := Eval vm_compute in json_dumps expected.
Definition read (path : list string) : result bytes :=
  let file := last path in
  if bool_decide (file = Some "manifest.json"%string) then Ok manifest_text
  else if bool_decide (file = Some "expected.json"%string) then Ok expected_text
  else if bool_decide (file = Some "payload.bin"%string) then Ok [x68; x69]
  else if bool_decide (file = Some "statement.cose"%string) then Ok stated
  else if bool_decide (file = Some "receipt.cose"%string) then Ok logged else Ok [x04].
Definition passed : list vector_report := Eval vm_compute in
  match Vectors.main (fun _ _ => false) read (fun _ => true) "v" false with Ok (_, r) => r | Raise _ => [] end.
End CliWitness.
Import CliWitness.

Lemma cli_exit_status_witness : ∃ out, Cli.main open_read args = Ok (0, out) ∧ statement_accepted open_read args "s".
Proof.
  pose proof (cli_exit_status open_read) as Hmain.
  assert (reads_files open_read) as Hfiles.
  { intros path e. unfold open_read. repeat case_bool_decide; try done. intros [= <-]. by eexists. }
  specialize (Hmain Hfiles args).
  assert (∃ out, Cli.main open_read args = Ok (0, out)) as [out Hout] by (eexists; vm_compute; reflexivity).
  rewrite Hout in Hmain. exists out. split; [exact Hout|]. destruct Hmain as [_ [Hzero _]].
  destruct (Hzero eq_refl) as (_ & Hst & _). apply Hst. reflexivity.
Defined.

(** Without a key the same message is reported as lines, with status 0, but
    not as JSON. *)
Example odd_human : ∃ lines, Cli.main open_odd (odd_args false) = Ok (0, Human lines).
Proof. eexists. vm_compute. reflexivity. Qed.
Example odd_json : Cli.main open_odd (odd_args true) = Raise TypeError.
Proof. vm_compute. reflexivity. Qed.

Lemma conformance_pass_witness : length passed = 1%nat ∧ ∃ vectors, Forall (fun v => ∃ dir expected,
  item v "dir" = Ok (JStr dir) ∧ load read ["v"; dir; "expected.json"]%string = Ok expected ∧ agrees read ["v"; dir]%string expected) vectors
  ∧ length passed = length vectors.
Proof.
  split; [vm_compute; reflexivity|].
  destruct (conformance_pass (fun _ _ => false) read (fun _ => true) "v" false passed) as (m & vs & _ & _ & Hl & Hf);
    [vm_compute; reflexivity|]. exists vs. split; [exact Hf|exact Hl].
Defined.
