(* ===== verification/ReceiptWitness.v ===== *)
(** * Concrete receipts

    The theorems on receipts, applied to receipts over the concrete codec, the
    toy signature scheme and the toy digest. *)

From S2P Require Import Prelude PyRuntime Utf8 Sha256 Merkle MerkleTree MerkleInclusion EncodingRule EncodingRuleProof Cbor Crypto CoseSign1 CoseSign1Proof CoseRoundTrip CborInstance CoseWitness Receipt ReceiptProof ReceiptCcf ReceiptRoundTrip.

#[local] Existing Instance Toy.instance.
#[local] Existing Instance ref_cbor.
#[local] Existing Instance ref_laws.
#[local] Existing Instance toy_crypto.
#[local] Existing Instance toy_verify_laws.
#[local] Existing Instance toy_sign_laws.

Definition log : list string := ["61"; "62"; "63"].
Definition log_octets : list bytes := [[x61]; [x62]; [x63]].

Definition minted : bytes := Eval vm_compute in
  match build_receipt "62" 1 log "EdDSA" pem true (Some "i"%string) None None (Some 7) None with Ok b => b | Raise _ => [] end.
Definition minted_root : string := Eval vm_compute in match merkle_root log with Ok r => r | Raise _ => ""%string end.
Definition minted_result : ReceiptResult := Eval vm_compute in
  match verify_receipt minted "62" pem with Ok r => r | Raise _ => rejected (text "") end.

Lemma minted_verified : verify_receipt minted "62" pem = Ok minted_result.
Proof. vm_compute. reflexivity. Qed.

Lemma minted_ok : ok minted_result = true ∧ root minted_result = Some minted_root ∧
  tree_size minted_result = Some 3 ∧ leaf_index minted_result = Some 1.
Proof. vm_compute. done. Qed.

Lemma verify_receipt_contract_witness : iat minted_result = Some 7 ∧ failed_at minted_result = None.
Proof.
  destruct (verify_receipt_contract minted "62" pem) as (r & Hr & (Hf & _)).
  rewrite minted_verified in Hr. injection Hr as <-. split; [reflexivity|]. apply Hf. reflexivity.
Defined.

Lemma verify_receipt_signed_witness : ∃ digest s understood,
  verify_sign1 minted pem (Some digest) understood = Ok s ∧ root minted_result = Some (hex digest).
Proof.
  destruct (verify_receipt_signed minted "62" pem minted_result minted_verified eq_refl) as (d & s & u & Hv & _ & Hr & _).
  exists d, s, u. split; [exact Hv|exact Hr].
Defined.

Lemma verify_receipt_binds_leaf_witness : ∃ e path, fromhex "62" = Ok e ∧
  (∃ h blob, receipt_headers minted = Ok (inr h) ∧ blob ∈ inclusion_proofs h ∧
     _decode_inclusion_proof blob = Ok (3, 1, path)) ∧
  ((e ∈ log_octets ∧ (3 = zlen log → log_octets !! Z.to_nat 1 = Some e)) ∨
   collision (inclusion_inputs "62" 1 3 path ++ tree_inputs log_octets)).
Proof.
  exact (verify_receipt_binds_leaf log log_octets minted "62" pem minted_result 3 1 minted_root
    eq_refl eq_refl minted_verified eq_refl eq_refl eq_refl eq_refl).
Defined.

(** ** A CCF receipt over a ledger of two transactions *)

Definition octets32 (b : byte) : bytes := repeat b 32.
Definition ledger : ccf_tree := CcfNode (CcfLeaf (octets32 x01) [x65] (octets32 x02)) (CcfLeaf (octets32 x03) [x66] (octets32 x04)).

Definition ccf_blob : bytes :=
  encode (Map [(Uint 1, Array [Octets (octets32 x01); Text [x65]; Octets (octets32 x02)]);
               (Uint 2, Array [Array [Simple 20; Octets (sha256 (ccf_preimage (octets32 x03) [x66] (octets32 x04)))]])]).

Definition ccf_receipt : bytes := Eval vm_compute in
  match sign_sign1 (ccf_root ledger) "EdDSA" pem (Some [(HDR_VDS, VInt VDS_CCF_LEDGER_SHA256)])
    (Some [(HDR_VDP, VDict false [(VDP_INCLUSION_PROOFS, VList false [VBytes ccf_blob])])]) true with
  | Ok b => b | Raise _ => [] end.
Definition ccf_leaf : string := Eval vm_compute in hex (octets32 x02).
Definition ccf_result : ReceiptResult := Eval vm_compute in
  match verify_receipt ccf_receipt ccf_leaf pem with Ok r => r | Raise _ => rejected (text "") end.

Lemma ccf_verified : verify_receipt ccf_receipt ccf_leaf pem = Ok ccf_result ∧ ok ccf_result = true ∧
  root ccf_result = Some (hex (ccf_root ledger)).
Proof. vm_compute. done. Qed.

(** The inputs of the receipt are those of the path from the first leaf. *)
Lemma ccf_inputs_computed : ccf_receipt_inputs ccf_receipt =
  [ccf_preimage (octets32 x01) [x65] (octets32 x02); ccf_root (CcfLeaf (octets32 x01) [x65] (octets32 x02)) ++
     ccf_root (CcfLeaf (octets32 x03) [x66] (octets32 x04))].
Proof. vm_compute. reflexivity. Qed.

Lemma verify_receipt_ccf_member_witness : (1 ≤ length (ccf_receipt_inputs ccf_receipt) ≤ 65)%nat ∧
  ∃ claim, fromhex ccf_leaf = Ok claim ∧
    (claim ∈ ccf_claims ledger ∨ collision (ccf_receipt_inputs ccf_receipt ++ ccf_tree_inputs ledger)).
Proof.
  apply (verify_receipt_ccf_member ledger ccf_receipt ccf_leaf pem ccf_result).
  - done.
  - apply ccf_verified.
  - apply ccf_verified.
  - done.
  - apply ccf_verified.
Defined.

Lemma decoded_proof_evaluates_witness : ∃ blob path d,
  _decode_inclusion_proof blob = Ok (3, 1, path) ∧ _reconstruct_root "62" 1 3 path = Ok (Some (hex d)).
Proof.
  set (path := match inclusion_proof log 1 with Ok p => p | Raise _ => [] end).
  assert (∃ blob, _decode_inclusion_proof blob = Ok (3, 1, path)) as [blob Hb].
  { exists (match _encode_inclusion_proof 3 1 path with Ok b => b | Raise _ => [] end). vm_compute. reflexivity. }
  destruct (decoded_proof_evaluates blob 3 1 path "62" [x62] Hb eq_refl) as (_ & _ & _ & d & _ & Hd).
  exists blob, path, d. split; [exact Hb|exact Hd].
Defined.

Definition receipt_items : list (item * item) := [(Uint 395, Uint 1); (Uint 15, Map [(Uint 6, Uint 7)]); (Uint 1, Nint 7)].

Lemma receipt_items_admitted : admitted 17 false (Map receipt_items).
Proof.
  apply admitted_Map. split; [done|]. split; [distinct_keys|].
  repeat (apply Forall_cons; split; [split_and!; [done|done|]|]); [done| |done|apply Forall_nil_2].
  apply admitted_Map. split; [done|]. split; [apply NoDup_singleton|]. apply Forall_singleton. split_and!; done.
Qed.

Lemma build_verify_receipt_witness : ∃ receipt,
  build_receipt "62" 1 log "EdDSA" pem true None None None (Some 7) None = Ok receipt.
Proof.
  destruct (build_verify_receipt log "62" 1 minted_root "EdDSA" (-8) pem pem key None None None (Some 7) None receipt_items
    ltac:(vm_compute; discriminate) ltac:(lia) eq_refl eq_refl eq_refl eq_refl key_loads eq_refl eq_refl
    receipt_items_admitted eq_refl) as (receipt & Hb & _).
  - intros t [= <-]. lia.
  - exists receipt. exact Hb.
Defined.
