(* ===== verification/CheckpointWitness.v ===== *)
(** * Concrete checkpoints

    The theorems on checkpoints, applied to checkpoints of a log of five
    records over the toy digest and the toy signature scheme. *)

From S2P Require Import Prelude PyRuntime Utf8 Sha256 Merkle MerkleTree EncodingRule EncodingRuleProof Cbor CborInstance Json PyJson JsonProof Mmr MmrShape MmrTree MmrInclusion MmrConsistency MmrRange MmrWire Crypto CoseSign1 CoseSign1Proof CoseRoundTrip CoseWitness Receipt ReceiptProof Checkpoint CheckpointProof CheckpointHistory.

#[local] Existing Instance plain_objects.
#[local] Existing Instance Toy.instance.
#[local] Existing Instance ref_cbor.
#[local] Existing Instance ref_laws.
#[local] Existing Instance toy_crypto.
#[local] Existing Instance toy_verify_laws.
#[local] Existing Instance toy_sign_laws.

Module CheckpointWitness.
Definition ds : list bytes := MmrInclusionWitness.ds.
Definition make (root : bytes) (size : Z) : Checkpoint.t :=
  Checkpoint.Build_t 1 (JStr "cll-checkpoint") (JStr "log") size (JStr (hex root)) 0 (JStr "") (JStr "key") (JStr "2026-01-01") (JStr "").
Definition newer : Checkpoint.t := Eval vm_compute in make (mmr_root ds) 8.
Definition older : Checkpoint.t := Eval vm_compute in make (mmr_root (take 3 ds)) 4.
Definition third : bytes := repeat x03 32.
Definition entry : string := Eval vm_compute in match ts_entry_hash newer with Ok h => h | Raise _ => ""%string end.
Definition receipt : bytes := Eval vm_compute in
  match build_receipt entry 0 [entry] "EdDSA" pem true None None None (Some 7) None with Ok b => b | Raise _ => [] end.
Definition accepted_leaf : InclusionVerification := Eval vm_compute in
  match verify_leaf_against_checkpoint third 2 newer (Some (honest_inclusion ds 2)) (Some receipt) (Some pem) (Some 9) with
  | Ok r => r | Raise _ => Build_InclusionVerification false "" None [] end.
End CheckpointWitness.
Import CheckpointWitness.

Lemma commits_newer : commits newer ds.
Proof. vm_compute. done. Qed.

Lemma text_newer : text_fields newer.
Proof. split; eexists; (split; [reflexivity|vm_compute; reflexivity]). Qed.

Lemma text_older : text_fields older.
Proof. split; eexists; (split; [reflexivity|vm_compute; reflexivity]). Qed.

Lemma checkpoint_digest_binds_witness :
  body_of newer = body_of newer ∨
  collision [signing_body newer; signing_body newer; sha256 (signing_body newer); sha256 (signing_body newer)].
Proof. apply checkpoint_digest_binds; [apply text_newer|apply text_newer|left; reflexivity]. Defined.

Lemma checkpoint_chain_extends_witness :
  ∃ f root_a, 0 ≤ f ≤ 5 ∧ Checkpoint.mmr_size older = nodes f ∧ root_bytes older = Ok root_a.
Proof.
  destruct (checkpoint_chain_extends older newer ds (honest_consistency ds 3) None commits_newer)
    as (_ & f & r & ? & ? & ? & _); [vm_compute; reflexivity|]. exists f, r. split; [assumption|split; assumption].
Defined.

Lemma checkpoint_range_carries_witness :
  1 ≤ 2 ≤ 5 ∧ 5 = zlen ds ∧
  (drop 1 ds = drop 1 ds ∨ collision (range_inputs (drop 1 ds) (honest_range ds 2) ++ mmr_inputs ds)).
Proof.
  apply (checkpoint_range_carries newer ds 2 5 (drop 1 ds) (honest_range ds 2) None commits_newer);
    vm_compute; reflexivity.
Defined.

Lemma checkpoint_range_unbound_witness :
  Checkpoint.mmr_size older = 4 ∧
  range_ok (verify_range_against_checkpoint 5 5 [third] older
    (Some (shifted_range (repeat x01 32) (repeat x02 32) third)) None) = true.
Proof. apply checkpoint_range_unbound; [repeat constructor|vm_compute; split; reflexivity]. Defined.

Lemma checkpoint_leaf_member_witness : ∃ key rr,
  Some pem = Some key ∧ verify_receipt receipt (hex (sha256 (sha256 (signing_body newer)))) key = Ok rr ∧ ok rr = true.
Proof.
  apply (checkpoint_leaf_member third 2 newer ds (honest_inclusion ds 2) (Some receipt) (Some pem) (Some 9) accepted_leaf
    commits_newer); [vm_compute; reflexivity|reflexivity|reflexivity].
Defined.

Lemma checkpoint_verdicts_witness :
  chain_ok (verify_checkpoint_chain older newer None None) = true ↔
  chain_errors (verify_checkpoint_chain older newer None None) = [].
Proof. exact (proj1 (proj2 (checkpoint_verdicts third 2 older newer None None None 1 2 [] None None None))). Defined.

(** *** A history of two steps *)

Module HistoryWitness.
Definition first : Checkpoint.t := Eval vm_compute in make (mmr_root (take 1 ds)) 1.
Definition steps : list offer :=
  [(older, honest_consistency (take 3 ds) 1, None); (newer, honest_consistency ds 3, Some 9)].
End HistoryWitness.

Lemma history_follows : follows HistoryWitness.first HistoryWitness.steps newer.
Proof. repeat constructor. Qed.

Lemma checkpoint_history_witness :
  Forall (fun o : offer => Checkpoint.log_id o.1.1 = JStr "log") HistoryWitness.steps ∧
  (step_collision ds HistoryWitness.first HistoryWitness.steps ∨
   ∃ n ns, prefixes ds n HistoryWitness.first HistoryWitness.steps ns).
Proof.
  destruct (checkpoint_history HistoryWitness.first HistoryWitness.steps newer ds "log" history_follows commits_newer eq_refl)
    as [Hl [Hc|[Hp _]]]; (split; [exact Hl|]); [left; exact Hc|right; exact Hp].
Defined.
