(* ===== verification/HostedWitness.v ===== *)
(** * Concrete capsules, bundles and requests

    The theorems on the hosted profiles and the hosted verifier, applied over
    the toy digest, the toy signature scheme and the concrete codec. *)

From stdpp Require Import gmap strings sorting.
From S2P Require Import Prelude PyRuntime Utf8 Sha256 Merkle EncodingRule Cbor CborInstance Json PyJson JsonProof Base64 Crypto CoseSign1 CoseSign1Proof CoseRoundTrip CoseWitness Statement Receipt ReceiptProof MachineMandate Aac AacProof Profiles Ritual RitualProof Hosted HostedProof HostedRoutes HostedRoutesProof.

#[local] Existing Instance plain_objects.
#[local] Existing Instance Toy.instance.
#[local] Existing Instance ref_cbor.
#[local] Existing Instance ref_laws.
#[local] Existing Instance toy_crypto.
#[local] Existing Instance toy_verify_laws.
#[local] Existing Instance toy_sign_laws.

Module HostedWitness.
Definition id (c : byte) : string := hex (repeat c 32).
Definition input : json := JObj [("a", JInt 1)].
(** A capsule that commits to [input] and names a parent. *)
Definition capsule (own parent : string) : json :=
  JObj [("capsule_id", JStr own); ("chain", JObj [("parent_capsule_id", JStr parent)]);
        ("model_attestation", JObj [("compute_attestation", JObj [("agent_input_digest", JStr (hex (sha256 (json_dumps input))))])])].
Definition envelope (disclosed : json) : json :=
  JObj [("capsule", capsule (id x01) (id x02)); ("disclosures", JObj [("agent_input", disclosed)])].
Definition no_view : GraphView.t := empty_view "aac" false [] None.
Definition view_of (data : json) : GraphView.t := match parse_capsule data with Ok v => v | Raise _ => no_view end.

(** The second record is altered and the first one cites it. *)
Definition bundle : list json := [envelope input; JObj [("capsule", capsule (id x02) (id x03)); ("disclosures", JObj [("agent_input", JInt 0)])]].
Definition views : list GraphView.t := Eval vm_compute in map view_of bundle.
Definition notes : list RecordNote.t := Eval vm_compute in match annotate_records 3 bundle views with Ok (Some l) => l | _ => [] end.
Definition witness_data : option object := Some [("held"%string, JInt 2); ("configured"%string, JInt 2); ("verified"%string, JBool true)].
Definition summary : RitualSummary.t := Eval vm_compute in
  match evaluate_ritual bundle views witness_data with Ok s => s | Raise _ => RitualSummary.Build_t [] None end.
Definition gaps : list ChainGap.t := Eval vm_compute in match find_chain_gaps bundle with Ok g => g | Raise _ => [] end.
End HostedWitness.
Import HostedWitness.

Lemma parse_capsule_well_formed_witness : ∃ v, parse_capsule (envelope input) = Ok v ∧ NoDup (node_ids v).
Proof.
  exists (view_of (envelope input)). split; [vm_compute; reflexivity|].
  apply (parse_capsule_well_formed (envelope input)); vm_compute; reflexivity.
Defined.

Lemma disclosure_digest_binds_witness :
  normal input = normal input ∨ collision [json_dumps input; json_dumps input].
Proof.
  apply (disclosure_digest_binds input input); [vm_compute; auto|vm_compute; auto|split; intros Hs; exact Hs|reflexivity|reflexivity|reflexivity].
Defined.

Lemma find_chain_gaps_exact_witness : ∃ k cap p,
  (_unwrap <$> bundle) !! S k = Some cap ∧ names_parent cap p ∧ ChainGap.Build_t 0 1 (id x03) = ChainGap.Build_t (Z.of_nat k) (Z.of_nat k + 1) p.
Proof.
  destruct (proj1 (find_chain_gaps_exact bundle gaps (ChainGap.Build_t 0 1 (id x03)) ltac:(vm_compute; reflexivity)))
    as (k & cap & p & Hc & Hp & _ & Hg); [vm_compute; left|]. exists k, cap, p. split; [exact Hc|split; [exact Hp|exact Hg]].
Defined.

Lemma annotate_records_exact_witness :
  annotate_records 3 bundle views ≠ Ok None ∧ length notes = 2%nat ∧ RecordNote.cites_altered <$> notes = [true; false].
Proof.
  destruct (annotate_records_exact 3 bundle views ltac:(vm_compute; lia)) as [Hend Hnotes]. split; [exact Hend|].
  split; [|vm_compute; reflexivity]. apply (Hnotes notes). vm_compute. reflexivity.
Defined.

Lemma ritual_stages_witness : ∃ i s a w, RitualSummary.stages summary = [i; s; a; w] ∧
  (RitualStage.status i = "fail"%string ↔ some_mismatch views) ∧ RitualStage.status w = "pass"%string.
Proof.
  destruct (ritual_stages bundle views witness_data summary ltac:(vm_compute; reflexivity))
    as (i & s & a & w & g & Hst & _ & Hi & _ & _ & _ & _ & _ & _ & _ & Hw & _).
  exists i, s, a, w. split; [exact Hst|]. split; [exact Hi|]. apply Hw.
  eexists. split; [reflexivity|]. split_and!; [discriminate|discriminate|reflexivity].
Defined.

Lemma sequence_pass_unlinked_witness :
  sequence [JObj [("capsule_id", JStr (id x01))]; JObj [("capsule_id", JStr (id x02))]] None =
    Ok (RitualStage.Build_t "Sequence" "pass" "unbroken — every record names the one before it", None).
Proof.
  apply sequence_pass_unlinked. repeat constructor; eexists; (split; [reflexivity|reflexivity]).
Defined.

(** ** Requests *)

Definition stated : bytes := Eval vm_compute in
  match build_signed_statement [x68; x69] "EdDSA" pem "i" "s" "t" None None with Ok b => b | Raise _ => [] end.
Definition pem_text : string := Eval vm_compute in to_string [x04].
Definition request : object :=
  [("statement_b64", JStr (to_string (b64encode stated))); ("statement_pubkey_pem", JStr pem_text)].

Lemma verdict_fails_closed_witness : ∃ st, verify_payload request = Verified true st None [] ∧ statement_verified request.
Proof.
  assert (∃ st, verify_payload request = Verified true st None []) as [st Hv] by (eexists; vm_compute; reflexivity).
  exists st. split; [exact Hv|]. apply (verdict_fails_closed request true st None [] Hv); vm_compute; reflexivity.
Defined.

Lemma b64_accepts_all_forms_witness :
  _b64 (JStr (to_string ([x20] ++ (alphabet true (b64data [xfb; xff]) ++ []) ++ [x0a]))) = Ok [xfb; xff].
Proof.
  apply (b64_accepts_all_forms [xfb; xff] [x20] [x0a] true false); apply Forall_singleton; vm_compute; split; reflexivity.
Defined.

Lemma rate_gate_bound_witness : let_through 0 (gate_run (new_gate 2) [1; 2; 3]) ≤ 2 * 2.
Proof. apply (rate_gate_bound 2 [1; 2; 3] 0); [lia|repeat constructor; lia]. Defined.
Lemma rate_gate_live_witness :
  ∃ t, 3 - window_length < t ≤ 3 ∧ 2 ≤ let_through t (gate_run (new_gate 2) [1; 2]).
Proof. apply (rate_gate_live 2 [1; 2] 3); [lia|repeat constructor; lia|by vm_compute]. Defined.

Definition scope (m : string) : Scope := {| method := m; scope_path := "/verify/"; root_path := ""; headers := [] |}.
Definition server : Server := {| gate := new_gate 600; counters := {| Hosted.views := 0; referrers := ∅ |}; request_count := 0 |}.

Lemma asgi_mirrors_handler_witness : ∃ r s1 s2,
  do_POST "/verify/" "2" [x7b; x7d] 0 server = (Ok r, s1) ∧
  app (fun _ => FetchFailed (Msg "" [])) (fun s => s) (scope "POST") [([x7b; x7d], false)] 0 server = (Some r, s2) ∧
  gate s1 = gate s2 ∧ counters s1 = counters s2.
Proof.
  apply (asgi_mirrors_handler (fun _ => FetchFailed (Msg "" [])) (fun s => s)
    (scope "POST") [([x7b; x7d], false)] "" "2" [x7b; x7d] 0 server); [reflexivity|reflexivity|reflexivity|discriminate|vm_compute; reflexivity|].
  left. split; [vm_compute; reflexivity|vm_compute; discriminate].
Defined.

(** An anchor whose answer to every capsule id is one receipt. *)
Definition anchor_key : string := id x05.
Definition anchor_pem : bytes := Eval vm_compute in match _ed25519_hex_to_pem anchor_key with Ok p => of_string p | Raise _ => [] end.
Definition anchor_receipt : bytes := Eval vm_compute in
  match build_receipt "62" 1 ["61"; "62"; "63"]%string "EdDSA" (PemBytes anchor_pem) true None None None None None with Ok b => b | Raise _ => [] end.
Definition anchor (url : string) : fetched :=
  if bool_decide (url = anchor_base +:+ "/anchor/authority-pubkey")%string then Fetched (JObj [("pubkey_hex", JStr anchor_key)])
  else Fetched (JObj [("receipt_b64", JStr (to_string (b64data anchor_receipt))); ("entry_hash", JStr "62")]).

Lemma anchor_proxy_verified_witness :
  (∃ octets r, verify_receipt octets "62" (PemBytes anchor_pem) = Ok r ∧ ok r = true) ∧
  _anchor_proxy_json anchor (id x02) = reported_for (id x02) (_anchor_proxy_json anchor (id x01)).
Proof.
  destruct (anchor_proxy_verified anchor (id x01)) as [[Hv _] Hu].
  destruct Hv as (i & rg & pk & key & b64 & leaf & p & octets & r & Ei & _ & _ & _ & Hl & _ & Ek & Hk & _ & Hp & _ & Hr & Hok);
    [vm_compute; reflexivity|].
  split.
  - exists octets, r. vm_compute in Ei. injection Ei as <-. vm_compute in Hl. injection Hl as <-.
    vm_compute in Ek. injection Ek as <-. vm_compute in Hk. injection Hk as <-. vm_compute in Hp. injection Hp as <-.
    split; [exact Hr|exact Hok].
  - apply (Hu (id x02)). vm_compute. reflexivity.
Defined.
